(* ===== verification/_CoqProject ===== *)
-Q . S2P
Prelude.v
GoStrings.v
Clock.v
Paths.v
Crypto.v
Aead.v
Auth.v
Entry.v
Store.v
StoreFacts.v
Transport.v
Client.v
Cluster.v
Resolve.v
Syncer.v
SyncerFacts.v
TreeFacts.v
Fuse.v
FuseFacts.v
FileSystem.v
FuseRefines.v
Disk.v
DiskFacts.v
Mirror.v
Watch.v
MirrorFacts.v
RenderFacts.v
ScanFacts.v
WatchFacts.v
AntiEntropy.v
AntiFacts.v
Pages.v
Convergence.v
Exchange.v
Delivery.v
Wire.v
Service.v
Status.v
Advance.v
Bookmarks.v
Fleet.v
PullEnds.v
Restarts.v
FleetFacts.v
Serve.v
Hazards.v
MirrorRuns.v
MirrorHazards.v
Witnesses.v
ExchangeRuns.v
ServeRuns.v
DeliveryRuns.v
WireRuns.v
FleetRuns.v
FleetHazards.v
