(* ===== verification/Prelude.v ===== *)
(** * distributed-configs-fs: a verification library

    dcfs replicates a tree of configuration files between nodes.  Every node keeps the whole
    tree in a local database and serves it, read-only, to its peers; a node edits only its
    own database and pulls what the others have.  The tree is offered to users as a FUSE mount and
    as a directory kept in step with it.

    ** The parts, and the files that model them

    - src/internal/core: [Clock] (hlc.go: timestamps, versions, the hybrid logical clock),
      [Paths] (path.go), [Entry] (entry.go and keys.go).
    - src/internal/store: [Store] (store.go and the schema in migrations/00001_init.sql) and
      [StoreFacts], what the store promises.
    - src/internal/transport: [Auth] (auth.go), [Transport] (envelope.go, server.go and
      parseSeq of status.go), [Client] (client.go).
    - src/internal/cluster: [Cluster] (cluster.go: hints, the event channel, the delegate).
    - src/internal/syncer: [Resolve] (resolve.go), [Syncer] and [SyncerFacts] (syncer.go,
      local writes), [AntiEntropy] (antientropy.go, a pull), [AntiFacts], [Pages] and
      [Convergence], what pulls guarantee, [Exchange], nodes that pull from each other, [Service], the
      running service, and [Hazards], what pulls do not guarantee.  [Wire] puts the client of one node and the server of another
      together.  [Fleet] is any number of services in one transition system, [Advance] and [Bookmarks] what each of
      their steps keeps, [PullEnds] the end of pulls; [Restarts] compares runs that differ in the readings of clocks, by which
      [FleetFacts] lets the nodes of a fleet restart and states what it guarantees; [FleetRuns] is a run of three of them and
      [FleetHazards] how they can stay apart.
    - src/internal/fusefs: [Fuse] (fusefs.go, one definition per handler of the mount) and [FuseFacts];
      [FileSystem] is the abstract file system it promises, a map from paths to files and folders, and [FuseRefines] shows
      that it keeps the promise;
      [TreeFacts] holds what this part and the mirror need to know of local edits.
    - src/internal/mirror: [Disk] is what os.Root offers, over files, directories and other objects by path,
      with [DiskFacts]; [Mirror] is mirror.go and the events of watch.go, [Watch] the watcher goroutine and
      the loop of Run; [MirrorFacts] (what a render can touch), [RenderFacts] (what it achieves), [ScanFacts]
      (what a scan offers), [WatchFacts] (events and claims), [MirrorRuns] (the theorems on a small tree) and
      [MirrorHazards] (what the mirror does not guarantee).
    - src/cmd/dcfs: [Status] (status.go, with the document of transport/status.go), [Serve] (main.go, serve.go
      and Serve of transport/server.go: flags, configuration, start and stop).
    - [Delivery] puts the mount of one node, the pull of another and its mirror together.
    - Of Go's standard library, what those parts use: [GoStrings] (strings, strconv, fmt, hex, utf8),
      [Crypto] (SHA-256, HMAC, HKDF, base64), [Aead] (AES-256-GCM).
    - [Witnesses], [ExchangeRuns], [WireRuns], [ServeRuns], [DeliveryRuns] and [FleetRuns] apply the theorems that have hypotheses at
      concrete inputs.

    ** How state and operations correspond

    A Go function that can fail is a function into [result]; its error is the sentinel that
    errors.Is would find.  A method that changes state is a function [ST S A] from the state to a
    result and the state after, composed with the notations of this file in the order of the
    code; [attempt] is a call whose error the code handles and [throw] an early return.
    [DB] is the store (tables as finite maps, and a counter of executed statements),
    [node] is syncer.Service under its write lock (database, clock, subscribers, what was
    announced), and [service] is the service with its goroutines; a fleet is a map from names to services, of which one
    at a time takes a step with its requests answered from the tables its peers then have, or lost, or restarts, which keeps its
    database and nothing else: [free_step] is any such step, [live_step] one that meets none of what [calm] excludes.  [mirror] is the node with a [disk] and the
    fields of Mirror that change, and [running] adds the state of its two goroutines: what is pending,
    the batch in the channel, what is left of the batch being applied.  A handler of the mount is a
    function on [node] whose answer is a value, an errno or a panic.

    What the program does not define is a parameter, with what it relies on stated as laws:
    physical time ([SystemTime]), failing statements ([DBFaults]), the peers as seen by the
    syncer ([PeerClient], [PeerClientLaws]), HTTP ([Network]), the router ([Router]), JSON ([Codec]), the
    random source ([Random]), the broadcast queue of memberlist ([BroadcastQueue]), the user of the process ([Process]), the flag parser ([Cli]), errgroup ([ErrGroup]), calls of the start
    that fail ([Host]), system
    calls that fail and the times and owners the kernel gives ([OS]), watches that cannot be added ([Watcher]), the
    hash function and the block cipher ([Sha256], [BlockCipher],
    each with the real function as an instance).  [client_peer] shows that the client of
    client.go is an instance of [PeerClient] with its law, whatever the network does, and [over] that a
    server is an instance of [Network].

    ** What the theorems show

    - The tree: [resolve] is a last-writer-wins register over a total order on versions
      ([After_total_order], [merge_order_independent], [resolve_one_side]) that never drops
      content silently ([resolve_keeps_content]).
    - The clock: readings only grow ([clock_run_monotone]) and a peer cannot drag it far
      ([Observe_bounds_drift]).
    - What enters: [SanitizePath_spec], [SanitizeMode_spec], [validate_spec], [verify_spec],
      [verify_authorize], [sign_binds], [open_seal], [client_Blob_verified].
    - What leaves: [Handler_unauthorized], [api_read_only]; and what a node reports of itself is what
      it holds ([buildStatus_spec], [fetchStatus_spec], [humanBytes_spec]).
    - The store: [Apply_feed], [Apply_atomic], [Digest_agreement], [collect_spec],
      [collect_keeps_live].
    - Local writes: [local_edit_spec], [local_edit_atomic], [local_edit_echo],
      [local_edit_fast_forward], [PutFile_Content], [subscribers_wake_once].
    - Pulls: [applyRemote_bookmark_safe], [conflict_keeps_both], [walk_feed],
      [syncPeer_catches_up] (a pull ends and catches up), [syncPeer_over_the_wire] (so does one through the
      real client and server), [mutual_dominance_agrees] (two nodes that have caught up with each
      other agree), [two_nodes_converge] (after each has pulled from the other, conflicts included) and
      [star_converges] (any number of nodes, around one that has pulled from all).
    - Everything interleaved: [service_invariant] on the step relation [step] (a function, [perform_step]),
      [syncPeer_refines], which connects syncPeer to the steps, [Announce_starts_pull] and [event_channel] on
      gossip.
    - The cluster as a whole: in every state any number of nodes can reach together by calm steps, restarts included, a bookmark is never
      ahead of what its node has settled ([bookmarks_honest]); so from there one answered pull catches up
      ([fleet_catches_up]) and one round around any node brings agreement ([fleet_agrees]); and, whatever steps were
      taken, no pull is in flight for ever ([every_pull_ends]).
    - End to end: a file saved in the mount of one node arrives on the disk of another
      ([saved_file_arrives]), and one that is removed leaves it ([removed_file_leaves]).
    - The mount is the abstract file system ([session_refines]); renames, writes, flushes and listings do what their callers expect ([Rename_moves],
      [Write_pwrite], [Flush_Open], [Readdir_Lookup]); refused requests change nothing ([serve_refused])
      and no request breaks the store ([serve_sound]).
    - The mirror: a render writes the tree out ([render_projects]) and touches nothing else
      ([render_touches]); a scan adopts what is new and never deletes ([scan_adopts], [scan_adopts_only]); the two do not
      hear each other ([render_then_scan], [scan_in_step]); an event does what it says
      ([apply_event_spec]), and a deletion that is claimed is not undone ([claim_protects]).
    - The process: whatever fails at the start, what was acquired is released in the opposite order
      ([runServe_order]); the loops of its goroutines run until a signal or a failure and can then always be left ([group_stops]); the flags
      configure parts that fit together ([wiring_agrees]).
    - The gaps: the theorems of [Hazards], [FleetHazards] and [MirrorHazards], and [open_file_forgets], [setuid_lost],
      [emit_after_Leave], [restart_edit_is_skipped], [open_bad_key], [failed_mirror_abandons] and [own_address_hides_peer], are runs in which the code does less than its comments say.

    ** Bounds and fuel

    Integers are [Z], kept in the range of their Go type where it matters: the counter of a
    timestamp wraps at 2^32 ([wrap32]), nanoseconds at 2^63 ([wrap64]), a feed position that
    leaves int64 is refused by the database.  [pull] and [syncPeer] take fuel, one unit
    for each page; [syncPeer_catches_up] shows how much is enough against a peer that serves
    its own tables, and [pull_never_ends] that no amount is against some other peers.
    The runs of [Fleet] have no bound; what the theorems on bookmarks exclude from them is the record [calm] — counters that are
    exhausted, entries applied while they are too far ahead of the system clock, tombstones
    that are collected, a deferral on a page with more to come — each of which has a theorem that shows what it
    breaks ([Observe_counter_wraps], [drift_forgotten], [collected_tombstone_splits], [deferral_forgotten]); and a node restarts only once the system
    clock is past the clock it had ([caught_up]; what happens otherwise is [restart_edit_is_skipped]).
    [Client.walk] is bounded the same way, and [humanBytes_spec] shows that the fuel of [unit_loop] is enough
    for every int64.  Every other recursion is structural: a walk of the disk is over the listing of its objects.

    ** What is not modelled

    Opening the database and its migrations (gorm, SQLite and goose), mounting and listening, which are single calls into
    libraries and here deeds that can fail, the signal handler, log lines, the String methods that only log lines use, the padding of printed
    tables.  Symbolic links in the mirrored
    directory are objects that are left alone, not followed; a method of the mirror is atomic with respect to users of the
    directory and to pulls, which happen between methods. *)

From stdpp Require Export base list strings gmap sorting.
From Stdlib Require Export ZArith Lia.

#[global] Open Scope Z_scope.
#[export] Set Default Goal Selector "!".
#[export] Set Warnings "-clear-no-such-hyp".

(** ** Hint databases

    [dcfs] holds the lemmas that close the routine side goals of the library;
    [hoare] is the database of the composition rules of the state monad. *)
Create HintDb dcfs discriminated.
Create HintDb hoare discriminated.

(** ** Errors

    The sentinels of the Go code ([errors.Is] classifies an error by its
    sentinel, so an error is its sentinel) and the anonymous errors of
    the places that have none. *)
Inductive error :=
  | ErrBadPath | ErrTooLarge | ErrClockDrift | ErrWeakSecret
  | ErrNotFound | ErrUnauthorized | ErrSeal | ErrPeerNotFound
  | ErrCipher         (* aes.KeySizeError: a key no cipher can be built with *)
  | ErrInvalidEntry   (* the anonymous errors of syncer.validate *)
  | ErrParse          (* strconv.ErrSyntax and strconv.ErrRange *)
  | ErrDB             (* any failure SQLite reports *)
  | ErrPeer           (* any failure of a request to a peer *)
  | ErrExist          (* fs.ErrExist *)
  | ErrNotExist       (* fs.ErrNotExist *)
  | ErrOS             (* any other failure of the file system *).

#[export] Instance error_eq_dec : EqDecision error.
Proof. solve_decision. Defined.

(** A Go [(value, error)] pair, of which exactly one is meaningful. *)
Inductive result (A : Type) :=
  | Ok (a : A)
  | Err (e : error).
Arguments Ok {A} a.
Arguments Err {A} e.

Definition is_Ok {A} (r : result A) : bool :=
  match r with Ok _ => true | Err _ => false end.

#[export] Instance result_ret : MRet result := λ A a, Ok a.
#[export] Instance result_bind : MBind result := λ A B f r,
  match r with Ok a => f a | Err e => Err e end.

#[export] Instance result_eq_dec {A} `{!EqDecision A} : EqDecision (result A).
Proof. solve_decision. Defined.

(** ** The state and error monad

    A method that changes a component's state and may fail: the state changes
    made before an error stay, as they do in Go. *)
Definition ST (S A : Type) : Type := S → result A * S.

#[export] Instance ST_ret {S} : MRet (ST S) := λ A a s, (Ok a, s).
#[export] Instance ST_bind {S} : MBind (ST S) := λ A B k m s,
  match m s with
  | (Ok a, s') => k a s'
  | (Err e, s') => (Err e, s')
  end.

Definition throw {S A} (e : error) : ST S A := λ s, (Err e, s).
Definition gets {S A} (f : S → A) : ST S A := λ s, (Ok (f s), s).
Definition modify {S} (f : S → S) : ST S unit := λ s, (Ok tt, f s).
Definition lift {S A} (r : result A) : ST S A := λ s, (r, s).

(** Runs [m] and hands its result to the caller, as [err != nil] tests do. *)
Definition attempt {S A} (m : ST S A) : ST S (result A) := λ s,
  let '(r, s') := m s in (Ok r, s').

(** Runs [m] on a part of the state. *)
Definition zoom {S T A} (get : S → T) (set : T → S → S) (m : ST T A) : ST S A := λ s,
  let '(r, t) := m (get s) in (r, set t s).

(** A Hoare triple: from a state of [P], [m] ends in a result and state of [Q]. *)
Definition hoare {S A} (P : S → Prop) (m : ST S A) (Q : result A → S → Prop) : Prop :=
  ∀ s, P s → Q (m s).1 (m s).2.

(** [m] keeps the invariant [I], whether it succeeds or fails. *)
Definition preserves {S A} (I : S → Prop) (m : ST S A) : Prop :=
  hoare I m (λ _, I).

Lemma bind_Ok {S A B} (m : ST S A) (k : A → ST S B) s b s' :
  (m ≫= k) s = (Ok b, s') ↔ ∃ a s1, m s = (Ok a, s1) ∧ k a s1 = (Ok b, s').
Proof.
  unfold mbind, ST_bind. destruct (m s) as [[a|e] s1].
  - split; [by eauto|]. intros (? & ? & [= -> ->] & ?). done.
  - split; [done|]. by intros (? & ? & ? & ?).
Qed.

Lemma bind_Err {S A B} (m : ST S A) (k : A → ST S B) s e s' :
  (m ≫= k) s = (Err e, s') ↔
  m s = (Err e, s') ∨ ∃ a s1, m s = (Ok a, s1) ∧ k a s1 = (Err e, s').
Proof.
  unfold mbind, ST_bind. destruct (m s) as [[a|e'] s1].
  - split; [by eauto|]. intros [?|(? & ? & [= -> ->] & ?)]; done.
  - split; [by left; congruence|]. intros [?|(? & ? & ? & ?)]; congruence.
Qed.

(** What a sequence did: its first half, and then the second unless that failed. *)
Lemma bind_inv {S A B} (m : ST S A) (k : A → ST S B) s res s' :
  (m ≫= k) s = (res, s') →
  ∃ r s1, m s = (r, s1) ∧
    match r with Ok a => k a s1 = (res, s') | Err e => res = Err e ∧ s' = s1 end.
Proof.
  unfold mbind, ST_bind. destruct (m s) as [[a|e] s1]; intros E; do 2 eexists; split; eauto.
  by simplify_eq.
Qed.

Lemma attempt_inv {S A} (m : ST S A) s r s' :
  attempt m s = (r, s') → ∃ r0, m s = (r0, s') ∧ r = Ok r0.
Proof. unfold attempt. destruct (m s) as [r0 s1]. intros. simplify_eq. eauto. Qed.

Lemma hoare_bind {S A B} P (m : ST S A) R (k : A → ST S B) Q :
  hoare P m R →
  (∀ a, hoare (R (Ok a)) (k a) Q) →
  (∀ e s, R (Err e) s → Q (Err e) s) →
  hoare P (m ≫= k) Q.
Proof.
  intros Hm Hk He s HP. specialize (Hm s HP). unfold mbind, ST_bind.
  destruct (m s) as [[a|e] s1]; simpl in *; [by apply (Hk a s1)|by apply He].
Qed.

Lemma preserves_bind {S A B} I (m : ST S A) (k : A → ST S B) :
  preserves I m → (∀ a, preserves I (k a)) → preserves I (m ≫= k).
Proof. intros. by eapply hoare_bind. Qed.
Lemma preserves_ret {S A} (I : S → Prop) (a : A) : preserves I (mret a : ST S A).
Proof. by intros s. Qed.
Lemma preserves_throw {S A} (I : S → Prop) e : preserves I (throw e : ST S A).
Proof. by intros s. Qed.
Lemma preserves_gets {S A} (I : S → Prop) (f : S → A) : preserves I (gets f).
Proof. by intros s. Qed.
Lemma preserves_lift {S A} (I : S → Prop) (r : result A) : preserves I (lift r : ST S A).
Proof. by intros s. Qed.
Lemma preserves_attempt {S A} (I : S → Prop) (m : ST S A) :
  preserves I m → preserves I (attempt m).
Proof.
  intros Hm s Hs. specialize (Hm s Hs). unfold attempt. by destruct (m s).
Qed.
#[export] Hint Resolve preserves_bind preserves_ret preserves_throw preserves_gets
  preserves_lift preserves_attempt : hoare.

(** [m] moves the state along [R], whether it succeeds or fails. *)
Definition moves {S A} (R : relation S) (m : ST S A) : Prop := ∀ s, R s (m s).2.

Lemma moves_bind {S A B} (R : relation S) `{!Transitive R} (m : ST S A) (k : A → ST S B) :
  moves R m → (∀ a, moves R (k a)) → moves R (m ≫= k).
Proof.
  intros Hm Hk s. specialize (Hm s). unfold mbind, ST_bind. destruct (m s) as [[a|e] s1]; [|done].
  simpl in *. etransitivity; [exact Hm|apply Hk].
Qed.
Lemma moves_id {S A} (R : relation S) `{!Reflexive R} (m : ST S A) : (∀ s, (m s).2 = s) → moves R m.
Proof. intros E s. rewrite E. done. Qed.
Lemma moves_ret {S A} (R : relation S) `{!Reflexive R} (a : A) : moves R (mret a : ST S A).
Proof. by apply moves_id. Qed.
Lemma moves_throw {S A} (R : relation S) `{!Reflexive R} e : moves R (throw e : ST S A).
Proof. by apply moves_id. Qed.
Lemma moves_gets {S A} (R : relation S) `{!Reflexive R} (f : S → A) : moves R (gets f).
Proof. by apply moves_id. Qed.
Lemma moves_attempt {S A} (R : relation S) (m : ST S A) : moves R m → moves R (attempt m).
Proof. intros Hm s. specialize (Hm s). unfold attempt. by destruct (m s). Qed.
Lemma moves_zoom {S T A} (R : relation S) (get : S → T) (set : T → S → S) (m : ST T A) :
  (∀ s, R s (set (m (get s)).2 s)) → moves R (zoom get set m).
Proof. intros H s. specialize (H s). unfold zoom. by destruct (m (get s)). Qed.
Lemma moves_weaken {S A} (R R' : relation S) (m : ST S A) : (∀ s s', R s s' → R' s s') → moves R m → moves R' m.
Proof. intros H Hm s. apply H, Hm. Qed.
#[export] Hint Resolve moves_bind moves_ret moves_throw moves_gets moves_attempt : hoare.

(** ** Go integers

    [int64], [uint32] and [uint64] values are integers in range; an
    operation that may leave the range is followed by its wrap-around. *)
Definition min_int64 : Z := - 2 ^ 63.
Definition max_int64 : Z := 2 ^ 63 - 1.
Definition max_uint32 : Z := 2 ^ 32 - 1.

Definition is_int64 (z : Z) : Prop := min_int64 ≤ z ≤ max_int64.
Definition is_uint32 (z : Z) : Prop := 0 ≤ z ≤ max_uint32.

Definition wrap64 (z : Z) : Z := (z + 2 ^ 63) mod 2 ^ 64 - 2 ^ 63.
Definition wrap32 (z : Z) : Z := z mod 2 ^ 32.

Lemma wrap64_id z : is_int64 z → wrap64 z = z.
Proof. unfold is_int64, min_int64, max_int64, wrap64. intros. rewrite Z.mod_small; lia. Qed.

Lemma wrap64_range z : is_int64 (wrap64 z).
Proof.
  unfold is_int64, min_int64, max_int64, wrap64.
  pose proof (Z.mod_pos_bound (z + 2 ^ 63) (2 ^ 64)). lia.
Qed.

Lemma wrap32_id z : is_uint32 z → wrap32 z = z.
Proof. unfold is_uint32, max_uint32, wrap32. intros. rewrite Z.mod_small; lia. Qed.

Lemma wrap32_range z : is_uint32 (wrap32 z).
Proof. unfold is_uint32, max_uint32, wrap32. pose proof (Z.mod_pos_bound z (2 ^ 32)). lia. Qed.

#[export] Hint Resolve wrap64_range wrap32_range : dcfs.

(** ** Tactics *)

(** Closes [R x z] from [R x y] and [R y z] in the context. *)
Ltac by_trans := solve [etransitivity; eassumption].

(** Decides a closed goal by evaluation: equations, and comparisons of integers. *)
Ltac by_compute := vm_compute; repeat split; first [reflexivity | discriminate].

(** Case analysis on one chosen [bool_decide P] of the goal. *)
Tactic Notation "bool_case" constr(P) "as" simple_intropattern(H) :=
  destruct (decide P) as [H|H];
  [rewrite (bool_decide_true P) by assumption | rewrite (bool_decide_false P) by assumption].

(** ** Sorting by a key *)

Lemma NoDup_fmap_elem_inj {A B} (f : A → B) (l : list A) x y :
  NoDup (f <$> l) → x ∈ l → y ∈ l → f x = f y → x = y.
Proof.
  intros Hnd Hx Hy E. apply list_elem_of_lookup in Hx as [i Hi], Hy as [j Hj].
  assert (i = j) as ->; [|by simplify_eq].
  eapply NoDup_lookup; [done|by rewrite list_lookup_fmap, Hi|].
  by rewrite list_lookup_fmap, Hj, E.
Qed.

Definition key_rel {A B} (f : A → B) (R : relation B) : relation A := λ x y, R (f x) (f y).

#[export] Instance key_rel_dec {A B} (f : A → B) (R : relation B) `{!RelDecision R} :
  RelDecision (key_rel f R).
Proof. intros x y. unfold key_rel. apply _. Defined.
#[export] Instance key_rel_trans {A B} (f : A → B) (R : relation B) `{!Transitive R} :
  Transitive (key_rel f R).
Proof. intros x y z. unfold key_rel. apply transitivity. Qed.
#[export] Instance key_rel_refl {A B} (f : A → B) (R : relation B) `{!Reflexive R} :
  Reflexive (key_rel f R).
Proof. intros x. unfold key_rel. done. Qed.
#[export] Instance key_rel_total {A B} (f : A → B) (R : relation B) `{!Total R} :
  Total (key_rel f R).
Proof. intros x y. unfold key_rel. apply total. done. Qed.

Definition sort_on {A B} (f : A → B) (R : relation B) `{!RelDecision R} (l : list A) : list A :=
  merge_sort (key_rel f R) l.

Section sort_on.
Context {A B} (f : A → B) (R : relation B) `{!RelDecision R, !Transitive R, !Total R}.

Lemma sort_on_perm l : sort_on f R l ≡ₚ l.
Proof. apply merge_sort_Permutation. Qed.

Lemma elem_of_sort_on l x : x ∈ sort_on f R l ↔ x ∈ l.
Proof. by rewrite sort_on_perm. Qed.

Lemma sort_on_sorted l : StronglySorted (key_rel f R) (sort_on f R l).
Proof. unfold sort_on. apply (StronglySorted_merge_sort _); apply _. Qed.

(** Elements told apart by their keys have one sorted arrangement. *)
Lemma sorted_unique `{!AntiSymm (=) R} l1 l2 :
  NoDup (f <$> l1) → l1 ≡ₚ l2 →
  StronglySorted (key_rel f R) l1 → StronglySorted (key_rel f R) l2 → l1 = l2.
Proof.
  intros Hnd Hp H1 H2. apply (StronglySorted_unique_strong (key_rel f R)); [|done..].
  intros x y Hx Hy Hxy Hyx. rewrite <- Hp in Hy.
  apply (NoDup_fmap_elem_inj f l1); [done..|]. by apply (anti_symm R).
Qed.

Lemma sort_on_id `{!AntiSymm (=) R} l :
  NoDup (f <$> l) → StronglySorted (key_rel f R) l → sort_on f R l = l.
Proof.
  intros Hnd Hs. symmetry. apply sorted_unique; [done| |done|apply sort_on_sorted].
  by rewrite sort_on_perm.
Qed.
End sort_on.
