(* ===== verification/GoStrings.v ===== *)
(** * The string functions of Go's standard library that the program uses

    A Go string is a sequence of bytes: [string] of the Standard Library, whose
    characters are the 256 byte values.  Module [Str] holds the functions of
    package strings, [Dec] the decimal formats of fmt and strconv, [Hex] the
    encoding/hex functions, [Utf8] the test of unicode/utf8. *)
From S2P Require Import Prelude.
From Stdlib Require Import Ascii DecimalString DecimalZ DecimalN.
From Stdlib Require Import Strings.Byte.

(** A Go [[]byte]. *)
Abbreviation bytes := (list Byte.byte).

#[export] Instance byte_eq_dec : EqDecision Byte.byte := Byte.byte_eq_dec.

#[global] Arguments String.append : simpl nomatch.
#[global] Arguments Ascii.eqb : simpl never.

Module Str.

(** [has_char c s]: the byte [c] occurs in [s] (strings.ContainsRune on ASCII). *)
Fixpoint has_char (c : ascii) (s : string) : bool :=
  match s with
  | EmptyString => false
  | String a s' => Ascii.eqb a c || has_char c s'
  end.

(** strings.HasPrefix. *)
Fixpoint has_prefix (p s : string) : bool :=
  match p, s with
  | EmptyString, _ => true
  | String a p', String b s' => Ascii.eqb a b && has_prefix p' s'
  | String _ _, EmptyString => false
  end.

(** strings.Contains. *)
Fixpoint contains (sub s : string) : bool :=
  has_prefix sub s ||
  match s with
  | EmptyString => false
  | String _ s' => contains sub s'
  end.

(** strings.Split and strings.SplitSeq for a one-byte separator: never empty. *)
Fixpoint split (c : ascii) (s : string) : list string :=
  match s with
  | EmptyString => [EmptyString]
  | String a s' =>
      if Ascii.eqb a c then EmptyString :: split c s'
      else match split c s' with
           | [] => [String a EmptyString]
           | h :: t => String a h :: t
           end
  end.

(** strings.Join for a one-byte separator. *)
Fixpoint join (c : ascii) (l : list string) : string :=
  match l with
  | [] => EmptyString
  | [h] => h
  | h :: t => h +:+ String c (join c t)
  end.

(** strings.Cut for a one-byte separator. *)
Fixpoint cut (c : ascii) (s : string) : option (string * string) :=
  match s with
  | EmptyString => None
  | String a s' =>
      if Ascii.eqb a c then Some (EmptyString, s')
      else match cut c s' with
           | Some (b, r) => Some (String a b, r)
           | None => None
           end
  end.

(** len(s). *)
Definition len (s : string) : Z := Z.of_nat (String.length s).

(** *** Lemmas *)

Lemma app_nil_r s : s +:+ EmptyString = s.
Proof. induction s as [|a s IH]; simpl; congruence. Qed.

Lemma app_assoc s t u : (s +:+ t) +:+ u = s +:+ (t +:+ u).
Proof. induction s as [|a s IH]; simpl; congruence. Qed.

Lemma len_app s t : len (s +:+ t) = len s + len t.
Proof.
  unfold len. induction s as [|a s IH]; simpl; lia.
Qed.

Lemma len_nonneg s : 0 ≤ len s.
Proof. unfold len. lia. Qed.

Lemma has_char_app c s t : has_char c (s +:+ t) = has_char c s || has_char c t.
Proof. induction s as [|a s IH]; simpl; [done|]. by rewrite IH, orb_assoc. Qed.

Lemma has_prefix_app p s : has_prefix p (p +:+ s) = true.
Proof. induction p as [|a p IH]; simpl; [by destruct s|]. by rewrite Ascii.eqb_refl. Qed.

Lemma has_prefix_iff p s : has_prefix p s = true ↔ ∃ r, s = p +:+ r.
Proof.
  split.
  - revert s. induction p as [|a p IH]; intros s; simpl; [by eauto|].
    destruct s as [|b s]; [done|]. intros [->%Ascii.eqb_eq H]%andb_prop.
    destruct (IH _ H) as [r ->]. by exists r.
  - intros [r ->]. apply has_prefix_app.
Qed.

Lemma contains_app sub s t : contains sub (s +:+ (sub +:+ t)) = true.
Proof.
  induction s as [|a s IH]; simpl.
  - destruct (sub +:+ t) eqn:E; simpl; rewrite <- ?E, ?has_prefix_app; [|done].
    destruct sub; [done|discriminate].
  - by rewrite IH, orb_true_r.
Qed.

Lemma split_cons c s : ∃ h t, split c s = h :: t.
Proof.
  destruct s as [|a s]; simpl; [by eauto|].
  destruct (Ascii.eqb a c); [by eauto|]. destruct (split c s); by eauto.
Qed.

Lemma join_split c s : join c (split c s) = s.
Proof.
  induction s as [|a s IH]; simpl; [done|].
  destruct (Ascii.eqb a c) eqn:E.
  - apply Ascii.eqb_eq in E as ->. simpl. rewrite IH.
    by destruct (split_cons c s) as (h & t & ->).
  - destruct (split_cons c s) as (h & t & Hs). rewrite Hs in IH |- *.
    destruct t; simpl in *; congruence.
Qed.

(** No element of a split holds the separator. *)
Lemma split_no_sep c s : Forall (λ e, has_char c e = false) (split c s).
Proof.
  induction s as [|a s IH]; simpl; [by constructor|].
  destruct (Ascii.eqb a c) eqn:E; [by constructor|].
  destruct (split c s) as [|h t]; [by repeat constructor; simpl; rewrite E|].
  inversion_clear IH. constructor; [|done]. simpl. by rewrite E.
Qed.

Lemma split_no_char c s : has_char c s = false → split c s = [s].
Proof.
  induction s as [|a s IH]; simpl; [done|].
  intros [Ha Hs]%orb_false_elim. by rewrite Ha, IH.
Qed.

Lemma split_app c s t :
  has_char c s = false → split c (s +:+ String c t) = s :: split c t.
Proof.
  induction s as [|a s IH]; simpl.
  - intros _. by rewrite Ascii.eqb_refl.
  - intros [Ha Hs]%orb_false_elim. by rewrite Ha, (IH Hs).
Qed.

Lemma split_app_sep c s t : split c (s +:+ String c t) = split c s ++ split c t.
Proof.
  induction s as [|a s IH]; simpl.
  - by rewrite Ascii.eqb_refl.
  - rewrite IH. destruct (Ascii.eqb a c); [done|].
    by destruct (split_cons c s) as (h & r & ->).
Qed.

Lemma split_char_length c s : has_char c s = true → (2 ≤ length (split c s))%nat.
Proof.
  induction s as [|a s IH]; simpl; [done|].
  destruct (split_cons c s) as (h & r & E). rewrite E in *.
  destruct (Ascii.eqb a c); simpl in *; [lia|]. done.
Qed.

Lemma split_join c l :
  l ≠ [] → Forall (λ e, has_char c e = false) l → split c (join c l) = l.
Proof.
  induction l as [|h [|h' t] IH]; [done| |]; intros _ Hl; inversion_clear Hl.
  - by apply split_no_char.
  - change (join c (h :: h' :: t)) with (h +:+ String c (join c (h' :: t))).
    rewrite split_app by done. f_equal. by apply IH.
Qed.

(** Appending a separator-free suffix extends the last element. *)
Lemma split_app_last c p s :
  has_char c s = false →
  ∃ els e, split c p = els ++ [e] ∧ split c (p +:+ s) = els ++ [e +:+ s].
Proof.
  intros Hs. induction p as [|a p (els & e & E1 & E2)].
  - exists [], EmptyString. simpl. by rewrite (split_no_char c s).
  - simpl. destruct (Ascii.eqb a c).
    + exists (EmptyString :: els), e. by rewrite E1, E2.
    + rewrite E1, E2. destruct els as [|h els]; simpl; [by exists [], (String a e)|].
      by exists (String a h :: els), e.
Qed.

(** No element is longer than the string. *)
Lemma split_len c s e : e ∈ split c s → len e ≤ len s.
Proof.
  unfold len. revert e. induction s as [|a s IH]; simpl; intros e.
  - rewrite list_elem_of_singleton. by intros ->.
  - destruct (Ascii.eqb a c).
    + intros [->|Hin]%elem_of_cons; simpl; [lia|]. specialize (IH _ Hin). lia.
    + destruct (split c s) as [|h t]; intros [->|Hin]%elem_of_cons; simpl.
      * lia.
      * by apply not_elem_of_nil in Hin.
      * specialize (IH h ltac:(by left)). lia.
      * specialize (IH e ltac:(by right)). lia.
Qed.

(** Joining is injective on nonempty lists of separator-free elements. *)
Lemma join_inj c l1 l2 :
  l1 ≠ [] → l2 ≠ [] →
  Forall (λ e, has_char c e = false) l1 → Forall (λ e, has_char c e = false) l2 →
  join c l1 = join c l2 → l1 = l2.
Proof. intros. rewrite <- (split_join c l1), <- (split_join c l2); congruence. Qed.

Lemma cut_app c s t : has_char c s = false → cut c (s +:+ String c t) = Some (s, t).
Proof.
  induction s as [|a s IH]; simpl.
  - intros _. by rewrite Ascii.eqb_refl.
  - intros [Ha Hs]%orb_false_elim. by rewrite Ha, (IH Hs).
Qed.

Lemma cut_Some c s a b :
  cut c s = Some (a, b) → s = a +:+ String c b ∧ has_char c a = false.
Proof.
  revert a. induction s as [|x s IH]; intros a; simpl; [done|].
  destruct (Ascii.eqb x c) eqn:E.
  - intros [= <- <-]. by apply Ascii.eqb_eq in E as ->.
  - destruct (cut c s) as [[h t]|]; [|done]. intros [= <- <-].
    destruct (IH h eq_refl) as [-> Hh]. simpl. by rewrite E, Hh.
Qed.

Lemma cut_inj c s1 t1 s2 t2 :
  has_char c s1 = false → has_char c s2 = false →
  s1 +:+ String c t1 = s2 +:+ String c t2 → s1 = s2 ∧ t1 = t2.
Proof.
  intros H1 H2 E. pose proof (cut_app c s1 t1 H1) as E1.
  rewrite E, (cut_app c s2 t2 H2) in E1. by simplify_eq.
Qed.

Lemma app_inv_head s t1 t2 : s +:+ t1 = s +:+ t2 → t1 = t2.
Proof. induction s as [|a s IH]; simpl; [done|]. intros [=]. auto. Qed.

(** *** The byte order: strings.Compare, SQLite's BINARY collation *)

Definition le (s t : string) : Prop := String.compare s t ≠ Gt.
Definition lt (s t : string) : Prop := String.compare s t = Lt.
(** Go's [s > t]. *)
Definition gtb (s t : string) : bool :=
  match String.compare s t with Gt => true | _ => false end.

#[global] Instance le_dec : RelDecision le.
Proof. intros s t. unfold le. apply _. Defined.

Lemma compare_refl s : String.compare s s = Eq.
Proof.
  induction s as [|a s IH]; simpl; [done|].
  unfold Ascii.compare. by rewrite N.compare_refl.
Qed.

Lemma compare_Eq s t : String.compare s t = Eq ↔ s = t.
Proof. split; [apply String.compare_eq_iff|intros ->; apply compare_refl]. Qed.

Lemma compare_Gt s t : String.compare s t = Gt ↔ String.compare t s = Lt.
Proof. rewrite (String.compare_antisym s t). by destruct (String.compare t s). Qed.

Lemma lt_trans s t u : lt s t → lt t u → lt s u.
Proof.
  unfold lt. revert t u.
  induction s as [|a s IH]; intros [|b t] [|c u]; simpl; try done.
  unfold Ascii.compare.
  destruct (N.compare_spec (N_of_ascii a) (N_of_ascii b)) as [E| |];
    destruct (N.compare_spec (N_of_ascii b) (N_of_ascii c)) as [E'| |];
    destruct (N.compare_spec (N_of_ascii a) (N_of_ascii c)); try done; try lia;
    apply IH.
Qed.

Lemma lt_irrefl s : ¬ lt s s.
Proof. unfold lt. by rewrite compare_refl. Qed.

Lemma le_lt_eq s t : le s t ↔ lt s t ∨ s = t.
Proof.
  unfold le, lt. rewrite <- (compare_Eq s t).
  destruct (String.compare s t); (split; [tauto|by intros [?|?]]).
Qed.

#[global] Instance le_refl : Reflexive le.
Proof. intros s. apply le_lt_eq. by right. Qed.
#[global] Instance le_trans : Transitive le.
Proof.
  intros s t u. rewrite !le_lt_eq. intros [H|E] [H'|E']; subst; eauto using lt_trans.
Qed.
#[global] Instance le_antisymm : AntiSymm (=) le.
Proof.
  intros s t. rewrite !le_lt_eq. intros [H|E] [H'|E']; try congruence.
  by destruct (lt_irrefl s (lt_trans _ _ _ H H')).
Qed.
#[global] Instance le_total : Total le.
Proof.
  intros s t. unfold le. rewrite (String.compare_antisym t s).
  destruct (String.compare s t); simpl; auto.
Qed.

Lemma gtb_lt s t : gtb s t = true ↔ lt t s.
Proof. unfold gtb, lt. rewrite <- compare_Gt. by destruct (String.compare s t). Qed.

(** A proper prefix sorts strictly before its extension. *)
Lemma lt_app s c t : lt s (s +:+ String c t).
Proof.
  unfold lt. induction s as [|a s IH]; simpl; [done|].
  unfold Ascii.compare. by rewrite N.compare_refl.
Qed.

End Str.

(** ** Decimal numbers: fmt's %d and strconv.ParseInt *)
Module Dec.

Definition fmt_d (z : Z) : string := NilZero.string_of_int (Z.to_int z).

(** fmt's %t. *)
Definition fmt_t (b : bool) : string := if b then "true" else "false".

(** strconv.ParseUint in base 10, before the range check. *)
Definition parse_digits (s : string) : option Z :=
  match s with
  | EmptyString => None
  | _ => Z.of_N <$> (N.of_uint <$> NilEmpty.uint_of_string s)
  end.

(** The range check of ParseInt, after the sign has been read. *)
Definition in_range (neg : bool) (o : option Z) : result Z :=
  match o with
  | Some n =>
      let v := if neg then - n else n in
      if bool_decide (min_int64 ≤ v ≤ max_int64) then Ok v else Err ErrParse
  | None => Err ErrParse
  end.

(** strconv.ParseInt(s, 10, 64): an optional sign, at least one digit, in range. *)
Definition ParseInt (s : string) : result Z :=
  match s with
  | EmptyString => Err ErrParse
  | String a r =>
      if Ascii.eqb a "+" then in_range false (parse_digits r)
      else if Ascii.eqb a "-" then in_range true (parse_digits r)
      else in_range false (parse_digits s)
  end.

(** The characters a formatted integer is made of. *)
Definition is_dec_char (c : ascii) : bool :=
  Ascii.eqb c "-" || ((48 <=? N_of_ascii c)%N && (N_of_ascii c <=? 57)%N).

Lemma dec_char_ne c d : is_dec_char c = false → is_dec_char d = true → Ascii.eqb d c = false.
Proof. intros Hc Hd. apply Ascii.eqb_neq. intros ->. congruence. Qed.

Lemma uint_chars c u :
  is_dec_char c = false → Str.has_char c (NilEmpty.string_of_uint u) = false.
Proof.
  intros Hc. induction u; simpl; [done|..]; by rewrite IHu, orb_false_r, dec_char_ne.
Qed.

Lemma zero_uint_chars c u :
  is_dec_char c = false → Str.has_char c (NilZero.string_of_uint u) = false.
Proof.
  intros Hc. destruct u; try by apply uint_chars. simpl. by rewrite dec_char_ne.
Qed.

Lemma fmt_d_chars c z : is_dec_char c = false → Str.has_char c (fmt_d z) = false.
Proof.
  intros Hc. unfold fmt_d. destruct (Z.to_int z) as [u|u]; simpl;
    by rewrite zero_uint_chars, ?dec_char_ne.
Qed.

Lemma to_int_not_nil z :
  Z.to_int z ≠ Decimal.Pos Decimal.Nil ∧ Z.to_int z ≠ Decimal.Neg Decimal.Nil.
Proof.
  split; intros E; pose proof (DecimalZ.of_to z) as H; rewrite E in H; simpl in H; by subst.
Qed.

Lemma fmt_d_inj z1 z2 : fmt_d z1 = fmt_d z2 → z1 = z2.
Proof.
  unfold fmt_d. intros E. destruct (to_int_not_nil z1), (to_int_not_nil z2).
  apply (f_equal NilZero.int_of_string) in E.
  rewrite !NilZero.isi in E by done. apply DecimalZ.to_int_inj. by simplify_eq.
Qed.

Lemma fmt_d_nonempty z : fmt_d z ≠ EmptyString.
Proof.
  unfold fmt_d. destruct (Z.to_int z) as [u|u]; simpl; [|done].
  by destruct u.
Qed.

Lemma parse_digits_uint u :
  u ≠ Decimal.Nil → parse_digits (NilZero.string_of_uint u) = Some (Z.of_N (N.of_uint u)).
Proof.
  intros Hu. unfold parse_digits.
  assert (NilZero.string_of_uint u = NilEmpty.string_of_uint u) as -> by by destruct u.
  rewrite NilEmpty.usu. by destruct u.
Qed.

Lemma in_range_range neg o z : in_range neg o = Ok z → is_int64 z.
Proof.
  unfold in_range, is_int64. destruct o as [n|]; [|done].
  case_bool_decide; intros; by simplify_eq.
Qed.

Lemma ParseInt_range s z : ParseInt s = Ok z → is_int64 z.
Proof. unfold ParseInt. intros H. repeat case_match; by eauto using in_range_range. Qed.

Lemma string_of_uint_head u :
  ∃ a r, NilZero.string_of_uint u = String a r ∧ Ascii.eqb a "+" = false ∧
         Ascii.eqb a "-" = false.
Proof. destruct u; simpl; by eauto. Qed.

(** What strconv parses of what fmt prints is the number printed. *)
Lemma ParseInt_fmt_d z : is_int64 z → ParseInt (fmt_d z) = Ok z.
Proof.
  intros Hz. unfold fmt_d.
  pose proof (DecimalZ.of_to z) as Hof. destruct (to_int_not_nil z) as [Hp Hn].
  destruct (Z.to_int z) as [u|u]; simpl in Hof |- *;
    (assert (u ≠ Decimal.Nil) as Hu by congruence).
  - pose proof (parse_digits_uint u Hu) as Hd.
    destruct (string_of_uint_head u) as (a & r & E & H1 & H2).
    rewrite E in Hd |- *. unfold ParseInt. rewrite H1, H2, Hd. unfold in_range.
    change (N.of_uint u) with (Pos.of_uint u). change (Z.of_N (Pos.of_uint u) = z) in Hof.
    rewrite Hof.
    by rewrite bool_decide_true.
  - rewrite parse_digits_uint by done. unfold in_range.
    change (N.of_uint u) with (Pos.of_uint u). change (- Z.of_N (Pos.of_uint u) = z) in Hof.
    rewrite Hof.
    by rewrite bool_decide_true.
Qed.

End Dec.

(** ** encoding/hex *)
Module Hex.

Definition digit (n : N) : ascii :=
  match n with
  | 0 => "0" | 1 => "1" | 2 => "2" | 3 => "3" | 4 => "4" | 5 => "5" | 6 => "6"
  | 7 => "7" | 8 => "8" | 9 => "9" | 10 => "a" | 11 => "b" | 12 => "c" | 13 => "d"
  | 14 => "e" | _ => "f"
  end%N%char.

(** hex.EncodeToString: two lowercase digits per byte. *)
Fixpoint EncodeToString (l : bytes) : string :=
  match l with
  | [] => EmptyString
  | b :: l' =>
      let n := Byte.to_N b in
      String (digit (n / 16)) (String (digit (n mod 16)) (EncodeToString l'))
  end.

Definition is_hex (c : ascii) : bool :=
  let n := N_of_ascii c in
  ((48 <=? n) && (n <=? 57) || (97 <=? n) && (n <=? 102) || (65 <=? n) && (n <=? 70))%N.

(** hex.DecodeString succeeds: an even number of hexadecimal digits of either case. *)
Fixpoint decodes (s : string) : bool :=
  match s with
  | EmptyString => true
  | String _ EmptyString => false
  | String a (String b s') => is_hex a && is_hex b && decodes s'
  end.

Lemma encode_byte_inj b1 b2 :
  digit (Byte.to_N b1 / 16) = digit (Byte.to_N b2 / 16) →
  digit (Byte.to_N b1 mod 16) = digit (Byte.to_N b2 mod 16) → b1 = b2.
Proof.
  assert (∀ m n, (m < 16)%N → (n < 16)%N → digit m = digit n → m = n) as Hd.
  { intros m n Hm Hn. assert (m = 0 ∨ m = 1 ∨ m = 2 ∨ m = 3 ∨ m = 4 ∨ m = 5 ∨ m = 6 ∨ m = 7 ∨
      m = 8 ∨ m = 9 ∨ m = 10 ∨ m = 11 ∨ m = 12 ∨ m = 13 ∨ m = 14 ∨ m = 15)%N as Em by lia.
    assert (n = 0 ∨ n = 1 ∨ n = 2 ∨ n = 3 ∨ n = 4 ∨ n = 5 ∨ n = 6 ∨ n = 7 ∨
      n = 8 ∨ n = 9 ∨ n = 10 ∨ n = 11 ∨ n = 12 ∨ n = 13 ∨ n = 14 ∨ n = 15)%N as En by lia.
    destruct_or! Em; subst m; destruct_or! En; subst n; done. }
  intros H1 H2.
  pose proof (Byte.to_N_bounded b1). pose proof (Byte.to_N_bounded b2).
  apply Hd in H1; [|apply N.Div0.div_lt_upper_bound; lia..].
  apply Hd in H2; [|apply N.mod_lt; lia..].
  assert (Byte.to_N b1 = Byte.to_N b2) as E.
  { rewrite (N.div_mod (Byte.to_N b1) 16), (N.div_mod (Byte.to_N b2) 16) by lia. congruence. }
  apply (f_equal Byte.of_N) in E. rewrite !Byte.of_to_N in E. by simplify_eq.
Qed.

Lemma EncodeToString_inj l1 l2 : EncodeToString l1 = EncodeToString l2 → l1 = l2.
Proof.
  revert l2. induction l1 as [|b1 l1 IH]; intros [|b2 l2]; simpl; try done.
  intros [= H1 H2 H3]. f_equal; [by apply encode_byte_inj|auto].
Qed.

Lemma len_EncodeToString l : Str.len (EncodeToString l) = 2 * Z.of_nat (length l).
Proof. unfold Str.len. induction l as [|b l IH]; simpl; lia. Qed.

Lemma is_hex_digit n : is_hex (digit n) = true.
Proof. unfold digit. repeat case_match; done. Qed.

Lemma EncodeToString_chars c l : is_hex c = false → Str.has_char c (EncodeToString l) = false.
Proof.
  intros Hc. assert (∀ n, Ascii.eqb (digit n) c = false) as Hd.
  { intros n. apply Ascii.eqb_neq. intros E. pose proof (is_hex_digit n). congruence. }
  induction l as [|b l IH]; [done|]. cbn [EncodeToString Str.has_char]. by rewrite !Hd, IH.
Qed.

Lemma decodes_EncodeToString l : decodes (EncodeToString l) = true.
Proof. induction l as [|b l IH]; simpl; [done|]. by rewrite !is_hex_digit, IH. Qed.

End Hex.

(** ** unicode/utf8 *)
Module Utf8.
Definition code (c : ascii) : Z := Z.of_N (N_of_ascii c).
Definition within (lo hi : Z) (c : ascii) : bool := (lo <=? code c) && (code c <=? hi).
Definition cont : ascii → bool := within 128 191.

(** utf8.ValidString: no encoding is overlong, of a surrogate or beyond U+10FFFF. *)
Fixpoint ValidString (s : string) : bool :=
  match s with
  | EmptyString => true
  | String c s1 =>
      if within 0 127 c then ValidString s1
      else if within 194 223 c then
        match s1 with String d s2 => cont d && ValidString s2 | _ => false end
      else if within 224 239 c then
        match s1 with
        | String d (String e s3) =>
            within (if code c =? 224 then 160 else 128) (if code c =? 237 then 159 else 191) d
            && cont e && ValidString s3
        | _ => false
        end
      else if within 240 244 c then
        match s1 with
        | String d (String e (String f s4)) =>
            within (if code c =? 240 then 144 else 128) (if code c =? 244 then 143 else 191) d
            && cont e && cont f && ValidString s4
        | _ => false
        end
      else false
  end.
End Utf8.
