(* ===== verification/Clock.v ===== *)
(** * The hybrid logical clock (internal/core/hlc.go)

    Timestamps and versions with their orders, and the clock as a state
    ([last]) that [Now] and [Observe] advance.  The physical reading a call
    takes with [c.now().UnixNano()] is an argument. *)
From S2P Require Import Prelude GoStrings.

(** ** Timestamps *)

(** 5 * time.Minute, in nanoseconds. *)
Definition MaxClockDrift : Z := 5 * 60 * 10 ^ 9.

Record Timestamp := mkTimestamp { Wall : Z; Counter : Z }.

#[export] Instance Timestamp_eq_dec : EqDecision Timestamp.
Proof. solve_decision. Defined.

Definition Compare (t o : Timestamp) : Z :=
  if Wall t <? Wall o then -1
  else if Wall t >? Wall o then 1
  else if Counter t <? Counter o then -1
  else if Counter t >? Counter o then 1
  else 0.

(** A value of the Go type: an int64 and a uint32. *)
Definition wf_ts (t : Timestamp) : Prop := is_int64 (Wall t) ∧ is_uint32 (Counter t).

(** The lexicographic order [Compare] decides. *)
Definition ts_lt (t o : Timestamp) : Prop :=
  Wall t < Wall o ∨ (Wall t = Wall o ∧ Counter t < Counter o).
Definition ts_le (t o : Timestamp) : Prop := ts_lt t o ∨ t = o.

Ltac ts_crush :=
  repeat match goal with t : Timestamp |- _ => destruct t end;
  unfold wf_ts, ts_le, ts_lt, is_int64, is_uint32, min_int64, max_int64, max_uint32 in *;
  simpl in *; simplify_eq;
  try first [ lia | by intuition (try congruence; lia) ].

Lemma Compare_spec t o :
  (Compare t o = -1 ∧ ts_lt t o) ∨ (Compare t o = 0 ∧ t = o) ∨ (Compare t o = 1 ∧ ts_lt o t).
Proof.
  unfold Compare, ts_lt. destruct t as [w c], o as [w' c']; simpl.
  destruct (Z.ltb_spec w w'); [left; lia|]. rewrite Z.gtb_ltb.
  destruct (Z.ltb_spec w' w); [right; right; lia|].
  destruct (Z.ltb_spec c c'); [left; lia|]. rewrite Z.gtb_ltb.
  destruct (Z.ltb_spec c' c); [right; right; lia|].
  right; left. split; [done|]. f_equal; lia.
Qed.

#[export] Instance ts_lt_strict : StrictOrder ts_lt.
Proof. split; [intros t H|intros t u v H1 H2]; ts_crush. Qed.

Lemma ts_le_trans t u v : ts_le t u → ts_le u v → ts_le t v.
Proof.
  intros [H| ->] [H'| ->]; [left; by_trans|by left|by left|by right].
Qed.
Lemma ts_lt_le_trans t u v : ts_lt t u → ts_le u v → ts_lt t v.
Proof. intros H [H'|E']; subst; [by_trans|done]. Qed.
Lemma ts_le_lt_trans t u v : ts_le t u → ts_lt u v → ts_lt t v.
Proof. intros [H|E] H'; subst; [by_trans|done]. Qed.
Lemma ts_le_refl t : ts_le t t.
Proof. by right. Qed.
Lemma ts_lt_irrefl t : ¬ ts_lt t t.
Proof. apply StrictOrder_Irreflexive. Qed.
#[export] Hint Resolve ts_le_refl : dcfs.

(** ** Versions *)

Record Version := mkVersion { HLC : Timestamp; Origin : string }.

#[export] Instance Version_eq_dec : EqDecision Version.
Proof. solve_decision. Defined.

Definition After (v o : Version) : bool :=
  let c := Compare (HLC v) (HLC o) in
  if negb (c =? 0) then c >? 0
  else Str.gtb (Origin v) (Origin o).

Definition Equal (v o : Version) : bool :=
  (Compare (HLC v) (HLC o) =? 0) && String.eqb (Origin v) (Origin o).

(** [ver_lt v o]: the write [o] comes after the write [v]. *)
Definition ver_lt (v o : Version) : Prop :=
  ts_lt (HLC v) (HLC o) ∨ (HLC v = HLC o ∧ Str.lt (Origin v) (Origin o)).
Definition ver_le (v o : Version) : Prop := ver_lt v o ∨ v = o.

Lemma After_spec v o : After v o = true ↔ ver_lt o v.
Proof.
  unfold After, ver_lt. pose proof (Compare_spec (HLC v) (HLC o)) as Hc.
  destruct Hc as [[-> H]|[[-> H]|[-> H]]]; simpl.
  - split; [done|]. intros [H'|[E _]]; [|rewrite E in H; by apply ts_lt_irrefl in H].
    by destruct (ts_lt_irrefl (HLC v)); by_trans.
  - rewrite H, Str.gtb_lt. split; [by right|]. intros [H'|[_ H']]; [|done].
    by apply ts_lt_irrefl in H'.
  - split; [by left|done].
Qed.

Lemma Equal_spec v o : Equal v o = true ↔ v = o.
Proof.
  unfold Equal. rewrite andb_true_iff, String.eqb_eq, Z.eqb_eq.
  destruct (Compare_spec (HLC v) (HLC o)) as [[-> H]|[[-> H]|[-> H]]].
  - split; [by intros []|intros ->; by apply ts_lt_irrefl in H].
  - destruct v, o; simpl in *. naive_solver.
  - split; [by intros []|intros ->; by apply ts_lt_irrefl in H].
Qed.

#[export] Instance ver_lt_strict : StrictOrder ver_lt.
Proof.
  split.
  - intros v [H|[_ H]]; [by apply ts_lt_irrefl in H|by apply Str.lt_irrefl in H].
  - intros u v w [H1|[E1 H1]] [H2|[E2 H2]]; unfold ver_lt; rewrite ?E1, <- ?E2; auto.
    + left. by_trans.
    + right. split; [done|]. by eapply Str.lt_trans.
Qed.

Lemma ver_lt_irrefl v : ¬ ver_lt v v.
Proof. apply StrictOrder_Irreflexive. Qed.

Lemma ver_le_trans u v w : ver_le u v → ver_le v w → ver_le u w.
Proof. intros [H| ->] [H'| ->]; [left; by_trans|by left|by left|by right]. Qed.

Lemma ver_le_antisym u v : ver_le u v → ver_le v u → u = v.
Proof. intros [H|E] [H'|E']; try done. by destruct (ver_lt_irrefl u); by_trans. Qed.

Lemma ts_trichotomy t o : ts_lt t o ∨ t = o ∨ ts_lt o t.
Proof. destruct (Compare_spec t o) as [[_ H]|[[_ H]|[_ H]]]; auto. Qed.

Lemma ver_trichotomy v o : ver_lt v o ∨ v = o ∨ ver_lt o v.
Proof.
  destruct v as [t a], o as [t' b]. unfold ver_lt; simpl.
  destruct (ts_trichotomy t t') as [?|[->|?]]; [by auto..| |by auto].
  destruct (String.compare a b) eqn:E.
  - apply Str.compare_Eq in E as ->. auto.
  - left; right. done.
  - right; right; right. split; [done|]. by apply Str.compare_Gt.
Qed.

Lemma not_After v o : After v o = false ↔ ver_le v o.
Proof.
  rewrite <- not_true_iff_false, After_spec. unfold ver_le.
  destruct (ver_trichotomy v o) as [H|[->|H]].
  - split; [by left|]. intros _ H'. by destruct (ver_lt_irrefl v); by_trans.
  - split; [by right|]. intros _. apply ver_lt_irrefl.
  - split; [done|]. intros [H'| ->] _; [by destruct (ver_lt_irrefl v); by_trans|].
    by apply ver_lt_irrefl in H.
Qed.

(** ** The clock *)

(** The state of a [Clock] is its [last] reading; [NewClock] starts at zero. *)
Definition NewClock : Timestamp := mkTimestamp 0 0.

(** [Clock.Now], at the physical reading [physical]: the new state, which is
    also the value returned. *)
Definition Now (physical : Z) (last : Timestamp) : Timestamp :=
  if physical >? Wall last then mkTimestamp physical 0
  else mkTimestamp (Wall last) (wrap32 (Counter last + 1)).

(** [Clock.Observe]: the reading or the error, and the state afterwards. *)
Definition Observe (physical : Z) (remote last : Timestamp) : result Timestamp * Timestamp :=
  if wrap64 (Wall remote - physical) >? MaxClockDrift then (Err ErrClockDrift, last)
  else
    let wall := Z.max (Z.max physical (Wall last)) (Wall remote) in
    let counter :=
      if (wall =? Wall last) && (wall =? Wall remote) then
        wrap32 (Z.max (Counter last) (Counter remote) + 1)
      else if wall =? Wall last then wrap32 (Counter last + 1)
      else if wall =? Wall remote then wrap32 (Counter remote + 1)
      else 0 in
    let r := mkTimestamp wall counter in
    (Ok r, r).

(** *** Each call *)

Lemma Now_after p l : is_uint32 (Counter l) → Counter l < max_uint32 → ts_lt l (Now p l).
Proof.
  intros Hc Hlt. unfold Now. rewrite Z.gtb_ltb. destruct (Z.ltb_spec (Wall l) p).
  - by left.
  - right. simpl. split; [done|]. rewrite wrap32_id; ts_crush.
Qed.

Lemma Now_counter p l : is_uint32 (Counter l) → Counter l < max_uint32 →
  0 ≤ Counter (Now p l) ≤ Counter l + 1.
Proof.
  intros Hc Hlt. unfold Now. rewrite Z.gtb_ltb. destruct (Z.ltb_spec (Wall l) p); simpl.
  - ts_crush.
  - rewrite wrap32_id; ts_crush.
Qed.

Lemma Now_wall p l : Wall (Now p l) = Z.max p (Wall l).
Proof.
  unfold Now. rewrite Z.gtb_ltb. destruct (Z.ltb_spec (Wall l) p); simpl; lia.
Qed.

Lemma Observe_inv p r l res l' :
  Observe p r l = (res, l') →
  (res = Err ErrClockDrift ∧ l' = l ∧ MaxClockDrift < wrap64 (Wall r - p)) ∨
  (res = Ok l' ∧ wrap64 (Wall r - p) ≤ MaxClockDrift ∧
   Wall l' = Z.max (Z.max p (Wall l)) (Wall r)).
Proof.
  unfold Observe. rewrite Z.gtb_ltb.
  destruct (Z.ltb_spec MaxClockDrift (wrap64 (Wall r - p))); intros; simplify_eq;
    [by left|by right].
Qed.

Lemma Observe_after p r l t l' :
  Observe p r l = (Ok t, l') →
  is_uint32 (Counter l) → Counter l < max_uint32 →
  is_uint32 (Counter r) → Counter r < max_uint32 →
  ts_lt l t ∧ ts_lt r t ∧ 0 ≤ Counter t ≤ Z.max (Counter l) (Counter r) + 1.
Proof.
  unfold Observe. rewrite Z.gtb_ltb. case_match; [done|]. intros [= <- <-] Hl Hl' Hr Hr'.
  destruct l as [lw lc], r as [rw rc]. unfold is_uint32, max_uint32 in *; simpl in *.
  unfold ts_lt; simpl.
  destruct (Z.eqb_spec (Z.max (Z.max p lw) rw) lw), (Z.eqb_spec (Z.max (Z.max p lw) rw) rw);
    simpl; rewrite ?wrap32_id by (unfold is_uint32, max_uint32; lia); lia.
Qed.

(** When no subtraction wraps, the drift guard is the comparison it stands for. *)
Lemma Observe_drift_iff p r l :
  is_int64 (Wall r - p) →
  (Observe p r l = (Err ErrClockDrift, l) ↔ p + MaxClockDrift < Wall r).
Proof.
  intros Hi. destruct (Observe p r l) as [res l'] eqn:E.
  apply Observe_inv in E as [(-> & -> & H)|(-> & H & _)]; rewrite wrap64_id in H by done.
  - split; [intros; lia|done].
  - split; [done|lia].
Qed.

(** *** Sequences of calls *)

Inductive clock_op :=
  | OpNow (physical : Z)
  | OpObserve (physical : Z) (remote : Timestamp).

Definition clock_step (o : clock_op) (l : Timestamp) : result Timestamp * Timestamp :=
  match o with
  | OpNow p => (Ok (Now p l), Now p l)
  | OpObserve p r => Observe p r l
  end.

(** The readings a sequence of calls returns, each with the timestamp it
    observed; a rejected observation returns none. *)
Fixpoint clock_run (ops : list clock_op) (l : Timestamp) :
    list (option Timestamp * Timestamp) :=
  match ops with
  | [] => []
  | o :: ops' =>
      let obs := match o with OpNow _ => None | OpObserve _ r => Some r end in
      match clock_step o l with
      | (Ok t, l') => (obs, t) :: clock_run ops' l'
      | (Err _, l') => clock_run ops' l'
      end
  end.

(** The counter of an observed timestamp is a uint32 not above [K]. *)
Definition op_bounded (K : Z) (o : clock_op) : Prop :=
  match o with OpNow _ => True | OpObserve _ r => 0 ≤ Counter r ≤ K end.

(** A later reading is above an earlier one and above what that one observed. *)
Definition causally_before (a b : option Timestamp * Timestamp) : Prop :=
  ts_lt a.2 b.2 ∧ ∀ r, a.1 = Some r → ts_lt r b.2.

Lemma clock_step_after K o l t l' :
  clock_step o l = (Ok t, l') → op_bounded K o → 0 ≤ Counter l ≤ K → K < max_uint32 →
  ts_lt l t ∧ l' = t ∧ 0 ≤ Counter t ≤ K + 1 ∧
  (∀ p r, o = OpObserve p r → ts_lt r t).
Proof.
  intros E Ho Hl HK. destruct o as [p|p r]; simpl in *.
  - simplify_eq. pose proof (Now_counter p l). pose proof (Now_after p l).
    unfold is_uint32 in *. split_and!; auto with lia; naive_solver lia.
  - assert (l' = t) as -> by (apply Observe_inv in E; naive_solver).
    apply Observe_after in E as (? & ? & ?); unfold is_uint32; try lia.
    split_and!; auto with lia; naive_solver.
Qed.

Lemma clock_step_err o l e l' : clock_step o l = (Err e, l') → l' = l.
Proof. destruct o; simpl; [done|]. intros E. apply Observe_inv in E. naive_solver. Qed.

Lemma clock_run_above K ops l :
  Forall (op_bounded K) ops → 0 ≤ Counter l ≤ K → K + Z.of_nat (length ops) ≤ max_uint32 →
  Forall (λ x, ts_lt l x.2) (clock_run ops l).
Proof.
  revert K l. induction ops as [|o ops IH]; intros K l Hops Hl HK; simpl; [by constructor|].
  inversion_clear Hops as [|? ? Ho Hops']. simpl in HK.
  destruct (clock_step o l) as [[t|e] l'] eqn:E.
  - destruct (clock_step_after K _ _ _ _ E) as (H1 & -> & H2 & H3); [done..|lia|].
    constructor; [done|].
    eapply Forall_impl; [apply (IH (K + 1))|intros ? H; by_trans]; [|lia..].
    eapply Forall_impl; [done|]. intros [|]; simpl; lia.
  - apply clock_step_err in E as ->. by apply (IH K); [..|lia].
Qed.

(** C32: Over any sequence of [Now] and [Observe] calls that cannot exhaust the
    32-bit counter, every reading the clock returns is strictly above the clock's
    starting point, above every reading it returned earlier and above every remote
    timestamp it had observed by then — whatever the physical clock does,
    jumping backwards included. *)
Theorem clock_run_monotone K ops l :
  Forall (op_bounded K) ops → 0 ≤ Counter l ≤ K → K + Z.of_nat (length ops) ≤ max_uint32 →
  StronglySorted causally_before (clock_run ops l) ∧
  Forall (λ x, ts_lt l x.2 ∧ ∀ r, x.1 = Some r → ts_lt r x.2) (clock_run ops l).
Proof.
  revert K l. induction ops as [|o ops IH]; intros K l Hops Hl HK; simpl; [by repeat constructor|].
  pose proof (clock_run_above K _ _ Hops Hl HK) as Habove. simpl in Habove, HK.
  inversion_clear Hops as [|? ? Ho Hops'].
  destruct (clock_step o l) as [[t|e] l'] eqn:E.
  - destruct (clock_step_after K _ _ _ _ E) as (H1 & -> & H2 & H3); [done..|lia|].
    assert (Forall (op_bounded (K + 1)) ops) as Hops1.
    { eapply Forall_impl; [done|]. intros [|]; simpl; lia. }
    destruct (IH (K + 1) t Hops1) as [IH1 IH2]; [lia..|].
    assert (∀ r, match o with OpNow _ => None | OpObserve _ r => Some r end = Some r →
                 ts_lt r t) as Hobs by (intros r; destruct o; naive_solver).
    pose proof (clock_run_above (K + 1) _ _ Hops1 H2) as Hab.
    split; constructor; try done.
    + eapply Forall_impl; [apply Hab; lia|].
      intros x Hx. split; [done|]. intros r Hr. simpl in *. specialize (Hobs r Hr). by_trans.
    + eapply Forall_impl; [done|]. intros x [Hx ?]. split; [by_trans|done].
  - apply clock_step_err in E as ->. apply (IH K); [done..|lia].
Qed.

Lemma clock_run_monotone_witness :
  let ops := [OpNow 100; OpNow 50; OpObserve 60 (mkTimestamp 200 7); OpNow 90] in
  clock_run ops NewClock =
    [(None, mkTimestamp 100 0); (None, mkTimestamp 100 1);
     (Some (mkTimestamp 200 7), mkTimestamp 200 8); (None, mkTimestamp 200 9)] ∧
  StronglySorted causally_before (clock_run ops NewClock).
Proof.
  split; [vm_compute; reflexivity|].
  apply (clock_run_monotone 7); [|by_compute..].
  repeat constructor; by_compute.
Defined.

(** A remote timestamp the clock accepts can drag it no further than
    [MaxClockDrift] past physical time: if the clock was within the bound before
    the call it is within it after, and a timestamp further ahead is refused with
    [ErrClockDrift] and changes nothing. *)
Theorem Observe_bounds_drift p r l :
  is_int64 (Wall r - p) → Wall l ≤ p + MaxClockDrift →
  Wall (Observe p r l).2 ≤ p + MaxClockDrift ∧
  (p + MaxClockDrift < Wall r → Observe p r l = (Err ErrClockDrift, l)).
Proof.
  intros Hi Hl. split; [|by apply Observe_drift_iff].
  destruct (Observe p r l) as [res l'] eqn:E. simpl.
  apply Observe_inv in E as [(_ & -> & _)|(_ & H & ->)]; [done|].
  rewrite wrap64_id in H by done. unfold MaxClockDrift in *. lia.
Qed.

Lemma Observe_bounds_drift_witness :
  let year := 365 * 24 * 3600 * 10 ^ 9 in
  Observe 1000 (mkTimestamp (1000 + year) 0) (mkTimestamp 900 3) =
    (Err ErrClockDrift, mkTimestamp 900 3).
Proof. apply Observe_bounds_drift; by_compute. Defined.

(** The counter is a uint32 and the guard bounds only the wall component: a
    peer's timestamp with the largest counter, at a wall time the clock has not
    passed, makes [Observe] return a reading that sorts before the timestamp it
    has just observed, so the next local write does not follow the remote one. *)
Theorem Observe_counter_wraps p w l :
  p < w → Wall l < w → w - p ≤ MaxClockDrift → is_int64 (w - p) →
  let r := mkTimestamp w max_uint32 in
  Observe p r l = (Ok (mkTimestamp w 0), mkTimestamp w 0) ∧ ts_lt (mkTimestamp w 0) r.
Proof.
  intros Hp Hl Hd Hi r. unfold Observe, r; simpl. rewrite wrap64_id by done. rewrite Z.gtb_ltb.
  destruct (Z.ltb_spec MaxClockDrift (w - p)); [lia|].
  rewrite (Z.max_r _ w) by lia. rewrite Z.eqb_refl.
  destruct (Z.eqb_spec w (Wall l)); [lia|]. simpl. split; [done|].
  right. simpl. split; [done|]. unfold max_uint32. lia.
Qed.

Lemma Observe_counter_wraps_witness :
  Observe 100 (mkTimestamp 200 max_uint32) NewClock =
    (Ok (mkTimestamp 200 0), mkTimestamp 200 0).
Proof. apply (Observe_counter_wraps 100 200 NewClock); by_compute. Defined.

(** C31: Last-writer-wins is a total order: [After] is a strict order, and of any
    two versions exactly one of the three holds — they are the same write, the
    first wins, the second wins — so no two nodes can disagree about the winner. *)
Theorem After_total_order :
  (∀ v, After v v = false) ∧
  (∀ u v w, After u v = true → After v w = true → After u w = true) ∧
  (∀ v o, (Equal v o = true ∧ v = o ∧ After v o = false ∧ After o v = false) ∨
          (Equal v o = false ∧ After v o = true ∧ After o v = false) ∨
          (Equal v o = false ∧ After v o = false ∧ After o v = true)).
Proof.
  split_and!.
  - intros v. apply not_After. by right.
  - intros u v w. rewrite !After_spec. intros. by_trans.
  - intros v o. assert (Hne : v ≠ o → Equal v o = false).
    { intros H. apply not_true_iff_false. by rewrite Equal_spec. }
    destruct (ver_trichotomy v o) as [H|[->|H]].
    + right; right. split_and!; [|by apply not_After; left|by apply After_spec].
      apply Hne. intros ->. by apply ver_lt_irrefl in H.
    + left. rewrite Equal_spec. split_and!; try done; apply not_After; by right.
    + right; left. split_and!; [|by apply After_spec|by apply not_After; left].
      apply Hne. intros ->. by apply ver_lt_irrefl in H.
Qed.
