(* ===== verification/Paths.v ===== *)
(** * Paths and modes (internal/core/path.go)

    [SanitizePath] is the gate every path from outside passes; [Pkg] holds
    the functions of Go's package path it is built from. *)
From S2P Require Import Prelude GoStrings.
From Stdlib Require Import Ascii.

Definition MaxPathLen : Z := 4096.
Definition MaxNameLen : Z := 255.

(** The separator and the NUL byte. *)
Definition slash : ascii := "/"%char.
Definition nul : ascii := "000"%char.

(** ** Package path *)
Module Pkg.

(** One element of path.Clean's scan, on the stack of the elements kept:
    "" and "." vanish, ".." removes the element before it, or is kept at the
    start of a path that is not rooted. *)
Definition clean_step (rooted : bool) (stack : list string) (el : string) : list string :=
  if bool_decide (el = EmptyString) || bool_decide (el = "."%string) then stack
  else if bool_decide (el = ".."%string) then
    match stack with
    | top :: rest => if bool_decide (top = ".."%string) then el :: stack else rest
    | [] => if rooted then [] else [el]
    end
  else el :: stack.

Definition Clean (p : string) : string :=
  if bool_decide (p = EmptyString) then "."%string
  else
    let rooted := Str.has_prefix "/" p in
    let els := rev (fold_left (clean_step rooted) (Str.split slash p) []) in
    if rooted then String slash (Str.join slash els)
    else if bool_decide (els = []) then "."%string
    else Str.join slash els.

(** path.Base: the last element after trailing slashes are removed. *)
Definition Base (p : string) : string :=
  if bool_decide (p = EmptyString) then "."%string
  else default "/"%string (last (filter (λ e, e ≠ EmptyString) (Str.split slash p))).

(** path.Dir: the path up to its last slash, cleaned. *)
Definition Dir (p : string) : string :=
  match rev (Str.split slash p) with
  | _ :: (_ :: _) as els => Clean (Str.join slash (rev els) +:+ "/")
  | _ => Clean EmptyString
  end.

(** path.Join of two elements. *)
Definition Join (a b : string) : string :=
  match filter (λ e, e ≠ EmptyString) [a; b] with
  | [] => EmptyString
  | els => Clean (Str.join slash els)
  end.

End Pkg.

(** ** SanitizePath *)

(** The loop over the elements of the path. *)
Fixpoint check_elements (els : list string) : result unit :=
  match els with
  | [] => Ok tt
  | el :: els' =>
      if bool_decide (el = EmptyString) then Err ErrBadPath
      else if bool_decide (el = "."%string) || bool_decide (el = ".."%string) then Err ErrBadPath
      else if Str.len el >? MaxNameLen then Err ErrBadPath
      else check_elements els'
  end.

Definition SanitizePath (p : string) : result string :=
  if bool_decide (p = EmptyString) then Err ErrBadPath
  else if Str.len p >? MaxPathLen then Err ErrBadPath
  else if Str.has_char nul p then Err ErrBadPath
  else if Str.has_prefix "/" p then Err ErrBadPath
  else if negb (bool_decide (Pkg.Clean p = p)) then Err ErrBadPath
  else
    _ ← check_elements (Str.split slash p);
    Ok p.

(** ** Modes *)

(** The bits of Go's fs.FileMode. *)
Definition ModePerm : Z := 511. (* 0o777 *)
Definition ModeSetuid : Z := Z.shiftl 1 23.
Definition ModeSetgid : Z := Z.shiftl 1 22.
Definition ModeSticky : Z := Z.shiftl 1 20.
(** fs.ModeType: directory, symlink, pipe, socket, device, char device, irregular. *)
Definition ModeType : Z :=
  fold_right Z.lor 0 (map (Z.shiftl 1) [31; 27; 25; 24; 26; 21; 19]).

Definition SanitizeMode (mode : Z) : Z :=
  Z.land mode (Z.lor (Z.lor (Z.lor ModePerm ModeSetuid) ModeSetgid) ModeSticky).

(** ** Conflict names *)

Definition ConflictName (p node : string) (unixNano : Z) : string :=
  p +:+ ".conflict." +:+ node +:+ "." +:+ Dec.fmt_d unixNano.

Definition IsConflictName (p : string) : bool :=
  Str.contains ".conflict." (Pkg.Base p).

(** ** Canonical paths: what SanitizePath accepts *)

Definition good_element (el : string) : Prop :=
  el ≠ EmptyString ∧ el ≠ "."%string ∧ el ≠ ".."%string ∧ Str.len el ≤ MaxNameLen.

(** A relative path of ordinary elements, within the limits, without a NUL byte. *)
Definition canonical (p : string) : Prop :=
  Str.len p ≤ MaxPathLen ∧ Str.has_char nul p = false ∧
  Forall good_element (Str.split slash p).

#[export] Instance good_element_dec el : Decision (good_element el).
Proof. unfold good_element. apply _. Defined.
#[export] Instance canonical_dec p : Decision (canonical p).
Proof. unfold canonical. apply _. Defined.

Lemma check_elements_spec els :
  check_elements els = if bool_decide (Forall good_element els) then Ok tt else Err ErrBadPath.
Proof.
  induction els as [|el els IH]; simpl; [done|]. rewrite Z.gtb_ltb, IH.
  destruct (decide (good_element el)) as [Hg|Hg].
  - rewrite (bool_decide_ext (Forall good_element (el :: els)) (Forall good_element els))
      by (rewrite Forall_cons; tauto).
    destruct Hg as (H1 & H2 & H3 & H4). rewrite !bool_decide_false by done. simpl.
    destruct (Z.ltb_spec MaxNameLen (Str.len el)); [lia|done].
  - rewrite (bool_decide_false (Forall good_element (el :: els))) by (by inversion 1).
    bool_case (el = EmptyString) as ?; [done|]. bool_case (el = "."%string) as ?; [done|].
    bool_case (el = ".."%string) as ?; [done|]. simpl.
    destruct (Z.ltb_spec MaxNameLen (Str.len el)); [done|]. by destruct Hg.
Qed.

(** Elements path.Clean keeps. *)
Definition plain_element (el : string) : Prop :=
  el ≠ EmptyString ∧ el ≠ "."%string ∧ el ≠ ".."%string.

#[export] Instance plain_element_dec el : Decision (plain_element el).
Proof. unfold plain_element. apply _. Defined.

Lemma good_plain el : good_element el → plain_element el.
Proof. by intros (? & ? & ? & _). Qed.

Lemma clean_step_plain rooted el stack :
  plain_element el → Pkg.clean_step rooted stack el = el :: stack.
Proof.
  intros (H1 & H2 & H3). unfold Pkg.clean_step. by rewrite !bool_decide_false.
Qed.

Lemma clean_fold_plain rooted els stack :
  Forall plain_element els →
  fold_left (Pkg.clean_step rooted) els stack = rev els ++ stack.
Proof.
  intros H. revert stack. induction H as [|el els Hel _ IH]; intros stack; simpl; [done|].
  by rewrite clean_step_plain, IH, <- (assoc_L (++)).
Qed.

Lemma canonical_no_prefix p : canonical p → Str.has_prefix "/" p = false.
Proof.
  intros (_ & _ & H). destruct p as [|a p]; [done|]. cbn in *.
  destruct (Ascii.eqb_spec "/" a) as [<-|Hne]; [|done].
  rewrite Ascii.eqb_refl in H. inversion_clear H as [|? ? Hg]. by destruct Hg.
Qed.

Lemma canonical_Clean p : canonical p → Pkg.Clean p = p.
Proof.
  intros Hc. unfold Pkg.Clean. rewrite (canonical_no_prefix _ Hc).
  destruct Hc as (_ & _ & H). rewrite clean_fold_plain, app_nil_r, rev_involutive
    by (eapply Forall_impl; eauto using good_plain).
  bool_case (p = EmptyString) as Hp.
  { subst p. inversion_clear H as [|? ? Hg]. by destruct Hg. }
  rewrite bool_decide_false, Str.join_split; [done|].
  by destruct (Str.split_cons slash p) as (h & t & ->).
Qed.

Lemma SanitizePath_eq p :
  SanitizePath p = if bool_decide (canonical p) then Ok p else Err ErrBadPath.
Proof.
  unfold SanitizePath. rewrite check_elements_spec, Z.gtb_ltb.
  bool_case (p = EmptyString) as Hp; [by subst|].
  bool_case (canonical p) as Hc.
  - rewrite (canonical_no_prefix _ Hc), (canonical_Clean _ Hc).
    destruct Hc as (Hl & -> & Hg). rewrite !bool_decide_true by done.
    by destruct (Z.ltb_spec MaxPathLen (Str.len p)); [lia|].
  - destruct (Z.ltb_spec MaxPathLen (Str.len p)); [done|].
    destruct (Str.has_char nul p) eqn:Hn; [done|].
    destruct (Str.has_prefix "/" p); [done|].
    destruct (negb _); [done|].
    rewrite bool_decide_false; [done|]. intros Hg. by destruct Hc.
Qed.

Lemma SanitizePath_Ok p q : SanitizePath p = Ok q ↔ q = p ∧ canonical p.
Proof.
  rewrite SanitizePath_eq. case_bool_decide; split; [intros [=]|intros [-> _]|..]; naive_solver.
Qed.

Lemma SanitizePath_canonical p : canonical p → SanitizePath p = Ok p.
Proof. intros. by apply SanitizePath_Ok. Qed.
#[export] Hint Resolve SanitizePath_canonical : dcfs.

Lemma canonical_prefix p q :
  canonical p → Str.has_prefix (q +:+ "/") p = true → canonical q.
Proof.
  intros (Hl & Hn & Hg) [r ->]%Str.has_prefix_iff. rewrite Str.app_assoc in *.
  change ("/" +:+ r) with (String slash r) in *.
  rewrite Str.len_app in Hl. rewrite Str.has_char_app in Hn.
  rewrite Str.split_app_sep in Hg. apply Forall_app in Hg as [Hg _].
  apply orb_false_iff in Hn as [Hn _].
  split_and!; [pose proof (Str.len_nonneg (String slash r)); lia|done..].
Qed.

(** C33: [SanitizePath] accepts exactly the canonical relative paths — at most 4096
    bytes, no NUL, every element nonempty, neither "." nor "..", at most 255 bytes —
    and returns them unchanged; every other string is refused with [ErrBadPath].  An
    accepted path stays below any directory it is joined to: each prefix of its
    elements is accepted too. *)
Theorem SanitizePath_spec p :
  SanitizePath p = (if bool_decide (canonical p) then Ok p else Err ErrBadPath) ∧
  (canonical p → ∀ q, Str.has_prefix (q +:+ "/") p = true → SanitizePath q = Ok q).
Proof.
  split; [apply SanitizePath_eq|]. intros Hc q Hq.
  by eapply SanitizePath_canonical, canonical_prefix.
Qed.

(** The rejections and acceptances of path_test.go. *)
Example SanitizePath_rejects :
  map (is_Ok ∘ SanitizePath)
    [""; "/etc/shadow"; "../../etc/shadow"; "../x"; "a/../../etc/shadow"; "a/./b"; ".";
     ".."; "a//b"; "a/b/"]%string = replicate 10 false.
Proof. vm_compute. reflexivity. Qed.

Example SanitizePath_accepts :
  map (is_Ok ∘ SanitizePath)
    ["nginx.conf"; "nginx/sites-enabled/default"; "a/b/c/d/e"; "weird name with spaces.conf";
     "dot.files/.bashrc"; "..hidden"; "a..b/c"]%string = replicate 7 true.
Proof. vm_compute. reflexivity. Qed.

(** ** Modes *)

Definition replicated_mode_bit (i : Z) : bool :=
  (i <? 9) || (i =? 20) || (i =? 22) || (i =? 23).

Lemma mask_testbit i : 0 ≤ i →
  Z.testbit (Z.lor (Z.lor (Z.lor ModePerm ModeSetuid) ModeSetgid) ModeSticky) i =
  replicated_mode_bit i.
Proof.
  intros Hi. unfold replicated_mode_bit.
  destruct (Z.ltb_spec i 24) as [Hlt|Hge].
  - assert (Forall (λ i, Z.testbit (Z.lor (Z.lor (Z.lor ModePerm ModeSetuid) ModeSetgid)
      ModeSticky) i = replicated_mode_bit i) (seqZ 0 24)) as HF.
    { apply (bool_decide_unpack _). vm_compute. exact I. }
    rewrite Forall_forall in HF. apply HF, elem_of_seqZ. lia.
  - rewrite Z.bits_above_log2; [|done|apply (Z.lt_le_trans _ 24); [by_compute|lia]].
    destruct (Z.ltb_spec i 9), (Z.eqb_spec i 20), (Z.eqb_spec i 22), (Z.eqb_spec i 23); lia || done.
Qed.

Lemma SanitizeMode_testbit m i : 0 ≤ i →
  Z.testbit (SanitizeMode m) i = Z.testbit m i && replicated_mode_bit i.
Proof. intros Hi. unfold SanitizeMode. by rewrite Z.land_spec, mask_testbit. Qed.

(** [SanitizeMode] keeps exactly the permission, setuid, setgid and sticky bits
    of Go's file mode: it is idempotent, leaves no bit of the file type — so
    a sanitized mode can name no device, socket or symlink — and keeps every bit it
    is meant to keep. *)
Theorem SanitizeMode_spec m :
  SanitizeMode (SanitizeMode m) = SanitizeMode m ∧
  Z.land (SanitizeMode m) ModeType = 0 ∧
  (∀ i, 0 ≤ i → Z.testbit (SanitizeMode m) i = Z.testbit m i && replicated_mode_bit i) ∧
  is_uint32 (SanitizeMode m).
Proof.
  split_and!.
  - unfold SanitizeMode. by rewrite <- Z.land_assoc, Z.land_diag.
  - unfold SanitizeMode. rewrite <- Z.land_assoc.
    replace (Z.land _ ModeType) with 0 by (by vm_compute). apply Z.land_0_r.
  - intros i. apply SanitizeMode_testbit.
  - assert (SanitizeMode m = SanitizeMode m mod 2 ^ 32) as E.
    { rewrite <- Z.land_ones by lia. unfold SanitizeMode. by rewrite <- Z.land_assoc. }
    pose proof (Z.mod_pos_bound (SanitizeMode m) (2 ^ 32)).
    unfold is_uint32, max_uint32. lia.
Qed.

(** ** Conflict names *)

(** The suffix of a conflict name, and what it may hold. *)
Definition conflict_suffix (node : string) (unixNano : Z) : string :=
  ".conflict." +:+ node +:+ "." +:+ Dec.fmt_d unixNano.

Lemma conflict_suffix_chars c node ns :
  Str.has_char c node = false → Str.has_char c ".conflict." = false →
  Dec.is_dec_char c = false → Str.has_char c (conflict_suffix node ns) = false.
Proof.
  intros Hn Hc Hd. unfold conflict_suffix.
  rewrite !Str.has_char_app, Hn, Hc, Dec.fmt_d_chars by done.
  simpl in Hc |- *. by apply orb_false_elim in Hc as [-> _].
Qed.

Lemma contains_app_r sub s t : Str.contains sub t = true → Str.contains sub (s +:+ t) = true.
Proof. intros H. induction s as [|a s IH]; simpl; [done|]. by rewrite IH, orb_true_r. Qed.

Lemma conflict_suffix_contains node ns : Str.contains ".conflict." (conflict_suffix node ns) = true.
Proof. apply (Str.contains_app ".conflict." ""). Qed.

(** The conflict copy of an accepted path, made by a node whose name holds no
    separator and no NUL byte, is itself an accepted path as long as it stays within
    the length limits, sorts after the path it was derived from, and is recognised
    by [IsConflictName]. *)
Theorem ConflictName_sound p node ns :
  SanitizePath p = Ok p →
  Str.has_char slash node = false → Str.has_char nul node = false →
  Str.len (ConflictName p node ns) ≤ MaxNameLen →
  SanitizePath (ConflictName p node ns) = Ok (ConflictName p node ns) ∧
  IsConflictName (ConflictName p node ns) = true ∧
  Str.lt p (ConflictName p node ns).
Proof.
  intros [_ (Hlen & Hnul & Hels)]%SanitizePath_Ok Hslash Hn0 Hmax.
  change (ConflictName p node ns) with (p +:+ conflict_suffix node ns) in *.
  set (sfx := conflict_suffix node ns) in *.
  assert (Str.has_char slash sfx = false) as Hs1 by by apply conflict_suffix_chars.
  assert (Str.has_char nul sfx = false) as Hs2 by by apply conflict_suffix_chars.
  destruct (Str.split_app_last slash p sfx Hs1) as (els & e & E1 & E2).
  assert (8 < Str.len sfx) as Hsfx.
  { unfold sfx, conflict_suffix. rewrite !Str.len_app. pose proof (Str.len_nonneg node).
    pose proof (Str.len_nonneg (Dec.fmt_d ns)). change (Str.len ".conflict.") with 10.
    change (Str.len ".") with 1. lia. }
  assert (e +:+ sfx ≠ EmptyString) as Hne.
  { intros E. apply (f_equal Str.len) in E. rewrite Str.len_app in E.
    pose proof (Str.len_nonneg e). change (Str.len "") with 0 in E. lia. }
  split_and!.
  - apply SanitizePath_canonical. split_and!.
    + unfold MaxPathLen, MaxNameLen in *. lia.
    + by rewrite Str.has_char_app, Hnul, Hs2.
    + rewrite E2. rewrite E1 in Hels. apply Forall_app in Hels as [Hels He].
      apply Forall_app. split; [done|]. apply Forall_singleton.
      assert (2 < Str.len (e +:+ sfx)) as Hl2.
      { rewrite Str.len_app. pose proof (Str.len_nonneg e). lia. }
      split_and!; try (intros E; by rewrite E in Hl2).
      pose proof (Str.split_len slash (p +:+ sfx) (e +:+ sfx)) as Hle.
      rewrite E2 in Hle. specialize (Hle ltac:(set_solver)). lia.
  - unfold IsConflictName, Pkg.Base. rewrite bool_decide_false, E2.
    + rewrite filter_app, filter_cons_True, filter_nil, last_snoc by done. simpl.
      apply contains_app_r, conflict_suffix_contains.
    + intros E. apply (f_equal Str.len) in E. rewrite Str.len_app in E.
      pose proof (Str.len_nonneg p). change (Str.len "") with 0 in E. lia.
  - apply Str.lt_app.
Qed.

Lemma ConflictName_sound_witness :
  SanitizePath (ConflictName "nginx/nginx.conf" "node2" 1755000000000000000) =
    Ok "nginx/nginx.conf.conflict.node2.1755000000000000000"%string.
Proof.
  refine (proj1 (ConflictName_sound "nginx/nginx.conf" "node2" 1755000000000000000 _ _ _ _));
    by_compute.
Defined.

(** A directory of the same shape does not make the files below it conflict copies. *)
Example IsConflictName_base_only :
  IsConflictName "a.conflict.node1.1/real.conf" = false ∧
  IsConflictName "nginx/nginx.conf" = false.
Proof. by_compute. Qed.
