(* ===== verification/Crypto.v ===== *)
(** * The cryptographic functions of Go's standard library

    The program uses crypto/sha256 for content addressing and the tree digest,
    crypto/hmac for request signatures and crypto/hkdf for key derivation.  The
    models are written against a typeclass, [Sha256], that promises a 32-byte sum;
    [sha256_fips] is the function itself, checked on published test vectors, and is
    the instance the witnesses that need the real function use. *)
From S2P Require Import Prelude GoStrings.
From Stdlib Require Import Strings.Byte Ascii.

(** ** The interface *)

Class Sha256 := sha256_sum : bytes → bytes.
Class Sha256Laws `{Sha256} : Prop :=
  sha256_length : ∀ b, length (sha256_sum b) = 32%nat.

(** ** Bytes *)

Definition byte_of_Z (z : Z) : Byte.byte := default x00 (Byte.of_N (Z.to_N (z mod 256))).
Definition Z_of_byte (b : Byte.byte) : Z := Z.of_N (Byte.to_N b).
Definition byte_xor (a b : Byte.byte) : Byte.byte := byte_of_Z (Z.lxor (Z_of_byte a) (Z_of_byte b)).

Lemma Z_of_byte_range b : 0 ≤ Z_of_byte b < 256.
Proof. unfold Z_of_byte. pose proof (Byte.to_N_bounded b). lia. Qed.

Lemma byte_of_Z_of_byte b : byte_of_Z (Z_of_byte b) = b.
Proof. by destruct b. Qed.

Lemma Z_of_byte_of_Z z : 0 ≤ z < 256 → Z_of_byte (byte_of_Z z) = z.
Proof.
  intros Hz. assert (Forall (λ z, Z_of_byte (byte_of_Z z) = z) (seqZ 0 256)) as HF.
  { apply (bool_decide_unpack _). vm_compute. exact I. }
  rewrite Forall_forall in HF. apply HF, elem_of_seqZ. lia.
Qed.

Lemma Z_of_byte_xor a b : Z_of_byte (byte_xor a b) = Z.lxor (Z_of_byte a) (Z_of_byte b).
Proof.
  apply Z_of_byte_of_Z. pose proof (Z_of_byte_range a). pose proof (Z_of_byte_range b).
  split; [apply Z.lxor_nonneg; lia|].
  destruct (Z.eq_dec (Z.lxor (Z_of_byte a) (Z_of_byte b)) 0) as [->|Hne]; [lia|].
  apply (Z.log2_lt_pow2 _ 8); [pose proof (proj2 (Z.lxor_nonneg (Z_of_byte a) (Z_of_byte b))); lia|].
  eapply Z.le_lt_trans; [apply Z.log2_lxor; lia|].
  assert (∀ x, 0 ≤ x < 256 → Z.log2 x < 8) as Hlog.
  { intros x Hx. destruct (Z.eq_dec x 0) as [->|]; [done|]. apply Z.log2_lt_pow2; lia. }
  apply Z.max_lub_lt; by apply Hlog.
Qed.

Lemma byte_xor_involutive a b : byte_xor (byte_xor a b) b = a.
Proof.
  unfold byte_xor at 1. rewrite Z_of_byte_xor, Z.lxor_assoc, Z.lxor_nilpotent, Z.lxor_0_r.
  apply byte_of_Z_of_byte.
Qed.

(** [[]byte(s)]. *)
Definition of_string (s : string) : bytes := String.list_byte_of_string s.

Lemma of_string_inj s t : of_string s = of_string t → s = t.
Proof.
  unfold of_string. intros E. apply (f_equal String.string_of_list_byte) in E.
  by rewrite !String.string_of_list_byte_of_string in E.
Qed.

(** ** SHA-256 (FIPS 180-4) *)
Module Fips.

Definition rotr (n x : Z) : Z := Z.lor (Z.shiftr x n) (wrap32 (Z.shiftl x (32 - n))).
Definition ch (x y z : Z) : Z := Z.lxor (Z.land x y) (Z.land (Z.lxor x (2 ^ 32 - 1)) z).
Definition maj (x y z : Z) : Z := Z.lxor (Z.lxor (Z.land x y) (Z.land x z)) (Z.land y z).
Definition bsig0 x := Z.lxor (Z.lxor (rotr 2 x) (rotr 13 x)) (rotr 22 x).
Definition bsig1 x := Z.lxor (Z.lxor (rotr 6 x) (rotr 11 x)) (rotr 25 x).
Definition ssig0 x := Z.lxor (Z.lxor (rotr 7 x) (rotr 18 x)) (Z.shiftr x 3).
Definition ssig1 x := Z.lxor (Z.lxor (rotr 17 x) (rotr 19 x)) (Z.shiftr x 10).

(** The constants are the first 32 bits of the fractional parts of the cube roots of the
    first 64 primes, and the initial state those of the square roots of the first 8. *)
Definition is_prime (n : Z) : bool :=
  forallb (λ d, negb (n mod Z.of_nat d =? 0)) (seq 2 (Z.to_nat n - 2)).
Definition primes : list Z := filter (λ n, is_prime n = true) (Z.of_nat <$> seq 2 310).

(** The integer [k]-th root, from its highest bit down. *)
Fixpoint root (k n : Z) (bits : nat) (r : Z) : Z :=
  match bits with
  | O => r
  | S b =>
      let r' := r + 2 ^ Z.of_nat b in
      root k n b (if r' ^ k <=? n then r' else r)
  end.
Definition fraction (k p : Z) : Z := wrap32 (root k (p * 2 ^ (32 * k)) 40 0).

Definition K : list Z := Eval vm_compute in fraction 3 <$> primes.

Record words := mkWords { wa : Z; wb : Z; wc : Z; wd : Z; we : Z; wf : Z; wg : Z; wh : Z }.

Definition H0 : words := Eval vm_compute in
  let h i := fraction 2 (nth i primes 0) in
  mkWords (h 0%nat) (h 1%nat) (h 2%nat) (h 3%nat) (h 4%nat) (h 5%nat) (h 6%nat) (h 7%nat).

(** The message schedule, newest word first, from the 16 words of the block reversed. *)
Fixpoint schedule (n : nat) (ws : list Z) : list Z :=
  match n with
  | O => ws
  | S n' =>
      let w i := nth i ws 0 in
      schedule n' (wrap32 (ssig1 (w 1%nat) + w 6%nat + ssig0 (w 14%nat) + w 15%nat) :: ws)
  end.

Definition round (s : words) (kw : Z * Z) : words :=
  let t1 := wh s + bsig1 (we s) + ch (we s) (wf s) (wg s) + kw.1 + kw.2 in
  let t2 := bsig0 (wa s) + maj (wa s) (wb s) (wc s) in
  mkWords (wrap32 (t1 + t2)) (wa s) (wb s) (wc s) (wrap32 (wd s + t1)) (we s) (wf s) (wg s).

Definition add (x y : words) : words :=
  mkWords (wrap32 (wa x + wa y)) (wrap32 (wb x + wb y)) (wrap32 (wc x + wc y))
    (wrap32 (wd x + wd y)) (wrap32 (we x + we y)) (wrap32 (wf x + wf y))
    (wrap32 (wg x + wg y)) (wrap32 (wh x + wh y)).

Definition compress (s : words) (block : list Z) : words :=
  add s (fold_left round (combine K (rev (schedule 48 (rev block)))) s).

(** Big-endian words of a byte string. *)
Fixpoint to_words (l : list Z) : list Z :=
  match l with
  | a :: b :: c :: d :: l' => (((a * 256 + b) * 256 + c) * 256 + d) :: to_words l'
  | _ => []
  end.

Fixpoint blocks (fuel : nat) (ws : list Z) : list (list Z) :=
  match fuel, ws with
  | S fuel', _ :: _ => take 16 ws :: blocks fuel' (drop 16 ws)
  | _, _ => []
  end.

Definition be_bytes (n : nat) (z : Z) : list Z :=
  rev (map (λ i, Z.shiftr z (8 * Z.of_nat i) mod 256) (seq 0 n)).

Definition pad (l : list Z) : list Z :=
  let n := Z.of_nat (length l) in
  l ++ [128] ++ replicate (Z.to_nat ((55 - n) mod 64)) 0 ++ be_bytes 8 (8 * n).

Definition out (s : words) : bytes :=
  map byte_of_Z (concat (map (be_bytes 4) [wa s; wb s; wc s; wd s; we s; wf s; wg s; wh s])).

Definition sha256 (b : bytes) : bytes :=
  let ws := to_words (pad (map Z_of_byte b)) in
  out (fold_left compress (blocks (length ws) ws) H0).

Lemma out_length s : length (out s) = 32%nat.
Proof. unfold out. by rewrite length_map. Qed.

End Fips.

Definition sha256_fips : Sha256 := Fips.sha256.

Lemma sha256_fips_laws : @Sha256Laws sha256_fips.
Proof. intros b. apply Fips.out_length. Qed.

Example sha256_abc :
  Hex.EncodeToString (Fips.sha256 (of_string "abc")) =
    "ba7816bf8f01cfea414140de5dae2223b00361a396177a9cb410ff61f20015ad"%string.
Proof. vm_compute. reflexivity. Qed.

Example sha256_two_blocks :
  Hex.EncodeToString (Fips.sha256 (of_string
    "abcdbcdecdefdefgefghfghighijhijkijkljklmklmnlmnomnopnopq")) =
    "248d6a61d20638b8e5c026930c3e6039a33ce45964ff2167f6ecedd419db06c1"%string.
Proof. vm_compute. reflexivity. Qed.

(** ** HMAC (RFC 2104) and HKDF (RFC 5869) over the sum *)
Section hmac.
Context `{Sha256}.

Definition block_key (key : bytes) : bytes :=
  let k := if bool_decide (64 < length key)%nat then sha256_sum key else key in
  k ++ replicate (64 - length k) x00.

Definition hmac_sum (key msg : bytes) : bytes :=
  let k := block_key key in
  sha256_sum (map (byte_xor x5c) k ++ sha256_sum (map (byte_xor x36) k ++ msg)).

(** hkdf.Key(sha256.New, secret, salt, info, 32): extract, then one expansion block. *)
Definition hkdf_key (secret salt : bytes) (info : string) : bytes :=
  let prk := hmac_sum salt secret in
  take 32 (hmac_sum prk (of_string info ++ [x01])).

Lemma hmac_length `{!Sha256Laws} key msg : length (hmac_sum key msg) = 32%nat.
Proof. apply sha256_length. Qed.

Lemma hkdf_length `{!Sha256Laws} s salt info : length (hkdf_key s salt info) = 32%nat.
Proof. unfold hkdf_key. by rewrite length_take, hmac_length. Qed.
End hmac.

(** RFC 4231, test case 2. *)
Example hmac_jefe :
  Hex.EncodeToString (@hmac_sum sha256_fips (of_string "Jefe")
    (of_string "what do ya want for nothing?")) =
    "5bdcc146bf60754e6a042426089575c75a003f089d2739839dec58b964ec3843"%string.
Proof. vm_compute. reflexivity. Qed.

(** ** base64.RawURLEncoding *)
Module B64.

Definition alphabet : string := "ABCDEFGHIJKLMNOPQRSTUVWXYZabcdefghijklmnopqrstuvwxyz0123456789-_".
Definition char64 (d : Z) : Ascii.ascii := default "A"%char (String.get (Z.to_nat d) alphabet).

(** The [k]-th digit in base 64. *)
Definition digit (n : Z) (k : Z) : Ascii.ascii := char64 (n / 64 ^ k mod 64).

Fixpoint EncodeToString (l : bytes) : string :=
  match l with
  | [] => EmptyString
  | [a] => let n := Z_of_byte a * 16 in String (digit n 1) (String (digit n 0) EmptyString)
  | [a; b] =>
      let n := (Z_of_byte a * 256 + Z_of_byte b) * 4 in
      String (digit n 2) (String (digit n 1) (String (digit n 0) EmptyString))
  | a :: b :: c :: l' =>
      let n := (Z_of_byte a * 256 + Z_of_byte b) * 256 + Z_of_byte c in
      String (digit n 3) (String (digit n 2) (String (digit n 1) (String (digit n 0)
        (EncodeToString l'))))
  end.

Definition is_b64 (c : Ascii.ascii) : bool := Str.has_char c alphabet.

Lemma char64_inj x y : 0 ≤ x < 64 → 0 ≤ y < 64 → char64 x = char64 y → x = y.
Proof.
  intros Hx Hy E.
  assert (Forall (λ x, Forall (λ y, char64 x = char64 y → x = y) (seqZ 0 64)) (seqZ 0 64)) as HF.
  { apply (bool_decide_unpack _). vm_compute. exact I. }
  rewrite Forall_forall in HF. specialize (HF x ltac:(apply elem_of_seqZ; lia)).
  rewrite Forall_forall in HF. by apply HF; [apply elem_of_seqZ; lia|].
Qed.

Lemma digit_inj n m k : digit n k = digit m k → n / 64 ^ k mod 64 = m / 64 ^ k mod 64.
Proof. apply char64_inj; apply Z.mod_pos_bound; lia. Qed.

Lemma is_b64_digit n k : is_b64 (digit n k) = true.
Proof.
  unfold digit. pose proof (Z.mod_pos_bound (n / 64 ^ k) 64).
  assert (Forall (λ x, is_b64 (char64 x) = true) (seqZ 0 64)) as HF.
  { apply (bool_decide_unpack _). vm_compute. exact I. }
  rewrite Forall_forall in HF. apply HF, elem_of_seqZ. lia.
Qed.

(** No character outside the alphabet appears. *)
Lemma b64_chars c l : is_b64 c = false → Str.has_char c (EncodeToString l) = false.
Proof.
  intros Hc.
  assert (∀ n k, Ascii.eqb (digit n k) c = false) as Hd.
  { intros n k. apply Ascii.eqb_neq. intros E. pose proof (is_b64_digit n k). congruence. }
  induction l as [l IH] using (induction_ltof1 _ (@length Byte.byte)). unfold ltof in IH.
  destruct l as [|a [|b [|c' l]]]; cbn [EncodeToString Str.has_char]; rewrite ?Hd; [done..|].
  apply IH. simpl. lia.
Qed.

Lemma three_bytes n m :
  0 ≤ n < 2 ^ 24 → 0 ≤ m < 2 ^ 24 →
  n / 64 ^ 3 mod 64 = m / 64 ^ 3 mod 64 → n / 64 ^ 2 mod 64 = m / 64 ^ 2 mod 64 →
  n / 64 ^ 1 mod 64 = m / 64 ^ 1 mod 64 → n / 64 ^ 0 mod 64 = m / 64 ^ 0 mod 64 → n = m.
Proof.
  intros Hn Hm. change (64 ^ 3) with (64 * 64 * 64). change (64 ^ 2) with (64 * 64).
  change (64 ^ 1) with 64. change (64 ^ 0) with 1. rewrite !Z.div_1_r.
  rewrite <- !Z.div_div by lia. intros E3 E2 E1 E0.
  pose proof (Z.div_mod n 64). pose proof (Z.div_mod (n / 64) 64). pose proof (Z.div_mod (n / 64 / 64) 64).
  pose proof (Z.div_mod m 64). pose proof (Z.div_mod (m / 64) 64). pose proof (Z.div_mod (m / 64 / 64) 64).
  rewrite (Z.mod_small (n / 64 / 64 / 64)), (Z.mod_small (m / 64 / 64 / 64)) in E3
    by (rewrite !Z.div_div by lia; split; [apply Z.div_pos; lia|apply Z.div_lt_upper_bound; lia]).
  lia.
Qed.

Lemma Z_of_byte_inj a b : Z_of_byte a = Z_of_byte b → a = b.
Proof. intros E. by rewrite <- (byte_of_Z_of_byte a), E, byte_of_Z_of_byte. Qed.

Lemma b64_inj l1 l2 : length l1 = length l2 → EncodeToString l1 = EncodeToString l2 → l1 = l2.
Proof.
  revert l2. induction l1 as [l1 IH] using (induction_ltof1 _ (@length Byte.byte)). unfold ltof in IH.
  intros l2 Hl E.
  destruct l1 as [|a1 [|b1 [|c1 l1]]], l2 as [|a2 [|b2 [|c2 l2]]]; try done;
    cbn [EncodeToString] in E; injection E as; repeat
    match goal with E : digit _ _ = digit _ _ |- _ => apply digit_inj in E end;
    repeat match goal with b : Byte.byte |- _ =>
      lazymatch goal with _ : 0 ≤ Z_of_byte b < 256 |- _ => fail | _ => pose proof (Z_of_byte_range b) end end.
  - f_equal. apply Z_of_byte_inj.
    enough (Z_of_byte a1 * 16 = Z_of_byte a2 * 16) by lia.
    apply three_bytes; try lia; rewrite !Z.div_small; lia.
  - enough ((Z_of_byte a1 * 256 + Z_of_byte b1) * 4 = (Z_of_byte a2 * 256 + Z_of_byte b2) * 4).
    { by rewrite (Z_of_byte_inj a1 a2), (Z_of_byte_inj b1 b2) by lia. }
    apply three_bytes; try lia; rewrite !Z.div_small; lia.
  - assert ((Z_of_byte a1 * 256 + Z_of_byte b1) * 256 + Z_of_byte c1 =
      (Z_of_byte a2 * 256 + Z_of_byte b2) * 256 + Z_of_byte c2) by (apply three_bytes; lia || done).
    rewrite (Z_of_byte_inj a1 a2), (Z_of_byte_inj b1 b2), (Z_of_byte_inj c1 c2) by lia.
    do 3 f_equal. apply IH; simpl in *; [lia..|done].
Qed.
End B64.
