(* ===== verification/Aead.v ===== *)
(** * AES-256-GCM (crypto/aes, crypto/cipher)

    The authenticated encryption [newGCM] builds over the cluster's blob key.
    GCM is written over a typeclass, [BlockCipher], that promises 16-byte blocks;
    [aes] is the cipher itself, checked with GCM on published test vectors. *)
From S2P Require Import Prelude GoStrings Crypto.
From Stdlib Require Import Strings.Byte.

(** ** Bytes as integers *)

Definition to_Zs (b : bytes) : list Z := map Z_of_byte b.
Definition of_Zs (l : list Z) : bytes := map byte_of_Z l.
Definition zero_block : bytes := replicate 16 x00.

Definition xor_bytes (a b : bytes) : bytes := zip_with byte_xor a b.

(** Big-endian integers. *)
Definition be_of (b : bytes) : Z := fold_left (λ a x, a * 256 + Z_of_byte x) b 0.
Definition be_to (n : nat) (z : Z) : bytes :=
  of_Zs (map (λ i, Z.shiftr z (8 * Z.of_nat (n - 1 - i))) (seq 0 n)).

(** ** The block cipher *)

Class BlockCipher := encrypt_block : bytes → bytes → bytes.
Class BlockCipherLaws `{BlockCipher} : Prop :=
  encrypt_length : ∀ k b, length b = 16%nat → length (encrypt_block k b) = 16%nat.

(** ** GCM, with 12-byte nonces and without additional data *)
Section gcm.
Context `{BlockCipher}.

(** Multiplication in GF(2^128), first bit first. *)
Fixpoint gf_mul_loop (n : nat) (x v acc : Z) : Z :=
  match n with
  | O => acc
  | S n' =>
      let acc' := if Z.testbit x (Z.of_nat n') then Z.lxor acc v else acc in
      let v' := if Z.odd v then Z.lxor (Z.shiftr v 1) (Z.shiftl 225 120) else Z.shiftr v 1 in
      gf_mul_loop n' x v' acc'
  end.
Definition gf_mul (x y : Z) : Z := gf_mul_loop 128 x y 0.

(** The 16-byte blocks of a text, the last one padded with zeros. *)
Fixpoint blocks16 (fuel : nat) (b : bytes) : list bytes :=
  match fuel with
  | O => []
  | S fuel' =>
      match b with
      | [] => []
      | _ => take 16 (b ++ replicate 15 x00) :: blocks16 fuel' (drop 16 b)
      end
  end.

Definition ghash (h : Z) (blocks : list bytes) : Z :=
  fold_left (λ y b, gf_mul (Z.lxor y (be_of b)) h) blocks 0.

(** The key stream: the blocks of the counter from [ctr] on. *)
Fixpoint keystream (key nonce : bytes) (ctr : Z) (nblocks : nat) : bytes :=
  match nblocks with
  | O => []
  | S n => encrypt_block key (nonce ++ be_to 4 ctr) ++ keystream key nonce (ctr + 1) n
  end.

Definition ctr_xor (key nonce text : bytes) : bytes :=
  xor_bytes text (keystream key nonce 2 (S (length text / 16))).

Definition gcm_tag (key nonce ciphertext : bytes) : bytes :=
  let h := be_of (encrypt_block key zero_block) in
  let lengths := be_to 16 (8 * Z.of_nat (length ciphertext)) in
  let s := ghash h (blocks16 (S (length ciphertext)) ciphertext ++ [lengths]) in
  xor_bytes (encrypt_block key (nonce ++ be_to 4 1)) (be_to 16 s).

(** [gcm.Seal(nonce, nonce, plaintext, nil)] without the leading nonce. *)
Definition gcm_Seal (key nonce plaintext : bytes) : bytes :=
  let ciphertext := ctr_xor key nonce plaintext in
  ciphertext ++ gcm_tag key nonce ciphertext.

(** [gcm.Open(nil, nonce, sealed, nil)]. *)
Definition gcm_Open (key nonce sealed : bytes) : option bytes :=
  if (length sealed <? 16)%nat then None
  else
    let n := (length sealed - 16)%nat in
    let ciphertext := take n sealed in
    if bool_decide (drop n sealed = gcm_tag key nonce ciphertext)
    then Some (ctr_xor key nonce ciphertext) else None.

(** *** Opening what was sealed *)

Lemma be_to_length n z : length (be_to n z) = n.
Proof. unfold be_to, of_Zs. by rewrite !length_map, length_seq. Qed.

Lemma xor_bytes_involutive a ks :
  (length a ≤ length ks)%nat → xor_bytes (xor_bytes a ks) ks = a.
Proof.
  revert ks. induction a as [|x a IH]; intros [|k ks] Hl; simpl in *; try done; [lia|].
  rewrite byte_xor_involutive. f_equal. apply IH. lia.
Qed.

Lemma xor_bytes_length a ks : (length a ≤ length ks)%nat → length (xor_bytes a ks) = length a.
Proof. intros. unfold xor_bytes. rewrite length_zip_with. lia. Qed.

Context `{!BlockCipherLaws}.

Lemma keystream_length key nonce ctr n :
  length nonce = 12%nat → length (keystream key nonce ctr n) = (16 * n)%nat.
Proof.
  intros Hn. revert ctr. induction n as [|n IH]; intros ctr; simpl; [done|].
  rewrite length_app, IH, encrypt_length; [lia|]. rewrite length_app, be_to_length. lia.
Qed.

Lemma stream_covers key nonce (text : bytes) :
  length nonce = 12%nat →
  (length text ≤ length (keystream key nonce 2 (S (length text / 16))))%nat.
Proof.
  intros Hn. rewrite keystream_length by done.
  pose proof (Nat.mod_upper_bound (length text) 16). pose proof (Nat.div_mod_eq (length text) 16). lia.
Qed.

Lemma ctr_xor_length key nonce text :
  length nonce = 12%nat → length (ctr_xor key nonce text) = length text.
Proof. intros Hn. by apply xor_bytes_length, stream_covers. Qed.

Lemma ctr_xor_involutive key nonce text :
  length nonce = 12%nat → ctr_xor key nonce (ctr_xor key nonce text) = text.
Proof.
  intros Hn. unfold ctr_xor at 1. rewrite ctr_xor_length by done.
  by apply xor_bytes_involutive, stream_covers.
Qed.

Lemma gcm_tag_length key nonce c : length nonce = 12%nat → length (gcm_tag key nonce c) = 16%nat.
Proof.
  intros Hn. unfold gcm_tag. rewrite xor_bytes_length, encrypt_length; [done|..];
    rewrite ?encrypt_length, ?length_app, ?be_to_length; rewrite ?length_app, ?be_to_length; lia.
Qed.

Lemma gcm_Open_Seal key nonce plaintext :
  length nonce = 12%nat → gcm_Open key nonce (gcm_Seal key nonce plaintext) = Some plaintext.
Proof.
  intros Hn. unfold gcm_Open, gcm_Seal.
  set (c := ctr_xor key nonce plaintext).
  rewrite length_app, gcm_tag_length by done.
  destruct (Nat.ltb_spec (length c + 16) 16); [lia|].
  rewrite Nat.add_sub, take_app_length, drop_app_length, bool_decide_true by done.
  f_equal. by apply ctr_xor_involutive.
Qed.

Lemma gcm_Seal_length key nonce plaintext :
  length nonce = 12%nat → length (gcm_Seal key nonce plaintext) = (length plaintext + 16)%nat.
Proof.
  intros Hn. unfold gcm_Seal. by rewrite length_app, gcm_tag_length, ctr_xor_length.
Qed.
End gcm.

(** ** AES (FIPS 197) *)
Module Aes.
Definition sbox : list Z := [
    99; 124; 119; 123; 242; 107; 111; 197; 48; 1; 103; 43; 254; 215; 171; 118;
    202; 130; 201; 125; 250; 89; 71; 240; 173; 212; 162; 175; 156; 164; 114; 192;
    183; 253; 147; 38; 54; 63; 247; 204; 52; 165; 229; 241; 113; 216; 49; 21;
    4; 199; 35; 195; 24; 150; 5; 154; 7; 18; 128; 226; 235; 39; 178; 117;
    9; 131; 44; 26; 27; 110; 90; 160; 82; 59; 214; 179; 41; 227; 47; 132;
    83; 209; 0; 237; 32; 252; 177; 91; 106; 203; 190; 57; 74; 76; 88; 207;
    208; 239; 170; 251; 67; 77; 51; 133; 69; 249; 2; 127; 80; 60; 159; 168;
    81; 163; 64; 143; 146; 157; 56; 245; 188; 182; 218; 33; 16; 255; 243; 210;
    205; 12; 19; 236; 95; 151; 68; 23; 196; 167; 126; 61; 100; 93; 25; 115;
    96; 129; 79; 220; 34; 42; 144; 136; 70; 238; 184; 20; 222; 94; 11; 219;
    224; 50; 58; 10; 73; 6; 36; 92; 194; 211; 172; 98; 145; 149; 228; 121;
    231; 200; 55; 109; 141; 213; 78; 169; 108; 86; 244; 234; 101; 122; 174; 8;
    186; 120; 37; 46; 28; 166; 180; 198; 232; 221; 116; 31; 75; 189; 139; 138;
    112; 62; 181; 102; 72; 3; 246; 14; 97; 53; 87; 185; 134; 193; 29; 158;
    225; 248; 152; 17; 105; 217; 142; 148; 155; 30; 135; 233; 206; 85; 40; 223;
    140; 161; 137; 13; 191; 230; 66; 104; 65; 153; 45; 15; 176; 84; 187; 22].

Definition sub (x : Z) : Z := nth (Z.to_nat x) sbox 0.
Definition xtime (x : Z) : Z :=
  let y := 2 * x in if 255 <? y then Z.lxor (y - 256) 27 else y.
Definition xors (a b : list Z) : list Z := zip_with Z.lxor a b.

Definition shift_rows (s : list Z) : list Z :=
  map (λ i, nth i s 0) [0; 5; 10; 15; 4; 9; 14; 3; 8; 13; 2; 7; 12; 1; 6; 11]%nat.

Definition mix_column (a b c d : Z) : list Z :=
  let t := Z.lxor (Z.lxor a b) (Z.lxor c d) in
  let f x y := Z.lxor x (Z.lxor t (xtime (Z.lxor x y))) in
  [f a b; f b c; f c d; f d a].
Fixpoint mix_columns (s : list Z) : list Z :=
  match s with
  | a :: b :: c :: d :: s' => mix_column a b c d ++ mix_columns s'
  | _ => []
  end.

(** The key schedule: words, the latest first. *)
Fixpoint words_of (l : list Z) : list (list Z) :=
  match l with a :: b :: c :: d :: l' => [a; b; c; d] :: words_of l' | _ => [] end.
Definition next_word (nk i : nat) (rcon : Z) (ws : list (list Z)) : list Z :=
  let prev := hd [] ws in
  let temp :=
    if Nat.eqb (i mod nk) 0 then xors (map sub (drop 1 prev ++ take 1 prev)) [rcon; 0; 0; 0]
    else if (6 <? nk)%nat && Nat.eqb (i mod nk) 4 then map sub prev
    else prev in
  xors (nth (nk - 1) ws []) temp.
Fixpoint expand (fuel nk i : nat) (rcon : Z) (ws : list (list Z)) : list (list Z) :=
  match fuel with
  | O => ws
  | S fuel' =>
      let rcon' := if Nat.eqb (i mod nk) 0 then xtime rcon else rcon in
      expand fuel' nk (S i) rcon' (next_word nk i rcon ws :: ws)
  end.
Definition schedule (key : list Z) : list (list Z) :=
  let nk := (length key / 4)%nat in
  rev (expand (4 * (nk + 7) - nk) nk nk 1 (rev (words_of key))).

Definition round_key (ws : list (list Z)) (r : nat) : list Z := concat (take 4 (drop (4 * r) ws)).

Fixpoint rounds (n r : nat) (ws : list (list Z)) (s : list Z) : list Z :=
  match n with
  | O => xors (shift_rows (map sub s)) (round_key ws r)
  | S n' => rounds n' (S r) ws (xors (mix_columns (shift_rows (map sub s))) (round_key ws r))
  end.

Definition encrypt_Z (key block : list Z) : list Z :=
  let nr := (length key / 4 + 6)%nat in
  let ws := schedule key in
  rounds (nr - 1) 1 ws (xors block (round_key ws 0)).

(** A block is 16 bytes whatever the key: the result is cut or filled to that. *)
Definition encrypt (key block : bytes) : bytes :=
  take 16 (of_Zs (encrypt_Z (to_Zs key) (to_Zs block)) ++ zero_block).
End Aes.

Definition aes : BlockCipher := Aes.encrypt.
Lemma aes_laws : @BlockCipherLaws aes.
Proof.
  intros k b _. unfold encrypt_block, aes, Aes.encrypt. rewrite length_take, length_app.
  change (length zero_block) with 16%nat. lia.
Qed.

(** *** Test vectors: FIPS 197 (C.3) and the GCM specification (cases 13 to 15) *)

Example aes_fips197 :
  Aes.encrypt (of_Zs (seqZ 0 32)) (of_Zs (map (λ i, 17 * i) (seqZ 0 16))) =
  of_Zs [142; 162; 183; 202; 81; 103; 69; 191; 234; 252; 73; 144; 75; 73; 96; 137].
Proof. vm_compute. reflexivity. Qed.

Example gcm_case_13 :
  @gcm_Seal aes (replicate 32 x00) (replicate 12 x00) [] =
  of_Zs [83; 15; 138; 251; 199; 69; 54; 185; 169; 99; 180; 241; 196; 203; 115; 139].
Proof. vm_compute. reflexivity. Qed.

Example gcm_case_14 :
  @gcm_Seal aes (replicate 32 x00) (replicate 12 x00) (replicate 16 x00) =
  of_Zs [206; 167; 64; 61; 77; 96; 107; 110; 7; 78; 197; 211; 186; 243; 157; 24;
         208; 209; 200; 167; 153; 153; 107; 240; 38; 91; 152; 181; 212; 138; 185; 25].
Proof. vm_compute. reflexivity. Qed.
