(* ===== verification/Auth.v ===== *)
(** * Request authentication (internal/transport/auth.go)

    A request is signed with HMAC-SHA256 over its method, its path with the query, the node,
    a timestamp and a nonce; [verify] takes the header apart and checks it.  The random
    nonce and the readings of the clock are arguments. *)
From S2P Require Import Prelude GoStrings Crypto.
From Stdlib Require Import Ascii.

Definition AuthScheme : string := "DCFS1".

(** 5 * time.Minute, in nanoseconds. *)
Definition MaxSkew : Z := 5 * 60 * 10 ^ 9.

Definition newline : ascii := "010"%char.
Definition colon : ascii := ":"%char.
Definition space : ascii := " "%char.

(** time.Since: a time.Duration, which saturates. *)
Definition time_since (now t : Z) : Z := Z.max min_int64 (Z.min max_int64 (now - t)).

Section auth.
Context `{Sha256}.

(** The text [sign] writes into the MAC. *)
Definition sign_text (method path node : string) (ts : Z) (nonce : string) : string :=
  method +:+ String newline (path +:+ String newline (node +:+ String newline
    (Dec.fmt_d ts +:+ String newline nonce))).

Definition sign (key : bytes) (method path node : string) (ts : Z) (nonce : string) : string :=
  B64.EncodeToString (hmac_sum key (of_string (sign_text method path node ts nonce))).

(** [rand] is what reading 12 bytes of crypto/rand gave. *)
Definition authorize (rand : result bytes) (key : bytes) (method path node : string) (now : Z) :
    result string :=
  nonceBytes ← rand;
  let nonce := Hex.EncodeToString nonceBytes in
  let sig := sign key method path node now nonce in
  Ok (AuthScheme +:+ String space (node +:+ String colon (Dec.fmt_d now +:+ String colon
       (nonce +:+ String colon sig)))).

Definition verify (key : bytes) (method uri header : string) (now : Z) : result string :=
  match Str.cut space header with
  | None => Err ErrUnauthorized
  | Some (scheme, rest) =>
      if negb (String.eqb scheme AuthScheme) then Err ErrUnauthorized
      else
        match Str.split colon rest with
        | [node; tsRaw; nonce; gotSig] =>
            if String.eqb node EmptyString || String.eqb nonce EmptyString
            then Err ErrUnauthorized
            else
              match Dec.ParseInt tsRaw with
              | Err _ => Err ErrUnauthorized
              | Ok ts =>
                  let skew := time_since now ts in
                  if (skew >? MaxSkew) || (skew <? - MaxSkew) then Err ErrUnauthorized
                  else
                    let want := sign key method uri node ts nonce in
                    if String.eqb want gotSig then Ok node else Err ErrUnauthorized
              end
        | _ => Err ErrUnauthorized
        end
  end.

(** ** What verify accepts *)

(** A credential of [node] for this request, fresh at [now]. *)
Definition credential (key : bytes) (method uri header : string) (now : Z) (node : string) : Prop :=
  ∃ tsRaw ts nonce,
    header = AuthScheme +:+ String space (node +:+ String colon (tsRaw +:+ String colon
      (nonce +:+ String colon (sign key method uri node ts nonce)))) ∧
    node ≠ EmptyString ∧ nonce ≠ EmptyString ∧
    Str.has_char colon node = false ∧ Str.has_char colon tsRaw = false ∧
    Str.has_char colon nonce = false ∧
    Dec.ParseInt tsRaw = Ok ts ∧ - MaxSkew ≤ now - ts ≤ MaxSkew.

Lemma sign_no_colon key method path node ts nonce :
  Str.has_char colon (sign key method path node ts nonce) = false.
Proof. by apply B64.b64_chars. Qed.

Lemma time_since_small now ts :
  (time_since now ts >? MaxSkew) || (time_since now ts <? - MaxSkew) =
  bool_decide (¬ (- MaxSkew ≤ now - ts ≤ MaxSkew)).
Proof.
  unfold time_since, MaxSkew, min_int64, max_int64. rewrite Z.gtb_ltb.
  case_bool_decide; repeat destruct (Z.ltb_spec _ _); simpl; done || lia.
Qed.

Lemma split4 s a b c d :
  Str.split colon s = [a; b; c; d] ↔
  s = a +:+ String colon (b +:+ String colon (c +:+ String colon d)) ∧
  Str.has_char colon a = false ∧ Str.has_char colon b = false ∧
  Str.has_char colon c = false ∧ Str.has_char colon d = false.
Proof.
  split.
  - intros E. pose proof (Str.split_no_sep colon s) as Hn. pose proof (Str.join_split colon s) as Hj.
    rewrite E in Hn, Hj. rewrite !Forall_cons in Hn. destruct Hn as (?&?&?&?&_).
    by split_and!.
  - intros (-> & ? & ? & ? & ?). by rewrite !Str.split_app, Str.split_no_char.
Qed.

(** [verify] is the decision procedure of [credential]. *)
Lemma verify_Ok key method uri header now node :
  verify key method uri header now = Ok node ↔ credential key method uri header now node.
Proof.
  unfold verify, credential. split.
  - destruct (Str.cut space header) as [[scheme rest]|] eqn:Ec; [|done].
    destruct (String.eqb_spec scheme AuthScheme) as [->|]; [|done]. simpl.
    destruct (Str.split colon rest) as [|a [|b [|c [|d [|]]]]] eqn:Es; try done.
    apply split4 in Es as (-> & ? & ? & ? & ?).
    destruct (String.eqb_spec a EmptyString), (String.eqb_spec c EmptyString); try done. simpl.
    destruct (Dec.ParseInt b) as [ts|] eqn:Ep; [|done]. rewrite time_since_small.
    case_bool_decide as Hs; [done|]. destruct (String.eqb_spec (sign key method uri a ts c) d); [|done].
    intros [= <-]. apply Str.cut_Some in Ec as [-> _]. exists b, ts, c. subst d.
    by split_and!; try apply Hs.
  - intros (b & ts & c & -> & Ha & Hc & ? & ? & ? & Hp & Hs).
    rewrite Str.cut_app by done. rewrite String.eqb_refl. simpl.
    assert (Str.split colon (node +:+ String colon (b +:+ String colon (c +:+ String colon
      (sign key method uri node ts c)))) = [node; b; c; sign key method uri node ts c]) as ->.
    { apply split4. split_and!; try done. apply sign_no_colon. }
    rewrite (proj2 (String.eqb_neq _ _) Ha), (proj2 (String.eqb_neq _ _) Hc), Hp, time_since_small.
    rewrite bool_decide_false by tauto. simpl. by rewrite String.eqb_refl.
Qed.

Lemma verify_Err key method uri header now e :
  verify key method uri header now = Err e → e = ErrUnauthorized.
Proof. unfold verify. repeat case_match; congruence. Qed.

Lemma hex_no_colon l : Str.has_char colon (Hex.EncodeToString l) = false.
Proof. by apply Hex.EncodeToString_chars. Qed.

(** A signed request is let in: the header [authorize] builds for a node whose name is
    not empty and holds no colon is accepted, as that node, by a server with the same key
    for the same method and path, as long as the clocks of the two are within
    [MaxSkew] — and the request is refused when they are not. *)
Theorem verify_authorize rand key method path node now header now' :
  length rand = 12%nat → node ≠ EmptyString → Str.has_char colon node = false → is_int64 now →
  authorize (Ok rand) key method path node now = Ok header →
  verify key method path header now' =
    if bool_decide (- MaxSkew ≤ now' - now ≤ MaxSkew) then Ok node else Err ErrUnauthorized.
Proof.
  intros Hr Hne Hc Hnow [= <-].
  set (nonce := Hex.EncodeToString rand).
  assert (nonce ≠ EmptyString) as Hn.
  { intros E. pose proof (Hex.len_EncodeToString rand) as Hl. fold nonce in Hl. rewrite E, Hr in Hl. done. }
  case_bool_decide as Hs.
  - apply verify_Ok. exists (Dec.fmt_d now), now, nonce.
    split_and!; try done; try apply hex_no_colon; try apply Hs;
      [by apply Dec.fmt_d_chars|by apply Dec.ParseInt_fmt_d].
  - destruct (verify _ _ _ _ _) as [n|e] eqn:E; [|by rewrite (verify_Err _ _ _ _ _ _ E)].
    apply verify_Ok in E as (b & ts & c & E & _ & _ & Hn1 & Hb & Hc1 & Hp & Hs').
    destruct Hs. unfold AuthScheme in E. cbn in E. injection E as E.
    apply Str.cut_inj in E as [_ E]; [|done..].
    apply Str.cut_inj in E as [<- _]; [|by apply Dec.fmt_d_chars|done].
    rewrite Dec.ParseInt_fmt_d in Hp by done. by injection Hp as ->.
Qed.

(** C34: Nothing else is let in: a header is accepted exactly when it is a credential — scheme,
    a nonempty node, a timestamp within [MaxSkew] of the server's clock, a nonempty nonce
    and the signature of this very method, path, node, timestamp and nonce — and every
    other header gets the one error that says nothing. *)
Theorem verify_spec key method uri header now :
  (∀ node, verify key method uri header now = Ok node ↔
     credential key method uri header now node) ∧
  (∀ e, verify key method uri header now = Err e ↔
     e = ErrUnauthorized ∧ ¬ ∃ node, credential key method uri header now node).
Proof.
  split; [intros node; apply verify_Ok|]. setoid_rewrite <- verify_Ok. intros e.
  destruct (verify key method uri header now) as [node|e'] eqn:E.
  - split; [done|]. intros [_ []]. by exists node.
  - pose proof (verify_Err _ _ _ _ _ _ E) as ->. split; [|by intros [-> _]].
    intros [= <-]. split; [done|]. by intros [? ?].
Qed.

(** No field of the signed text but the last holds a newline. *)
Definition one_line (s : string) : Prop := Str.has_char newline s = false.

(** A signature is good for one request only: two requests with the same signature
    agree in method, path with query, node, timestamp and nonce, unless the two signed
    texts collide under the HMAC.  So a signature for one blob is no signature for another. *)
Theorem sign_binds `{!Sha256Laws} key m1 p1 n1 t1 c1 m2 p2 n2 t2 c2 :
  Forall one_line [m1; p1; n1] → Forall one_line [m2; p2; n2] →
  (hmac_sum key (of_string (sign_text m1 p1 n1 t1 c1)) =
   hmac_sum key (of_string (sign_text m2 p2 n2 t2 c2)) →
   sign_text m1 p1 n1 t1 c1 = sign_text m2 p2 n2 t2 c2) →
  sign key m1 p1 n1 t1 c1 = sign key m2 p2 n2 t2 c2 →
  (m1, p1, n1, t1, c1) = (m2, p2, n2, t2, c2).
Proof.
  rewrite !Forall_cons. intros (Hm1 & Hp1 & Hn1 & _) (Hm2 & Hp2 & Hn2 & _) Hcol E.
  apply B64.b64_inj in E; [|by rewrite !hmac_length]. specialize (Hcol E).
  unfold sign_text in Hcol.
  apply Str.cut_inj in Hcol as [-> Hcol]; [|done..].
  apply Str.cut_inj in Hcol as [-> Hcol]; [|done..].
  apply Str.cut_inj in Hcol as [-> Hcol]; [|done..].
  apply Str.cut_inj in Hcol as [->%Dec.fmt_d_inj ->]; [done|by apply Dec.fmt_d_chars..].
Qed.

(** A node whose name holds a colon is locked out: the comment of [verify] says such a
    name cannot shift the other fields, but the header is split at every colon and must
    have exactly four parts, so each request that node signs is refused. *)
Theorem colon_node_locked_out rand key method path node now header uri now' :
  Str.has_char colon node = true →
  authorize (Ok rand) key method path node now = Ok header →
  verify key method uri header now' = Err ErrUnauthorized.
Proof.
  intros Hc [= <-]. destruct (verify _ _ _ _ _) as [n|e] eqn:E; [|by rewrite (verify_Err _ _ _ _ _ _ E)].
  exfalso. apply verify_Ok in E as (b & ts & c & E & _ & _ & Hn1 & Hb & Hc1 & _).
  unfold AuthScheme in E. cbn in E. injection E as E. apply (f_equal (Str.split colon)) in E.
  rewrite (Str.split_app_sep colon node), (Str.split_app _ n), (Str.split_app _ b), (Str.split_app _ c),
    (Str.split_app _ (Dec.fmt_d now)), (Str.split_app _ (Hex.EncodeToString rand)),
    !(Str.split_no_char _ (sign _ _ _ _ _ _)) in E by (done || apply sign_no_colon || apply hex_no_colon || by apply Dec.fmt_d_chars).
  apply (f_equal length) in E. rewrite length_app in E. simpl in E.
  pose proof (Str.split_char_length colon node Hc). lia.
Qed.
End auth.

(** ** Witnesses *)
Section witnesses.
#[local] Existing Instances sha256_fips sha256_fips_laws.
#[local] Definition key : bytes := of_string "0123456789abcdef0123456789abcdef".
#[local] Definition rand : bytes := replicate 12 Byte.x2a.
#[local] Definition uri : string := "/v1/manifest?since=7".

Lemma verify_authorize_witness :
  ∃ header, authorize (Ok rand) key "GET" uri "node1" 1755000000000000000 = Ok header ∧
    verify key "GET" uri header (1755000000000000000 + MaxSkew) = Ok "node1"%string.
Proof.
  eexists. split; [reflexivity|].
  refine (verify_authorize rand key "GET" uri "node1" 1755000000000000000 _ _ _ _ _ _ _);
    [reflexivity|discriminate|reflexivity|split; discriminate|reflexivity].
Defined.

Lemma sign_binds_witness :
  let s := sign key "GET" uri "node1" 5 "aa" in s = s ∧ ("GET", uri, "node1", 5, "aa")%string = ("GET", uri, "node1", 5, "aa")%string.
Proof.
  intros s. split; [reflexivity|].
  refine (sign_binds key "GET" uri "node1" 5 "aa" "GET" uri "node1" 5 "aa" _ _ _ _);
    [repeat constructor..|reflexivity|reflexivity].
Defined.

Lemma colon_node_locked_out_witness :
  ∃ header, authorize (Ok rand) key "GET" uri "rack1:node1" 1755000000000000000 = Ok header ∧
    verify key "GET" uri header 1755000000000000000 = Err ErrUnauthorized.
Proof.
  eexists. split; [reflexivity|].
  refine (colon_node_locked_out rand key "GET" uri "rack1:node1" 1755000000000000000 _ _ _ _ _);
    reflexivity.
Defined.
End witnesses.
