(* ===== verification/Entry.v ===== *)
(** * The domain types (internal/core/entry.go, internal/core/keys.go)

    Kinds, the replicated metadata of one path, content hashes, and the
    derivation of the cluster's keys. *)
From S2P Require Import Prelude GoStrings Clock Crypto.
From Stdlib Require Import Strings.Byte.

(** ** Kinds *)

(** A [Kind] is a uint8: a peer may send any of its values. *)
Definition Kind := Z.
Definition KindFile : Kind := 1.
Definition KindDir : Kind := 2.

(** [Kind.Valid]. *)
Definition Valid (k : Kind) : bool := (k =? KindFile) || (k =? KindDir).

(** ** Metadata *)

Record Meta := mkMeta {
  Path : string;
  MKind : Kind;
  Hash : string;
  PrevHash : string;
  Size : Z;
  Mode : Z;
  UID : Z;
  GID : Z;
  MVersion : Version;
  Deleted : bool;
  DeletedAt : Z;
  Seq : Z
}.

#[export] Instance Meta_eq_dec : EqDecision Meta.
Proof. solve_decision. Defined.

(** The zero value [core.Meta{}]. *)
Definition zero_meta : Meta :=
  mkMeta "" 0 "" "" 0 0 0 0 (mkVersion (mkTimestamp 0 0) "") false 0 0.

Definition with_Seq (s : Z) (m : Meta) : Meta :=
  mkMeta (Path m) (MKind m) (Hash m) (PrevHash m) (Size m) (Mode m) (UID m) (GID m)
    (MVersion m) (Deleted m) (DeletedAt m) s.

(** ** Content addressing *)
Section hash.
Context `{Sha256}.

Definition HashContent (b : bytes) : string := Hex.EncodeToString (sha256_sum b).

Lemma len_HashContent `{!Sha256Laws} b : Str.len (HashContent b) = 64.
Proof. unfold HashContent. by rewrite Hex.len_EncodeToString, sha256_length. Qed.

Lemma HashContent_nonempty `{!Sha256Laws} b : HashContent b ≠ EmptyString.
Proof. intros E. pose proof (len_HashContent b) as Hl. by rewrite E in Hl. Qed.

(** Two contents have the same address exactly when their sums agree. *)
Lemma HashContent_inj b1 b2 :
  HashContent b1 = HashContent b2 ↔ sha256_sum b1 = sha256_sum b2.
Proof. split; [apply Hex.EncodeToString_inj|unfold HashContent; congruence]. Qed.
End hash.

(** ** Keys *)

Definition MinSecretLen : Z := 16.

Record Keys := mkKeys { Gossip : bytes; API : bytes; Blob : bytes }.

Section keys.
Context `{Sha256}.

Definition salt : string := "distributed-configs-fs/v1".

(** hkdf.Key fails only on a length above 255 sums: deriving 32 bytes cannot fail. *)
Definition DeriveKeys (secret : string) : result Keys :=
  if Str.len secret <? MinSecretLen then Err ErrWeakSecret
  else
    let derive info := hkdf_key (of_string secret) (of_string salt) info in
    Ok (mkKeys (derive "gossip"%string) (derive "api-hmac"%string) (derive "blob-seal"%string)).

(** A secret shorter than 16 bytes is refused; any other yields three 32-byte keys. *)
Lemma DeriveKeys_spec `{!Sha256Laws} secret :
  (Str.len secret < MinSecretLen ∧ DeriveKeys secret = Err ErrWeakSecret) ∨
  (MinSecretLen ≤ Str.len secret ∧ ∃ k, DeriveKeys secret = Ok k ∧
    length (Gossip k) = 32%nat ∧ length (API k) = 32%nat ∧ length (Blob k) = 32%nat).
Proof.
  unfold DeriveKeys. destruct (Z.ltb_spec (Str.len secret) MinSecretLen); [by left|right].
  split; [done|]. eexists. split; [done|]. simpl. split_and!; apply hkdf_length.
Qed.
End keys.

(** The labels separate the keys. *)
Example DeriveKeys_separated :
  match @DeriveKeys sha256_fips "correct horse battery" with
  | Ok k => bool_decide (Gossip k ≠ API k ∧ Gossip k ≠ Blob k ∧ API k ≠ Blob k)
  | Err _ => false
  end = true.
Proof. vm_compute. reflexivity. Qed.
