(* ===== verification/Store.v ===== *)
(** * The local store (internal/store/store.go, migrations/00001_init.sql)

    SQLite holds four tables; a table with a primary key is a finite map from
    the key to the row.  A statement runs atomically: it yields a result and new
    tables, or it fails and changes nothing.  The typeclass [DBFaults] says which
    statements of a run fail for reasons of their own (disk full, cancelled
    context): it is arbitrary, so every theorem about the store that does not
    exclude it covers those failures too. *)
From S2P Require Import Prelude GoStrings Clock Crypto Entry.
From Stdlib Require Import Ascii.

(** ** Tables *)

Record entryRow := mkEntryRow {
  r_Path : string;
  r_Kind : Z;
  r_Hash : string;
  r_PrevHash : string;
  r_Size : Z;
  r_Mode : Z;
  r_UID : Z;
  r_GID : Z;
  r_HLCWall : Z;
  r_HLCCounter : Z;
  r_Origin : string;
  r_Deleted : bool;
  r_DeletedAt : Z;
  r_Seq : Z
}.

Record blobRow := mkBlobRow { b_Hash : string; b_Size : Z; b_Data : bytes }.

Record peerRow := mkPeerRow { p_Node : string; p_Addr : string; p_LastSeq : Z; p_SeenAt : Z }.

Record tables := mkTables {
  entries : gmap string entryRow;
  blobs : gmap string blobRow;
  peers : gmap string peerRow;
  local_seq : Z          (* the one row of table local *)
}.

(** The database as the migration leaves it. *)
Definition empty_tables : tables := mkTables ∅ ∅ ∅ 0.

Definition meta (r : entryRow) : Meta :=
  mkMeta (r_Path r) (r_Kind r) (r_Hash r) (r_PrevHash r) (r_Size r) (r_Mode r) (r_UID r) (r_GID r)
    (mkVersion (mkTimestamp (r_HLCWall r) (r_HLCCounter r)) (r_Origin r))
    (r_Deleted r) (r_DeletedAt r) (r_Seq r).

(** [rowOf] leaves Seq at its zero value; Apply assigns it. *)
Definition rowOf (m : Meta) : entryRow :=
  mkEntryRow (Path m) (MKind m) (Hash m) (PrevHash m) (Size m) (Mode m) (UID m) (GID m)
    (Wall (HLC (MVersion m))) (Counter (HLC (MVersion m))) (Origin (MVersion m))
    (Deleted m) (DeletedAt m) 0.

Definition row_with_seq (s : Z) (r : entryRow) : entryRow :=
  mkEntryRow (r_Path r) (r_Kind r) (r_Hash r) (r_PrevHash r) (r_Size r) (r_Mode r) (r_UID r)
    (r_GID r) (r_HLCWall r) (r_HLCCounter r) (r_Origin r) (r_Deleted r) (r_DeletedAt r) s.

Definition set_entries (e : gmap string entryRow) (t : tables) : tables :=
  mkTables e (blobs t) (peers t) (local_seq t).
Definition set_blobs (b : gmap string blobRow) (t : tables) : tables :=
  mkTables (entries t) b (peers t) (local_seq t).
Definition set_peers (p : gmap string peerRow) (t : tables) : tables :=
  mkTables (entries t) (blobs t) p (local_seq t).
Definition set_seq (s : Z) (t : tables) : tables :=
  mkTables (entries t) (blobs t) (peers t) s.

(** ** Statements and transactions *)

Class DBFaults := db_fails : nat → bool.

(** The open database: its tables, and how many statements it has run. *)
Record DB := mkDB { tbl : tables; stmts : nat }.

Section store.
Context `{DBFaults, Sha256}.

Definition exec {A} (q : ST tables A) : ST DB A := λ d,
  if db_fails (stmts d) then (Err ErrDB, mkDB (tbl d) (S (stmts d)))
  else match q (tbl d) with
       | (Ok a, t) => (Ok a, mkDB t (S (stmts d)))
       | (Err e, _) => (Err e, mkDB (tbl d) (S (stmts d)))
       end.

Definition select {A} (f : tables → A) : ST DB A := exec (gets f).

(** gorm's Transaction: the body and the COMMIT, or a rollback. *)
Definition Transaction {A} (body : ST DB A) : ST DB A := λ d,
  match (a ← body; _ ← select (λ _, tt); mret a) d with
  | (Ok a, d') => (Ok a, d')
  | (Err e, d') => (Err e, mkDB (tbl d) (stmts d'))
  end.

(** ** Entries *)

Definition rows (t : tables) : list Meta := meta <$> (map_to_list (entries t)).*2.

(** The queries of All, Live and ManifestSince. *)
Definition select_all (t : tables) : list Meta := sort_on Path Str.le (rows t).
Definition select_live (t : tables) : list Meta :=
  sort_on Path Str.le (filter (λ m, Deleted m = false) (rows t)).
Definition select_since (seq : Z) (limit : nat) (t : tables) : list Meta :=
  take limit (sort_on Seq Z.le (filter (λ m, seq < Seq m) (rows t))).

Definition Get (path : string) : ST DB Meta :=
  r ← select (λ t, entries t !! path);
  match r with
  | Some row => mret (meta row)
  | None => throw ErrNotFound
  end.

Definition All : ST DB (list Meta) := select select_all.
Definition Live : ST DB (list Meta) := select select_live.
Definition ManifestSince (seq : Z) (limit : nat) : ST DB (list Meta) :=
  select (select_since seq limit).

Definition Head : ST DB Z := select local_seq.

(** The line [fmt.Fprintf] writes into the digest for one entry. *)
Definition NUL : string := String "000"%char EmptyString.
Definition LF : string := String "010"%char EmptyString.
Definition digest_line (m : Meta) : string :=
  Path m +:+ NUL +:+ Dec.fmt_d (MKind m) +:+ NUL +:+ Hash m +:+ NUL +:+ Dec.fmt_d (Mode m)
  +:+ NUL +:+ Dec.fmt_d (UID m) +:+ NUL +:+ Dec.fmt_d (GID m) +:+ NUL
  +:+ Dec.fmt_d (Wall (HLC (MVersion m))) +:+ NUL +:+ Dec.fmt_d (Counter (HLC (MVersion m)))
  +:+ NUL +:+ Origin (MVersion m) +:+ NUL +:+ Dec.fmt_t (Deleted m) +:+ LF.

Definition digest_text (ms : list Meta) : string := foldr (λ m s, digest_line m +:+ s) EmptyString ms.

Definition digest_of (t : tables) : string :=
  HashContent (of_string (digest_text (select_all t))).

(** The digest, the number of entries and the highest Seq among them. *)
Definition Digest : ST DB (string * Z * Z) :=
  ms ← All;
  mret (HashContent (of_string (digest_text ms)), Z.of_nat (length ms),
        fold_left (λ head m, head `max` Seq m) ms 0).

(** One row of the INSERT ... ON CONFLICT(path) DO UPDATE: the UNIQUE index on
    seq refuses a row whose seq another path holds. *)
Definition seq_taken (r : entryRow) (e : gmap string entryRow) : bool :=
  existsb (λ kr, negb (String.eqb kr.1 (r_Path r)) && (r_Seq kr.2 =? r_Seq r)) (map_to_list e).

Fixpoint upsert (rs : list entryRow) : ST tables unit :=
  match rs with
  | [] => mret tt
  | r :: rs' =>
      e ← gets entries;
      if seq_taken r e then throw ErrDB
      else _ ← modify (set_entries (<[r_Path r := r]> e)); upsert rs'
  end.

(** UPDATE local SET seq = seq + n RETURNING seq; the column is a 64-bit integer. *)
Definition bump_seq (n : Z) : ST tables Z :=
  s ← gets local_seq;
  if max_int64 <? s + n then throw ErrDB
  else _ ← modify (set_seq (s + n)); mret (s + n).

(** The rows of a batch, with the positions after [base]. *)
Definition batch_rows (base : Z) (metas : list Meta) : list entryRow :=
  imap (λ i m, row_with_seq (base + Z.of_nat i + 1) (rowOf m)) metas.

Definition Apply (metas : list Meta) : ST DB Z :=
  match metas with
  | [] => Head
  | _ =>
      Transaction (
        let n := Z.of_nat (length metas) in
        head ← exec (bump_seq n);
        let base := head - n in
        _ ← exec (upsert (batch_rows base metas));
        mret head)
  end.

(** ** Blobs *)

Definition PutBlob (content : bytes) : ST DB string :=
  let hash := HashContent content in
  let row := mkBlobRow hash (Z.of_nat (length content)) content in
  _ ← exec (modify (λ t,
    match blobs t !! hash with
    | Some _ => t
    | None => set_blobs (<[hash := row]> (blobs t)) t
    end));
  mret hash.

Definition GetBlob (hash : string) : ST DB bytes :=
  r ← select (λ t, blobs t !! hash);
  match r with
  | Some row => mret (b_Data row)
  | None => throw ErrNotFound
  end.

Definition HasBlob (hash : string) : ST DB bool :=
  n ← select (λ t, if blobs t !! hash is Some _ then 1 else 0);
  mret (0 <? n).

(** ** Peers *)

Definition PeerSeq (node : string) : ST DB Z :=
  r ← select (λ t, peers t !! node);
  mret (match r with Some row => p_LastSeq row | None => 0 end).

Definition SetPeerSeq (node addr : string) (seq seenAt : Z) : ST DB unit :=
  exec (modify (λ t, set_peers (<[node := mkPeerRow node addr seq seenAt]> (peers t)) t)).

(** Every peer ever pulled from, ordered by node. *)
Definition Peers : ST DB (list peerRow) :=
  select (λ t, sort_on p_Node Str.le (map_to_list (peers t)).*2).

(** ** Garbage collection *)

Definition expired (before : Z) (r : entryRow) : bool :=
  r_Deleted r && (0 <? r_DeletedAt r) && (r_DeletedAt r <? before).

Definition GCTombstones (before : Z) : ST DB Z :=
  exec (
    e ← gets entries;
    let gone := filter (λ kr, expired before kr.2 = true) e in
    let kept := filter (λ kr, expired before kr.2 = false) e in
    _ ← modify (set_entries kept);
    mret (Z.of_nat (size gone))).

(** The content addresses entries refer to, tombstones included. *)
Definition referenced (t : tables) (hash : string) : bool :=
  existsb (λ r, negb (String.eqb (r_Hash r) EmptyString) && String.eqb (r_Hash r) hash)
    (map_to_list (entries t)).*2.

Definition GCBlobs : ST DB Z :=
  exec (
    t ← gets id;
    let gone := filter (λ kb, referenced t kb.1 = false) (blobs t) in
    let kept := filter (λ kb, referenced t kb.1 = true) (blobs t) in
    _ ← modify (set_blobs kept);
    mret (Z.of_nat (size gone))).

(** ** Stats *)

Record StatsRow := mkStats
  { st_Entries : Z; st_Tombstones : Z; st_Blobs : Z; st_BlobBytes : Z; st_Head : Z }.

Definition Stats : ST DB StatsRow :=
  n ← select (λ t, Z.of_nat (size (entries t)));
  d ← select (λ t, Z.of_nat (size (filter (λ kr, r_Deleted kr.2 = true) (entries t))));
  b ← select (λ t, Z.of_nat (size (blobs t)));
  sz ← select (λ t, foldr (λ r a, b_Size r + a) 0 (map_to_list (blobs t)).*2);
  head ← Head;
  mret (mkStats n d b sz head).
End store.

(** ** The invariant of the database *)

Section facts.
Context `{DBFaults, Sha256}.
Implicit Types (t : tables) (d : DB) (m : Meta) (ms : list Meta) (p : string).

(** Rows sit under their path, feed positions are distinct and not above the
    counter, blobs sit under the hash of their content. *)
Record wf_tables t : Prop := {
  wf_key : ∀ p r, entries t !! p = Some r → r_Path r = p;
  wf_seq : ∀ p r, entries t !! p = Some r → 0 < r_Seq r ≤ local_seq t;
  wf_uniq : ∀ p1 p2 r1 r2, entries t !! p1 = Some r1 → entries t !! p2 = Some r2 →
              r_Seq r1 = r_Seq r2 → p1 = p2;
  wf_blob : ∀ h b, blobs t !! h = Some b →
              b_Hash b = h ∧ HashContent (b_Data b) = h ∧ b_Size b = Z.of_nat (length (b_Data b));
  wf_local : 0 ≤ local_seq t
}.

Lemma wf_empty : wf_tables empty_tables.
Proof. split; simpl; intros; rewrite ?lookup_empty in *; [done..|lia]. Qed.

(** ** Statements *)

(** Some statement of the run fails for a reason of its own. *)
Definition db_fault : Prop := ∃ n, db_fails n = true.

Lemma exec_inv {A} (q : ST tables A) d res d' :
  exec q d = (res, d') →
  (res = Err ErrDB ∧ db_fault ∧ tbl d' = tbl d) ∨
  (∃ e t, res = Err e ∧ tbl d' = tbl d ∧ q (tbl d) = (Err e, t)) ∨
  (∃ a, res = Ok a ∧ q (tbl d) = (Ok a, tbl d')).
Proof.
  unfold exec. destruct (db_fails (stmts d)) eqn:Ef; intros; simplify_eq/=.
  { left. split_and!; [done|by exists (stmts d)|done]. }
  right.
  destruct (q (tbl d)) as [[a|e] t] eqn:E; simplify_eq/=; [by eauto 10|by eauto 10].
Qed.

Lemma select_inv {A} (f : tables → A) d res d' :
  select f d = (res, d') →
  tbl d' = tbl d ∧ ((res = Err ErrDB ∧ db_fault) ∨ res = Ok (f (tbl d))).
Proof.
  intros [(-> & Hf & E)|[(e & t & -> & E & Hq)|(a & -> & Hq)]]%exec_inv; [by auto|by simplify_eq/=|].
  unfold gets in Hq. naive_solver.
Qed.

Lemma select_bind_inv {A B} (f : tables → A) (k : A → ST DB B) d res d' :
  (x ← select f; k x) d = (res, d') →
  (res = Err ErrDB ∧ db_fault ∧ tbl d' = tbl d) ∨
  (∃ d1, tbl d1 = tbl d ∧ k (f (tbl d)) d1 = (res, d')).
Proof.
  unfold mbind, ST_bind. destruct (select f d) as [r d1] eqn:E.
  apply select_inv in E as [Ht [[-> Hf]| ->]]; intros; simplify_eq; eauto 10.
Qed.

Lemma select_ok {A} (f : tables → A) d :
  db_fails (stmts d) = false → select f d = (Ok (f (tbl d)), mkDB (tbl d) (S (stmts d))).
Proof. unfold select, exec. by intros ->. Qed.

Lemma Transaction_err {A} (body : ST DB A) d e d' :
  Transaction body d = (Err e, d') → tbl d' = tbl d.
Proof. unfold Transaction. case_match. case_match; intros; by simplify_eq. Qed.

Lemma Transaction_inv {A} (body : ST DB A) d res d' :
  Transaction body d = (res, d') →
  (∃ e, res = Err e ∧ tbl d' = tbl d ∧ ((∃ d1, body d = (Err e, d1)) ∨ e = ErrDB ∧ db_fault)) ∨
  (∃ a d1, res = Ok a ∧ body d = (Ok a, d1) ∧ tbl d' = tbl d1).
Proof.
  unfold Transaction, mbind, ST_bind. destruct (body d) as [[a|e] d1] eqn:Eb.
  - destruct (select (λ _, tt) d1) as [r d2] eqn:Es. apply select_inv in Es as [Ht Hr].
    destruct Hr as [[-> Hf]| ->]; intros; simplify_eq/=; [left|right]; eauto 10.
  - intros; simplify_eq/=. left. eauto 10.
Qed.

(** ** Apply *)

(** Storing one entry at the next feed position. *)
Definition apply1 m t : tables :=
  mkTables (<[Path m := row_with_seq (local_seq t + 1) (rowOf m)]> (entries t))
    (blobs t) (peers t) (local_seq t + 1).

(** Storing entries one after the other: what a batch has to amount to. *)
Definition applied ms t : tables := foldl (λ t m, apply1 m t) t ms.

Lemma applied_snoc ms m t : applied (ms ++ [m]) t = apply1 m (applied ms t).
Proof. unfold applied. by rewrite foldl_app. Qed.

Lemma applied_seq ms t : local_seq (applied ms t) = local_seq t + Z.of_nat (length ms).
Proof.
  induction ms as [|m ms IH] using rev_ind; simpl; [lia|].
  rewrite applied_snoc, length_app; simpl. lia.
Qed.

Lemma applied_other ms t : blobs (applied ms t) = blobs t ∧ peers (applied ms t) = peers t.
Proof. induction ms as [|m ms IH] using rev_ind; [done|]. by rewrite applied_snoc. Qed.

Lemma wf_apply1 m t : wf_tables t → wf_tables (apply1 m t).
Proof.
  intros [Hk Hs Hu Hb Hl]. split; simpl; [| | |done|lia].
  - intros p r. rewrite lookup_insert. case_decide; [by intros; simplify_eq|auto].
  - intros p r. rewrite lookup_insert. case_decide; intros Hr; simplify_eq/=; [lia|].
    specialize (Hs _ _ Hr). lia.
  - intros p1 p2 r1 r2. rewrite !lookup_insert.
    repeat case_decide; intros Hr1 Hr2; simplify_eq/=; try done; intros E; eauto;
      [specialize (Hs _ _ Hr2)|specialize (Hs _ _ Hr1)]; lia.
Qed.

Lemma wf_applied ms t : wf_tables t → wf_tables (applied ms t).
Proof.
  intros Hw. induction ms as [|m ms IH] using rev_ind; [done|].
  rewrite applied_snoc. by apply wf_apply1.
Qed.
#[local] Hint Resolve wf_apply1 wf_applied wf_empty : dcfs.

Lemma seq_taken_false r (e : gmap string entryRow) :
  (∀ p r', e !! p = Some r' → r_Seq r' < r_Seq r) → seq_taken r e = false.
Proof.
  intros He. apply not_true_iff_false. unfold seq_taken. rewrite existsb_exists.
  intros ([p r'] & Hin & [_ Hs%Z.eqb_eq]%andb_prop).
  apply list_elem_of_In, elem_of_map_to_list in Hin. simpl in *. specialize (He _ _ Hin). lia.
Qed.

(** With positions above every stored one and increasing, no row of a batch
    violates the UNIQUE index. *)
Lemma upsert_applied ms base t :
  (∀ p r, entries t !! p = Some r → r_Seq r ≤ base) →
  upsert (batch_rows base ms) t =
    (Ok tt, mkTables (entries (applied ms (set_seq base t))) (blobs t) (peers t) (local_seq t)).
Proof.
  revert base t. induction ms as [|m ms IH]; intros base t Ht; [by destruct t|].
  unfold batch_rows. simpl. rewrite Z.add_0_r. unfold mbind, ST_bind, gets; simpl.
  set (r := row_with_seq (base + 1) (rowOf m)).
  rewrite seq_taken_false; [|simpl; intros ? ? Hr%Ht; lia]. simpl.
  rewrite (imap_ext _ (λ i m0, row_with_seq (base + 1 + Z.of_nat i + 1) (rowOf m0))).
  - change (imap (λ i m0, row_with_seq (base + 1 + Z.of_nat i + 1) (rowOf m0)) ms)
      with (batch_rows (base + 1) ms).
    rewrite IH; [done|]. intros p r'; simpl. rewrite lookup_insert.
    case_decide; intros Hr; simplify_eq/=; [lia|]. apply Ht in Hr. lia.
  - intros i x _. simpl. f_equal. lia.
Qed.

Lemma bump_seq_eq n t :
  bump_seq n t = if max_int64 <? local_seq t + n then (Err ErrDB, t)
                 else (Ok (local_seq t + n), set_seq (local_seq t + n) t).
Proof. unfold bump_seq, mbind, ST_bind, gets. simpl. by case_match. Qed.

Lemma Apply_inv ms d res d' :
  wf_tables (tbl d) → Apply ms d = (res, d') →
  (res = Err ErrDB ∧ tbl d' = tbl d ∧
   (db_fault ∨ max_int64 < local_seq (tbl d) + Z.of_nat (length ms))) ∨
  (res = Ok (local_seq (tbl d')) ∧ tbl d' = applied ms (tbl d)).
Proof.
  intros Hw E. destruct ms as [|m ms].
  { apply select_inv in E as [Ht [[-> ?]| ->]]; [by left; auto|right]. by rewrite Ht. }
  apply Transaction_inv in E as [(e & -> & Ht & He)|(h & d3 & -> & E & Ht)].
  - left. destruct He as [(d3 & E)|[-> ?]]; [|by auto].
    apply bind_inv in E as (r & d1 & E1 & E).
    apply exec_inv in E1 as [(-> & Hf & _)|[(e1 & t & -> & _ & Hb)|(h & -> & Hb)]].
    + destruct E. by simplify_eq; auto.
    + rewrite bump_seq_eq in Hb. destruct E. simplify_eq. destruct (Z.ltb_spec max_int64
        (local_seq (tbl d) + Z.of_nat (length (m :: ms)))); by simplify_eq; auto.
    + rewrite bump_seq_eq in Hb. case_match; [done|]. injection Hb as <- Hb.
      apply bind_inv in E as (r & d2 & E2 & E).
      apply exec_inv in E2 as [(-> & Hf & _)|[(e1 & t & -> & _ & Hu)|(? & -> & Hu)]].
      * destruct E. by simplify_eq; auto.
      * rewrite Z.add_simpl_r, <- Hb, upsert_applied in Hu; [done|].
        intros p r Hr; destruct (wf_seq _ Hw p r Hr); done.
      * done.
  - right. rewrite Ht. clear Ht.
    apply bind_Ok in E as (h1 & d1 & E1 & (u & d2 & E2 & E3)%bind_Ok).
    unfold mret, ST_ret in E3. simplify_eq.
    apply exec_inv in E1 as [(? & _)|[(? & ? & ? & _)|(? & [= <-] & Hb)]]; [done..|].
    rewrite bump_seq_eq in Hb. case_match; [done|]. injection Hb as <- Hb.
    apply exec_inv in E2 as [(? & _)|[(? & ? & ? & _)|(? & _ & Hu)]]; [done..|].
    rewrite Z.add_simpl_r, <- Hb in Hu.
    rewrite upsert_applied in Hu by (intros p r Hr; destruct (wf_seq _ Hw p r Hr); done).
    injection Hu as _ Hu. rewrite <- Hu.
    assert (∀ x, set_seq (local_seq (tbl d)) (set_seq x (tbl d)) = tbl d) as ->
      by (by destruct (tbl d)).
    destruct (applied_other (m :: ms) (tbl d)) as [<- <-].
    rewrite <- (applied_seq (m :: ms)).
    change (applied ms (apply1 m (tbl d))) with (applied (m :: ms) (tbl d)).
    by destruct (applied (m :: ms) (tbl d)).
Qed.

(** ** The replicated tree *)

(** What is replicated of the entries: everything but the local position. *)
Definition tree t : gmap string Meta := (λ r, with_Seq 0 (meta r)) <$> entries t.

Lemma meta_rowOf m s : meta (row_with_seq s (rowOf m)) = with_Seq s m.
Proof. by destruct m as [? ? ? ? ? ? ? ? [[? ?] ?] ? ? ?]. Qed.

Lemma with_Seq_twice s s' m : with_Seq s (with_Seq s' m) = with_Seq s m.
Proof. done. Qed.

Lemma tree_apply1 m t : tree (apply1 m t) = <[Path m := with_Seq 0 m]> (tree t).
Proof. unfold tree; simpl. by rewrite fmap_insert, meta_rowOf. Qed.

Lemma tree_applied ms t :
  tree (applied ms t) = foldl (λ T m, <[Path m := with_Seq 0 m]> T) (tree t) ms.
Proof.
  induction ms as [|m ms IH] using rev_ind; [done|].
  by rewrite applied_snoc, tree_apply1, IH, foldl_app.
Qed.

(** The last entry of a batch for a path. *)
Definition last_for p ms : option Meta := last (filter (λ m, Path m = p) ms).

Lemma last_for_snoc p ms m :
  last_for p (ms ++ [m]) = if decide (Path m = p) then Some m else last_for p ms.
Proof.
  unfold last_for. rewrite filter_app, filter_cons, filter_nil.
  case_decide; [by rewrite last_snoc|by rewrite app_nil_r].
Qed.

Lemma tree_applied_lookup ms t p :
  tree (applied ms t) !! p =
    match last_for p ms with Some m => Some (with_Seq 0 m) | None => tree t !! p end.
Proof.
  induction ms as [|m ms IH] using rev_ind; [done|].
  rewrite applied_snoc, tree_apply1, last_for_snoc, lookup_insert, IH.
  by case_decide; simplify_eq.
Qed.

Lemma last_for_Some p ms m : last_for p ms = Some m → m ∈ ms ∧ Path m = p.
Proof. intros Hl%last_Some_elem_of. by apply list_elem_of_filter in Hl as [-> ?]. Qed.

Lemma last_for_None p ms : last_for p ms = None ↔ p ∉ Path <$> ms.
Proof.
  unfold last_for. rewrite last_None. split.
  - intros Hf Hin. apply list_elem_of_fmap in Hin as (m & -> & Hm).
    apply (not_elem_of_nil m). rewrite <- Hf. by apply list_elem_of_filter.
  - intros Hn. destruct (filter _ ms) as [|m l] eqn:E; [done|]. destruct Hn.
    assert (m ∈ filter (λ m, Path m = p) ms) as Hm by (rewrite E; by left).
    apply list_elem_of_filter in Hm as [<- Hm]. by apply list_elem_of_fmap_2.
Qed.

Lemma elem_of_rows t m :
  m ∈ rows t ↔ ∃ p r, entries t !! p = Some r ∧ m = meta r.
Proof.
  unfold rows. rewrite list_elem_of_fmap. setoid_rewrite list_elem_of_fmap. split.
  - intros (r & -> & [p r'] & -> & Hin%elem_of_map_to_list). by eauto.
  - intros (p & r & Hr & ->). exists r. split; [done|]. exists (p, r).
    split; [done|]. by apply elem_of_map_to_list.
Qed.

Lemma elem_of_since seq limit t m :
  (length (rows t) ≤ limit)%nat →
  m ∈ select_since seq limit t ↔ m ∈ rows t ∧ seq < Seq m.
Proof.
  intros Hlim. unfold select_since. rewrite take_ge.
  - rewrite elem_of_sort_on, list_elem_of_filter. tauto.
  - unfold sort_on. rewrite merge_sort_Permutation.
    pose proof (length_filter (λ m, seq < Seq m) (rows t)). lia.
Qed.

(** Reading the entry of a path. *)
Lemma Get_inv p d res d' :
  Get p d = (res, d') → tbl d' = tbl d ∧
    ((res = Err ErrDB ∧ db_fault) ∨
     match entries (tbl d) !! p with
     | Some r => res = Ok (meta r)
     | None => res = Err ErrNotFound
     end).
Proof.
  unfold Get. intros [(-> & ? & Ht)|(d1 & Ht & E)]%select_bind_inv; [by auto|].
  destruct (entries (tbl d) !! p); unfold mret, ST_ret, throw in E; simplify_eq; by auto.
Qed.
End facts.
#[export] Hint Resolve wf_apply1 wf_applied wf_empty : dcfs.
