(* ===== verification/StoreFacts.v ===== *)
(** * What the store promises

    The changes feed, the digest and garbage collection: the facts the syncer and
    the transport rely on. *)
From S2P Require Import Prelude GoStrings Clock Crypto Entry Store.
From Stdlib Require Import Ascii.

Section facts.
Context `{DBFaults, Sha256}.
Implicit Types (t : tables) (d : DB) (m : Meta) (ms : list Meta) (p : string).

(** ** The changes feed *)

Lemma applied_row ms t p r :
  wf_tables t → entries (applied ms t) !! p = Some r →
  (p ∈ Path <$> ms ∧ local_seq t < r_Seq r ≤ local_seq t + Z.of_nat (length ms)) ∨
  (¬ p ∈ Path <$> ms ∧ entries t !! p = Some r).
Proof.
  intros Hw. revert r. induction ms as [|m ms IH] using rev_ind; intros r.
  { intros Hr. right. split; [apply not_elem_of_nil|done]. }
  rewrite applied_snoc, fmap_app, length_app. simpl. rewrite lookup_insert.
  pose proof (applied_seq ms t) as Hs.
  case_decide as Hp; intros Hr; simplify_eq/=.
  - left. split; [set_solver|lia].
  - destruct (IH _ Hr) as [[Hin ?]|[Hin ?]]; [left|right]; (split; [set_solver|done || lia]).
Qed.

Lemma applied_has ms t p :
  p ∈ Path <$> ms → is_Some (entries (applied ms t) !! p).
Proof.
  induction ms as [|m ms IH] using rev_ind; [by intros ?%not_elem_of_nil|].
  rewrite applied_snoc, fmap_app. simpl. rewrite lookup_insert. intros Hin.
  case_decide; [by eauto|]. apply IH. set_solver.
Qed.

(** C16: A successful [Apply] is the entries of the batch stored one after the other at
    the next feed positions, and a failed one changes nothing.  The head it returns
    is the counter, and a reader bookmarked at the old head finds in the feed exactly the
    paths of the batch, each with its last entry: no update of an existing path is
    missed. *)
Theorem Apply_feed ms d head d' limit :
  wf_tables (tbl d) → Apply ms d = (Ok head, d') →
  (length (rows (tbl d')) ≤ limit)%nat →
  head = local_seq (tbl d) + Z.of_nat (length ms) ∧
  (∀ p, tree (tbl d') !! p = match last_for p ms with
                             | Some m => Some (with_Seq 0 m)
                             | None => tree (tbl d) !! p
                             end) ∧
  (∀ p, p ∈ Path <$> select_since (local_seq (tbl d)) limit (tbl d') ↔ p ∈ Path <$> ms) ∧
  wf_tables (tbl d').
Proof.
  intros Hw E Hlim. destruct (Apply_inv _ _ _ _ Hw E) as [(? & ? & _)|[[= ->] Ht]]; [done|].
  rewrite Ht in *. split_and!.
  - apply applied_seq.
  - intros p. apply tree_applied_lookup.
  - intros p. rewrite !list_elem_of_fmap. setoid_rewrite (elem_of_since _ _ _ _ Hlim).
    setoid_rewrite elem_of_rows. split.
    + intros (m & -> & (p' & r & Hr & ->) & Hseq). simpl in *.
      pose proof (wf_key _ (wf_applied ms _ Hw) _ _ Hr) as Hk.
      destruct (applied_row _ _ _ _ Hw Hr) as [[Hin _]|[_ Hold]].
      * rewrite Hk. by apply list_elem_of_fmap in Hin.
      * destruct (wf_seq _ Hw _ _ Hold). lia.
    + intros Hin. apply list_elem_of_fmap in Hin. destruct (applied_has _ (tbl d) _ Hin) as [r Hr].
      exists (meta r). rewrite (wf_key _ (wf_applied ms _ Hw) _ _ Hr : Path (meta r) = p).
      split_and!; [done|by eauto|].
      destruct (applied_row _ _ _ _ Hw Hr) as [[_ ?]|[? _]]; [simpl; lia|done].
  - by apply wf_applied.
Qed.

(** [Apply] is all or nothing: whichever statement fails, and at whatever point of
    the transaction, the tables are the ones from before. *)
Theorem Apply_atomic ms d e d' :
  Apply ms d = (Err e, d') → tbl d' = tbl d.
Proof.
  destruct ms as [|m ms]; [|by apply Transaction_err].
  intros [Ht _]%select_inv. done.
Qed.

(** ** The digest *)

(** The part of an entry the digest covers. *)
Definition digested m : Meta :=
  mkMeta (Path m) (MKind m) (Hash m) "" 0 (Mode m) (UID m) (GID m) (MVersion m) (Deleted m) 0 0.

Definition digested_tree t : gmap string Meta := digested <$> tree t.

(** No field of the line holds the separator. *)
Definition no_nul m : Prop :=
  Str.has_char "000" (Path m) = false ∧ Str.has_char "000" (Hash m) = false ∧
  Str.has_char "000" (Origin (MVersion m)) = false.

Lemma digest_line_digested m : digest_line (digested m) = digest_line m.
Proof. done. Qed.

Lemma sep_inj a b s u :
  Str.has_char "000" a = false → Str.has_char "000" b = false →
  a +:+ NUL +:+ s = b +:+ NUL +:+ u → a = b ∧ s = u.
Proof. apply Str.cut_inj. Qed.

Lemma last_field_inj b1 b2 s u :
  Dec.fmt_t b1 +:+ LF +:+ s = Dec.fmt_t b2 +:+ LF +:+ u → b1 = b2 ∧ s = u.
Proof. destruct b1, b2; simpl; intros E; by simplify_eq. Qed.

(** A line determines the entry, whatever follows it. *)
Lemma digest_line_inj m1 m2 s u :
  no_nul m1 → no_nul m2 → digest_line m1 +:+ s = digest_line m2 +:+ u →
  digested m1 = digested m2 ∧ s = u.
Proof.
  intros (Hp1 & Hh1 & Ho1) (Hp2 & Hh2 & Ho2). unfold digest_line.
  rewrite !Str.app_assoc. intros E.
  apply sep_inj in E as [E1 E]; [|done..].
  apply sep_inj in E as [E2%Dec.fmt_d_inj E]; [|by apply Dec.fmt_d_chars..].
  apply sep_inj in E as [E3 E]; [|done..].
  apply sep_inj in E as [E4%Dec.fmt_d_inj E]; [|by apply Dec.fmt_d_chars..].
  apply sep_inj in E as [E5%Dec.fmt_d_inj E]; [|by apply Dec.fmt_d_chars..].
  apply sep_inj in E as [E6%Dec.fmt_d_inj E]; [|by apply Dec.fmt_d_chars..].
  apply sep_inj in E as [E7%Dec.fmt_d_inj E]; [|by apply Dec.fmt_d_chars..].
  apply sep_inj in E as [E8%Dec.fmt_d_inj E]; [|by apply Dec.fmt_d_chars..].
  apply sep_inj in E as [E9 E]; [|done..].
  apply last_field_inj in E as [E10 E].
  split; [|done]. destruct m1 as [? ? ? ? ? ? ? ? [[? ?] ?] ? ? ?],
    m2 as [? ? ? ? ? ? ? ? [[? ?] ?] ? ? ?]; unfold digested; simpl in *. congruence.
Qed.

Lemma digest_text_inj ms1 ms2 :
  Forall no_nul ms1 → Forall no_nul ms2 → digest_text ms1 = digest_text ms2 →
  digested <$> ms1 = digested <$> ms2.
Proof.
  assert (∀ m s, digest_line m +:+ s ≠ EmptyString) as Hne.
  { intros m s. unfold digest_line. by destruct (Path m). }
  intros H1. revert ms2. induction H1 as [|m1 ms1 Hm1 _ IH]; intros [|m2 ms2] H2 E; simpl in *.
  - done.
  - by destruct (Hne m2 (digest_text ms2)).
  - by destruct (Hne m1 (digest_text ms1)).
  - inversion_clear H2. apply digest_line_inj in E as [-> E]; [|done..]. f_equal. auto.
Qed.

Lemma digest_text_digested ms : digest_text (digested <$> ms) = digest_text ms.
Proof. induction ms as [|m ms IH]; simpl; [done|]. exact (f_equal (String.append (digest_line m)) IH). Qed.

Lemma rows_paths t : wf_tables t → Path <$> rows t = (map_to_list (entries t)).*1.
Proof.
  intros Hw. unfold rows. rewrite <- !list_fmap_compose.
  apply list_fmap_ext. intros i [p r] Hi. simpl.
  apply (wf_key _ Hw), elem_of_map_to_list. by eapply list_elem_of_lookup_2.
Qed.

Lemma rows_NoDup t : wf_tables t → NoDup (Path <$> rows t).
Proof. intros Hw. rewrite rows_paths by done. apply NoDup_fst_map_to_list. Qed.

(** The rows the digest covers, in its order, are those of the tree. *)
Lemma select_all_tree t :
  wf_tables t →
  digested <$> select_all t = sort_on Path Str.le (map_to_list (digested_tree t)).*2.
Proof.
  intros Hw.
  assert (digested <$> rows t = (map_to_list (digested_tree t)).*2) as E.
  { unfold digested_tree, tree, rows. rewrite !map_to_list_fmap, <- !list_fmap_compose.
    apply list_fmap_ext. by intros i [p r] _. }
  assert (Path <$> (digested <$> rows t) = Path <$> rows t) as Ep.
  { by rewrite <- list_fmap_compose. }
  apply (sorted_unique Path Str.le).
  - rewrite <- list_fmap_compose. change (NoDup (Path <$> select_all t)).
    unfold select_all. rewrite (sort_on_perm Path Str.le). by apply rows_NoDup.
  - unfold select_all. by rewrite !(sort_on_perm Path Str.le), E.
  - apply (StronglySorted_fmap digested (key_rel Path Str.le) (key_rel Path Str.le)); [done|].
    apply (sort_on_sorted Path Str.le).
  - apply (sort_on_sorted Path Str.le).
Qed.

Lemma digested_tree_list t :
  wf_tables t →
  digested_tree t = list_to_map ((λ m, (Path m, m)) <$> (digested <$> select_all t)).
Proof.
  intros Hw. rewrite select_all_tree by done. rewrite <- (list_to_map_to_list (digested_tree t)) at 1.
  assert ((λ m, (Path m, m)) <$> (map_to_list (digested_tree t)).*2 =
          map_to_list (digested_tree t)) as E.
  { rewrite <- list_fmap_compose. rewrite <- (list_fmap_id (map_to_list _)) at 2.
    apply list_fmap_ext. intros i [p m] Hi%list_elem_of_lookup_2%elem_of_map_to_list. simpl.
    unfold digested_tree, tree in Hi. rewrite !lookup_fmap in Hi.
    destruct (entries t !! p) as [r|] eqn:Hr; simplify_eq/=. f_equal. by apply (wf_key _ Hw). }
  rewrite <- E at 1. apply list_to_map_proper.
  - rewrite E. apply NoDup_fst_map_to_list.
  - by rewrite (sort_on_perm Path Str.le).
Qed.

(** The digest is a function of the tree. *)
Lemma digest_of_tree t1 t2 :
  wf_tables t1 → wf_tables t2 → digested_tree t1 = digested_tree t2 → digest_of t1 = digest_of t2.
Proof.
  intros Hw1 Hw2 E. unfold digest_of. do 2 f_equal.
  rewrite <- (digest_text_digested (select_all t1)), <- (digest_text_digested (select_all t2)).
  by rewrite !select_all_tree, E.
Qed.

(** C17: Two nodes whose replicated trees agree have the same digest, whatever feed
    positions their entries have; and nodes with the same digest hold the same tree,
    unless the two digested texts are a SHA-256 collision. *)
Theorem Digest_agreement t1 t2 :
  wf_tables t1 → wf_tables t2 →
  Forall no_nul (select_all t1) → Forall no_nul (select_all t2) →
  let text t := of_string (digest_text (select_all t)) in
  (sha256_sum (text t1) = sha256_sum (text t2) → text t1 = text t2) →
  digest_of t1 = digest_of t2 ↔ digested_tree t1 = digested_tree t2.
Proof.
  intros Hw1 Hw2 Hn1 Hn2 text Hcol. unfold digest_of. rewrite HashContent_inj.
  fold (text t1) (text t2). split.
  - intros E%Hcol%of_string_inj%digest_text_inj; [|done..].
    rewrite !digested_tree_list by done. by rewrite E.
  - intros E. unfold text. do 2 f_equal.
    rewrite <- (digest_text_digested (select_all t1)), <- (digest_text_digested (select_all t2)).
    by rewrite !select_all_tree, E.
Qed.

Lemma Digest_inv d res d' :
  Digest d = (res, d') → tbl d' = tbl d ∧
  ((res = Err ErrDB ∧ db_fault) ∨
   res = Ok (digest_of (tbl d), Z.of_nat (length (select_all (tbl d))),
             fold_left (λ head m, head `max` Seq m) (select_all (tbl d)) 0)).
Proof.
  unfold Digest. intros [(-> & ? & Ht)|(d1 & Ht & E)]%select_bind_inv; [by auto|].
  unfold mret, ST_ret in E. simplify_eq. by auto.
Qed.

(** ** Blobs and garbage *)

(** Every live file entry that names a content has it. *)
Definition blobs_closed t : Prop :=
  ∀ p r, entries t !! p = Some r → r_Deleted r = false → r_Kind r = KindFile →
    r_Hash r ≠ EmptyString → is_Some (blobs t !! r_Hash r).

Definition wf_store t : Prop := wf_tables t ∧ blobs_closed t.

Lemma wf_store_empty : wf_store empty_tables.
Proof. split; [apply wf_empty|]. intros p r. simpl. by rewrite lookup_empty. Qed.

(** The tables after PutBlob. *)
Definition with_blob (content : bytes) t : tables :=
  let hash := HashContent content in
  match blobs t !! hash with
  | Some _ => t
  | None => set_blobs (<[hash := mkBlobRow hash (Z.of_nat (length content)) content]> (blobs t)) t
  end.

Lemma with_blob_entries c t :
  entries (with_blob c t) = entries t ∧ peers (with_blob c t) = peers t ∧
  local_seq (with_blob c t) = local_seq t.
Proof. unfold with_blob. by case_match. Qed.

Lemma with_blob_has c t : is_Some (blobs (with_blob c t) !! HashContent c).
Proof.
  unfold with_blob. case_match eqn:E; [by rewrite E|]. simpl. rewrite lookup_insert_eq. by eauto.
Qed.

Lemma with_blob_mono c t h : is_Some (blobs t !! h) → is_Some (blobs (with_blob c t) !! h).
Proof.
  unfold with_blob. case_match; [done|]. simpl. rewrite lookup_insert. case_decide; by eauto.
Qed.

Lemma wf_with_blob c t : wf_tables t → wf_tables (with_blob c t).
Proof.
  intros [Hk Hs Hu Hb Hl]. destruct (with_blob_entries c t) as (E1 & E2 & E3).
  split; rewrite ?E1, ?E3; try done.
  unfold with_blob. case_match; [done|]. simpl. intros h b. rewrite lookup_insert.
  case_decide; intros Hh; simplify_eq/=; [done|by apply Hb].
Qed.

Lemma PutBlob_inv c d res d' :
  PutBlob c d = (res, d') →
  (res = Err ErrDB ∧ db_fault ∧ tbl d' = tbl d) ∨
  (res = Ok (HashContent c) ∧ tbl d' = with_blob c (tbl d)).
Proof.
  unfold PutBlob, mbind, ST_bind.
  match goal with |- context [exec ?q d] => destruct (exec q d) as [r d1] eqn:E end.
  apply exec_inv in E as [(-> & ? & Ht)|[(e & t & -> & Ht & Hq)|(a & -> & Hq)]];
    unfold modify in *; intros; simplify_eq/=; [by left|].
  right. unfold mret, ST_ret in *. simplify_eq. split; [done|]. unfold with_blob. congruence.
Qed.

Lemma HasBlob_inv h d res d' :
  HasBlob h d = (res, d') → tbl d' = tbl d ∧
  ((res = Err ErrDB ∧ db_fault) ∨ res = Ok (bool_decide (is_Some (blobs (tbl d) !! h)))).
Proof.
  unfold HasBlob. intros [(-> & ? & Ht)|(d1 & Ht & E)]%select_bind_inv; [by auto|].
  unfold mret, ST_ret in E. simplify_eq. split; [done|right].
  by destruct (blobs (tbl d) !! h).
Qed.

Lemma GetBlob_inv h d res d' :
  wf_tables (tbl d) → GetBlob h d = (res, d') → tbl d' = tbl d ∧
  ((res = Err ErrDB ∧ db_fault) ∨ (res = Err ErrNotFound ∧ blobs (tbl d) !! h = None) ∨
   (∃ b, res = Ok (b_Data b) ∧ blobs (tbl d) !! h = Some b ∧ HashContent (b_Data b) = h)).
Proof.
  intros Hw. unfold GetBlob. intros [(-> & ? & Ht)|(d1 & Ht & E)]%select_bind_inv; [by auto|].
  destruct (blobs (tbl d) !! h) as [b|] eqn:Hb; unfold mret, ST_ret, throw in E; simplify_eq.
  - destruct (wf_blob _ Hw _ _ Hb) as (? & ? & ?). eauto 10.
  - eauto 10.
Qed.

(** Storing entries whose contents are present keeps the store closed. *)
Definition has_content t m : Prop :=
  Deleted m = false → MKind m = KindFile → Hash m ≠ EmptyString → is_Some (blobs t !! Hash m).

Lemma blobs_closed_applied ms t :
  blobs_closed t → Forall (has_content t) ms → blobs_closed (applied ms t).
Proof.
  intros Hc. induction ms as [|m ms IH] using rev_ind; [done|].
  intros [Hms Hm]%Forall_app. rewrite Forall_singleton in Hm. rewrite applied_snoc. intros p r. simpl.
  destruct (applied_other ms t) as [-> _]. rewrite lookup_insert.
  case_decide; intros Hr; simplify_eq/=; [exact Hm|].
  intros. destruct (applied_other ms t) as [Hb _]. rewrite <- Hb. by eapply IH.
Qed.

Lemma blobs_closed_with_blob c t : blobs_closed t → blobs_closed (with_blob c t).
Proof.
  intros Hc p r. destruct (with_blob_entries c t) as (-> & _ & _).
  intros. apply with_blob_mono. by eapply Hc.
Qed.

Lemma wf_store_with_blob c t : wf_store t → wf_store (with_blob c t).
Proof. intros []. split; [by apply wf_with_blob|by apply blobs_closed_with_blob]. Qed.

Lemma wf_store_applied ms t :
  wf_store t → Forall (has_content t) ms → wf_store (applied ms t).
Proof. intros [] ?. split; [by apply wf_applied|by apply blobs_closed_applied]. Qed.

(** The tables after each collection. *)
Definition without_tombstones (before : Z) t : tables :=
  set_entries (filter (λ kr, expired before kr.2 = false) (entries t)) t.
Definition without_orphans t : tables :=
  set_blobs (filter (λ kb, referenced t kb.1 = true) (blobs t)) t.

Lemma GCTombstones_inv before d res d' :
  GCTombstones before d = (res, d') →
  (res = Err ErrDB ∧ db_fault ∧ tbl d' = tbl d) ∨
  (res = Ok (Z.of_nat (size (filter (λ kr, expired before kr.2 = true) (entries (tbl d))))) ∧
   tbl d' = without_tombstones before (tbl d)).
Proof.
  unfold GCTombstones. intros [?|[(e & t & -> & Ht & Hq)|(a & -> & Hq)]]%exec_inv; [by left|done|].
  right. by unfold mbind, ST_bind, gets, modify, mret, ST_ret in Hq; simplify_eq/=.
Qed.

Lemma GCBlobs_inv d res d' :
  GCBlobs d = (res, d') →
  (res = Err ErrDB ∧ db_fault ∧ tbl d' = tbl d) ∨
  (res = Ok (Z.of_nat (size (filter (λ kb, referenced (tbl d) kb.1 = false) (blobs (tbl d))))) ∧
   tbl d' = without_orphans (tbl d)).
Proof.
  unfold GCBlobs. intros [?|[(e & t & -> & Ht & Hq)|(a & -> & Hq)]]%exec_inv; [by left|done|].
  right. by unfold mbind, ST_bind, gets, modify, mret, ST_ret in Hq; simplify_eq/=.
Qed.

Lemma referenced_spec t h :
  referenced t h = true ↔ h ≠ EmptyString ∧ ∃ p r, entries t !! p = Some r ∧ r_Hash r = h.
Proof.
  unfold referenced. rewrite existsb_exists. split.
  - intros (r & Hin & [Hne%negb_true_iff%String.eqb_neq E%String.eqb_eq]%andb_prop).
    apply list_elem_of_In, list_elem_of_fmap in Hin as ([p r'] & -> & Hin%elem_of_map_to_list).
    simpl in *. subst. eauto.
  - intros (Hne & p & r & Hr & <-). exists r. split.
    + apply list_elem_of_In, list_elem_of_fmap. exists (p, r).
      split; [done|]. by apply elem_of_map_to_list.
    + by rewrite String.eqb_refl, (proj2 (String.eqb_neq _ _) Hne).
Qed.

Lemma wf_without_tombstones before t : wf_store t → wf_store (without_tombstones before t).
Proof.
  intros [[Hk Hs Hu Hb Hl] Hc].
  assert (∀ p r, entries (without_tombstones before t) !! p = Some r → entries t !! p = Some r) as Hsub.
  { simpl. intros p r Hr. by apply map_lookup_filter_Some_1_1 in Hr. }
  split; [split|]; simpl; eauto. intros p r Hr. exact (Hc p r (Hsub p r Hr)).
Qed.

Lemma wf_without_orphans t : wf_store t → wf_store (without_orphans t).
Proof.
  intros [[Hk Hs Hu Hb Hl] Hc]. split; [split|]; simpl; try done.
  - intros h b Hh. apply Hb. by apply map_lookup_filter_Some_1_1 in Hh.
  - intros p r Hr Hd Hf Hne. simpl in *. destruct (Hc p r Hr Hd Hf Hne) as [b Hbl].
    exists b. apply map_lookup_filter_Some. split; [done|]. apply referenced_spec. eauto.
Qed.
End facts.
