(* ===== verification/Transport.v ===== *)
(** * The peer API (internal/transport: envelope.go, server.go, status.go)

    The sealed envelope, and the handlers of the server over its database.  The router
    (chi), JSON and the random source are interfaces: [Router], [Codec] and [Random] say
    what the code relies on. *)
From S2P Require Import Prelude GoStrings Clock Crypto Aead Auth Entry Store StoreFacts.
From Stdlib Require Import Ascii.

(** ** The envelope *)
Section envelope.
Context `{BlockCipher}.

(** aes.NewCipher accepts keys of 16, 24 and 32 bytes, and its error is passed on; cipher.NewGCM cannot fail on AES. *)
Definition newGCM (key : bytes) : result unit :=
  if bool_decide (length key = 16%nat) || bool_decide (length key = 24%nat)
     || bool_decide (length key = 32%nat)
  then Ok tt else Err ErrCipher.

(** [rand] is what reading 12 bytes of crypto/rand gave. *)
Definition seal (rand : result bytes) (key plaintext : bytes) : result bytes :=
  _ ← newGCM key;
  nonce ← rand;
  Ok (nonce ++ gcm_Seal key nonce plaintext).

Definition open (key payload : bytes) : result bytes :=
  _ ← newGCM key;
  if Z.of_nat (length payload) <? 12 then Err ErrSeal
  else
    match gcm_Open key (take 12 payload) (drop 12 payload) with
    | Some plaintext => Ok plaintext
    | None => Err ErrSeal
    end.

Context `{!BlockCipherLaws}.

Lemma open_sealed key nonce plaintext :
  newGCM key = Ok tt → length nonce = 12%nat →
  open key (nonce ++ gcm_Seal key nonce plaintext) = Ok plaintext.
Proof.
  intros Hk Hn. unfold open. rewrite Hk. unfold mbind; simpl. rewrite length_app.
  destruct (Z.ltb_spec (Z.of_nat (length nonce + length (gcm_Seal key nonce plaintext))) 12); [lia|].
  rewrite take_app_length', drop_app_length' by done.
  by rewrite gcm_Open_Seal.
Qed.

(** A key no cipher can be built with is reported as such, by both directions, and not as [ErrSeal] as the comment of open says. *)
Theorem open_bad_key rand key plaintext payload :
  newGCM key ≠ Ok tt → open key payload = Err ErrCipher ∧ seal rand key plaintext = Err ErrCipher.
Proof. unfold open, seal, newGCM. by destruct (_ || _). Qed.

(** C35: The envelope is transparent to who holds the key: opening what was sealed gives the
    plaintext back, and the payload is 28 bytes longer than the plaintext.  Of whatever key and payload, [open] fails with [ErrSeal]
    if a cipher can be built with the key — a short payload, a wrong key and a forgery cannot be told
    apart — and with the error of the cipher if not. *)
Theorem open_seal nonce key plaintext payload :
  length nonce = 12%nat → seal (Ok nonce) key plaintext = Ok payload →
  open key payload = Ok plaintext ∧ length payload = (length plaintext + 28)%nat ∧
  (∀ k other e, open k other = Err e → e = if decide (length k ∈ [16; 24; 32]%nat) then ErrSeal else ErrCipher).
Proof.
  unfold seal. destruct (newGCM key) as [[]|] eqn:Hk; [|done]. unfold mbind, result_bind.
  intros Hn [= <-]. split_and!.
  - by apply open_sealed.
  - rewrite length_app, gcm_Seal_length by done. lia.
  - intros k other e. unfold open, newGCM.
    assert (bool_decide (length k = 16%nat) || bool_decide (length k = 24%nat) || bool_decide (length k = 32%nat) =
      bool_decide (length k ∈ [16; 24; 32]%nat)) as ->.
    { repeat case_bool_decide; set_solver. }
    case_decide as Hin; [rewrite bool_decide_true by done|rewrite bool_decide_false by done; by intros [= <-]].
    unfold mbind, result_bind. repeat case_match; congruence.
Qed.
End envelope.

Lemma open_seal_witness :
  ∃ payload, @seal aes (Ok (replicate 12 Byte.x07)) (replicate 32 Byte.x42) (of_string "hello") = Ok payload ∧
    @open aes (replicate 32 Byte.x42) payload = Ok (of_string "hello").
Proof.
  eexists. split; [reflexivity|].
  refine (proj1 (@open_seal aes aes_laws (replicate 12 Byte.x07) _ _ _ _ _)); reflexivity.
Defined.

(** ** The documents *)

Record DigestResponse := mkDigestResponse { d_Digest : string; d_Entries : Z; d_Head : Z }.
Record ManifestResponse := mkManifestResponse { m_Entries : list Meta; m_Head : Z; m_More : bool }.

Definition MaxManifestPage : nat := 2000.

(** status.go: the value of "?since=". *)
Definition parseSeq (raw : string) : Z :=
  match Dec.ParseInt raw with
  | Ok n => if n <? 0 then 0 else n
  | Err _ => 0
  end.

(** [parseSeq] is total and never negative: it reads back every position the client can
    ask for, and takes anything else — absent, malformed, negative, out of range — for 0,
    the whole feed. *)
Theorem parseSeq_spec :
  (∀ n, 0 ≤ n ≤ max_int64 → parseSeq (Dec.fmt_d n) = n) ∧
  (∀ raw, 0 ≤ parseSeq raw ≤ max_int64) ∧
  (∀ raw, parseSeq raw ≠ 0 → Dec.ParseInt raw = Ok (parseSeq raw)).
Proof.
  unfold parseSeq. split_and!.
  - intros n Hn. rewrite Dec.ParseInt_fmt_d by (unfold is_int64, min_int64; lia).
    by destruct (Z.ltb_spec n 0); [lia|].
  - intros raw. destruct (Dec.ParseInt raw) as [n|] eqn:E; [|done].
    apply Dec.ParseInt_range in E. unfold is_int64 in *.
    destruct (Z.ltb_spec n 0); [done|lia].
  - intros raw. destruct (Dec.ParseInt raw) as [n|] eqn:E; [|done].
    by destruct (Z.ltb_spec n 0).
Qed.

(** ** HTTP *)

(** What a handler answers: a status and a body. *)
Record response := mkResponse { Status : Z; Body : bytes }.

Definition StatusOK : Z := 200.
Definition StatusBadRequest : Z := 400.
Definition StatusUnauthorized : Z := 401.
Definition StatusNotFound : Z := 404.
Definition StatusInternalServerError : Z := 500.

(** http.Error: the status and one line of text. *)
Definition http_Error (msg : string) (code : Z) : response := mkResponse code (of_string (msg +:+ LF)).

(** The routes, with their parameters as the handlers read them. *)
Inductive route :=
  | Rhealthz
  | Rdigest
  | Rmanifest (since : string)
  | Rblob (hash : string)
  | Rstatus.

(** The path with query the client asks for. *)
Definition digest_path : string := "/v1/digest".
Definition status_path : string := "/v1/status".
Definition manifest_path (since : Z) : string := "/v1/manifest?since=" +:+ Dec.fmt_d since.
Definition blob_path (hash : string) : string := "/v1/blob/" +:+ hash.

(** chi's router and net/url: the route of a path with query, if any. *)
Class Router := route_of : string → option route.

(** What the client relies on: its paths reach their handlers.  The hash is one path element
    of ordinary characters. *)
Definition plain_hash (hash : string) : Prop := Str.len hash = 64 ∧ Hex.decodes hash = true.
Class RouterLaws `{Router} : Prop := {
  route_digest : route_of digest_path = Some Rdigest;
  route_manifest : ∀ n, route_of (manifest_path n) = Some (Rmanifest (Dec.fmt_d n));
  route_blob : ∀ h, plain_hash h → route_of (blob_path h) = Some (Rblob h);
  route_status : route_of status_path = Some Rstatus
}.

(** encoding/json for one type. *)
Class Codec (A : Type) := { Marshal : A → result bytes; Unmarshal : bytes → result A }.

(** What encoding/json promises: what it wrote it reads back, as long as the strings of
    the value are UTF-8 (it replaces other bytes). *)
Class Texts (A : Type) := texts : A → list string.
Class CodecLaws (A : Type) `{!Codec A, !Texts A} : Prop :=
  codec_round : ∀ (v : A) b, Forall (λ s, Utf8.ValidString s = true) (texts v) →
    Marshal v = Ok b → Unmarshal b = Ok v.
#[export] Instance digest_texts : Texts DigestResponse := λ r, [d_Digest r].
#[export] Instance manifest_texts : Texts ManifestResponse := λ r,
  m_Entries r ≫= λ m, [Path m; Hash m; PrevHash m; Origin (MVersion m)].

(** The random numbers a process reads, by how many it has read. *)
Class Random := rand_read : nat → result bytes.
Class RandomLaws `{Random} : Prop := rand_length : ∀ n b, rand_read n = Ok b → length b = 12%nat.

(** ** The server *)

(** The serving process: its database and how many random numbers it has read. *)
Record host := mkHost { h_db : DB; h_rands : nat }.

(** One page of the changes feed: [getManifest] asks for one row more than it returns. *)
Definition page_of (since : Z) (entries : list Meta) : ManifestResponse :=
  let more := (MaxManifestPage <? length entries)%nat in
  let entries := if more then take MaxManifestPage entries else entries in
  mkManifestResponse entries (match last entries with Some m => Seq m | None => since end) more.

Section server.
Context `{DBFaults, Sha256, BlockCipher, Random, Router}.
Context `{!Codec DigestResponse, !Codec ManifestResponse} {StatusDoc : Type} `{!Codec StatusDoc}.
Context (keys : Keys) (status : ST host StatusDoc).
(** What the router answers by itself, when no route matches. *)
Context (unrouted : string → response).

Definition on_reader {A} (q : ST DB A) : ST host A :=
  zoom h_db (λ d h, mkHost d (h_rands h)) q.

Definition rand_nonce : ST host (result bytes) := λ h,
  (Ok (rand_read (h_rands h)), mkHost (h_db h) (S (h_rands h))).

Definition fail : ST host response := mret (http_Error "internal error" StatusInternalServerError).

Definition sealedBytes (body : bytes) : ST host response :=
  nonce ← rand_nonce;
  match seal nonce (Blob keys) body with
  | Ok payload => mret (mkResponse StatusOK payload)
  | Err _ => fail
  end.

Definition sealed {A} `{!Codec A} (v : A) : ST host response :=
  match Marshal v with
  | Ok body => sealedBytes body
  | Err _ => fail
  end.

Definition getDigest : ST host response :=
  r ← attempt (on_reader Digest);
  match r with
  | Err _ => fail
  | Ok (digest, entries, head) => sealed (mkDigestResponse digest entries head)
  end.

Definition getManifest (rawSince : string) : ST host response :=
  let since := parseSeq rawSince in
  r ← attempt (on_reader (ManifestSince since (MaxManifestPage + 1)));
  match r with
  | Err _ => fail
  | Ok entries => sealed (page_of since entries)
  end.

Definition getBlob (hash : string) : ST host response :=
  if negb (Str.len hash =? 64) then mret (http_Error "bad hash" StatusBadRequest)
  else if negb (Hex.decodes hash) then mret (http_Error "bad hash" StatusBadRequest)
  else
    r ← attempt (on_reader (GetBlob hash));
    match r with
    | Err _ => mret (http_Error "not found" StatusNotFound)
    | Ok content => sealedBytes content
    end.

Definition getStatus : ST host response :=
  r ← attempt status;
  match r with
  | Err _ => fail
  | Ok st => sealed st
  end.

(** [authenticate]: [next] runs only for a signed request. *)
Definition authenticate (uri header : string) (now : Z) (next : ST host response) : ST host response :=
  match verify (API keys) "GET" uri header now with
  | Err _ => mret (http_Error "unauthorized" StatusUnauthorized)
  | Ok _ => next
  end.

(** [Handler], for a GET request. *)
Definition Handler (uri header : string) (now : Z) : ST host response :=
  match route_of uri with
  | None => mret (unrouted uri)
  | Some Rhealthz => mret (mkResponse StatusOK (of_string ("ok" +:+ LF)))
  | Some Rdigest => authenticate uri header now getDigest
  | Some (Rmanifest since) => authenticate uri header now (getManifest since)
  | Some (Rblob hash) => authenticate uri header now (getBlob hash)
  | Some Rstatus => authenticate uri header now getStatus
  end.

(** ** Nothing a peer can reach changes the store *)

Lemma reader_keeps {A} (q : ST DB A) (I : tables → Prop) :
  (∀ d res d', q d = (res, d') → tbl d' = tbl d) → preserves (λ h, I (tbl (h_db h))) (on_reader q).
Proof.
  intros Hq h Hh. unfold on_reader, zoom. destruct (q (h_db h)) as [r d'] eqn:E. simpl.
  by rewrite (Hq _ _ _ E).
Qed.

Lemma fail_keeps (I : host → Prop) : preserves I fail.
Proof. apply preserves_ret. Qed.

Lemma sealedBytes_keeps I body : preserves (λ h, I (tbl (h_db h))) (sealedBytes body).
Proof. apply preserves_bind; [by intros h|]. intros a. case_match; [by intros h|apply fail_keeps]. Qed.

Lemma sealed_keeps {A} `{!Codec A} I (v : A) : preserves (λ h, I (tbl (h_db h))) (sealed v).
Proof. unfold sealed. case_match; [apply sealedBytes_keeps|apply fail_keeps]. Qed.

Lemma Digest_reads d res d' : Digest d = (res, d') → tbl d' = tbl d.
Proof. by intros [? _]%Digest_inv. Qed.
Lemma GetBlob_reads hash d res d' : GetBlob hash d = (res, d') → tbl d' = tbl d.
Proof.
  unfold GetBlob. intros [(_ & _ & ?)|(d1 & Ht & E)]%select_bind_inv; [done|].
  case_match; unfold mret, ST_ret, throw in E; by simplify_eq.
Qed.

(** The API is read-only: whatever is requested, signed or not, at whatever time, and
    whatever fails while it is served, the tables of the serving node are the same
    afterwards, provided the status document is computed without writing. *)
Theorem Handler_read_only uri header now h r h' :
  (∀ h r h', status h = (r, h') → tbl (h_db h') = tbl (h_db h)) →
  Handler uri header now h = (r, h') → tbl (h_db h') = tbl (h_db h).
Proof.
  intros Hst E. set (I := λ t, t = tbl (h_db h)).
  enough (preserves (λ h, I (tbl (h_db h))) (Handler uri header now)) as Hp.
  { specialize (Hp h eq_refl). by rewrite E in Hp. }
  unfold Handler, authenticate. repeat case_match; try apply preserves_ret.
  - apply preserves_bind; [apply preserves_attempt, reader_keeps, Digest_reads|].
    intros [[[??]?]|]; [apply sealed_keeps|apply fail_keeps].
  - apply preserves_bind; [apply preserves_attempt, reader_keeps; by intros ? ? ? [? _]%select_inv|].
    intros [|]; [apply sealed_keeps|apply fail_keeps].
  - unfold getBlob. do 2 (case_match; [apply preserves_ret|]).
    apply preserves_bind; [apply preserves_attempt, reader_keeps, GetBlob_reads|].
    intros [|]; [apply sealedBytes_keeps|apply preserves_ret].
  - apply preserves_bind; [apply preserves_attempt|intros [|]; [apply sealed_keeps|apply fail_keeps]].
    intros g Hg. destruct (status g) as [res g'] eqn:Eg. simpl. by rewrite (Hst _ _ _ Eg).
Qed.

(** C39: Without the cluster's key there is nothing to see: a request that is no credential for
    its path gets the health check, what the router answers to an unknown path, or
    "unauthorized" — and the server has read neither its database nor the random
    source. *)
Theorem Handler_unauthorized uri header now h r h' :
  (¬ ∃ node, credential (API keys) "GET" uri header now node) →
  Handler uri header now h = (Ok r, h') →
  h' = h ∧ r ∈ [unrouted uri; mkResponse StatusOK (of_string ("ok" +:+ LF));
                http_Error "unauthorized" StatusUnauthorized].
Proof.
  intros Hn. unfold Handler, authenticate.
  destruct (verify (API keys) "GET" uri header now) as [node|e] eqn:Ev.
  { destruct Hn. exists node. by apply verify_Ok. }
  destruct (route_of uri) as [[]|]; intros [= <- <-]; (split; [done|]); set_solver.
Qed.
End server.
