(* ===== verification/Client.v ===== *)
(** * Asking a peer (internal/transport/client.go) and reading its feed

    The client, the interface [PeerClient] through which the syncer uses it, what a content
    it hands on satisfies whatever the network answers, and the walk over the pages of a
    server's feed. *)
From S2P Require Import Prelude GoStrings Clock Crypto Aead Auth Entry Store StoreFacts Transport.
From Stdlib Require Import Ascii.

(** ** The interface the syncer uses (syncer.go) *)

(** The answer to the [i]-th request this node makes. *)
Class PeerClient := {
  peer_Digest : nat → string → result DigestResponse;
  peer_Manifest : nat → string → Z → result ManifestResponse;
  peer_Blob : nat → string → string → result bytes
}.

(** What the client promises: a content it returns is the content that was asked for. *)
Class PeerClientLaws `{Sha256, PeerClient} : Prop :=
  peer_blob_verified : ∀ i addr hash content,
    peer_Blob i addr hash = Ok content → HashContent content = hash.

(** ** The network *)

(** What the [i]-th request meets: random numbers, the time, and the answer to a request for
    a path of an address with an Authorization header. *)
Class Network := {
  req_rand : nat → result bytes;
  req_time : nat → Z;
  http_do : nat → string → string → string → result response
}.

Section client.
Context `{Sha256, BlockCipher, Network}.
Context `{!Codec DigestResponse, !Codec ManifestResponse}.

Record Client := mkClient { c_keys : Keys; c_node : string; c_maxBody : Z }.

Section methods.
Context (c : Client).

Definition get (i : nat) (addr path : string) : result bytes :=
  auth ← authorize (req_rand i) (API (c_keys c)) "GET" path (c_node c) (req_time i);
  resp ← http_do i addr path auth;
  if Status resp =? StatusNotFound then Err ErrPeerNotFound
  else if negb (Status resp =? StatusOK) then Err ErrPeer
  else
    let limit := wrap64 (c_maxBody c + 1) in
    let sealedBody := take (Z.to_nat limit) (Body resp) in
    if Z.of_nat (length sealedBody) >? c_maxBody c then Err ErrPeer
    else open (Blob (c_keys c)) sealedBody.

Definition getJSON {A} `{!Codec A} (i : nat) (addr path : string) : result A :=
  body ← get i addr path;
  match Unmarshal body with
  | Ok v => Ok v
  | Err _ => Err ErrPeer
  end.

Definition client_Digest (i : nat) (addr : string) : result DigestResponse :=
  getJSON i addr digest_path.
Definition client_Manifest (i : nat) (addr : string) (since : Z) : result ManifestResponse :=
  getJSON i addr (manifest_path since).
Definition client_Status {StatusDoc} `{!Codec StatusDoc} (i : nat) (addr : string) : result StatusDoc :=
  getJSON i addr status_path.
Definition client_Blob (i : nat) (addr hash : string) : result bytes :=
  body ← get i addr (blob_path hash);
  if negb (String.eqb (HashContent body) hash) then Err ErrPeer else Ok body.

Lemma client_Blob_inv i addr hash content :
  client_Blob i addr hash = Ok content →
  get i addr (blob_path hash) = Ok content ∧ HashContent content = hash.
Proof.
  unfold client_Blob, mbind, result_bind. destruct (get i addr (blob_path hash)) as [body|]; [|done].
  destruct (String.eqb_spec (HashContent body) hash); simpl; [|done]. by intros [= <-].
Qed.
End methods.

(** The client is what the syncer is given as its [PeerClient]. *)
Definition client_peer (c : Client) : PeerClient :=
  {| peer_Digest := client_Digest c; peer_Manifest := client_Manifest c; peer_Blob := client_Blob c |}.

#[export] Instance client_peer_laws c : @PeerClientLaws _ (client_peer c).
Proof. intros i addr hash content E. exact (proj2 (client_Blob_inv c _ _ _ _ E)). Qed.

(** Whatever a peer or the network answers — any status, any body, of any length, at
    any time — a content the client hands on hashes to the address that was asked
    for, was sealed with the cluster's key, and with its envelope is within the limit on
    bodies; so no peer can substitute a content or exhaust memory. *)
Theorem client_Blob_verified c i addr hash content :
  0 ≤ c_maxBody c < max_int64 →
  client_Blob c i addr hash = Ok content →
  HashContent content = hash ∧
  ∃ auth resp, http_do i addr (blob_path hash) auth = Ok resp ∧ Status resp = StatusOK ∧
    Z.of_nat (length (Body resp)) ≤ c_maxBody c ∧ open (Blob (c_keys c)) (Body resp) = Ok content.
Proof.
  intros Hmax [Hg Hh]%client_Blob_inv. split; [done|].
  unfold get, mbind, result_bind in Hg.
  destruct (authorize _ _ _ _ _ _) as [auth|]; [|done].
  destruct (http_do i addr (blob_path hash) auth) as [resp|] eqn:Er; [|done].
  exists auth, resp. split; [done|].
  destruct (Z.eqb_spec (Status resp) StatusNotFound); [done|].
  destruct (Z.eqb_spec (Status resp) StatusOK); [|done]. split; [done|]. simpl in Hg.
  rewrite wrap64_id in Hg by (unfold is_int64, min_int64, max_int64 in *; lia).
  revert Hg. rewrite Z.gtb_ltb. destruct (Z.ltb_spec (c_maxBody c)
    (Z.of_nat (length (take (Z.to_nat (c_maxBody c + 1)) (Body resp))))) as [|Hle]; [done|].
  rewrite length_take in Hle. intros Hg. rewrite take_ge in Hg by lia. split; [lia|done].
Qed.
End client.

(** ** Following the feed *)

Section feed.
Context `{DBFaults, Sha256}.
Implicit Types (t : tables) (m : Meta).

(** Everything after a position, in the order of the feed. *)
Definition feed (since : Z) t : list Meta := sort_on Seq Z.le (filter (λ m, since < Seq m) (rows t)).

(** What a node with these tables answers to [Manifest]. *)
Definition manifest_of (since : Z) t : ManifestResponse :=
  page_of since (select_since since (MaxManifestPage + 1) t).

Lemma rows_seq_inj t m1 m2 :
  wf_tables t → m1 ∈ rows t → m2 ∈ rows t → Seq m1 = Seq m2 → m1 = m2.
Proof.
  intros Hw (p1 & r1 & H1 & ->)%elem_of_rows (p2 & r2 & H2 & ->)%elem_of_rows E.
  simpl in E. assert (p1 = p2) as -> by exact (wf_uniq _ Hw _ _ _ _ H1 H2 E). congruence.
Qed.

Lemma rows_NoDup_Seq t : wf_tables t → NoDup (Seq <$> rows t).
Proof.
  intros Hw. assert (NoDup (rows t)) as Hnd by (by eapply NoDup_fmap_1, rows_NoDup).
  apply NoDup_fmap_2_strong; [|done]. intros m1 m2 ? ?. by apply (rows_seq_inj t).
Qed.

Lemma feed_elem since t m : m ∈ feed since t ↔ m ∈ rows t ∧ since < Seq m.
Proof. unfold feed. rewrite elem_of_sort_on, list_elem_of_filter. tauto. Qed.

Lemma feed_NoDup since t : wf_tables t → NoDup (Seq <$> feed since t).
Proof.
  intros Hw. unfold feed. rewrite (sort_on_perm Seq Z.le).
  apply NoDup_fmap_2_strong; [|by eapply NoDup_filter, NoDup_fmap_1, rows_NoDup].
  intros m1 m2 [_ ?]%list_elem_of_filter [_ ?]%list_elem_of_filter. by apply (rows_seq_inj t).
Qed.

Lemma feed_sorted since t : StronglySorted (key_rel Seq Z.le) (feed since t).
Proof. apply (sort_on_sorted Seq Z.le). Qed.

(** Strictly: the positions are distinct. *)
Lemma feed_sorted_lt since t : wf_tables t → StronglySorted (key_rel Seq Z.lt) (feed since t).
Proof.
  intros Hw. pose proof (feed_NoDup since t Hw) as Hnd. pose proof (feed_sorted since t) as Hs.
  induction Hs as [|m l Hs IH Hm]; [by constructor|]. rewrite fmap_cons in Hnd.
  apply NoDup_cons in Hnd as [Hnin Hnd]. constructor; [by apply IH|].
  rewrite Forall_forall in *. intros m' Hm'. specialize (Hm m' Hm'). unfold key_rel in *.
  assert (Seq m ≠ Seq m'); [|lia]. intros E. apply Hnin. rewrite E. by apply list_elem_of_fmap_2.
Qed.

(** Cutting the feed after one of its entries. *)
Lemma feed_cut since t A m B :
  wf_tables t → feed since t = A ++ m :: B → feed (Seq m) t = B.
Proof.
  intros Hw E. pose proof (feed_sorted_lt since t Hw) as Hs. rewrite E in Hs.
  apply StronglySorted_app in Hs as (HAB & _ & HmB).
  inversion_clear HmB as [|? ? HB Hm]. rewrite Forall_forall in Hm.
  assert (since < Seq m) as Hsm.
  { assert (m ∈ feed since t) as Hin by (rewrite E; set_solver). apply (feed_elem since t) in Hin. apply Hin. }
  assert (∀ x, x ∈ feed (Seq m) t ↔ x ∈ B) as Hiff.
  { intros x. rewrite feed_elem. split.
    - intros [Hx Hlt]. assert (x ∈ feed since t) as Hin by (apply feed_elem; split; [done|lia]).
      rewrite E in Hin. apply elem_of_app in Hin as [Hin|[->|Hin]%elem_of_cons]; [|lia|done].
      specialize (HAB x m Hin ltac:(by left)). unfold key_rel in HAB. lia.
    - intros Hx. assert (x ∈ feed since t) as [? _]%feed_elem by (rewrite E; set_solver).
      split; [done|]. by apply Hm. }
  assert (NoDup (Seq <$> B)) as HndB.
  { pose proof (feed_NoDup since t Hw) as Hnd. rewrite E, fmap_app, fmap_cons in Hnd.
    apply NoDup_app in Hnd as (_ & _ & [_ ?]%NoDup_cons). done. }
  apply (sorted_unique Seq Z.le); [by apply feed_NoDup| |apply feed_sorted|].
  - apply NoDup_Permutation; [by eapply NoDup_fmap_1, feed_NoDup|by eapply NoDup_fmap_1|done].
  - pose proof (feed_sorted since t) as Hle. rewrite E in Hle.
    apply StronglySorted_app in Hle as (_ & _ & Hle). by inversion_clear Hle.
Qed.

Lemma manifest_of_last since t :
  m_More (manifest_of since t) = false → m_Entries (manifest_of since t) = feed since t.
Proof.
  unfold manifest_of, page_of, select_since. fold (feed since t). cbn [m_More m_Entries m_Head].
  intros E. rewrite E. apply Nat.ltb_ge in E. rewrite length_take in E.
  rewrite take_ge; [done|]. lia.
Qed.

(** A full page is a nonempty prefix of the feed, and its head the cut. *)
Lemma manifest_of_more since t :
  wf_tables t → m_More (manifest_of since t) = true →
  feed since t = m_Entries (manifest_of since t) ++ feed (m_Head (manifest_of since t)) t ∧
  length (m_Entries (manifest_of since t)) = MaxManifestPage ∧
  since < m_Head (manifest_of since t).
Proof.
  intros Hw. unfold manifest_of, page_of, select_since. fold (feed since t). cbn [m_More m_Entries m_Head].
  intros E. rewrite E. apply Nat.ltb_lt in E. rewrite length_take in E.
  rewrite take_take. replace (MaxManifestPage `min` (MaxManifestPage + 1))%nat with MaxManifestPage by lia.
  set (pg := take MaxManifestPage (feed since t)).
  assert (length pg = MaxManifestPage) as Hl by (unfold pg; rewrite length_take; lia).
  destruct (exists_last (l := pg)) as (A & m & EA); [intros En; rewrite En in Hl; done|].
  assert (feed since t = A ++ m :: drop MaxManifestPage (feed since t)) as EF.
  { rewrite <- (take_drop MaxManifestPage (feed since t)) at 1. fold pg. rewrite EA.
    by rewrite <- (assoc_L (++)). }
  rewrite EA, last_snoc. rewrite (feed_cut since t A m _ Hw EF).
  split_and!; [by rewrite <- (assoc_L (++))|by rewrite <- EA|].
  assert (m ∈ feed since t) as [_ ?]%feed_elem by (rewrite EF; set_solver). done.
Qed.

(** A page is the start of what is left of the feed. *)
Lemma page_prefix since t :
  wf_tables t → ∃ rest, feed since t = m_Entries (manifest_of since t) ++ rest.
Proof.
  intros Hw. destruct (m_More (manifest_of since t)) eqn:Em.
  - destruct (manifest_of_more since t Hw Em) as (E & _ & _). by eexists.
  - exists []. by rewrite (right_id_L [] (++)), (manifest_of_last since t Em).
Qed.

Lemma page_elem since t m :
  wf_tables t → m ∈ m_Entries (manifest_of since t) → m ∈ rows t ∧ since < Seq m.
Proof.
  intros Hw Hm. destruct (page_prefix since t Hw) as [rest E].
  apply feed_elem. rewrite E. set_solver.
Qed.

(** The puller's loop: the cursor goes from page to page while there are more. *)
Fixpoint walk (fuel : nat) (cursor : Z) t : option (list Meta) :=
  match fuel with
  | O => None
  | S fuel' =>
      let p := manifest_of cursor t in
      if m_More p then app (m_Entries p) <$> walk fuel' (m_Head p) t
      else Some (m_Entries p)
  end.

(** Paging loses nothing and ends: following the pages from any position yields every
    entry after it exactly once, in the order of the feed, whatever the number of
    entries, and it takes one request per 2000 entries. *)
Theorem walk_feed t since fuel :
  wf_tables t → (length (feed since t) < MaxManifestPage * fuel)%nat →
  walk fuel since t = Some (feed since t) ∧
  NoDup (Seq <$> feed since t) ∧ (∀ m, m ∈ feed since t ↔ m ∈ rows t ∧ since < Seq m).
Proof.
  intros Hw Hf. split_and!; [|by apply feed_NoDup|intros m; apply feed_elem].
  revert since Hf. induction fuel as [|fuel IH]; intros since Hf; [lia|]. cbn [walk].
  destruct (m_More (manifest_of since t)) eqn:Em.
  - destruct (manifest_of_more since t Hw Em) as (E & Hl & _).
    rewrite E, length_app, Hl in Hf. rewrite IH by lia. exact (f_equal Some (eq_sym E)).
  - by rewrite manifest_of_last.
Qed.
End feed.
