(* ===== verification/Cluster.v ===== *)
(** * Membership and gossip (internal/cluster/cluster.go)

    The callbacks memberlist makes, the event channel they fill and [Run] of the syncer
    drains, and the hints a node gossips.  memberlist itself — who is a member, which
    message arrives where — is not modelled: its nodes and messages are arguments, its
    broadcast queue is the class [BroadcastQueue], and JSON is [Codec]. *)
From S2P Require Import Prelude GoStrings Crypto Transport.

(** ** Types *)

Inductive EventKind := EventJoin | EventLeave | EventHint.
Record Event := mkEvent { ev_Kind : EventKind; ev_Node : string; ev_Addr : string; ev_Seq : Z }.
Record Member := mkMember { mb_Node : string; mb_Addr : string; mb_Self : bool }.

Definition EventKind_String (k : EventKind) : string :=
  match k with EventJoin => "join" | EventLeave => "leave" | EventHint => "hint" end.

Record hint := mkHint { hi_Node : string; hi_Addr : string; hi_Seq : Z }.
Record nodeMeta := mkNodeMeta { nm_API : string }.

(** memberlist.Node: what the code reads of it. *)
Record mlNode := mkMlNode { n_Name : string; n_Meta : bytes }.

(** memberlist.TransmitLimitedQueue. *)
Class BroadcastQueue (Q : Type) := {
  QueueBroadcast : bytes → Q → Q;
  GetBroadcasts : Z → Z → Q → list bytes * Q
}.

#[export] Instance hint_texts : Texts hint := λ h, [hi_Node h; hi_Addr h].
#[export] Instance nodeMeta_texts : Texts nodeMeta := λ m, [nm_API m].

Record ClusterConfig := mkClusterConfig { cc_Node : string; cc_APIAddr : string }.

(** Cluster: the events waiting in the channel, whether it is closed, the broadcasts
    queued and the position last announced. *)
Record Cluster (Q : Type) := mkCluster {
  c_cfg : ClusterConfig;
  c_events : list Event;
  c_closed : bool;
  c_queue : Q;
  c_seq : Z
}.
Arguments mkCluster {Q}.
Arguments c_cfg {Q}.
Arguments c_events {Q}.
Arguments c_closed {Q}.
Arguments c_queue {Q}.
Arguments c_seq {Q}.

Definition eventBuffer : nat := 256.

Section cluster.
Context {Q : Type} `{!BroadcastQueue Q, !Codec hint, !CodecLaws hint, !Codec nodeMeta, !CodecLaws nodeMeta}.
Implicit Types (c : Cluster Q) (e : Event) (n : mlNode).

Definition set_events (l : list Event) c : Cluster Q :=
  mkCluster (c_cfg c) l (c_closed c) (c_queue c) (c_seq c).
Definition set_closed c : Cluster Q := mkCluster (c_cfg c) (c_events c) true (c_queue c) (c_seq c).

(** ** Joining and leaving *)

(** [created] is what memberlist.Create answers and [joined] what ml.Join does, whose
    failure is only logged. *)
Definition Join (cfg : ClusterConfig) (q : Q) (created : result unit) (joined : result Z) : result (Cluster Q) :=
  if String.eqb (cc_Node cfg) EmptyString then Err ErrPeer
  else
    _ ← created;
    mret (mkCluster cfg [] false q 0).

(** The first of the two errors is returned; a second call does nothing. *)
Definition Leave (left_ shutdown : result unit) c : result unit * Cluster Q :=
  if c_closed c then (Ok tt, c)
  else (match left_ with Err e => Err e | Ok _ => shutdown end, set_closed c).

(** ** Events *)

(** A send that would block is dropped; a send on a closed channel panics ([None]). *)
Definition emit e c : option (Cluster Q) :=
  if c_closed c then None
  else if (length (c_events c) <? eventBuffer)%nat then Some (set_events (c_events c ++ [e]) c)
  else Some c.

(** The receiving end: [Run] of the syncer. *)
Definition receive_event c : option Event * Cluster Q :=
  match c_events c with
  | [] => (None, c)
  | e :: l => (Some e, set_events l c)
  end.

Definition apiAddrOf n : string :=
  if Nat.eqb (length (n_Meta n)) 0 then EmptyString
  else match Unmarshal (n_Meta n) with
       | Ok m => nm_API m
       | Err _ => EmptyString
       end.

Definition NotifyMsg (msg : bytes) c : option (Cluster Q) :=
  match Unmarshal msg with
  | Err _ => Some c
  | Ok h =>
      if String.eqb (hi_Node h) EmptyString || String.eqb (hi_Node h) (cc_Node (c_cfg c)) then Some c
      else emit (mkEvent EventHint (hi_Node h) (hi_Addr h) (hi_Seq h)) c
  end.

Definition NotifyJoin n c : option (Cluster Q) :=
  if String.eqb (n_Name n) (cc_Node (c_cfg c)) then Some c
  else emit (mkEvent EventJoin (n_Name n) (apiAddrOf n) 0) c.
Definition NotifyLeave n c : option (Cluster Q) :=
  if String.eqb (n_Name n) (cc_Node (c_cfg c)) then Some c
  else emit (mkEvent EventLeave (n_Name n) (apiAddrOf n) 0) c.
Definition NotifyUpdate n c : option (Cluster Q) :=
  if String.eqb (n_Name n) (cc_Node (c_cfg c)) then Some c
  else emit (mkEvent EventJoin (n_Name n) (apiAddrOf n) 0) c.

(** ** What a node tells the others *)

Definition Announce (seq : Z) c : Cluster Q :=
  let c := mkCluster (c_cfg c) (c_events c) (c_closed c) (c_queue c) seq in
  match Marshal (mkHint (cc_Node (c_cfg c)) (cc_APIAddr (c_cfg c)) seq) with
  | Err _ => c
  | Ok payload => mkCluster (c_cfg c) (c_events c) (c_closed c) (QueueBroadcast payload (c_queue c)) seq
  end.

(** The delegate hands memberlist the queued hints. *)
Definition delegate_GetBroadcasts (overhead limit : Z) c : list bytes * Cluster Q :=
  let '(msgs, q) := GetBroadcasts overhead limit (c_queue c) in
  (msgs, mkCluster (c_cfg c) (c_events c) (c_closed c) q (c_seq c)).

Definition NodeMeta (limit : Z) c : bytes :=
  match Marshal (mkNodeMeta (cc_APIAddr (c_cfg c))) with
  | Err _ => []
  | Ok meta => if Z.of_nat (length meta) >? limit then [] else meta
  end.

(** The members, given the nodes memberlist knows. *)
Definition Members (nodes : list mlNode) c : list Member :=
  (λ n, mkMember (n_Name n) (apiAddrOf n) (String.eqb (n_Name n) (cc_Node (c_cfg c)))) <$> nodes.

(** ** The event channel *)

(** What can happen to the channel before the cluster is left. *)
Inductive channel_op := OpEmit (e : Event) | OpReceive.

Definition channel_step (op : channel_op) (st : list Event * Cluster Q) : option (list Event * Cluster Q) :=
  let '(got, c) := st in
  match op with
  | OpEmit e => c' ← emit e c; Some (got, c')
  | OpReceive =>
      let '(o, c') := receive_event c in
      Some (got ++ match o with Some e => [e] | None => [] end, c')
  end.
Fixpoint channel_run (ops : list channel_op) (st : list Event * Cluster Q) : option (list Event * Cluster Q) :=
  match ops with
  | [] => Some st
  | op :: ops' => st' ← channel_step op st; channel_run ops' st'
  end.
Definition emitted (ops : list channel_op) : list Event :=
  omap (λ op, match op with OpEmit e => Some e | OpReceive => None end) ops.

Lemma channel_step_inv op got c :
  c_closed c = false → (length (c_events c) ≤ eventBuffer)%nat →
  ∃ got' c' sent, channel_step op (got, c) = Some (got', c') ∧ c_closed c' = false ∧
    (length (c_events c') ≤ eventBuffer)%nat ∧
    got' ++ c_events c' = (got ++ c_events c) ++ sent ∧
    (sent = emitted [op] ∨ (sent = [] ∧ length (c_events c) = eventBuffer)).
Proof.
  intros Ho Hl. destruct op as [e|]; simpl.
  - unfold emit. rewrite Ho. destruct (Nat.ltb_spec (length (c_events c)) eventBuffer).
    + do 2 eexists. exists [e]. split_and!; [done|done| |simpl; by rewrite app_assoc|by left].
      simpl. rewrite length_app. simpl. lia.
    + exists got, c, []. rewrite app_nil_r. split_and!; try done. right. split; [done|lia].
  - unfold receive_event. destruct (c_events c) as [|e l] eqn:E.
    + exists (got ++ []), c, []. rewrite !app_nil_r, E. split_and!; [done|done|simpl; lia|by rewrite app_nil_r|by left].
    + do 2 eexists. exists []. split_and!; [done|done|simpl in *; lia| |by left].
      simpl. by rewrite app_nil_r, <- app_assoc.
Qed.

(** The event channel never blocks and never reorders.  Before the cluster is left, whatever is
    emitted and received in whatever order: no callback waits or panics, at most 256 events wait,
    what the syncer has received and what still waits are events that were emitted, each once and
    in their order, and nothing is lost as long as no more than 256 were emitted. *)
Theorem event_channel ops c :
  c_closed c = false → c_events c = [] →
  ∃ got c', channel_run ops ([], c) = Some (got, c') ∧ c_closed c' = false ∧
    (length (c_events c') ≤ eventBuffer)%nat ∧
    sublist (got ++ c_events c') (emitted ops) ∧
    ((length (emitted ops) ≤ eventBuffer)%nat → got ++ c_events c' = emitted ops).
Proof.
  intros Ho He.
  assert (∀ ops got c, c_closed c = false → (length (c_events c) ≤ eventBuffer)%nat →
    ∃ got' c' sent, channel_run ops (got, c) = Some (got', c') ∧ c_closed c' = false ∧
      (length (c_events c') ≤ eventBuffer)%nat ∧ got' ++ c_events c' = (got ++ c_events c) ++ sent ∧
      sublist sent (emitted ops) ∧
      ((length (got ++ c_events c) + length (emitted ops) ≤ eventBuffer)%nat → sent = emitted ops)) as Hrun.
  { clear. induction ops as [|op ops IH]; intros got c Ho Hl.
    { exists got, c, []. rewrite app_nil_r. by split_and!. }
    destruct (channel_step_inv op got c Ho Hl) as (got1 & c1 & s1 & E1 & Ho1 & Hl1 & Eq1 & Hs1).
    destruct (IH got1 c1 Ho1 Hl1) as (got2 & c2 & s2 & E2 & Ho2 & Hl2 & Eq2 & Hs2 & Hall).
    exists got2, c2, (s1 ++ s2). cbn [channel_run]. unfold mbind, option_bind. rewrite E1.
    assert (emitted (op :: ops) = emitted [op] ++ emitted ops) as Eem by (by destruct op).
    split_and!; [done..|by rewrite Eq2, Eq1, app_assoc| |].
    - rewrite Eem. apply sublist_app; [|done].
      destruct Hs1 as [->|[-> _]]; [done|apply sublist_nil_l].
    - rewrite Eem, !length_app. intros Hsum. pose proof (f_equal length Eq1) as Hlen.
      rewrite !length_app in Hlen. destruct Hs1 as [->|[-> Hfull]].
      + by rewrite Hall by (rewrite length_app; lia).
      + assert (emitted [op] = []) as Enil by (apply length_zero_iff_nil; lia).
        by rewrite Enil, Hall by (rewrite length_app; simpl in *; lia). }
  destruct (Hrun ops [] c) as (got & c' & sent & E & Ho' & Hl & Eq & Hs & Hall); [done|rewrite He; simpl; lia|].
  rewrite He in Eq, Hall. simpl in Eq, Hall. exists got, c'. rewrite Eq. by split_and!.
Qed.

(** ** Addresses *)

(** The address a node advertises is the address its peers read: what [apiAddrOf] makes of the
    metadata another node published is that node's API address when it fits memberlist's
    limit, and the empty address, which nobody pulls from, when it does not — never a truncated one. *)
Theorem NodeMeta_apiAddrOf limit c name b :
  Utf8.ValidString (cc_APIAddr (c_cfg c)) = true → Marshal (mkNodeMeta (cc_APIAddr (c_cfg c))) = Ok b → b ≠ [] →
  apiAddrOf (mkMlNode name (NodeMeta limit c)) =
    if decide (Z.of_nat (length b) ≤ limit) then cc_APIAddr (c_cfg c) else EmptyString.
Proof.
  intros Hu Hm Hb. unfold apiAddrOf, NodeMeta. rewrite Hm. simpl.
  destruct (Z.gtb_spec (Z.of_nat (length b)) limit); case_decide; try lia; [done|].
  destruct b as [|x b]; [done|]. simpl. by rewrite (codec_round (mkNodeMeta (cc_APIAddr (c_cfg c))) _ (proj2 (Forall_singleton _ _) Hu) Hm).
Qed.

(** ** Hints *)

(** What a hint becomes where it arrives. *)
Lemma NotifyMsg_hint h b c :
  Forall (λ s, Utf8.ValidString s = true) (texts h) → Marshal h = Ok b → c_closed c = false →
  NotifyMsg b c = Some (
    if String.eqb (hi_Node h) EmptyString || String.eqb (hi_Node h) (cc_Node (c_cfg c)) then c
    else if (length (c_events c) <? eventBuffer)%nat
         then set_events (c_events c ++ [mkEvent EventHint (hi_Node h) (hi_Addr h) (hi_Seq h)]) c else c).
Proof.
  intros Hu Hm Ho. unfold NotifyMsg, emit. rewrite (codec_round _ _ Hu Hm), Ho. by repeat case_match.
Qed.

(** Once the cluster has been left the channel is closed, and a callback memberlist still
    makes panics. *)
Lemma emit_after_Leave e left_ shutdown c : emit e (Leave left_ shutdown c).2 = None.
Proof. unfold Leave, emit. by destruct (c_closed c) eqn:E; simpl; rewrite ?E. Qed.
End cluster.
