(* ===== verification/Resolve.v ===== *)
(** * Conflict resolution (internal/syncer/resolve.go)

    [resolve] is the pure decision; [merge] is what a node holds for a path after
    acting on it, and the theorems relate the two to a last-writer-wins register. *)
From S2P Require Import Prelude GoStrings Clock Entry.

Inductive decision := decisionSkip | decisionAccept | decisionConflict.

#[export] Instance decision_eq_dec : EqDecision decision.
Proof. solve_decision. Defined.

Definition resolve (local : Meta) (haveLocal : bool) (remote : Meta) : decision :=
  if negb haveLocal then decisionAccept
  else if Equal (MVersion local) (MVersion remote) then decisionSkip
  else if After (MVersion local) (MVersion remote) then decisionSkip
  else if Deleted local then decisionAccept
  else if String.eqb (Hash local) EmptyString then decisionAccept
  else if String.eqb (PrevHash remote) (Hash local) then decisionAccept
  else if String.eqb (Hash remote) (Hash local) then decisionAccept
  else decisionConflict.

(** The remote write is the later one. *)
Definition wins (remote local : Meta) : Prop := ver_lt (MVersion local) (MVersion remote).

(** The local entry holds content the remote write neither starts from nor ends at. *)
Definition sibling (local remote : Meta) : Prop :=
  Deleted local = false ∧ Hash local ≠ EmptyString ∧
  PrevHash remote ≠ Hash local ∧ Hash remote ≠ Hash local.

Lemma wins_or_not remote local :
  (wins remote local ∧ Equal (MVersion local) (MVersion remote) = false ∧
   After (MVersion local) (MVersion remote) = false) ∨
  (¬ wins remote local ∧ (Equal (MVersion local) (MVersion remote) = true ∨
   After (MVersion local) (MVersion remote) = true)).
Proof.
  unfold wins. destruct (ver_trichotomy (MVersion local) (MVersion remote)) as [H|[H|H]].
  - left. split_and!; [done| |by apply not_After; left].
    apply not_true_iff_false. rewrite Equal_spec. intros E. rewrite E in H. by apply ver_lt_irrefl in H.
  - right. split; [rewrite H; apply ver_lt_irrefl|left]. by apply Equal_spec.
  - right. split; [|by right; apply After_spec].
    intros H'. destruct (ver_lt_irrefl (MVersion local)). by_trans.
Qed.

Lemma resolve_cases local have remote :
  (resolve local have remote = decisionSkip ↔ have = true ∧ ¬ wins remote local) ∧
  (resolve local have remote = decisionConflict ↔
     have = true ∧ wins remote local ∧ sibling local remote) ∧
  (resolve local have remote = decisionAccept ↔
     have = false ∨ (wins remote local ∧ ¬ sibling local remote)).
Proof.
  unfold resolve, sibling. destruct have; simpl; [|naive_solver].
  destruct (wins_or_not remote local) as [(Hw & -> & ->)|(Hw & Hs)].
  - destruct (Deleted local); [naive_solver|].
    destruct (String.eqb_spec (Hash local) EmptyString); [naive_solver|].
    destruct (String.eqb_spec (PrevHash remote) (Hash local)); [naive_solver|].
    destruct (String.eqb_spec (Hash remote) (Hash local)); naive_solver.
  - assert (∀ (b1 b2 : bool) (d : decision), b1 = true ∨ b2 = true →
      (if b1 then decisionSkip else if b2 then decisionSkip else d) = decisionSkip) as ->;
      [by intros b1 b2 d [->| ->]; [|destruct b1]|naive_solver|done].
Qed.

Lemma resolve_skip local have remote :
  resolve local have remote = decisionSkip ↔ have = true ∧ ¬ wins remote local.
Proof. apply resolve_cases. Qed.
Lemma resolve_conflict local have remote :
  resolve local have remote = decisionConflict ↔
  have = true ∧ wins remote local ∧ sibling local remote.
Proof. apply resolve_cases. Qed.
Lemma resolve_accept local have remote :
  resolve local have remote = decisionAccept ↔
  have = false ∨ (wins remote local ∧ ¬ sibling local remote).
Proof. apply resolve_cases. Qed.

(** An accepted write never loses content silently: when a later write replaces a live
    local entry whose content it neither builds on nor equals, the decision is a
    conflict, so the local content is preserved before it is overwritten. *)
Theorem resolve_keeps_content local remote :
  resolve local true remote = decisionAccept → Deleted local = false → Hash local ≠ EmptyString →
  PrevHash remote = Hash local ∨ Hash remote = Hash local.
Proof.
  intros [|[_ Hs]]%resolve_accept Hd Hh; [done|]. unfold sibling in Hs.
  destruct (decide (PrevHash remote = Hash local)), (decide (Hash remote = Hash local)); auto.
  by destruct Hs.
Qed.

(** Of two different writes to a path, exactly one wins: a node that holds one of them
    and receives the other skips it in exactly one of the two directions, and a write
    met again is skipped. *)
Theorem resolve_one_side a b :
  (MVersion a = MVersion b → resolve a true b = decisionSkip ∧ resolve b true a = decisionSkip) ∧
  (MVersion a ≠ MVersion b →
     (resolve a true b = decisionSkip ∧ resolve b true a ≠ decisionSkip) ∨
     (resolve a true b ≠ decisionSkip ∧ resolve b true a = decisionSkip)).
Proof.
  rewrite !resolve_skip. unfold wins. split.
  - intros ->. split; split; try done; apply ver_lt_irrefl.
  - intros Hne. destruct (ver_trichotomy (MVersion a) (MVersion b)) as [Hlt|[?|Hlt]]; [right|done|left].
    + split; [intros []; done|]. split; [done|]. intros ?. by destruct (ver_lt_irrefl (MVersion a)); by_trans.
    + split; [|intros []; done]. split; [done|]. intros ?. by destruct (ver_lt_irrefl (MVersion a)); by_trans.
Qed.

(** ** The register a path is *)

(** What a node holds for a path after acting on a remote entry (the conflict copy
    goes to another path). *)
Definition merge (held : option Meta) (remote : Meta) : option Meta :=
  match resolve (default zero_meta held) (bool_decide (is_Some held)) remote with
  | decisionSkip => held
  | _ => Some remote
  end.

(** The specification: the later of two writes. *)
Definition later (held : option Meta) (remote : Meta) : option Meta :=
  match held with
  | None => Some remote
  | Some local => if After (MVersion remote) (MVersion local) then Some remote else Some local
  end.

Lemma merge_later held remote : merge held remote = later held remote.
Proof.
  unfold merge, later. destruct held as [local|]; simpl; [|done].
  pose proof (resolve_cases local true remote) as (Hs & Hc & Ha).
  destruct (After (MVersion remote) (MVersion local)) eqn:E.
  - apply After_spec in E. destruct (resolve local true remote); [|done..].
    destruct (proj1 Hs eq_refl) as [_ Hw]. by destruct Hw.
  - destruct (resolve local true remote); [done| |].
    + destruct (proj1 Ha eq_refl) as [?|[Hw _]]; [done|]. apply After_spec in Hw. congruence.
    + destruct (proj1 Hc eq_refl) as (_ & Hw & _). apply After_spec in Hw. congruence.
Qed.

(** The version identifies the write. *)
Definition versions_identify (ws : list Meta) : Prop :=
  ∀ w1 w2, w1 ∈ ws → w2 ∈ ws → MVersion w1 = MVersion w2 → w1 = w2.

Lemma foldl_later_spec ws w0 :
  ∃ w, foldl later (Some w0) ws = Some w ∧ w ∈ w0 :: ws ∧
    ∀ w', w' ∈ w0 :: ws → ver_le (MVersion w') (MVersion w).
Proof.
  revert w0. induction ws as [|w1 ws IH]; intros w0; simpl.
  - exists w0. split_and!; [done|by left|]. intros w' ->%list_elem_of_singleton. by right.
  - destruct (After (MVersion w1) (MVersion w0)) eqn:E.
    + apply After_spec in E. destruct (IH w1) as (w & -> & Hin & Hmax).
      exists w. split_and!; [done|by right|]. intros w' [->|Hw']%elem_of_cons; [|by apply Hmax].
      eapply ver_le_trans; [by left|]. apply Hmax. by left.
    + apply not_After in E. destruct (IH w0) as (w & -> & Hin & Hmax).
      exists w. split_and!; [done|set_solver|]. intros w' [->|[->|Hw']%elem_of_cons]%elem_of_cons.
      * apply Hmax. by left.
      * eapply ver_le_trans; [done|]. apply Hmax. by left.
      * apply Hmax. by right.
Qed.

(** C30: Convergence of one path: nodes that have received the same writes hold the same
    entry, whatever order the writes arrived in and however often each was repeated —
    the entry with the greatest version. *)
Theorem merge_order_independent ws1 ws2 :
  versions_identify (ws1 ++ ws2) → (∀ w, w ∈ ws1 ↔ w ∈ ws2) →
  foldl merge None ws1 = foldl merge None ws2 ∧
  (∀ w, foldl merge None ws1 = Some w →
     w ∈ ws1 ∧ ∀ w', w' ∈ ws1 → ver_le (MVersion w') (MVersion w)).
Proof.
  assert (∀ h ws, foldl merge h ws = foldl later h ws) as Hml.
  { intros h ws. revert h. induction ws as [|w ws IH]; intros h; simpl; [done|].
    by rewrite merge_later, IH. }
  intros Hv Hsame. rewrite !Hml.
  destruct ws1 as [|a ws1], ws2 as [|b ws2]; simpl.
  - done.
  - by destruct (not_elem_of_nil b); apply Hsame; left.
  - by destruct (not_elem_of_nil a); apply Hsame; left.
  - destruct (foldl_later_spec ws1 a) as (w1 & -> & Hin1 & Hmax1).
    destruct (foldl_later_spec ws2 b) as (w2 & -> & Hin2 & Hmax2).
    split; [|by intros w [= <-]]. f_equal. apply Hv.
    + apply elem_of_app. by left.
    + apply elem_of_app. by right.
    + apply ver_le_antisym; [by apply Hmax2, Hsame|by apply Hmax1, Hsame].
Qed.

(** *** Examples: the table of resolve_test.go *)

Definition test_entry (hash prev : string) (wall : Z) (origin : string) : Meta :=
  mkMeta "app.conf" KindFile hash prev 1 420 0 0 (mkVersion (mkTimestamp wall 0) origin) false 0 0.

Example resolve_concurrent :
  resolve (test_entry "local" "base" 100 "a") true (test_entry "remote" "base" 200 "b") =
    decisionConflict.
Proof. reflexivity. Qed.
Example resolve_fast_forward :
  resolve (test_entry "base" "" 100 "a") true (test_entry "next" "base" 200 "b") = decisionAccept.
Proof. reflexivity. Qed.
Example resolve_tie :
  resolve (test_entry "x" "" 100 "b") true (test_entry "y" "" 100 "a") = decisionSkip.
Proof. reflexivity. Qed.

Lemma resolve_keeps_content_witness :
  PrevHash (test_entry "next" "base" 200 "b") = Hash (test_entry "base" "" 100 "a") ∨
  Hash (test_entry "next" "base" 200 "b") = Hash (test_entry "base" "" 100 "a").
Proof. apply (resolve_keeps_content (test_entry "base" "" 100 "a")); by_compute. Defined.

Lemma merge_order_independent_witness :
  let a := test_entry "x" "" 100 "a" in
  let b := test_entry "y" "x" 200 "b" in
  foldl merge None [a; b; a] = foldl merge None [b; a] ∧ foldl merge None [b; a] = Some b.
Proof.
  intros a b. split; [|reflexivity].
  refine (proj1 (merge_order_independent [a; b; a] [b; a] _ _)).
  - intros w1 w2. simpl. rewrite !elem_of_cons, !elem_of_nil.
    intros [-> | [-> | [-> | [-> | [-> | []]]]]] [-> | [-> | [-> | [-> | [-> | []]]]]];
      (reflexivity || discriminate).
  - intros w. rewrite !elem_of_cons, !elem_of_nil. tauto.
Defined.
