(* ===== verification/Syncer.v ===== *)
(** * The single writer (internal/syncer/syncer.go)

    A node: its database, its clock, its subscribers and what it has gossiped.
    Every operation holds the mutex [write] from its first read to its commit, so an
    operation is one function on the state.  System time is a typeclass: the
    readings of a run are arbitrary. *)
From S2P Require Import Prelude GoStrings Clock Paths Crypto Entry Store StoreFacts Resolve.

(** ** State *)

(** The [n]-th reading of the system clock, in nanoseconds. *)
Class SystemTime := time_now : nat → Z.

Record Config := mkConfig {
  Node : string;
  MaxFileSize : Z;
  TombstoneTTL : Z;
  HasPeers : bool      (* cfg.Peers != nil *)
}.

(** [subs] holds for each subscriber whether a signal waits in its channel of
    depth one; [announced] is the outbox of [Peers.Announce]. *)
Record node := mkNode {
  db : DB;
  clock : Timestamp;
  ticks : nat;
  reqs : nat;
  subs_next : Z;
  subs : gmap Z bool;
  announced : list Z
}.

Definition set_db (d : DB) (s : node) : node :=
  mkNode d (clock s) (ticks s) (reqs s) (subs_next s) (subs s) (announced s).
Definition set_clock (c : Timestamp) (s : node) : node :=
  mkNode (db s) c (ticks s) (reqs s) (subs_next s) (subs s) (announced s).
Definition set_ticks (n : nat) (s : node) : node :=
  mkNode (db s) (clock s) n (reqs s) (subs_next s) (subs s) (announced s).
Definition set_reqs (n : nat) (s : node) : node :=
  mkNode (db s) (clock s) (ticks s) n (subs_next s) (subs s) (announced s).
Definition set_subs (n : Z) (m : gmap Z bool) (s : node) : node :=
  mkNode (db s) (clock s) (ticks s) (reqs s) n m (announced s).
Definition set_announced (l : list Z) (s : node) : node :=
  mkNode (db s) (clock s) (ticks s) (reqs s) (subs_next s) (subs s) l.

(** [New]: a service over a database, with a fresh clock and no subscriber. *)
Definition New (d : DB) : node := mkNode d NewClock 0 0 0 ∅ [].

Section syncer.
Context `{DBFaults, Sha256, SystemTime} (cfg : Config).

(** A call of the store. *)
Definition on_db {A} (m : ST DB A) : ST node A := zoom db set_db m.

(** time.Now().UnixNano(), and the clock's Now and Observe on such a reading. *)
Definition now : ST node Z := λ s, (Ok (time_now (ticks s)), set_ticks (S (ticks s)) s).
Definition clock_now : ST node Timestamp :=
  p ← now;
  _ ← modify (λ s, set_clock (Now p (clock s)) s);
  gets clock.
Definition clock_observe (remote : Timestamp) : ST node Timestamp :=
  p ← now;
  zoom clock set_clock (Observe p remote).

(** ** Subscribers *)

Definition Subscribe : ST node Z :=
  id ← gets subs_next;
  _ ← modify (λ s, set_subs (id + 1) (<[id := false]> (subs s)) s);
  mret id.

(** The function [Subscribe] returns. *)
Definition unsubscribe (id : Z) : ST node unit :=
  modify (λ s, set_subs (subs_next s) (delete id (subs s)) s).

(** A subscriber receives: whether there was a signal. *)
Definition receive (id : Z) : ST node bool :=
  m ← gets subs;
  _ ← modify (λ s, set_subs (subs_next s) (alter (λ _, false) id (subs s)) s);
  mret (default false (m !! id)).

(** A send to a full channel is dropped. *)
Definition notify : ST node unit :=
  modify (λ s, set_subs (subs_next s) ((λ _, true) <$> subs s) s).

Definition Announce (seq : Z) : ST node unit :=
  modify (λ s, set_announced (announced s ++ [seq]) s).

(** ** Reading and committing *)

Definition lookup (path : string) : ST node (Meta * bool) :=
  r ← attempt (on_db (Get path));
  match r with
  | Ok cur => mret (cur, true)
  | Err ErrNotFound => mret (zero_meta, false)
  | Err e => throw e
  end.

Definition commit (metas : list Meta) : ST node unit :=
  head ← on_db (Apply metas);
  _ ← notify;
  if HasPeers cfg then Announce head else mret tt.

(** ** Local writes *)

Definition PutFile (path : string) (content : bytes) (mode uid gid : Z) : ST node unit :=
  clean ← lift (SanitizePath path);
  if Z.of_nat (length content) >? MaxFileSize cfg then throw ErrTooLarge
  else
    let mode := SanitizeMode mode in
    '(cur, have) ← lookup clean;
    let hash := HashContent content in
    if have && negb (Deleted cur) && (MKind cur =? KindFile) && String.eqb (Hash cur) hash
       && (Mode cur =? mode) && (UID cur =? uid) && (GID cur =? gid)
    then mret tt
    else
      _ ← on_db (PutBlob content);
      hlc ← clock_now;
      commit [mkMeta clean KindFile hash (Hash cur) (Z.of_nat (length content)) mode uid gid
                (mkVersion hlc (Node cfg)) false 0 0].

Definition PutDir (path : string) (mode uid gid : Z) : ST node unit :=
  clean ← lift (SanitizePath path);
  let mode := SanitizeMode mode in
  '(cur, have) ← lookup clean;
  if have && negb (Deleted cur) && (MKind cur =? KindDir)
     && (Mode cur =? mode) && (UID cur =? uid) && (GID cur =? gid)
  then mret tt
  else
    hlc ← clock_now;
    commit [mkMeta clean KindDir "" "" 0 mode uid gid (mkVersion hlc (Node cfg)) false 0 0].

Definition SetAttr (path : string) (mode uid gid : Z) : ST node unit :=
  clean ← lift (SanitizePath path);
  let mode := SanitizeMode mode in
  '(cur, have) ← lookup clean;
  if negb have || Deleted cur then throw ErrNotFound
  else if (Mode cur =? mode) && (UID cur =? uid) && (GID cur =? gid) then mret tt
  else
    hlc ← clock_now;
    commit [mkMeta (Path cur) (MKind cur) (Hash cur) (Hash cur) (Size cur) mode uid gid
              (mkVersion hlc (Node cfg)) (Deleted cur) (DeletedAt cur) 0].

Definition Delete (path : string) : ST node unit :=
  clean ← lift (SanitizePath path);
  '(cur, have) ← lookup clean;
  if negb have || Deleted cur then mret tt
  else
    hlc ← clock_now;
    at_ ← now;
    commit [mkMeta clean (MKind cur) "" (Hash cur) 0 (Mode cur) (UID cur) (GID cur)
              (mkVersion hlc (Node cfg)) true at_ 0].

(** ** Reads for the projections *)

Definition Live : ST node (list Meta) := on_db Store.Live.
Definition Get (path : string) : ST node Meta := on_db (Store.Get path).
Definition Content (hash : string) : ST node bytes := on_db (GetBlob hash).

Definition Conflicts : ST node (list string) :=
  entries ← on_db Store.Live;
  mret (Path <$> filter (λ m, IsConflictName (Path m) = true) entries).
End syncer.

(** ** Facts *)

(** What others can see of a node: everything but the counts of statements run, of
    clock readings and of requests. *)
Definition observable (s : node) : tables * Timestamp * Z * gmap Z bool * list Z :=
  (tbl (db s), clock s, subs_next s, subs s, announced s).

(** The entry of a path, as [lookup] reports it. *)
Definition entry_at (t : tables) (p : string) : Meta * bool :=
  match entries t !! p with Some r => (meta r, true) | None => (zero_meta, false) end.

Section facts.
Context `{DBFaults, Sha256, SystemTime} (cfg : Config).
Implicit Types (t : tables) (s : node) (m : Meta) (ms : list Meta).

Lemma on_db_inv {A} (q : ST DB A) s res s' :
  on_db q s = (res, s') → ∃ d', q (db s) = (res, d') ∧ s' = set_db d' s.
Proof. unfold on_db, zoom. destruct (q (db s)) as [r d']. intros. simplify_eq. eauto. Qed.

Lemma on_db_quiet s d' : tbl d' = tbl (db s) → observable (set_db d' s) = observable s.
Proof. unfold observable. simpl. by intros ->. Qed.

Lemma lookup_inv p s res s' :
  lookup p s = (res, s') → observable s' = observable s ∧ ticks s' = ticks s ∧
  ((res = Err ErrDB ∧ db_fault) ∨ res = Ok (entry_at (tbl (db s)) p)).
Proof.
  unfold lookup. intros (r & s1 & E & Hk)%bind_inv.
  unfold attempt in E. destruct (on_db (Store.Get p) s) as [r0 s0] eqn:Eg. simplify_eq.
  apply on_db_inv in Eg as (d' & Eg & ->). apply Get_inv in Eg as [Ht Hr].
  assert (s' = set_db d' s ∧ ((res = Err ErrDB ∧ db_fault) ∨ res = Ok (entry_at (tbl (db s)) p))) as [-> ?].
  { unfold entry_at. destruct Hr as [[-> ?]|Hr]; [|destruct (entries (tbl (db s)) !! p); subst r0];
      unfold throw, mret, ST_ret in Hk; simplify_eq; auto. }
  by rewrite (on_db_quiet _ _ Ht).
Qed.

Lemma clock_now_inv s res s' :
  clock_now s = (res, s') →
  ∃ n, res = Ok (Now (time_now n) (clock s)) ∧ clock s' = Now (time_now n) (clock s) ∧ db s' = db s ∧
    subs_next s' = subs_next s ∧ subs s' = subs s ∧ announced s' = announced s ∧
    ticks s' = S (ticks s).
Proof. unfold clock_now. intros [= <- <-]. by exists (ticks s). Qed.

(** What a node shows after committing a batch: the batch stored, a signal waiting for
    every subscriber, and the new feed position gossiped. *)
Definition committed ms s s' : Prop :=
  tbl (db s') = applied ms (tbl (db s)) ∧
  clock s' = clock s ∧ subs_next s' = subs_next s ∧
  subs s' = (λ _, true) <$> subs s ∧
  announced s' = announced s ++ (if HasPeers cfg then [local_seq (tbl (db s'))] else []) ∧
  ticks s' = ticks s.

Lemma commit_inv ms s res s' :
  wf_tables (tbl (db s)) → commit cfg ms s = (res, s') →
  (res = Err ErrDB ∧ observable s' = observable s ∧
   (db_fault ∨ max_int64 < local_seq (tbl (db s)) + Z.of_nat (length ms))) ∨
  (res = Ok tt ∧ committed ms s s').
Proof.
  intros Hw (r & s1 & (d' & E & ->)%on_db_inv & Hk)%bind_inv.
  destruct (Apply_inv _ _ _ _ Hw E) as [(-> & Ht & Hf)|[-> Ht]].
  - destruct Hk as [-> ->]. left. split_and!; [done|by apply on_db_quiet|done].
  - right. unfold notify, Announce, modify, mret, ST_ret in Hk.
    destruct (HasPeers cfg) eqn:Ep; unfold mbind, ST_bind in Hk; simplify_eq/=;
      unfold committed; simpl; rewrite ?Ep, ?app_nil_r; split_and!; auto.
Qed.

(** Why a write of [n] entries may fail: SQLite does, or the feed is exhausted. *)
Definition no_room (n : nat) s : Prop :=
  db_fault ∨ max_int64 < local_seq (tbl (db s)) + Z.of_nat n.

(** The tables once a content, if any, is stored. *)
Definition stored (oc : option bytes) t : tables :=
  match oc with Some content => with_blob content t | None => t end.

(** A local write of one entry: the entry, after its content, is stored at the next
    feed position, it carries the clock's new reading and this node's name, and
    everybody is told. *)
Record wrote (oc : option bytes) m s s' : Prop := {
  wrote_tables : tbl (db s') = applied [m] (stored oc (tbl (db s)));
  wrote_version : MVersion m = mkVersion (clock s') (Node cfg);
  wrote_clock : ∃ n, clock s' = Now (time_now n) (clock s);
  wrote_subs : subs s' = (λ _, true) <$> subs s;
  wrote_announced : announced s' = announced s ++
    (if HasPeers cfg then [local_seq (tbl (db s'))] else [])
}.

(** A failed write: no entry, signal or announcement; at most a content was stored, and the clock read. *)
Record aborted (oc : option bytes) s s' : Prop := {
  aborted_tables : tbl (db s') = tbl (db s) ∨ tbl (db s') = stored oc (tbl (db s));
  aborted_entries : entries (tbl (db s')) = entries (tbl (db s));
  aborted_seq : local_seq (tbl (db s')) = local_seq (tbl (db s));
  aborted_subs : subs s' = subs s;
  aborted_announced : announced s' = announced s;
  aborted_clock : clock s' = clock s ∨ ∃ n, clock s' = Now (time_now n) (clock s)
}.

Lemma aborted_quiet oc s s' : observable s' = observable s → aborted oc s s'.
Proof.
  unfold observable. intros [= Ht ? _ ? ?]. split; rewrite ?Ht; [by left|done..|by left].
Qed.

Lemma stored_entries oc t :
  entries (stored oc t) = entries t ∧ peers (stored oc t) = peers t ∧
  local_seq (stored oc t) = local_seq t.
Proof. destruct oc; [apply with_blob_entries|done]. Qed.

Lemma wf_stored oc t : wf_store t → wf_store (stored oc t).
Proof. destruct oc; [apply wf_store_with_blob|done]. Qed.

(** The last steps of every local write: read the clock, build the entry, commit. *)
Lemma clock_commit_inv (k : Timestamp → ST node unit) (next : Timestamp → Meta) s res s' :
  wf_tables (tbl (db s)) →
  (∀ h, MVersion (next h) = mkVersion h (Node cfg)) →
  (∀ h s1, ticks s1 = S (ticks s) →
     ∃ s2, observable s2 = observable s1 ∧ k h s1 = commit cfg [next h] s2) →
  (hlc ← clock_now; k hlc) s = (res, s') →
  (res = Err ErrDB ∧ no_room 1 s ∧ aborted None s s') ∨ (res = Ok tt ∧ wrote None (next (clock s')) s s').
Proof.
  intros Hw Hn Hcom (r & s1 & (p & -> & Hc & Hdb & Hsn & Hsu & Han & Hti)%clock_now_inv & Hk)%bind_inv.
  destruct (Hcom (Now (time_now p) (clock s)) s1 Hti) as (s2 & Hq & Hk2). rewrite Hk2 in Hk. clear Hk2 Hti Hcom.
  pose proof Hq as [= Et Ec _ Es Ea]. rewrite Hc in Ec. rewrite Hdb in Et. rewrite Hsu in Es.
  rewrite Han in Ea. clear Hc Hdb Hsu Han Hsn Hq. rewrite <- Ec in Hk.
  apply commit_inv in Hk as [(-> & [= Qt Qc _ Qs Qa] & Hf)|(-> & Ht & Hc' & _ & Hs' & Ha' & _)];
    [| |by rewrite Et].
  - left. unfold no_room. rewrite <- Et. split_and!; [done..|].
    split; try congruence; [left; congruence|right; exists p; congruence].
  - right. split; [done|]. rewrite Hc'. split.
    + by rewrite Ht, Et.
    + by rewrite Hc'.
    + exists p. by rewrite Hc', Ec.
    + by rewrite Hs', Es.
    + by rewrite Ha', Ea.
Qed.
End facts.

(** ** Local writes *)

Section writes.
Context `{DBFaults, Sha256, !Sha256Laws, SystemTime} (cfg : Config).
Implicit Types (t : tables) (s : node) (m : Meta) (ms : list Meta).

(** The stored entry already is what a write offers. *)
Definition same_attrs m (mode uid gid : Z) : Prop := Mode m = mode ∧ UID m = uid ∧ GID m = gid.
Definition holds_file t p hash (mode uid gid : Z) : Prop :=
  let '(cur, have) := entry_at t p in
  have = true ∧ Deleted cur = false ∧ MKind cur = KindFile ∧ Hash cur = hash ∧
  same_attrs cur mode uid gid.
Definition holds_dir t p (mode uid gid : Z) : Prop :=
  let '(cur, have) := entry_at t p in
  have = true ∧ Deleted cur = false ∧ MKind cur = KindDir ∧ same_attrs cur mode uid gid.
Definition live t p : Prop :=
  let '(cur, have) := entry_at t p in have = true ∧ Deleted cur = false.

#[export] Instance live_dec t p : Decision (live t p).
Proof. unfold live. destruct (entry_at t p). apply _. Defined.

(** The three ways a local write that passes its guards ends: nothing to do, the new
    entry stored, or nothing stored because the database failed. *)
Definition local_write (unchanged : Prop) (oc : option bytes) (next : Timestamp → Meta) s (res : result unit) s' : Prop :=
  (unchanged ∧ res = Ok tt ∧ observable s' = observable s) ∨
  (¬ unchanged ∧ res = Ok tt ∧ wrote cfg oc (next (clock s')) s s') ∨
  (res = Err ErrDB ∧ no_room 1 s ∧ aborted oc s s').

Lemma entry_at_quiet s s' p : observable s' = observable s →
  entry_at (tbl (db s')) p = entry_at (tbl (db s)) p.
Proof. unfold observable. by intros [= -> _ _ _ _]. Qed.

(** A write that starts after a quiet lookup is a write from the start. *)
Lemma local_write_quiet unchanged oc next s s1 res s' :
  observable s1 = observable s → local_write unchanged oc next s1 res s' →
  local_write unchanged oc next s res s'.
Proof.
  intros Hobs. pose proof Hobs as [= Ht Hc Hn Hs Ha]. intros [(? & -> & Hq)|[(? & -> & W)|(-> & Hf & A)]].
  - left. split_and!; [done..|]. congruence.
  - right; left. split_and!; [done..|]. destruct W. split; rewrite ?Ht, ?Hc, ?Hs, ?Ha in *; done.
  - right; right. unfold no_room in *. destruct A. rewrite Ht, ?Hc in *.
    split_and!; [done..|]. split; first [done|congruence].
Qed.

Lemma lookup_err_write unchanged oc next s s' (res : result unit) :
  db_fault → observable s' = observable s → res = Err ErrDB → local_write unchanged oc next s res s'.
Proof. intros. right; right. unfold no_room. split_and!; [done|by left|by apply aborted_quiet]. Qed.

(** Storing the content first changes nothing but the blobs. *)
Lemma put_blob_write content unchanged next s res s' :
  wf_tables (tbl (db s)) → ¬ unchanged →
  (∀ h, MVersion (next h) = mkVersion h (Node cfg)) →
  (_ ← on_db (PutBlob content); hlc ← clock_now; commit cfg [next hlc]) s = (res, s') →
  local_write unchanged (Some content) next s res s'.
Proof.
  intros Hw Hu Hn (r & s1 & (d' & E & ->)%on_db_inv & Hk)%bind_inv.
  apply PutBlob_inv in E as [(-> & ? & Ht)|[-> Ht]].
  { destruct Hk as [-> ->]. apply lookup_err_write; [done| |done]. by apply on_db_quiet. }
  destruct (with_blob_entries content (tbl (db s))) as (He & _ & Hl).
  apply (clock_commit_inv cfg _ next) in Hk; [|by simpl; rewrite Ht; apply wf_with_blob|done|by eauto].
  destruct Hk as [(-> & Hf & [Ho ? ? ? ?])|(-> & W)]; simpl in *.
  - right; right. unfold no_room in *. simpl in *. rewrite Ht, Hl in *.
    split_and!; [done..|]. split; simpl in *; try congruence. right. by destruct Ho.
  - right; left. split_and!; [done..|]. destruct W as [W1 W3 W4 W5 W6]. simpl in *.
    rewrite Ht in *. by split.
Qed.

(** The first guard of every write. *)
Lemma sanitize_inv {A} p (k : string → ST node A) s res s' :
  (clean ← lift (SanitizePath p); k clean) s = (res, s') →
  (¬ canonical p ∧ res = Err ErrBadPath ∧ s' = s) ∨ (canonical p ∧ k p s = (res, s')).
Proof.
  intros (r & s1 & [= <- <-] & Hk)%bind_inv. rewrite SanitizePath_eq in Hk.
  case_bool_decide; [by right|left]. by destruct Hk as [-> ->].
Qed.

(** The reading of the current entry, before what [k] does with it. *)
Lemma lookup_write p (k : Meta * bool → ST node unit) unchanged oc next s res s' :
  (ch ← lookup p; k ch) s = (res, s') →
  (∀ s1, observable s1 = observable s → ticks s1 = ticks s →
     k (entry_at (tbl (db s)) p) s1 = (res, s') →
     local_write unchanged oc next s1 res s') →
  local_write unchanged oc next s res s'.
Proof.
  intros (r & s1 & (Hq & Hti & [[-> Hf]| ->])%lookup_inv & Hk)%bind_inv Hcont.
  - destruct Hk as [-> ->]. by apply lookup_err_write.
  - eapply local_write_quiet; [done|]. by apply Hcont.
Qed.

Lemma local_write_unchanged unchanged oc next s :
  unchanged → local_write unchanged oc next s (Ok tt) s.
Proof. intros. left. done. Qed.

(** The short-circuit of a write. *)
Lemma local_write_if (b : bool) (unchanged : Prop) (k : ST node unit) oc next s res s' :
  (b = true ↔ unchanged) → (if b then mret tt else k) s = (res, s') →
  (¬ unchanged → k s = (res, s') → local_write unchanged oc next s res s') →
  local_write unchanged oc next s res s'.
Proof.
  intros Hb E Hk. destruct b.
  - injection E as <- <-. by apply local_write_unchanged, Hb.
  - apply Hk; [|done]. intros Hu. by apply Hb in Hu.
Qed.

Lemma local_write_commit unchanged k next s res s' :
  wf_tables (tbl (db s)) → ¬ unchanged →
  (∀ h, MVersion (next h) = mkVersion h (Node cfg)) →
  (∀ h s1, ticks s1 = S (ticks s) →
     ∃ s2, observable s2 = observable s1 ∧ k h s1 = commit cfg [next h] s2) →
  (hlc ← clock_now; k hlc) s = (res, s') →
  local_write unchanged None next s res s'.
Proof.
  intros Hw Hu Hn Hk E.
  destruct (clock_commit_inv cfg k next s res s') as [(-> & ? & ?)|[-> ?]]; try done;
    [by right; right|by right; left].
Qed.

Lemma observable_wf s1 s : observable s1 = observable s → wf_tables (tbl (db s)) → wf_tables (tbl (db s1)).
Proof. by intros [= -> _ _ _ _]. Qed.

End writes.

Section specs.
Context `{DBFaults, Sha256, !Sha256Laws, SystemTime} (cfg : Config).
Implicit Types (t : tables) (s : node) (m : Meta) (ms : list Meta).

Lemma PutFile_inv p content mode uid gid s res s' :
  wf_tables (tbl (db s)) → PutFile cfg p content mode uid gid s = (res, s') →
  let hash := HashContent content in
  let size := Z.of_nat (length content) in
  let old := entry_at (tbl (db s)) p in
  (¬ canonical p ∧ res = Err ErrBadPath ∧ s' = s) ∨
  (canonical p ∧ MaxFileSize cfg < size ∧ res = Err ErrTooLarge ∧ s' = s) ∨
  (canonical p ∧ size ≤ MaxFileSize cfg ∧
   local_write cfg (holds_file (tbl (db s)) p hash (SanitizeMode mode) uid gid) (Some content)
     (λ h, mkMeta p KindFile hash (Hash old.1) size (SanitizeMode mode) uid gid
             (mkVersion h (Node cfg)) false 0 0) s res s').
Proof.
  intros Hw E hash size old. apply sanitize_inv in E as [?|[Hc E]]; [by left|right].
  rewrite Z.gtb_ltb in E. fold size in E. destruct (Z.ltb_spec (MaxFileSize cfg) size) as [Hs|Hs].
  { injection E as <- <-. by left. }
  right. split; [done|]. split; [done|].
  eapply lookup_write; [exact E|]. clear E. intros s1 Hq Ht E. fold old in E.
  unfold holds_file, same_attrs. fold old. destruct old as [cur have]; simpl in *.
  eapply local_write_if; [|exact E|].
  - rewrite !andb_true_iff, negb_true_iff, !Z.eqb_eq, String.eqb_eq. unfold hash. tauto.
  - intros Hu Ek.
    by eapply (put_blob_write _ content); [eapply observable_wf| | |exact Ek].
Qed.

Lemma PutDir_inv p mode uid gid s res s' :
  wf_tables (tbl (db s)) → PutDir cfg p mode uid gid s = (res, s') →
  (¬ canonical p ∧ res = Err ErrBadPath ∧ s' = s) ∨
  (canonical p ∧
   local_write cfg (holds_dir (tbl (db s)) p (SanitizeMode mode) uid gid) None
     (λ h, mkMeta p KindDir "" "" 0 (SanitizeMode mode) uid gid (mkVersion h (Node cfg)) false 0 0)
     s res s').
Proof.
  intros Hw E. apply sanitize_inv in E as [?|[Hc E]]; [by left|right]. split; [done|].
  eapply lookup_write; [exact E|]. clear E. intros s1 Hq Ht E.
  unfold holds_dir, same_attrs. destruct (entry_at _ p) as [cur have]; simpl in *.
  eapply local_write_if; [|exact E|].
  - rewrite !andb_true_iff, negb_true_iff, !Z.eqb_eq. tauto.
  - intros Hu Ek. by eapply local_write_commit; [eapply observable_wf| | | |exact Ek]; eauto.
Qed.

Lemma SetAttr_inv p mode uid gid s res s' :
  wf_tables (tbl (db s)) → SetAttr cfg p mode uid gid s = (res, s') →
  let cur := (entry_at (tbl (db s)) p).1 in
  (¬ canonical p ∧ res = Err ErrBadPath ∧ s' = s) ∨
  (canonical p ∧ ¬ live (tbl (db s)) p ∧
   (res = Err ErrNotFound ∨ res = Err ErrDB ∧ db_fault) ∧ observable s' = observable s) ∨
  (canonical p ∧ live (tbl (db s)) p ∧
   local_write cfg (live (tbl (db s)) p ∧ same_attrs cur (SanitizeMode mode) uid gid) None
     (λ h, mkMeta p (MKind cur) (Hash cur) (Hash cur) (Size cur) (SanitizeMode mode) uid gid
             (mkVersion h (Node cfg)) false (DeletedAt cur) 0) s res s').
Proof.
  intros Hw E cur. apply sanitize_inv in E as [?|[Hc E]]; [by left|right].
  destruct (decide (live (tbl (db s)) p)) as [Hl|Hl].
  - right. split; [done|]. split; [done|].
    eapply lookup_write; [exact E|]. clear E. intros s1 Hq Ht E.
    assert (Path cur = p) as Hp.
    { unfold live, cur, entry_at in *. destruct (entries (tbl (db s)) !! p) eqn:Er; [|by destruct Hl].
      by apply (wf_key _ Hw). }
    unfold live, cur in *. destruct (entry_at _ p) as [m have]; simpl in *. destruct Hl as [-> Hd].
    rewrite Hd, Hp in E. simpl in E. eapply local_write_if; [|exact E|].
    + rewrite !andb_true_iff, !Z.eqb_eq. unfold same_attrs. tauto.
    + intros Hu Ek. by eapply local_write_commit; [eapply observable_wf| | | |exact Ek]; eauto.
  - left. split; [done|]. split; [done|].
    apply bind_inv in E as (r & s1 & (Hq & _ & [[-> Hf]| ->])%lookup_inv & Hk);
      [by destruct Hk as [-> ->]; auto|].
    unfold live in Hl. revert Hl Hk. destruct (entry_at _ p) as [m have].
    destruct have, (Deleted m); simpl; unfold throw; intros Hl Hk;
      first [by destruct Hl | injection Hk as <- <-; by auto].
Qed.

Lemma Delete_inv p s res s' :
  wf_tables (tbl (db s)) → Delete cfg p s = (res, s') →
  let cur := (entry_at (tbl (db s)) p).1 in
  (¬ canonical p ∧ res = Err ErrBadPath ∧ s' = s) ∨
  (canonical p ∧
   local_write cfg (¬ live (tbl (db s)) p) None
     (λ h, mkMeta p (MKind cur) "" (Hash cur) 0 (Mode cur) (UID cur) (GID cur)
             (mkVersion h (Node cfg)) true (time_now (S (ticks s))) 0) s res s').
Proof.
  intros Hw E cur. apply sanitize_inv in E as [?|[Hc E]]; [by left|right]. split; [done|].
  eapply lookup_write; [exact E|]. clear E. intros s1 Hq Ht E.
  unfold live, cur. destruct (entry_at _ p) as [m have]; simpl in *.
  eapply local_write_if; [|exact E|].
  - destruct have, (Deleted m); simpl; intuition congruence.
  - intros Hu Ek. eapply local_write_commit; [by eapply observable_wf| | | |exact Ek]; [done..|].
    intros h s2 Hs2. exists (set_ticks (S (ticks s2)) s2). split; [done|].
    unfold now, mbind, ST_bind. by rewrite Hs2, Ht.
Qed.

(** *** The four operations as one *)

Inductive edit :=
  | EPutFile (p : string) (content : bytes) (mode uid gid : Z)
  | EPutDir (p : string) (mode uid gid : Z)
  | ESetAttr (p : string) (mode uid gid : Z)
  | EDelete (p : string).

Definition run_edit (e : edit) : ST node unit :=
  match e with
  | EPutFile p content mode uid gid => PutFile cfg p content mode uid gid
  | EPutDir p mode uid gid => PutDir cfg p mode uid gid
  | ESetAttr p mode uid gid => SetAttr cfg p mode uid gid
  | EDelete p => Delete cfg p
  end.

Definition edit_path (e : edit) : string :=
  match e with EPutFile p _ _ _ _ | EPutDir p _ _ _ | ESetAttr p _ _ _ | EDelete p => p end.

(** The specification: which error refuses the edit, when there is nothing to do, and
    the entry stored otherwise, given the clock's new reading. *)
Definition edit_refused (e : edit) t : option error :=
  if decide (canonical (edit_path e)) then
    match e with
    | EPutFile _ content _ _ _ =>
        if decide (MaxFileSize cfg < Z.of_nat (length content)) then Some ErrTooLarge else None
    | ESetAttr p _ _ _ => if decide (live t p) then None else Some ErrNotFound
    | _ => None
    end
  else Some ErrBadPath.

Definition edit_noop (e : edit) t : Prop :=
  match e with
  | EPutFile p content mode uid gid =>
      holds_file t p (HashContent content) (SanitizeMode mode) uid gid
  | EPutDir p mode uid gid => holds_dir t p (SanitizeMode mode) uid gid
  | ESetAttr p mode uid gid => live t p ∧ same_attrs (entry_at t p).1 (SanitizeMode mode) uid gid
  | EDelete p => ¬ live t p
  end.

Definition edit_entry (e : edit) s (h : Timestamp) : Meta :=
  let cur := (entry_at (tbl (db s)) (edit_path e)).1 in
  let v := mkVersion h (Node cfg) in
  match e with
  | EPutFile p content mode uid gid =>
      mkMeta p KindFile (HashContent content) (Hash cur) (Z.of_nat (length content))
        (SanitizeMode mode) uid gid v false 0 0
  | EPutDir p mode uid gid => mkMeta p KindDir "" "" 0 (SanitizeMode mode) uid gid v false 0 0
  | ESetAttr p mode uid gid =>
      mkMeta p (MKind cur) (Hash cur) (Hash cur) (Size cur) (SanitizeMode mode) uid gid v
        false (DeletedAt cur) 0
  | EDelete p =>
      mkMeta p (MKind cur) "" (Hash cur) 0 (Mode cur) (UID cur) (GID cur) v
        true (time_now (S (ticks s))) 0
  end.

(** The content an edit stores first. *)
Definition edit_content (e : edit) : option bytes :=
  match e with EPutFile _ content _ _ _ => Some content | _ => None end.

Definition edit_outcome (e : edit) s (res : result unit) s' : Prop :=
  match edit_refused e (tbl (db s)) with
  | Some err => (res = Err err ∨ res = Err ErrDB ∧ db_fault) ∧ observable s' = observable s
  | None => local_write cfg (edit_noop e (tbl (db s))) (edit_content e) (edit_entry e s) s res s'
  end.

Lemma run_edit_inv e s res s' :
  wf_tables (tbl (db s)) → run_edit e s = (res, s') → edit_outcome e s res s'.
Proof.
  intros Hw. unfold edit_outcome, edit_refused. destruct e; simpl; intros E.
  - apply PutFile_inv in E as [(? & -> & ->)|[(? & ? & -> & ->)|(? & ? & ?)]]; [..|done];
      repeat case_decide; try lia || done; auto.
  - apply PutDir_inv in E as [(? & -> & ->)|[? ?]]; [..|done]; case_decide; try done; auto.
  - apply SetAttr_inv in E as [(? & -> & ->)|[(? & ? & ? & ?)|(? & ? & Hwr)]]; [..|done];
      repeat case_decide; try done; auto.
  - apply Delete_inv in E as [(? & -> & ->)|[? ?]]; [..|done]; case_decide; try done; auto.
Qed.

(** The entry a write stored is the entry of its path. *)
Lemma wrote_entry oc m s s' :
  wrote cfg oc m s s' →
  entry_at (tbl (db s')) (Path m) = (with_Seq (local_seq (tbl (db s)) + 1) m, true).
Proof.
  intros [Ht _ _ _ _]. unfold entry_at. rewrite Ht. simpl. rewrite lookup_insert_eq, meta_rowOf.
  by destruct (stored_entries oc (tbl (db s))) as (_ & _ & ->).
Qed.

(** The content of what an edit stores is there. *)
Lemma edit_has_content e s h :
  wf_store (tbl (db s)) → edit_refused e (tbl (db s)) = None →
  has_content (stored (edit_content e) (tbl (db s))) (edit_entry e s h).
Proof.
  intros [_ Hc] Hr. destruct e as [p content mode uid gid|p mode uid gid|p mode uid gid|p];
    intros Hd Hk Hh; simpl in *; [apply with_blob_has|done| |done].
  assert (live (tbl (db s)) p) as Hl by (unfold edit_refused in Hr; simpl in Hr; by repeat case_decide).
  unfold live, entry_at in *. destruct (entries (tbl (db s)) !! p) as [r|] eqn:E; [|by destruct Hl].
  destruct Hl. by apply (Hc p r).
Qed.

(** Every outcome of an edit keeps the store well formed. *)
Lemma edit_outcome_wf e s res s' :
  wf_store (tbl (db s)) → edit_outcome e s res s' → wf_store (tbl (db s')).
Proof.
  intros Hw. unfold edit_outcome. destruct (edit_refused e _) eqn:Hr.
  - by intros [_ [= -> _ _ _ _]].
  - intros [(_ & _ & [= -> _ _ _ _])|[(_ & _ & [-> _ _ _ _])|(_ & _ & [[->| ->] _ _ _ _])]];
      [done| |done|by apply wf_stored].
    apply wf_store_applied; [by apply wf_stored|]. apply Forall_singleton. by apply edit_has_content.
Qed.

(** C13: A local edit does what it says.  On a database that works, an edit is refused exactly
    for its reason — a path that is not canonical, a content above the limit,
    attributes of something that is not there — and then nothing changes; an edit
    that asks for what the node already holds changes nothing and wakes nobody; and
    any other succeeds, stores exactly the specified entry with the clock's new
    reading at the end of the feed, leaves a signal for every subscriber and announces
    the new feed position. *)
Theorem local_edit_spec e s res s' :
  wf_tables (tbl (db s)) → run_edit e s = (res, s') → ¬ no_room 1 s →
  match edit_refused e (tbl (db s)) with
  | Some err => res = Err err ∧ observable s' = observable s
  | None => res = Ok tt ∧
      ((edit_noop e (tbl (db s)) ∧ observable s' = observable s) ∨
       (¬ edit_noop e (tbl (db s)) ∧ wrote cfg (edit_content e) (edit_entry e s (clock s')) s s'))
  end.
Proof.
  intros Hw E Hroom. apply run_edit_inv in E; [|done]. unfold edit_outcome, no_room in *.
  destruct (edit_refused e _).
  - destruct E as [[->|[_ ?]] ?]; [done|]. destruct Hroom. by left.
  - destruct E as [(? & -> & ?)|[(? & -> & ?)|(-> & ? & ?)]]; [by auto..|done].
Qed.

Lemma failed_edit_aborted e s err s' :
  wf_tables (tbl (db s)) → run_edit e s = (Err err, s') → aborted (edit_content e) s s'.
Proof.
  intros Hw E. apply run_edit_inv in E; [|done]. unfold edit_outcome in E.
  destruct (edit_refused e _).
  - by apply aborted_quiet, E.
  - destruct E as [(_ & ? & _)|[(_ & ? & _)|(_ & _ & ?)]]; done.
Qed.

(** C14: A local edit is all or nothing: when it fails, at whatever statement the database
    failed and for whatever reason, no entry, no feed position, no signal and no
    announcement has changed; at most the content of the file was stored, unreferenced. *)
Theorem local_edit_atomic e s err s' :
  wf_tables (tbl (db s)) → run_edit e s = (Err err, s') → aborted (edit_content e) s s'.
Proof. apply failed_edit_aborted. Qed.

(** Once stored, an edit is what the node holds. *)
Lemma wrote_noop e s s' :
  edit_refused e (tbl (db s)) = None → wrote cfg (edit_content e) (edit_entry e s (clock s')) s s' →
  edit_refused e (tbl (db s')) = None ∧ edit_noop e (tbl (db s')).
Proof.
  intros Hr W. pose proof (wrote_entry _ _ _ _ W) as He. unfold edit_refused in *.
  case_decide; [|done].
  destruct e as [p content mode uid gid|p mode uid gid|p mode uid gid|p]; simpl in *.
  - case_decide; [done|]. unfold holds_file, same_attrs. by rewrite He.
  - unfold holds_dir, same_attrs. by rewrite He.
  - rewrite decide_True; unfold live, same_attrs; by rewrite He.
  - unfold live. rewrite He. split; [done|]. by intros [].
Qed.

(** The echo of an edit is silent: offering the node again exactly what it has just
    stored — as the watcher does when it sees the mirror's own write — succeeds,
    stores nothing, signals nobody and announces nothing. *)
Theorem local_edit_echo e s s1 res s2 :
  wf_store (tbl (db s)) → run_edit e s = (Ok tt, s1) →
  ¬ no_room 1 s1 → run_edit e s1 = (res, s2) →
  res = Ok tt ∧ observable s2 = observable s1.
Proof.
  intros Hw E1 Hroom E2.
  apply run_edit_inv in E1; [|apply Hw]. pose proof (edit_outcome_wf _ _ _ _ Hw E1) as Hw1.
  apply run_edit_inv in E2; [|apply Hw1]. unfold edit_outcome in *.
  assert (edit_refused e (tbl (db s1)) = None ∧ edit_noop e (tbl (db s1))) as [Hr1 Hn1].
  { destruct (edit_refused e (tbl (db s))) eqn:Hr; [by destruct E1 as [[?|[? _]] _]|].
    destruct E1 as [(? & _ & [= Ht _ _ _ _])|[(? & _ & W)|[? _]]]; [..|done];
      [by rewrite Ht|by eapply wrote_noop]. }
  rewrite Hr1 in E2. by destruct E2 as [(? & -> & ?)|[(? & _)|(_ & ? & _)]].
Qed.
End specs.

(** ** A concrete node

    SHA-256 itself, a database that works and a clock that advances by a nanosecond per
    reading: what the witnesses run on. *)
Module Demo.
#[export] Existing Instances sha256_fips sha256_fips_laws.
#[export] Instance faults : DBFaults := λ _, false.
#[export] Instance time : SystemTime := λ n, 1000 + Z.of_nat n.

Definition cfg : Config := mkConfig "n1" 16 1000 true.
Definition boot : node := New (mkDB empty_tables 0).

Lemma no_fault : ¬ db_fault.
Proof. by intros [? [=]]. Qed.

Lemma room n s : local_seq (tbl (db s)) + Z.of_nat n ≤ max_int64 → ¬ no_room n s.
Proof. intros Hn [Hf|Hm]; [by destruct no_fault|lia]. Qed.

Lemma wf_boot : wf_store (tbl (db boot)).
Proof. apply wf_store_empty. Qed.

(** Running edits keeps the store well formed. *)
Definition run (es : list edit) : node := foldl (λ s e, (run_edit cfg e s).2) boot es.

Lemma wf_run es : wf_store (tbl (db (run es))).
Proof.
  unfold run. generalize wf_boot. generalize boot. induction es as [|e es IH]; intros s Hs; [done|].
  simpl. apply IH. eapply edit_outcome_wf; [done|]. apply run_edit_inv; [apply Hs|].
  apply surjective_pairing.
Qed.

(** Two edits of one file, and a directory put over it. *)
Definition hello : bytes := of_string "hello".
Definition write1 : edit := EPutFile "app.conf" hello 420 0 0.
Definition write2 : edit := EPutFile "app.conf" (of_string "hello!") 420 0 0.
Definition mkdir : edit := EPutDir "app.conf" 493 0 0.
End Demo.

Section witnesses.
Import Demo.

Lemma local_edit_spec_witness :
  (run_edit cfg write1 boot).1 = Ok tt ∧ announced (run_edit cfg write1 boot).2 = [1].
Proof.
  split; [|by vm_compute].
  refine (proj1 (local_edit_spec cfg write1 boot (run_edit cfg write1 boot).1
    (run_edit cfg write1 boot).2 _ _ _)).
  - apply wf_boot.
  - apply surjective_pairing.
  - apply room. by_compute.
Defined.

(** The COMMIT of the transaction fails. *)
Lemma local_edit_atomic_witness :
  let out := @run_edit (λ n, Nat.eqb n 4) _ _ cfg write1 boot in
  out.1 = Err ErrDB ∧ entries (tbl (db out.2)) = ∅.
Proof.
  split; [by vm_compute|].
  refine (aborted_entries _ _ _ (@local_edit_atomic (λ n, Nat.eqb n 4) _ _ cfg write1 boot ErrDB _ _ _)).
  - apply wf_boot.
  - by vm_compute.
Defined.

Lemma local_edit_echo_witness :
  let s1 := run [write1] in (run_edit cfg write1 s1).1 = Ok tt.
Proof.
  intros s1. refine (proj1 (local_edit_echo cfg write1 boot s1 _ (run_edit cfg write1 s1).2 _ _ _ _)).
  - apply wf_boot.
  - by vm_compute.
  - apply room. by_compute.
  - apply surjective_pairing.
Defined.
End witnesses.
