(* ===== verification/SyncerFacts.v ===== *)
(** * What the single writer promises

    Versions of local writes, how peers resolve them, the signals of subscribers, and
    the two places where the promise has a hole: a directory put over a file, and a
    write after a restart. *)
From S2P Require Import Prelude GoStrings Clock Paths Crypto Entry Store StoreFacts Resolve Syncer.

Section facts.
Context `{DBFaults, Sha256, !Sha256Laws, SystemTime} (cfg : Config).
Implicit Types (t : tables) (s : node) (m : Meta).

(** ** Versions *)

(** No stored entry is later than the clock. *)
Definition covers (c : Timestamp) t : Prop :=
  ∀ p r, entries t !! p = Some r → ts_le (HLC (MVersion (meta r))) c.

Lemma covers_le c c' t : ts_le c c' → covers c t → covers c' t.
Proof. intros Hc Ht p r Hr. eapply ts_le_trans; [by eapply Ht|done]. Qed.

Lemma covers_applied ms c t :
  covers c t → Forall (λ m, ts_le (HLC (MVersion m)) c) ms → covers c (applied ms t).
Proof.
  intros Ht. induction ms as [|m ms IH] using rev_ind; [done|].
  intros [Hms Hm]%Forall_app. rewrite Forall_singleton in Hm.
  rewrite applied_snoc. intros p r. simpl. rewrite lookup_insert.
  case_decide; intros Hr; simplify_eq; [|by eapply IH].
  by destruct m as [? ? ? ? ? ? ? ? [[? ?] ?] ? ? ?].
Qed.

Lemma covers_stored oc c t : covers c (stored oc t) ↔ covers c t.
Proof. unfold covers. by destruct (stored_entries oc t) as (-> & _ & _). Qed.

Lemma entry_at_covers c t p m :
  covers c t → entry_at t p = (m, true) → ts_le (HLC (MVersion m)) c.
Proof.
  unfold entry_at. intros Hc. destruct (entries t !! p) eqn:E; [|done].
  intros [= <-]. by eapply Hc.
Qed.

(** The state of the clock after a local write. *)
Lemma wrote_clock_after oc m s s' :
  is_uint32 (Counter (clock s)) → Counter (clock s) < max_uint32 →
  wrote cfg oc m s s' → ts_lt (clock s) (clock s').
Proof. intros Hc Hlt [_ _ [p ->] _ _]. by apply Now_after. Qed.

Lemma wrote_covers oc m s s' :
  is_uint32 (Counter (clock s)) → Counter (clock s) < max_uint32 →
  covers (clock s) (tbl (db s)) → wrote cfg oc m s s' → covers (clock s') (tbl (db s')).
Proof.
  intros Hc Hlt Hcov W. pose proof (wrote_clock_after _ _ _ _ Hc Hlt W) as Ha.
  destruct W as [Ht Hv _ _ _]. rewrite Ht. apply covers_applied.
  - apply covers_stored. eapply covers_le; [by left|done].
  - apply Forall_singleton. rewrite Hv. simpl. apply ts_le_refl.
Qed.

(** What an edit that stored something stored. *)
Lemma edit_stored e s s' :
  wf_store (tbl (db s)) → run_edit cfg e s = (Ok tt, s') →
  ¬ edit_noop e (tbl (db s)) → wrote cfg (edit_content e) (edit_entry cfg e s (clock s')) s s'.
Proof.
  intros [Hw _] E Hn. apply run_edit_inv in E; [|done]. unfold edit_outcome in E.
  destruct (edit_refused cfg e _); [by destruct E as [[?|[? _]] _]|].
  by destruct E as [(? & _)|[(_ & _ & W)|(? & _)]].
Qed.

Lemma edit_entry_path e s h : Path (edit_entry cfg e s h) = edit_path e.
Proof. by destruct e. Qed.
Lemma edit_entry_version e s h : MVersion (edit_entry cfg e s h) = mkVersion h (Node cfg).
Proof. by destruct e. Qed.

Lemma edit_result e s s' :
  wf_store (tbl (db s)) → run_edit cfg e s = (Ok tt, s') → ¬ edit_noop e (tbl (db s)) →
  entry_at (tbl (db s')) (edit_path e) =
    (with_Seq (local_seq (tbl (db s)) + 1) (edit_entry cfg e s (clock s')), true).
Proof.
  intros Hw E Hn. rewrite <- (edit_entry_path e s (clock s')).
  by eapply wrote_entry, edit_stored.
Qed.

Definition is_put_dir (e : edit) : bool := match e with EPutDir _ _ _ _ => true | _ => false end.

(** Every edit but PutDir names the content it replaces. *)
Lemma edit_entry_prev e s h old :
  is_put_dir e = false → entry_at (tbl (db s)) (edit_path e) = (old, true) →
  PrevHash (edit_entry cfg e s h) = Hash old.
Proof. intros He Hold. by destruct e; simpl in *; rewrite ?Hold. Qed.

(** C15: Editing in sequence never conflicts.  On a node whose clock covers its tree — which edits and pulls keep, but a
    restart need not: [restart_edit_is_skipped] — and is not exhausted, a
    write, an attribute change or a deletion that replaces an entry carries a later version
    than any entry of the tree, every node that holds the entry it replaced
    accepts it outright, and the clock covers the tree again. *)
Theorem local_edit_fast_forward e s s' old :
  wf_store (tbl (db s)) → covers (clock s) (tbl (db s)) →
  is_uint32 (Counter (clock s)) → Counter (clock s) < max_uint32 →
  is_put_dir e = false → entry_at (tbl (db s)) (edit_path e) = (old, true) →
  ¬ edit_noop e (tbl (db s)) → run_edit cfg e s = (Ok tt, s') →
  ∃ new, entry_at (tbl (db s')) (edit_path e) = (new, true) ∧
    resolve old true new = decisionAccept ∧
    (∀ p m, entry_at (tbl (db s)) p = (m, true) → After (MVersion new) (MVersion m) = true) ∧
    covers (clock s') (tbl (db s')).
Proof.
  intros Hw Hcov Hc Hlt He Hold Hn E. pose proof (edit_stored _ _ _ Hw E Hn) as W.
  pose proof (wrote_clock_after _ _ _ _ Hc Hlt W) as Ha.
  pose proof (edit_result _ _ _ Hw E Hn) as Hnew.
  set (new := with_Seq (local_seq (tbl (db s)) + 1) (edit_entry cfg e s (clock s'))) in *.
  assert (∀ p m, entry_at (tbl (db s)) p = (m, true) → wins new m) as Hwin.
  { intros p m Hm. left. eapply ts_le_lt_trans; [by eapply entry_at_covers|].
    unfold new. simpl. by rewrite edit_entry_version. }
  exists new. split; [done|]. split; [|split].
  - apply resolve_accept. right. split; [by eapply Hwin|].
    unfold sibling. intros (_ & _ & Hp & _). apply Hp. unfold new. simpl.
    by apply (edit_entry_prev e s (clock s') old).
  - intros p m Hm. by apply After_spec, (Hwin p).
  - by eapply wrote_covers.
Qed.

(** A directory put over a live file is the exception: [PutDir] leaves PrevHash empty, so
    a node that holds exactly the file it replaced sees a concurrent edit and makes a
    conflict copy. *)
Theorem PutDir_over_file_conflicts p mode uid gid s s' old :
  wf_store (tbl (db s)) → covers (clock s) (tbl (db s)) →
  is_uint32 (Counter (clock s)) → Counter (clock s) < max_uint32 →
  entry_at (tbl (db s)) p = (old, true) →
  MKind old = KindFile → Deleted old = false → Hash old ≠ EmptyString →
  PutDir cfg p mode uid gid s = (Ok tt, s') →
  ∃ new, entry_at (tbl (db s')) p = (new, true) ∧ resolve old true new = decisionConflict.
Proof.
  intros Hw Hcov Hc Hlt Hold Hk Hd Hh E. set (e := EPutDir p mode uid gid).
  assert (¬ edit_noop e (tbl (db s))) as Hn.
  { simpl. unfold holds_dir. rewrite Hold, Hk. by intros (_ & _ & ? & _). }
  pose proof (edit_stored e _ _ Hw E Hn) as W.
  eexists. split; [by apply (edit_result e _ _ Hw E)|]. apply resolve_conflict. split_and!; [done| |by split_and!; auto].
  left. eapply ts_le_lt_trans; [by eapply entry_at_covers|]. by eapply wrote_clock_after.
Qed.

(** The clock is not stored: after a restart, while the system clock is behind the version of
    an entry (a peer's clock ran ahead), a local edit of that entry succeeds and
    replaces it with an older version, which every node that holds the entry skips. *)
Theorem restart_edit_is_skipped e d s' old :
  wf_store (tbl d) → entry_at (tbl d) (edit_path e) = (old, true) →
  0 < Wall (HLC (MVersion old)) → (∀ n, time_now n < Wall (HLC (MVersion old))) →
  ¬ edit_noop e (tbl d) → run_edit cfg e (New d) = (Ok tt, s') →
  ∃ new, entry_at (tbl (db s')) (edit_path e) = (new, true) ∧
    After (MVersion old) (MVersion new) = true ∧ resolve old true new = decisionSkip.
Proof.
  intros Hw Hold Hpos Htime Hn E. pose proof (edit_stored e (New d) _ Hw E Hn) as W.
  eexists. split; [by apply (edit_result e (New d) _ Hw E)|].
  destruct W as [_ _ Hcl _ _].
  assert (ts_lt (clock s') (HLC (MVersion old))) as Hlt.
  { left. destruct Hcl as [n ->]. rewrite Now_wall. simpl. specialize (Htime n). lia. }
  assert (ver_lt (mkVersion (clock s') (Node cfg)) (MVersion old)) as Hv by by left.
  simpl. rewrite edit_entry_version. split; [by apply After_spec|]. apply resolve_skip.
  split; [done|]. intros Hwin. unfold wins in Hwin. simpl in Hwin. rewrite edit_entry_version in Hwin.
  destruct (ver_lt_irrefl (MVersion old)). by_trans.
Qed.

(** No stored content collides with this one. *)
Definition collision_free (content : bytes) t : Prop :=
  ∀ h b, blobs t !! h = Some b → sha256_sum (b_Data b) = sha256_sum content → b_Data b = content.

Lemma collision_free_edit e s s' content :
  edit_outcome cfg e s (Ok tt) s' → edit_content e = Some content →
  wf_tables (tbl (db s)) → collision_free content (tbl (db s)) → collision_free content (tbl (db s')).
Proof.
  unfold edit_outcome. intros Ho Hc Hw Hf.
  destruct (edit_refused cfg e _); [by destruct Ho as [[?|[? _]] _]|].
  destruct Ho as [(_ & _ & [= -> _ _ _ _])|[(_ & _ & [-> _ _ _ _])|(? & _)]]; [done| |done].
  rewrite Hc. intros h b. rewrite (proj1 (applied_other _ _)). simpl. unfold with_blob.
  case_match; [by apply Hf|]. simpl. rewrite lookup_insert. case_decide; intros; simplify_eq; eauto.
Qed.

(** What is written can be read: after a [PutFile] that succeeds, the path holds a live
    file entry of that mode whose hash names a stored content, reading that content
    gives back what was written, unless a content stored before collides with it under
    SHA-256, and the store is as well formed as before. *)
Theorem PutFile_Content p content mode uid gid s s' :
  wf_store (tbl (db s)) → ¬ db_fault → collision_free content (tbl (db s)) →
  PutFile cfg p content mode uid gid s = (Ok tt, s') →
  wf_store (tbl (db s')) ∧
  ∃ m, entry_at (tbl (db s')) p = (m, true) ∧ Deleted m = false ∧ MKind m = KindFile ∧
    Mode m = SanitizeMode mode ∧ (Content (Hash m) s').1 = Ok content.
Proof.
  intros Hw Hf Hcol E. set (e := EPutFile p content mode uid gid).
  assert (edit_outcome cfg e s (Ok tt) s') as Ho by (by apply run_edit_inv; [apply Hw|]).
  pose proof (edit_outcome_wf cfg e _ _ _ Hw Ho) as Hw'. split; [done|].
  pose proof (collision_free_edit e _ _ content Ho eq_refl (proj1 Hw) Hcol) as Hcol'.
  assert (edit_noop e (tbl (db s'))) as Hn.
  { unfold edit_outcome in Ho. destruct (edit_refused cfg e _) eqn:Hr; [by destruct Ho as [[?|[? _]] _]|].
    destruct Ho as [(? & _ & [= -> _ _ _ _])|[(_ & _ & W)|(? & _)]]; [done| |done].
    by eapply wrote_noop. }
  simpl in Hn. unfold holds_file in Hn. destruct (entry_at (tbl (db s')) p) as [m have] eqn:Ee.
  destruct Hn as (-> & Hd & Hk & Hh & Hm & _). exists m. split_and!; [done..|].
  unfold entry_at in Ee. destruct (entries (tbl (db s')) !! p) as [r|] eqn:Er; [|done].
  injection Ee as <-. destruct (proj2 Hw' p r Er) as [b Hb]; [done..| |].
  { simpl in Hh. rewrite Hh. apply HashContent_nonempty. }
  unfold Content, on_db, zoom. destruct (GetBlob (Hash (meta r)) (db s')) as [res d'] eqn:Eb. simpl.
  apply GetBlob_inv in Eb as [_ [[_ ?]|[[_ Hnone]|(b' & -> & Hb' & Hc)]]]; [done| | |apply Hw'].
  - simpl in Hnone. congruence.
  - f_equal. apply (Hcol' _ _ Hb'), HashContent_inj. congruence.
Qed.

(** ** Signals *)

(** Every subscriber is woken by a commit and wakes once: whatever was pending, after a
    commit — after two commits as after one — each subscriber receives one signal and
    then none, and one that has unsubscribed receives none. *)
Theorem subscribers_wake_once ms s s' id :
  wf_tables (tbl (db s)) → commit cfg ms s = (Ok tt, s') → is_Some (subs s !! id) →
  let '(r1, s1) := receive id s' in
  let '(r2, s2) := receive id s1 in
  r1 = Ok true ∧ r2 = Ok false ∧ (receive id (unsubscribe id s').2).1 = Ok false ∧
  tbl (db s2) = tbl (db s').
Proof.
  intros Hw E [b Hb]. apply commit_inv in E as [(? & _)|(_ & _ & _ & _ & Hs & _)]; [done| |done].
  unfold receive, unsubscribe, mbind, ST_bind, gets, modify, mret, ST_ret. simpl.
  rewrite Hs, lookup_alter_eq, lookup_fmap, Hb, lookup_delete_eq. done.
Qed.
End facts.

Section witnesses.
Import Demo.

Lemma covers_run_1 : covers (clock (run [write1])) (tbl (db (run [write1]))).
Proof.
  assert (run_edit cfg write1 boot = (Ok tt, run [write1])) as E by (vm_compute; reflexivity).
  assert (¬ edit_noop write1 (tbl (db boot))) as Hn by (vm_compute; intros []; discriminate).
  pose proof (edit_stored cfg write1 boot _ wf_boot E Hn) as W.
  apply (wrote_covers cfg _ _ boot _) in W; [done|by_compute|by_compute|].
  intros p r. simpl. rewrite lookup_empty. discriminate.
Qed.

Lemma local_edit_fast_forward_witness :
  let s1 := run [write1] in let s2 := run [write1; write2] in
  let old := (entry_at (tbl (db s1)) "app.conf").1 in
  ∃ new, entry_at (tbl (db s2)) "app.conf" = (new, true) ∧ resolve old true new = decisionAccept.
Proof.
  intros s1 s2 old.
  assert (is_uint32 (Counter (clock s1))) as H1 by (vm_compute; split; discriminate).
  assert (Counter (clock s1) < max_uint32) as H2 by (vm_compute; reflexivity).
  assert (entry_at (tbl (db s1)) (edit_path write2) = (old, true)) as H3 by (vm_compute; reflexivity).
  assert (¬ edit_noop write2 (tbl (db s1))) as H4 by (vm_compute; intros (? & ? & ? & ? & ?); discriminate).
  assert (run_edit cfg write2 s1 = (Ok tt, s2)) as H5 by (vm_compute; reflexivity).
  destruct (local_edit_fast_forward cfg write2 s1 s2 old (wf_run [write1]) covers_run_1
    H1 H2 eq_refl H3 H4 H5) as (new & Hn & Hr & _). exact (ex_intro _ new (conj Hn Hr)).
Defined.

Lemma PutDir_over_file_conflicts_witness :
  let s1 := run [write1] in let s2 := run [write1; mkdir] in
  let old := (entry_at (tbl (db s1)) "app.conf").1 in
  ∃ new, entry_at (tbl (db s2)) "app.conf" = (new, true) ∧ resolve old true new = decisionConflict.
Proof.
  intros s1 s2 old.
  assert (is_uint32 (Counter (clock s1))) as H1 by (vm_compute; split; discriminate).
  assert (Counter (clock s1) < max_uint32) as H2 by (vm_compute; reflexivity).
  assert (entry_at (tbl (db s1)) "app.conf" = (old, true)) as H3 by (vm_compute; reflexivity).
  assert (MKind old = KindFile) as H4 by (vm_compute; reflexivity).
  assert (Deleted old = false) as H5 by (vm_compute; reflexivity).
  assert (Hash old ≠ EmptyString) as H6 by (vm_compute; discriminate).
  assert (PutDir cfg "app.conf" 493 0 0 s1 = (Ok tt, s2)) as H7 by (vm_compute; reflexivity).
  exact (PutDir_over_file_conflicts cfg "app.conf" 493 0 0 s1 s2 old (wf_run [write1]) covers_run_1
    H1 H2 H3 H4 H5 H6 H7).
Defined.

(** A node that holds a version a minute ahead of its clock, restarted. *)
Definition ahead : Meta :=
  mkMeta "app.conf" KindDir "" "" 0 493 0 0 (mkVersion (mkTimestamp (60 * 10 ^ 9) 0) "n2") false 0 0.
Definition restarted : DB := mkDB (applied [ahead] empty_tables) 0.
#[local] Instance short_time : SystemTime := λ _, 1000.

Lemma wf_restarted : wf_store (tbl restarted).
Proof.
  apply wf_store_applied; [apply wf_store_empty|]. apply Forall_singleton. intros ? ?. discriminate.
Qed.

Lemma restart_edit_is_skipped_witness :
  let e := ESetAttr "app.conf" 448 0 0 in
  let old := (entry_at (tbl restarted) "app.conf").1 in
  let s' := (run_edit cfg e (New restarted)).2 in
  ∃ new, entry_at (tbl (db s')) "app.conf" = (new, true) ∧ resolve old true new = decisionSkip.
Proof.
  intros e old s'.
  assert (entry_at (tbl restarted) (edit_path e) = (old, true)) as H1 by (vm_compute; reflexivity).
  assert (0 < Wall (HLC (MVersion old))) as H2 by (vm_compute; reflexivity).
  assert (∀ n, time_now n < Wall (HLC (MVersion old))) as H3 by (intros n; vm_compute; reflexivity).
  assert (¬ edit_noop e (tbl restarted)) as H4 by (vm_compute; intros (? & ? & ?); discriminate).
  assert (run_edit cfg e (New restarted) = (Ok tt, s')) as H5 by (vm_compute; reflexivity).
  destruct (restart_edit_is_skipped cfg e restarted s' old wf_restarted H1 H2 H3 H4 H5)
    as (new & Hn & _ & Hr). exact (ex_intro _ new (conj Hn Hr)).
Defined.

Lemma PutFile_Content_witness :
  let s1 := run [write1] in
  ∃ m, entry_at (tbl (db s1)) "app.conf" = (m, true) ∧ (Content (Hash m) s1).1 = Ok hello.
Proof.
  intros s1.
  assert (collision_free hello (tbl (db boot))) as H1.
  { intros h b Hb. exfalso. change ((∅ : gmap string blobRow) !! h = Some b) in Hb.
    rewrite lookup_empty in Hb. discriminate. }
  assert (PutFile cfg "app.conf" hello 420 0 0 boot = (Ok tt, s1)) as H2 by (vm_compute; reflexivity).
  destruct (PutFile_Content cfg "app.conf" hello 420 0 0 boot s1 wf_boot no_fault H1 H2)
    as (_ & m & Hm & _ & _ & _ & Hc). exact (ex_intro _ m (conj Hm Hc)).
Defined.

Lemma subscribers_wake_once_witness :
  let s0 := (Subscribe boot).2 in let s' := (commit cfg [ahead] s0).2 in
  (receive 0 s').1 = Ok true.
Proof.
  intros s0 s'.
  assert (commit cfg [ahead] s0 = (Ok tt, s')) as H1 by (vm_compute; reflexivity).
  assert (is_Some (subs s0 !! 0)) as H2 by (exists false; reflexivity).
  pose proof (subscribers_wake_once cfg [ahead] s0 s' 0 wf_empty H1 H2) as Hw.
  destruct (receive 0 s') as [r1 s1]. destruct (receive 0 s1) as [r2 s2]. apply Hw.
Defined.
End witnesses.
