(* ===== verification/TreeFacts.v ===== *)
(** * What the projections use of the syncer

    The mount and the mirror see the tree through Live, Get and Content and change it with the
    four local edits: what those calls return, and what an edit leaves where. *)
From S2P Require Import Prelude GoStrings Clock Paths Crypto Entry Store StoreFacts Resolve Syncer SyncerFacts.

Section facts.
Context `{DBFaults, Sha256, !Sha256Laws, SystemTime} {cfg : Config}.
Implicit Types (t : tables) (s : node) (m : Meta) (p : string).

Lemma Live_inv s res s' :
  Live s = (res, s') → observable s' = observable s ∧
  ((res = Err ErrDB ∧ db_fault) ∨ res = Ok (select_live (tbl (db s)))).
Proof.
  intros (d' & E & ->)%on_db_inv. apply select_inv in E as [Ht ?]. by rewrite (on_db_quiet _ _ Ht).
Qed.

Lemma Get_entry p s res s' :
  Get p s = (res, s') → observable s' = observable s ∧
  ((res = Err ErrDB ∧ db_fault) ∨
   (∃ m, res = Ok m ∧ entry_at (tbl (db s)) p = (m, true)) ∨
   (res = Err ErrNotFound ∧ entry_at (tbl (db s)) p = (zero_meta, false))).
Proof.
  intros (d' & E & ->)%on_db_inv. apply Get_inv in E as [Ht E]. rewrite (on_db_quiet _ _ Ht).
  split; [done|]. unfold entry_at. destruct E as [?|E]; [by left|].
  destruct (entries (tbl (db s)) !! p); subst; eauto 10.
Qed.

Lemma Content_inv h s res s' :
  wf_tables (tbl (db s)) → Content h s = (res, s') → observable s' = observable s ∧
  ((res = Err ErrDB ∧ db_fault) ∨ (res = Err ErrNotFound ∧ blobs (tbl (db s)) !! h = None) ∨
   (∃ b, res = Ok (b_Data b) ∧ blobs (tbl (db s)) !! h = Some b ∧ HashContent (b_Data b) = h)).
Proof.
  intros Hw (d' & E & ->)%on_db_inv. apply GetBlob_inv in E as [Ht E]; [|done].
  by rewrite (on_db_quiet _ _ Ht).
Qed.

(** The live entry of a path. *)
Definition live_entry t p m : Prop := entry_at t p = (m, true) ∧ Deleted m = false.

Lemma live_entry_live t p m : live_entry t p m → live t p.
Proof. intros [E Hd]. unfold live. by rewrite E. Qed.

Lemma not_live_entry t p : ¬ live t p → ∀ m, ¬ live_entry t p m.
Proof. intros Hn m Hm. by eapply Hn, live_entry_live. Qed.

Lemma live_entry_fun t p m m' : live_entry t p m → live_entry t p m' → m = m'.
Proof. intros [E _] [E' _]. congruence. Qed.

Lemma elem_of_select_live t m :
  m ∈ select_live t ↔ ∃ p r, entries t !! p = Some r ∧ m = meta r ∧ r_Deleted r = false.
Proof.
  unfold select_live. rewrite elem_of_sort_on, list_elem_of_filter, elem_of_rows. split.
  - intros [Hd (p & r & ? & ->)]. by exists p, r.
  - intros (p & r & ? & -> & Hd). split; [done|]. by exists p, r.
Qed.

Lemma elem_of_live t m : wf_tables t → m ∈ select_live t ↔ live_entry t (Path m) m.
Proof.
  intros Hw. rewrite elem_of_select_live. unfold live_entry, entry_at. split.
  - intros (p & r & Hr & -> & Hd). simpl. rewrite (wf_key _ Hw _ _ Hr). by rewrite Hr.
  - intros [E Hd]. destruct (entries t !! Path m) as [r|] eqn:Er; [|done]. injection E as <-.
    by exists (Path (meta r)), r.
Qed.

Lemma live_entry_path t p m : wf_tables t → live_entry t p m → Path m = p.
Proof.
  intros Hw [E _]. unfold entry_at in E. destruct (entries t !! p) as [r|] eqn:Er; [|done].
  injection E as <-. by apply (wf_key _ Hw).
Qed.

(** An edit that succeeds leaves the node holding what it asked for. *)
Lemma edit_settled e s s' :
  wf_store (tbl (db s)) → run_edit cfg e s = (Ok tt, s') →
  wf_store (tbl (db s')) ∧ edit_refused cfg e (tbl (db s')) = None ∧ edit_noop e (tbl (db s')).
Proof.
  intros Hw E. apply run_edit_inv in E; [|apply Hw]. split; [by eapply edit_outcome_wf|].
  unfold edit_outcome in E. destruct (edit_refused cfg e (tbl (db s))) eqn:Hr; [by destruct E as [[?|[? _]] _]|].
  destruct E as [(? & _ & [= Ht _ _ _ _])|[(? & _ & W)|[? _]]]; [by rewrite Ht| |done].
  by eapply wrote_noop.
Qed.

(** It touches one path and takes at most one feed position. *)
Lemma edit_frame e s res s' :
  wf_store (tbl (db s)) → run_edit cfg e s = (res, s') →
  local_seq (tbl (db s)) ≤ local_seq (tbl (db s')) ≤ local_seq (tbl (db s)) + 1 ∧
  (∀ p, p ≠ edit_path e → entries (tbl (db s')) !! p = entries (tbl (db s)) !! p) ∧
  (entries (tbl (db s')) = entries (tbl (db s)) ∨ canonical (edit_path e)).
Proof.
  intros Hw E. apply run_edit_inv in E; [|apply Hw]. unfold edit_outcome, edit_refused in E.
  assert (∀ t, t = tbl (db s) → local_seq (tbl (db s)) ≤ local_seq t ≤ local_seq (tbl (db s)) + 1 ∧
    (∀ p, p ≠ edit_path e → entries t !! p = entries (tbl (db s)) !! p) ∧
    (entries t = entries (tbl (db s)) ∨ canonical (edit_path e))) as Hsame.
  { intros t ->. split_and!; [lia..|by auto|by auto]. }
  case_decide as Hc; [|destruct E as [_ [= Ht _ _ _ _]]; by apply Hsame].
  assert (local_write cfg (edit_noop e (tbl (db s))) (edit_content e) (edit_entry cfg e s) s res s' ∨
    tbl (db s') = tbl (db s)) as [W|Ht]; [|clear E|by apply Hsame].
  { destruct e; repeat case_decide; try (by left); right; by destruct E as [_ [= ? _ _ _ _]]. }
  destruct W as [(_ & _ & [= Ht _ _ _ _])|[(_ & _ & W)|(_ & _ & A)]]; [by apply Hsame| |].
  - destruct (stored_entries (edit_content e) (tbl (db s))) as (He & _ & Hs).
    rewrite (wrote_tables _ _ _ _ _ W). simpl. rewrite He, Hs, edit_entry_path. split_and!; [lia..| |by right].
    intros p Hp. by rewrite lookup_insert_ne.
  - destruct A as [_ -> -> _ _]. split_and!; [lia..|done|by left].
Qed.

(** The content a hash names, on a database that works. *)
Definition content_of t (h : string) : result bytes :=
  match blobs t !! h with Some b => Ok (b_Data b) | None => Err ErrNotFound end.

Lemma Content_run h s : ¬ db_fault → wf_tables (tbl (db s)) →
  ∃ s', Content h s = (content_of (tbl (db s)) h, s') ∧ observable s' = observable s.
Proof.
  intros Hf Hw. destruct (Content h s) as [r s'] eqn:E. unfold content_of.
  apply Content_inv in E as [Ho [[_ ?]|[[-> ->]|(b & -> & -> & _)]]]; [done|by exists s'..|done].
Qed.

Lemma Live_run s : ¬ db_fault →
  ∃ s', Live s = (Ok (select_live (tbl (db s))), s') ∧ observable s' = observable s.
Proof.
  intros Hf. destruct (Live s) as [r s'] eqn:E. apply Live_inv in E as [Ho [[_ ?]| ->]]; [done|by exists s'].
Qed.

Lemma observable_tbl s s' : observable s' = observable s → tbl (db s') = tbl (db s).
Proof. by intros [= ? _ _ _ _]. Qed.

Lemma select_live_NoDup t : wf_tables t → NoDup (Path <$> select_live t).
Proof.
  intros Hw. unfold select_live. rewrite (sort_on_perm Path Str.le).
  pose proof (rows_NoDup t Hw) as Hn. induction (rows t) as [|m l IH]; [done|].
  apply NoDup_cons in Hn as [Hm Hl]. rewrite filter_cons. case_decide; [|by apply IH].
  simpl. apply NoDup_cons. split; [|by apply IH]. intros (m' & Em & Hm')%list_elem_of_fmap. apply Hm.
  apply list_elem_of_fmap. exists m'. split; [exact Em|]. by apply list_elem_of_filter in Hm' as [_ ?].
Qed.

(** Every entry of the tree has a path [SanitizePath] accepts. *)
Definition tidy t : Prop := ∀ p r, entries t !! p = Some r → canonical p.

Lemma live_entry_tidy t p m : tidy t → live_entry t p m → canonical p.
Proof. intros Ht [E _]. unfold entry_at in E. destruct (entries t !! p) eqn:Er; [by eapply Ht|done]. Qed.

(** A store that is well formed and holds only paths [SanitizePath] accepts. *)
Definition sound s : Prop := wf_store (tbl (db s)) ∧ tidy (tbl (db s)).

Lemma sound_quiet s s' : observable s' = observable s → sound s → sound s'.
Proof. intros [= Ht _ _ _ _]. unfold sound. by rewrite Ht. Qed.

(** Every edit keeps it so. *)
Lemma edit_sound e s res s' : sound s → run_edit cfg e s = (res, s') → sound s'.
Proof.
  intros [Hw Ht] E. pose proof (edit_frame _ _ _ _ Hw E) as (_ & Hfr & Hc).
  apply run_edit_inv in E; [|apply Hw]. split; [by eapply edit_outcome_wf|]. intros p r Er.
  destruct Hc as [He|Hc]; [rewrite He in Er; by eapply Ht|].
  destruct (decide (p = edit_path e)) as [->|Hne]; [done|]. rewrite Hfr in Er by done. by eapply Ht.
Qed.

Lemma no_room_fault n s : ¬ no_room n s → ¬ db_fault.
Proof. intros Hn Hf. destruct Hn. by left. Qed.

Lemma noop_put_file p c mode uid gid t :
  edit_noop (EPutFile p c mode uid gid) t → ∃ m, live_entry t p m ∧ MKind m = KindFile.
Proof.
  simpl. unfold holds_file, live_entry. destruct (entry_at t p) as [m b]. intros (-> & ? & ? & _). by exists m.
Qed.
Lemma noop_put_dir p mode uid gid t :
  edit_noop (EPutDir p mode uid gid) t → ∃ m, live_entry t p m ∧ MKind m = KindDir.
Proof.
  simpl. unfold holds_dir, live_entry. destruct (entry_at t p) as [m b]. intros (-> & ? & ? & _). by exists m.
Qed.
End facts.
