(* ===== verification/Fuse.v ===== *)
(** * The FUSE file system (internal/fusefs/fusefs.go)

    The handlers the kernel calls, each a function on the node whose tree is mounted.  A
    handler answers with a value, with an errno, or — where Go would panic — with [Crash].
    An open file is a value: a snapshot for reading, or a buffer for writing that [Flush]
    commits.  Inodes are their paths; the caller's uid and gid are arguments, and the
    process's own are the class [Process]. *)
From S2P Require Import Prelude GoStrings Clock Paths Crypto Entry Store StoreFacts Resolve Syncer.
From Stdlib Require Import Ascii Strings.Byte.

(** ** Answers *)

Inductive errno := ENOENT | EINVAL | EFBIG | EISDIR | ENOTDIR | ENOTEMPTY | EIO | EPERM | EXDEV.

#[export] Instance errno_eq_dec : EqDecision errno.
Proof. solve_decision. Defined.

Inductive reply (A : Type) :=
  | Done (a : A)
  | Errno (e : errno)
  | Crash.
Arguments Done {A} a.
Arguments Errno {A} e.
Arguments Crash {A}.

(** A handler: the answer to the kernel and the node afterwards. *)
Definition handler (A : Type) : Type := node → reply A * node.

#[export] Instance handler_ret : MRet handler := λ A a s, (Done a, s).
#[export] Instance handler_bind : MBind handler := λ A B k q s,
  match q s with
  | (Done a, s') => k a s'
  | (Errno e, s') => (Errno e, s')
  | (Crash, s') => (Crash, s')
  end.

Definition fail_with {A} (e : errno) : handler A := λ s, (Errno e, s).
Definition crash {A} : handler A := λ s, (Crash, s).

(** A call of the tree, with the errno its error becomes. *)
Definition call {A} (q : ST node A) (on_err : error → errno) : handler A := λ s,
  match q s with
  | (Ok a, s') => (Done a, s')
  | (Err e, s') => (Errno (on_err e), s')
  end.

(** errnoOf, of an error. *)
Definition errnoOf (e : error) : errno :=
  match e with
  | ErrTooLarge => EFBIG
  | ErrBadPath => EINVAL
  | ErrNotFound => ENOENT
  | _ => EIO
  end.

(** ** Paths, inode numbers and attributes *)

(** [child dir name]: the path of [name] in the directory [dir]; the root is "". *)
Definition child (dir name : string) : string :=
  if String.eqb dir EmptyString then name else dir +:+ "/" +:+ name.

(** fnv.New64a over the bytes of the path. *)
Definition fnv_byte (h : Z) (c : ascii) : Z :=
  Z.lxor h (Z.of_N (N_of_ascii c)) * 1099511628211 mod 2 ^ 64.
Fixpoint fnv64a (h : Z) (p : string) : Z :=
  match p with
  | EmptyString => h
  | String c p' => fnv64a (fnv_byte h c) p'
  end.
Definition inoOf (p : string) : Z := fnv64a 14695981039346656037 p.

Definition wrapU64 (z : Z) : Z := z mod 2 ^ 64.

Definition S_IFDIR : Z := 16384.  (* 0o040000 *)
Definition S_IFREG : Z := 32768.  (* 0o100000 *)

(** fuse.Attr, whose three times attrOf sets to the same value. *)
Record Attr := mkAttr {
  a_Ino : Z; a_Size : Z; a_Mode : Z; a_Uid : Z; a_Gid : Z;
  a_Time : Z; a_Nlink : Z; a_Blocks : Z
}.

Definition type_bits (k : Kind) : Z := if k =? KindDir then S_IFDIR else S_IFREG.

Definition attrOf (m : Meta) : Attr :=
  mkAttr (inoOf (Path m)) (wrapU64 (Size m)) (Z.lor (Mode m) (type_bits (MKind m)))
    (UID m) (GID m) (wrapU64 (Z.quot (Wall (HLC (MVersion m))) (10 ^ 9)))
    (if MKind m =? KindDir then 2 else 1)
    (wrapU64 (Z.quot (wrap64 (Size m + 511)) 512)).

(** fs.StableAttr: the type and the number of an inode. *)
Record StableAttr := mkStable { st_Mode : Z; st_Ino : Z }.
Definition stableOf (m : Meta) : StableAttr := mkStable (type_bits (MKind m)) (inoOf (Path m)).

(** ** Open files *)

Record writeHandle := mkWriteHandle {
  h_path : string;
  h_buf : bytes;
  h_mode : Z;
  h_uid : Z;
  h_gid : Z;
  h_dirty : bool
}.
Inductive handle :=
  | ReadHandle (data : bytes)
  | WriteHandle (h : writeHandle).

(** [copy(dst[off:], data)], for [0 ≤ off ≤ len(dst)]. *)
Definition copy_at (off : nat) (data dst : bytes) : bytes :=
  take off dst ++ take (length dst - off) data ++ drop (off + length data) dst.

(** [make([]byte, n)] with [buf] copied to its start. *)
Definition grow (n : nat) (buf : bytes) : bytes := copy_at 0 buf (replicate n "000"%byte).

(** The slice Read serves: [data[off:end]] for a request of [n] bytes. *)
Definition read_slice (data : bytes) (off : Z) (n : nat) : bytes :=
  if (off <? 0) || (Z.of_nat (length data) <? off) then []
  else
    let end_ := Z.min (wrap64 (off + Z.of_nat n)) (Z.of_nat (length data)) in
    take (Z.to_nat (end_ - off)) (drop (Z.to_nat off) data).

Definition readHandle_Read (data : bytes) (off : Z) (n : nat) : bytes := read_slice data off n.
Definition writeHandle_Read (h : writeHandle) (off : Z) (n : nat) : bytes := read_slice (h_buf h) off n.

Class Process := { euid : Z; egid : Z }.

(** The last part of a path that starts with a prefix of [n] bytes: [p[n:]]. *)
Fixpoint skip (n : nat) (p : string) : string :=
  match n, p with
  | S n', String _ p' => skip n' p'
  | _, _ => p
  end.

(** in.GetSize, in.GetMode, in.GetUID, in.GetGID. *)
Record SetAttrIn := mkSetAttrIn {
  in_Size : option Z; in_Mode : option Z; in_UID : option Z; in_GID : option Z
}.

Record DirEntry := mkDirEntry { de_Name : string; de_Mode : Z; de_Ino : Z }.

Definition O_ACCMODE_WRITE : Z := 3.  (* O_WRONLY|O_RDWR *)
Definition O_TRUNC : Z := 512.

Section fuse.
Context `{DBFaults, Sha256, SystemTime, Process} (cfg : Config).

(** The live entry of a path, or [ENOENT] — also when the store fails. *)
Definition get_live (p : string) : handler Meta :=
  m ← call (Get p) (λ _, ENOENT);
  if Deleted m then fail_with ENOENT else mret m.

(** The new inode is its path. *)
Definition Lookup (dir name : string) : handler (string * Attr * StableAttr) :=
  let p := child dir name in
  match SanitizePath p with
  | Err _ => fail_with ENOENT
  | Ok _ =>
      m ← get_live p;
      mret (p, attrOf m, stableOf m)
  end.

Definition dir_prefix (dir : string) : string :=
  if String.eqb dir EmptyString then EmptyString else dir +:+ "/".

(** One turn of the loop of Readdir: the entry of a direct child. *)
Definition dir_entry (dir : string) (m : Meta) : option DirEntry :=
  let prefix := dir_prefix dir in
  if negb (Str.has_prefix prefix (Path m)) then None
  else
    let rest := skip (String.length prefix) (Path m) in
    if String.eqb rest EmptyString || Str.contains "/" rest then None
    else Some (mkDirEntry rest (type_bits (MKind m)) (inoOf (Path m))).

Definition Readdir (dir : string) : handler (list DirEntry) :=
  entries ← call Live (λ _, EIO);
  mret (omap (dir_entry dir) entries).

Definition Getattr (path : string) (f : option handle) : handler Attr :=
  match f with
  | Some (WriteHandle h) =>
      mret (mkAttr (inoOf (h_path h)) (Z.of_nat (length (h_buf h)))
              (Z.lor (h_mode h) S_IFREG) (h_uid h) (h_gid h) 0 1 0)
  | _ =>
      if String.eqb path EmptyString
      then mret (mkAttr (inoOf EmptyString) 0 (Z.lor S_IFDIR 493) euid egid 0 2 0)
      else
        m ← get_live path;
        mret (attrOf m)
  end.

(** The content of [size] bytes a truncation leaves. *)
Definition truncated (size : Z) (content : bytes) : bytes :=
  if size <? Z.of_nat (length content) then take (Z.to_nat size) content
  else if Z.of_nat (length content) <? size then grow (Z.to_nat size) content
  else content.

Definition with_Size (n : Z) (m : Meta) : Meta :=
  mkMeta (Path m) (MKind m) (Hash m) (PrevHash m) n (Mode m) (UID m) (GID m)
    (MVersion m) (Deleted m) (DeletedAt m) (Seq m).
Definition with_attrs (mode uid gid : Z) (m : Meta) : Meta :=
  mkMeta (Path m) (MKind m) (Hash m) (PrevHash m) (Size m) mode uid gid
    (MVersion m) (Deleted m) (DeletedAt m) (Seq m).

(** The first half of Setattr; [size] is a uint64, and [make] panics on one that is no int. *)
Definition set_size (path : string) (in_ : SetAttrIn) (m : Meta) : handler Meta :=
  match in_Size in_ with
  | Some size =>
      if MKind m =? KindFile then
        if wrap64 size >? MaxFileSize cfg then fail_with EFBIG
        else
          content ← call (Content (Hash m)) (λ _, EIO);
          if (max_int64 <? size) && (Z.of_nat (length content) <? size) then crash
          else
            let content := truncated size content in
            _ ← call (PutFile cfg path content (Mode m) (UID m) (GID m)) errnoOf;
            mret (with_Size (Z.of_nat (length content)) m)
      else mret m
  | None => mret m
  end.

(** The open file, if the call comes with one, is not consulted. *)
Definition Setattr (path : string) (f : option handle) (in_ : SetAttrIn) : handler Attr :=
  if String.eqb path EmptyString then fail_with EPERM
  else
    m ← get_live path;
    m ← set_size path in_ m;
    let mode := match in_Mode in_ with Some v => SanitizeMode v | None => Mode m end in
    let uid := default (UID m) (in_UID in_) in
    let gid := default (GID m) (in_GID in_) in
    if negb (mode =? Mode m) || negb (uid =? UID m) || negb (gid =? GID m) then
      _ ← call (SetAttr cfg path mode uid gid) errnoOf;
      mret (attrOf (with_attrs mode uid gid m))
    else mret (attrOf m).

Definition Open (path : string) (flags : Z) : handler handle :=
  m ← get_live path;
  if negb (MKind m =? KindFile) then fail_with EISDIR
  else if Z.land flags O_ACCMODE_WRITE =? 0 then
    content ← call (Content (Hash m)) (λ _, EIO);
    mret (ReadHandle content)
  else
    buf ← (if Z.land flags O_TRUNC =? 0 then call (Content (Hash m)) (λ _, EIO) else mret []);
    mret (WriteHandle (mkWriteHandle path buf (Mode m) (UID m) (GID m) false)).

Definition Create (dir name : string) (mode uid gid : Z) : handler (string * Attr * writeHandle) :=
  let p := child dir name in
  match SanitizePath p with
  | Err _ => fail_with EINVAL
  | Ok _ =>
      let perm := SanitizeMode mode in
      _ ← call (PutFile cfg p [] perm uid gid) errnoOf;
      m ← call (Get p) (λ _, EIO);
      mret (p, attrOf m, mkWriteHandle p [] perm uid gid false)
  end.

Definition Mkdir (dir name : string) (mode uid gid : Z) : handler (string * Attr) :=
  let p := child dir name in
  match SanitizePath p with
  | Err _ => fail_with EINVAL
  | Ok _ =>
      _ ← call (PutDir cfg p (SanitizeMode mode) uid gid) errnoOf;
      m ← call (Get p) (λ _, EIO);
      mret (p, attrOf m)
  end.

Definition remove (dir name : string) (kind : Kind) : handler unit :=
  let p := child dir name in
  m ← get_live p;
  if negb (MKind m =? kind)
  then fail_with (if kind =? KindFile then EISDIR else ENOTDIR)
  else call (Delete cfg p) errnoOf.

Definition Unlink (dir name : string) : handler unit := remove dir name KindFile.

(** Some live path lies below [p]. *)
Definition has_children (p : string) (entries : list Meta) : bool :=
  existsb (λ m, Str.has_prefix (p +:+ "/") (Path m)) entries.

Definition Rmdir (dir name : string) : handler unit :=
  entries ← call Live (λ _, EIO);
  if has_children (child dir name) entries then fail_with ENOTEMPTY
  else remove dir name KindDir.

(** The switch of Rename: a file or an empty directory is put at its new path. *)
Definition rename_copy (from to : string) (m : Meta) : handler unit :=
  if MKind m =? KindDir then
    entries ← call Live (λ _, EIO);
    if has_children from entries then fail_with ENOTEMPTY
    else call (PutDir cfg to (Mode m) (UID m) (GID m)) errnoOf
  else if MKind m =? KindFile then
    content ← call (Content (Hash m)) (λ _, EIO);
    call (PutFile cfg to content (Mode m) (UID m) (GID m)) errnoOf
  else mret tt.

(** [target] is the new parent's path, if it is a node of this mount; the flags are ignored. *)
Definition Rename (dir name : string) (target : option string) (newName : string) (flags : Z) :
    handler unit :=
  match target with
  | None => fail_with EXDEV
  | Some tdir =>
      let from := child dir name in
      let to := child tdir newName in
      match SanitizePath to with
      | Err _ => fail_with EINVAL
      | Ok _ =>
          m ← get_live from;
          _ ← rename_copy from to m;
          call (Delete cfg from) errnoOf
      end
  end.

(** ** The write handle *)

(** The handle afterwards, and the number of bytes written. *)
Definition Write (h : writeHandle) (data : bytes) (off : Z) : reply (writeHandle * Z) :=
  let end_ := wrap64 (off + Z.of_nat (length data)) in
  if end_ >? MaxFileSize cfg then Errno EFBIG
  else
    let buf := if end_ >? Z.of_nat (length (h_buf h))
               then grow (Z.to_nat end_) (h_buf h) else h_buf h in
    if (off <? 0) || (Z.of_nat (length buf) <? off) then Crash
    else Done (mkWriteHandle (h_path h) (copy_at (Z.to_nat off) data buf)
                 (h_mode h) (h_uid h) (h_gid h) true,
               wrap32 (Z.of_nat (length data))).

(** The handle afterwards: clean once it is committed. *)
Definition Flush (h : writeHandle) : handler writeHandle :=
  if negb (h_dirty h) then mret h
  else
    _ ← call (PutFile cfg (h_path h) (h_buf h) (h_mode h) (h_uid h) (h_gid h)) errnoOf;
    mret (mkWriteHandle (h_path h) (h_buf h) (h_mode h) (h_uid h) (h_gid h) false).
End fuse.

(** The published test vectors of 64-bit FNV-1a. *)
Example inoOf_vectors :
  inoOf "" = 0xcbf29ce484222325 ∧ inoOf "a" = 0xaf63dc4c8601ec8c ∧ inoOf "foobar" = 0x85944171f73967e8.
Proof. by vm_compute. Qed.
