(* ===== verification/FuseFacts.v ===== *)
(** * What the mount promises

    Writing at an offset is POSIX's pwrite on the buffer; what is flushed is what is read
    after; a refused call has changed nothing; the listing of a directory and the lookup of
    a name agree; renaming moves; and what an open file forgets. *)
From S2P Require Import Prelude GoStrings Clock Paths Crypto Entry Store StoreFacts Resolve Syncer SyncerFacts TreeFacts Fuse.
From Stdlib Require Import Ascii Strings.Byte.

Create HintDb mount discriminated.

(** ** Buffers *)

Lemma copy_at_length off data dst : (off ≤ length dst)%nat → length (copy_at off data dst) = length dst.
Proof. intros. unfold copy_at. rewrite !length_app, !length_take, length_drop. lia. Qed.

Lemma copy_at_lookup off data dst i : (off + length data ≤ length dst)%nat →
  copy_at off data dst !! i =
    if decide (off ≤ i < off + length data)%nat then data !! (i - off)%nat else dst !! i.
Proof.
  intros Hl. unfold copy_at. rewrite (take_ge data) by lia.
  case_decide.
  - rewrite lookup_app_r, length_take by (rewrite length_take; lia).
    rewrite lookup_app_l by lia. f_equal. lia.
  - destruct (decide (i < off)%nat).
    + rewrite lookup_app_l by (rewrite length_take; lia). apply lookup_take_lt. lia.
    + rewrite lookup_app_r, length_take by (rewrite length_take; lia).
      rewrite lookup_app_r, lookup_drop by lia. f_equal. lia.
Qed.

Lemma grow_length n buf : length (grow n buf) = n.
Proof. unfold grow. by rewrite copy_at_length, length_replicate by lia. Qed.

Lemma grow_lookup n buf i : (length buf ≤ n)%nat →
  grow n buf !! i = if decide (i < length buf)%nat then buf !! i
                    else if decide (i < n)%nat then Some "000"%byte else None.
Proof.
  intros. unfold grow. rewrite copy_at_lookup by (rewrite length_replicate; lia).
  rewrite Nat.sub_0_r. repeat case_decide; try lia; [done| |].
  - by rewrite lookup_replicate_2.
  - rewrite lookup_ge_None_2; [done|]. rewrite length_replicate. lia.
Qed.

(** The byte at a position of a buffer after data was written at an offset: the data, what
    was there, or zero in the gap between. *)
Definition pwrite_byte (buf data : bytes) (off i : nat) : option byte :=
  if decide (off ≤ i < off + length data)%nat then data !! (i - off)%nat
  else if decide (i < length buf)%nat then buf !! i
  else if decide (i < off + length data)%nat then Some "000"%byte else None.

(** A write to an open file is POSIX's pwrite.  Whatever the buffer, the data and the offset
    (within int64), the write is refused with EFBIG exactly when it ends past the limit; otherwise
    the buffer holds the data at its offset, what it held everywhere else and zeros in the
    gap the file grew over, reading the same range gives the data back, and the file is marked to be
    committed.  It never panics. *)
Theorem Write_pwrite cfg h data off :
  0 ≤ off → off + Z.of_nat (length data) ≤ max_int64 →
  if decide (MaxFileSize cfg < off + Z.of_nat (length data)) then Write cfg h data off = Errno EFBIG
  else ∃ buf,
    Write cfg h data off =
      Done (mkWriteHandle (h_path h) buf (h_mode h) (h_uid h) (h_gid h) true,
            wrap32 (Z.of_nat (length data))) ∧
    (∀ i, buf !! i = pwrite_byte (h_buf h) data (Z.to_nat off) i) ∧
    read_slice buf off (length data) = data.
Proof.
  intros Hoff Hend. unfold Write. rewrite wrap64_id by (unfold is_int64, min_int64; lia).
  case_decide; [by rewrite (proj2 (Z.gtb_gt _ _)) by lia|].
  rewrite (Z.gtb_ltb (off + _) (MaxFileSize _)), (proj2 (Z.ltb_ge _ _)) by lia.
  set (n := (Z.to_nat off + length data)%nat).
  set (base := if _ >? _ then _ else h_buf h).
  assert (length base = Nat.max (length (h_buf h)) n ∧
    ∀ i, base !! i = if decide (i < length (h_buf h))%nat then h_buf h !! i
                     else if decide (i < n)%nat then Some "000"%byte else None) as [Hlen Hbase].
  { unfold base, n. destruct (Z.gtb_spec (off + Z.of_nat (length data)) (Z.of_nat (length (h_buf h)))).
    - rewrite grow_length. split; [lia|]. intros i. rewrite grow_lookup by lia.
      repeat case_decide; done || lia.
    - split; [lia|]. intros i. repeat case_decide; try done; [lia|]. apply lookup_ge_None_2. lia. }
  rewrite (proj2 (Z.ltb_ge off 0)), (proj2 (Z.ltb_ge (Z.of_nat (length base)) off)) by lia. simpl.
  eexists. split; [done|].
  assert (Z.to_nat off + length data ≤ length base)%nat as Hin by lia. split.
  - intros i. rewrite copy_at_lookup, Hbase by done. unfold pwrite_byte. fold n. repeat case_decide; done || lia.
  - unfold read_slice. rewrite copy_at_length by lia.
    rewrite (proj2 (Z.ltb_ge off 0)), (proj2 (Z.ltb_ge (Z.of_nat (length base)) off)) by lia. simpl.
    rewrite wrap64_id, Z.min_l by (unfold is_int64, min_int64; lia).
    replace (Z.to_nat _) with (length data) by lia. unfold copy_at.
    rewrite (take_ge data), drop_app_length', take_app_length by (rewrite ?length_take; lia). done.
Qed.

(** ** Handlers *)

Lemma handler_bind_inv {A B} (q : handler A) (k : A → handler B) s r s' :
  (q ≫= k) s = (r, s') →
  ∃ r1 s1, q s = (r1, s1) ∧
    match r1 with
    | Done a => k a s1 = (r, s')
    | Errno e => r = Errno e ∧ s' = s1
    | Crash => r = Crash ∧ s' = s1
    end.
Proof.
  unfold mbind, handler_bind. destruct (q s) as [[a|e|] s1]; intros E; do 2 eexists; split; eauto;
    by simplify_eq.
Qed.

Lemma call_inv {A} (q : ST node A) f s r s' :
  call q f s = (r, s') →
  ∃ r0, q s = (r0, s') ∧ r = match r0 with Ok a => Done a | Err e => Errno (f e) end.
Proof. unfold call. destruct (q s) as [[a|e] s1]; intros; simplify_eq; eauto. Qed.

(** Splits a run of two handlers in sequence into the two runs. *)
Ltac handler_step E r s1 E1 E2 := apply handler_bind_inv in E as (r & s1 & E1 & E2).

Section facts.
Context `{DBFaults, Sha256, !Sha256Laws, SystemTime, Process} (cfg : Config).
Implicit Types (t : tables) (s : node) (m : Meta) (p : string).

(** *** Reading calls *)

Lemma get_live_inv p s r s' :
  get_live p s = (r, s') → observable s' = observable s ∧
  ((∃ m, r = Done m ∧ live_entry (tbl (db s)) p m) ∨
   (r = Errno ENOENT ∧ (¬ live (tbl (db s)) p ∨ db_fault))).
Proof.
  unfold get_live. intros E. handler_step E r1 s1 E1 E2. apply call_inv in E1 as (r0 & E1 & ->).
  apply Get_entry in E1 as [Ho [[-> ?]|[(m & -> & Em)|[-> Em]]]].
  - destruct E2 as [-> ->]. eauto 10.
  - destruct (Deleted m) eqn:Hd; injection E2 as <- <-; split; try done.
    + right. split; [done|]. left. unfold live. rewrite Em. intros [_ ?]. congruence.
    + left. by exists m.
  - destruct E2 as [-> ->]. split; [done|]. right. split; [done|]. left. unfold live. by rewrite Em; intros [].
Qed.

(** *** Edits made for a handler *)

(** With no failure of the database, an edit answers with its refusal, or succeeds. *)
Lemma call_edit_inv e s r s' :
  wf_tables (tbl (db s)) → ¬ no_room 1 s → call (run_edit cfg e) errnoOf s = (r, s') →
  (∃ err, edit_refused cfg e (tbl (db s)) = Some err ∧ r = Errno (errnoOf err) ∧ observable s' = observable s) ∨
  (edit_refused cfg e (tbl (db s)) = None ∧ r = Done tt ∧ run_edit cfg e s = (Ok tt, s')).
Proof.
  intros Hw Hr (r0 & E & ->)%call_inv. pose proof (run_edit_inv cfg e s r0 s' Hw E) as Ho.
  unfold edit_outcome in Ho. destruct (edit_refused cfg e (tbl (db s))) as [err|].
  - left. exists err. destruct Ho as [[->|[-> ?]] ?]; [done|]. destruct Hr. by left.
  - right. destruct Ho as [(_ & -> & _)|[(_ & -> & _)|(-> & ? & _)]]; done.
Qed.

(** The forward reading of [get_live]. *)
Lemma get_live_run p m s : ¬ db_fault → live_entry (tbl (db s)) p m →
  ∃ s', get_live p s = (Done m, s') ∧ observable s' = observable s.
Proof.
  intros Hf Hm. destruct (get_live p s) as [r s'] eqn:E.
  apply get_live_inv in E as [Ho [(m' & -> & Hm')|[_ [Hl|?]]]]; [|by destruct Hl; eapply live_entry_live|done].
  rewrite (live_entry_fun _ _ _ _ Hm Hm'). by exists s'.
Qed.

(** What is written is what is read: after a flush that succeeds, the file is clean, opening it
    for reading gives exactly the buffer, the entry has the mode of the handle, and
    flushing again — as every duplicated descriptor does when it is closed — changes nothing.  A
    flush that fails keeps the buffer marked, so that the next one commits it. *)
Theorem Flush_Open h s r s1 :
  wf_store (tbl (db s)) → ¬ db_fault → collision_free (h_buf h) (tbl (db s)) →
  h_dirty h = true → Flush cfg h s = (r, s1) →
  match r with
  | Done h' =>
      h_dirty h' = false ∧ h_buf h' = h_buf h ∧ Flush cfg h' s1 = (Done h', s1) ∧
      (∃ s2, Open (h_path h) 0 s1 = (Done (ReadHandle (h_buf h)), s2) ∧ observable s2 = observable s1) ∧
      ∃ m, live_entry (tbl (db s1)) (h_path h) m ∧ Mode m = SanitizeMode (h_mode h)
  | Errno _ => entries (tbl (db s1)) = entries (tbl (db s)) ∧ announced s1 = announced s
  | Crash => False
  end.
Proof.
  intros Hw Hf Hcol Hd. unfold Flush. rewrite Hd. simpl. intros E. handler_step E r1 s0 E1 E2.
  apply call_inv in E1 as (r0 & E1 & ->). destruct r0 as [[]|err].
  2: { destruct E2 as [-> ->].
       change (run_edit cfg (EPutFile (h_path h) (h_buf h) (h_mode h) (h_uid h) (h_gid h)) s = (Err err, s0)) in E1.
       apply failed_edit_aborted in E1; [|apply Hw]. by destruct E1. }
  injection E2 as <- <-.
  destruct (PutFile_Content cfg _ _ _ _ _ _ _ Hw Hf Hcol E1) as (Hw' & m & Em & Hdel & Hk & Hm & Hc).
  split_and!; [done..| |by exists m].
  destruct (get_live_run (h_path h) m s0) as (s2 & E2 & Ho); [done..|].
  unfold Open, mbind, handler_bind. rewrite E2, Hk. simpl. unfold call.
  destruct (Content_run (Hash m) s0) as (s0' & Ec0 & _); [done|apply Hw'|].
  destruct (Content_run (Hash m) s2) as (s3 & -> & Ho3); [done|by rewrite (observable_tbl _ _ Ho); apply Hw'|].
  rewrite Ec0 in Hc. simpl in Hc. rewrite (observable_tbl _ _ Ho), Hc.
  exists s3. split; [done|]. by rewrite Ho3.
Qed.

(** *** Listing and looking up *)

Lemma child_prefix dir name : child dir name = dir_prefix dir +:+ name.
Proof.
  unfold child, dir_prefix. destruct (String.eqb_spec dir EmptyString) as [->|]; [done|]. by rewrite Str.app_assoc.
Qed.

Lemma skip_app a b : skip (String.length a) (a +:+ b) = b.
Proof. by induction a. Qed.

Lemma contains_slash p : Str.contains "/" p = Str.has_char slash p.
Proof.
  induction p as [|c p IH]; [done|]. change (Str.contains "/" (String c p)) with
    ((Ascii.eqb "/" c && true) || Str.contains "/" p). rewrite IH, andb_true_r. simpl.
  by rewrite Ascii.eqb_sym.
Qed.

(** The listing entry of a live entry: the rest of its path, if that is one name. *)
Lemma dir_entry_Some dir m e :
  dir_entry dir m = Some e ↔
  Path m = child dir (de_Name e) ∧ de_Name e ≠ EmptyString ∧ Str.has_char slash (de_Name e) = false ∧
  de_Mode e = type_bits (MKind m) ∧ de_Ino e = inoOf (Path m).
Proof.
  unfold dir_entry. rewrite child_prefix.
  destruct (Str.has_prefix (dir_prefix dir) (Path m)) eqn:Ep; simpl.
  - apply Str.has_prefix_iff in Ep as [rest Er]. rewrite Er, skip_app, contains_slash.
    destruct (String.eqb_spec rest EmptyString) as [->|Hne]; simpl.
    + split; [done|]. intros (E & Hn & _). apply Str.app_inv_head in E. congruence.
    + destruct (Str.has_char slash rest) eqn:Hs.
      * split; [done|]. intros (E & _ & Hn & _). apply Str.app_inv_head in E. congruence.
      * split; [by intros [= <-]|]. destruct e as [n mo i]; simpl. intros (E & _ & _ & -> & ->).
        by apply Str.app_inv_head in E as <-.
  - split; [done|]. intros (E & _). rewrite E, Str.has_prefix_app in Ep. done.
Qed.

Lemma dir_entries_NoDup dir ms : NoDup (Path <$> ms) → NoDup (de_Name <$> omap (dir_entry dir) ms).
Proof.
  induction ms as [|m ms IH]; simpl; [intros _; constructor|]. intros [Hm Hms]%NoDup_cons.
  destruct (dir_entry dir m) as [e|] eqn:Ee; [|by apply IH]. simpl. apply NoDup_cons. split; [|by apply IH].
  intros (e' & En & (m' & Hm' & Ee')%list_elem_of_omap)%list_elem_of_fmap. apply Hm.
  apply dir_entry_Some in Ee as (Hp & _). apply dir_entry_Some in Ee' as (Hp' & _).
  apply list_elem_of_fmap. exists m'. split; [|done]. by rewrite Hp, Hp', En.
Qed.

(** The empty name looks up nothing: the root and a path that ends in a slash are refused. *)
Lemma dir_prefix_not_canonical dir : ¬ canonical (dir_prefix dir +:+ EmptyString).
Proof.
  unfold dir_prefix. intros (_ & _ & Hg).
  assert (EmptyString ∈ Str.split slash ((if String.eqb dir EmptyString then EmptyString else dir +:+ "/") +:+ EmptyString))
    as Hin.
  { destruct (String.eqb dir EmptyString); [by left|]. rewrite Str.app_nil_r.
    change (dir +:+ "/") with (dir +:+ String slash EmptyString). rewrite Str.split_app_sep.
    apply elem_of_app. right. by left. }
  rewrite Forall_forall in Hg. by destruct (Hg _ Hin).
Qed.

(** A directory lists exactly what can be looked up in it.  A name is listed, once, when looking it up
    succeeds, with the type and the inode number the lookup reports; every other name gets
    ENOENT. *)
Theorem Readdir_Lookup dir name s l s1 r s2 :
  wf_tables (tbl (db s)) → tidy (tbl (db s)) → ¬ db_fault → Str.has_char slash name = false →
  Readdir dir s = (Done l, s1) → Lookup dir name s = (r, s2) →
  NoDup (de_Name <$> l) ∧
  ((∃ a st, r = Done (child dir name, a, st) ∧ mkDirEntry name (st_Mode st) (st_Ino st) ∈ l) ∨
   (r = Errno ENOENT ∧ name ∉ de_Name <$> l)).
Proof.
  intros Hw Ht Hf Hn E1 E2. unfold Readdir in E1. handler_step E1 r1 s3 E1 Ek.
  apply call_inv in E1 as (r0 & E1 & ->). apply Live_inv in E1 as [Ho [[_ ?]| ->]]; [done|].
  injection Ek as <- <-. split; [by apply dir_entries_NoDup, select_live_NoDup|].
  set (t := tbl (db s)) in *. set (p := child dir name) in *.
  assert (name ∈ de_Name <$> omap (dir_entry dir) (select_live t) → name ≠ EmptyString ∧ ∃ m, live_entry t p m) as Hlist.
  { intros (e & -> & (m & Hm & Ee)%list_elem_of_omap)%list_elem_of_fmap.
    apply dir_entry_Some in Ee as (Hp & ? & _). split; [done|]. exists m. unfold p. rewrite <- Hp.
    by apply elem_of_live. }
  unfold Lookup in E2. fold p in E2. destruct (SanitizePath p) as [q|e] eqn:Eq.
  - assert (name ≠ EmptyString) as Hne.
    { intros ->. apply SanitizePath_Ok in Eq as [_ Hc]. unfold p in Hc. rewrite child_prefix in Hc.
      by apply dir_prefix_not_canonical in Hc. }
    handler_step E2 r2 s4 E2 Ek. apply get_live_inv in E2 as [_ [(m & -> & Hm)|[-> Hl]]].
    + injection Ek as <- <-. left. do 2 eexists. split; [done|]. simpl. apply list_elem_of_omap. exists m.
      pose proof (live_entry_path _ _ _ Hw Hm) as Hp. split; [apply elem_of_live; [done|by rewrite Hp]|].
      by apply dir_entry_Some.
    + destruct Ek as [-> ->]. right. split; [done|]. intros (_ & m & Hm)%Hlist.
      destruct Hl as [Hl|?]; [|done]. by destruct Hl; eapply live_entry_live.
  - injection E2 as <- <-. right. split; [done|]. intros (_ & m & Hm)%Hlist.
    pose proof (live_entry_tidy _ _ _ Ht Hm) as Hc. by rewrite (SanitizePath_canonical _ Hc) in Eq.
Qed.

(** *** Requests of the kernel *)

Inductive kernel_request :=
  | KLookup (dir name : string)
  | KReaddir (dir : string)
  | KGetattr (path : string) (f : option handle)
  | KSetattr (path : string) (f : option handle) (in_ : SetAttrIn)
  | KOpen (path : string) (flags : Z)
  | KCreate (dir name : string) (mode uid gid : Z)
  | KMkdir (dir name : string) (mode uid gid : Z)
  | KUnlink (dir name : string)
  | KRmdir (dir name : string)
  | KRename (dir name : string) (target : option string) (newName : string) (flags : Z)
  | KFlush (h : writeHandle).

Definition discard {A} (q : handler A) : handler unit := _ ← q; mret tt.

Definition serve (q : kernel_request) : handler unit :=
  match q with
  | KLookup dir name => discard (Lookup dir name)
  | KReaddir dir => discard (Readdir dir)
  | KGetattr path f => discard (Getattr path f)
  | KSetattr path f in_ => discard (Setattr cfg path f in_)
  | KOpen path flags => discard (Open path flags)
  | KCreate dir name mode uid gid => discard (Create cfg dir name mode uid gid)
  | KMkdir dir name mode uid gid => discard (Mkdir cfg dir name mode uid gid)
  | KUnlink dir name => Unlink cfg dir name
  | KRmdir dir name => Rmdir cfg dir name
  | KRename dir name target newName flags => Rename cfg dir name target newName flags
  | KFlush h => discard (Flush cfg h)
  end.

(** A handler that only reads. *)
Definition quiet {A} (q : handler A) : Prop := ∀ s, observable (q s).2 = observable s.

Lemma quiet_bind {A B} (q : handler A) (k : A → handler B) :
  quiet q → (∀ a, quiet (k a)) → quiet (q ≫= k).
Proof.
  intros Hq Hk s. unfold mbind, handler_bind. specialize (Hq s). destruct (q s) as [[a|e|] s1]; simpl in *; [|done..].
  by rewrite Hk.
Qed.
Lemma quiet_ret {A} (a : A) : quiet (mret a).
Proof. done. Qed.
Lemma quiet_fail {A} e : quiet (@fail_with A e).
Proof. done. Qed.
Lemma quiet_crash {A} : quiet (@crash A).
Proof. done. Qed.
Lemma quiet_call {A} (q : ST node A) f :
  (∀ s res s', q s = (res, s') → observable s' = observable s) → quiet (call q f).
Proof. intros Hq s. unfold call. destruct (q s) as [[a|e] s'] eqn:E; simpl; by eapply Hq. Qed.
Lemma quiet_get_live p : quiet (get_live p).
Proof. intros s. destruct (get_live p s) eqn:E. by apply get_live_inv in E as [? _]. Qed.
Lemma quiet_Live f : quiet (call Live f).
Proof. apply quiet_call. by intros s res s' [? _]%Live_inv. Qed.
Lemma quiet_Get p f : quiet (call (Get p) f).
Proof. apply quiet_call. by intros s res s' [? _]%Get_entry. Qed.
Lemma quiet_Content h f : quiet (call (Content h) f).
Proof.
  apply quiet_call. intros s res s' (d' & E & ->)%on_db_inv. apply on_db_quiet.
  unfold GetBlob in E. apply select_bind_inv in E as [(_ & _ & ?)|(d1 & <- & E)]; [done|].
  case_match; by injection E as _ <-.
Qed.
#[local] Hint Resolve quiet_bind quiet_ret quiet_fail quiet_crash quiet_get_live quiet_Live quiet_Get
  quiet_Content : mount.
#[local] Hint Extern 1 (quiet (match ?x with _ => _ end)) => destruct x : mount.

(** The tree is fit to be served: well formed, tidy, on a database that works and has room. *)
Record ready s : Prop := {
  rd_wf : wf_store (tbl (db s));
  rd_tidy : tidy (tbl (db s));
  rd_room : ¬ no_room 2 s
}.

Lemma ready_quiet s s' : observable s' = observable s → ready s → ready s'.
Proof. intros Ht%observable_tbl [? ? ?]. by split; unfold no_room; rewrite ?Ht. Qed.

(** A handler that changes nothing when it answers with an errno. *)
Definition clean {A} (q : handler A) : Prop :=
  ∀ s e s', ready s → q s = (Errno e, s') → observable s' = observable s.

Lemma clean_quiet {A} (q : handler A) : quiet q → clean q.
Proof. intros Hq s e s' _ E. specialize (Hq s). by rewrite E in Hq. Qed.
Lemma clean_bind {A B} (q : handler A) (k : A → handler B) :
  quiet q → (∀ a, clean (k a)) → clean (q ≫= k).
Proof.
  intros Hq Hk s e s' Hr E. handler_step E r1 s1 E1 E2. specialize (Hq s). rewrite E1 in Hq. simpl in Hq.
  destruct r1; [|by destruct E2 as [_ ->]..]. rewrite <- Hq. by eapply Hk; [eapply ready_quiet|].
Qed.

(** Once the edit is done, the rest does not fail. *)
Lemma clean_edit {A} e (k : unit → handler A) :
  (∀ s s' err s2, ready s → wf_store (tbl (db s')) → ¬ no_room 1 s' →
     run_edit cfg e s = (Ok tt, s') → edit_noop e (tbl (db s')) → canonical (edit_path e) →
     k tt s' = (Errno err, s2) → False) →
  clean (call (run_edit cfg e) errnoOf ≫= k).
Proof.
  intros Hk s err s' Hr E. pose proof Hr as [Hw _ Hroom]. handler_step E r1 s1 E1 E2.
  apply call_edit_inv in E1 as [(er & _ & -> & Ho)|(Href & -> & E1)]; [|..].
  - by destruct E2 as [_ ->].
  - destruct (edit_settled e s s1 Hw E1) as (Hw1 & _ & Hn). exfalso.
    refine (Hk s s1 err s' Hr Hw1 _ E1 Hn _ E2).
    + pose proof (edit_frame e s (Ok tt) s1 Hw E1) as (? & _). intros [?|?]; destruct Hroom; [by left|right; lia].
    + unfold edit_refused in Href. by case_decide.
  - apply Hw.
  - intros [?|?]; destruct Hroom; [by left|right; lia].
Qed.

Lemma clean_call_edit e : clean (call (run_edit cfg e) errnoOf).
Proof.
  intros s err s' Hr E. pose proof Hr as [Hw _ Hroom].
  apply call_edit_inv in E as [(er & _ & _ & Ho)|(_ & ? & _)]; [done|done|apply Hw|].
  intros [?|?]; destruct Hroom; [by left|right; lia].
Qed.
#[local] Hint Resolve clean_call_edit : mount.

Lemma quiet_Lookup dir name : quiet (Lookup dir name).
Proof. unfold Lookup. auto 6 with mount. Qed.
Lemma quiet_Readdir dir : quiet (Readdir dir).
Proof. unfold Readdir. auto 6 with mount. Qed.
Lemma quiet_Getattr path f : quiet (Getattr path f).
Proof. unfold Getattr. auto 8 with mount. Qed.
Lemma quiet_Open path flags : quiet (Open path flags).
Proof. unfold Open. auto 10 with mount. Qed.

(** Where there is an entry, reading it does not fail. *)
Lemma get_present p m s err s' :
  ¬ db_fault → entry_at (tbl (db s)) p = (m, true) → call (Get p) (λ _, EIO) s ≠ (Errno err, s').
Proof.
  intros Hf Em (r0 & E & Hr)%call_inv.
  apply Get_entry in E as [_ [[_ ?]|[(m' & -> & _)|[_ En]]]]; [done..|]. congruence.
Qed.

(** A call after which the rest only reads the entry that was put. *)
Lemma clean_put {A} e (k : Meta → A) :
  (∀ t, edit_noop e t → ∃ m, live_entry t (edit_path e) m) →
  clean (_ ← call (run_edit cfg e) errnoOf; m ← call (Get (edit_path e)) (λ _, EIO); mret (k m)).
Proof.
  intros Hput. apply clean_edit. intros s s' err s2 Hr _ Hroom _ Hn _ E.
  handler_step E r1 s3 E1 E2. destruct (Hput _ Hn) as (m & Em & _).
  destruct r1 as [a|er|]; [done| |by destruct E2].
  eapply get_present; [by eapply no_room_fault|exact Em|exact E1].
Qed.

Lemma clean_Create dir name mode uid gid : clean (Create cfg dir name mode uid gid).
Proof.
  unfold Create. destruct (SanitizePath _); [|by apply clean_quiet].
  apply (clean_put (EPutFile (child dir name) [] (SanitizeMode mode) uid gid)
    (λ m, (child dir name, attrOf m, mkWriteHandle (child dir name) [] (SanitizeMode mode) uid gid false))).
  intros t (m & ? & _)%noop_put_file. by exists m.
Qed.

Lemma clean_Mkdir dir name mode uid gid : clean (Mkdir cfg dir name mode uid gid).
Proof.
  unfold Mkdir. destruct (SanitizePath _); [|by apply clean_quiet].
  apply (clean_put (EPutDir (child dir name) (SanitizeMode mode) uid gid) (λ m, (child dir name, attrOf m))).
  intros t (m & ? & _)%noop_put_dir. by exists m.
Qed.

Lemma clean_remove dir name kind : clean (remove cfg dir name kind).
Proof.
  unfold remove. apply clean_bind; [apply quiet_get_live|]. intros m.
  case_match; [by apply clean_quiet|]. apply (clean_call_edit (EDelete (child dir name))).
Qed.

Lemma clean_Rmdir dir name : clean (Rmdir cfg dir name).
Proof.
  unfold Rmdir. apply clean_bind; [apply quiet_Live|]. intros l.
  case_match; [by apply clean_quiet|apply clean_remove].
Qed.

Lemma clean_Flush h : clean (Flush cfg h).
Proof.
  unfold Flush. case_match; [by apply clean_quiet|].
  apply (clean_edit (EPutFile (h_path h) (h_buf h) (h_mode h) (h_uid h) (h_gid h))). by intros.
Qed.

Lemma clean_discard {A} (q : handler A) : clean q → clean (discard q).
Proof.
  intros Hq s e s' Hr E. unfold discard in E. handler_step E r1 s1 E1 E2.
  destruct r1; [done| |by destruct E2]. destruct E2 as [_ ->]. by eapply Hq.
Qed.

(** *** Renaming *)

(** The first half of a rename: refused with the source as it was, or the target put. *)
Lemma rename_copy_inv from to m s r s' :
  wf_store (tbl (db s)) → rename_copy cfg from to m s = (r, s') →
  (r ≠ Done tt ∧ entries (tbl (db s')) = entries (tbl (db s)) ∧ (¬ no_room 1 s → observable s' = observable s)) ∨
  (r = Done tt ∧ ∃ s0, observable s0 = observable s ∧
    ((MKind m = KindDir ∧ run_edit cfg (EPutDir to (Mode m) (UID m) (GID m)) s0 = (Ok tt, s')) ∨
     (MKind m = KindFile ∧ ∃ c, HashContent c = Hash m ∧
        run_edit cfg (EPutFile to c (Mode m) (UID m) (GID m)) s0 = (Ok tt, s')) ∨
     (Valid (MKind m) = false ∧ s' = s0))).
Proof.
  intros Hw. unfold rename_copy.
  assert (∀ e s0, observable s0 = observable s → call (run_edit cfg e) errnoOf s0 = (r, s') →
    (r ≠ Done tt ∧ entries (tbl (db s')) = entries (tbl (db s)) ∧ (¬ no_room 1 s → observable s' = observable s)) ∨
    (r = Done tt ∧ run_edit cfg e s0 = (Ok tt, s'))) as Hedit.
  { intros e s0 Ho E. pose proof (observable_tbl _ _ Ho) as Ht.
    pose proof E as (r0 & E0 & ->)%call_inv. destruct r0 as [[]|err]; [by right|]. left. split; [done|].
    rewrite <- Ht in Hw. split; [rewrite <- Ht; by eapply (aborted_entries (edit_content e)), failed_edit_aborted, E0; apply Hw|].
    intros Hroom. rewrite <- Ho. apply call_edit_inv in E as [(? & _ & _ & ?)|(_ & ? & _)]; [done..|apply Hw|].
    unfold no_room in *. by rewrite Ht. }
  destruct (Z.eqb_spec (MKind m) KindDir) as [Hk|Hk]; [|destruct (Z.eqb_spec (MKind m) KindFile) as [Hk'|Hk']].
  - intros E. handler_step E r1 s1 E1 E2. pose proof (quiet_Live (λ _, EIO) s) as Ho. rewrite E1 in Ho. simpl in Ho.
    destruct r1 as [l|e|]; [|destruct E2 as [-> ->]; left; by rewrite (observable_tbl _ _ Ho)..].
    destruct (has_children from l).
    + injection E2 as <- <-. left. by rewrite (observable_tbl _ _ Ho).
    + apply (Hedit (EPutDir to (Mode m) (UID m) (GID m)) s1 Ho) in E2 as [?|[-> ?]]; [by left|].
      right. split; [done|]. exists s1. auto.
  - intros E. handler_step E r1 s1 E1 E2. pose proof (quiet_Content (Hash m) (λ _, EIO) s) as Ho.
    rewrite E1 in Ho. simpl in Ho. pose proof (observable_tbl _ _ Ho) as Ht.
    destruct r1 as [c|e|]; [|destruct E2 as [-> ->]; left; by rewrite Ht..].
    apply (Hedit (EPutFile to c (Mode m) (UID m) (GID m)) s1 Ho) in E2 as [?|[-> ?]]; [by left|].
    right. split; [done|]. exists s1. split; [done|]. right; left. split; [done|]. exists c. split; [|done].
    apply call_inv in E1 as (r0 & E1 & Er). apply Content_inv in E1 as [_ Hc]; [|apply Hw].
    destruct Hc as [[-> _]|[[-> _]|(b & -> & _ & Hb)]]; [done..|]. by injection Er as ->.
  - intros [= <- <-]. right. split; [done|]. exists s. split; [done|]. right; right. split; [|done].
    unfold Valid. by rewrite (proj2 (Z.eqb_neq _ _) Hk), (proj2 (Z.eqb_neq _ _) Hk').
Qed.

(** The target of a rename: of the source's kind, content and attributes. *)
Definition moved_to t to m : Prop :=
  ∃ m', live_entry t to m' ∧ MKind m' = MKind m ∧ (MKind m = KindFile → Hash m' = Hash m) ∧
    Mode m' = SanitizeMode (Mode m) ∧ UID m' = UID m ∧ GID m' = GID m.

Lemma put_moved to m e s s' :
  wf_store (tbl (db s)) → run_edit cfg e s = (Ok tt, s') →
  (MKind m = KindDir ∧ e = EPutDir to (Mode m) (UID m) (GID m) ∨
   MKind m = KindFile ∧ ∃ c, HashContent c = Hash m ∧ e = EPutFile to c (Mode m) (UID m) (GID m)) →
  moved_to (tbl (db s')) to m.
Proof.
  intros Hw E He. destruct (edit_settled _ _ _ Hw E) as (_ & _ & Hn). unfold moved_to, live_entry.
  destruct He as [[Hk ->]|[Hk (c & Hc & ->)]]; simpl in Hn; unfold holds_dir, holds_file, same_attrs in Hn;
    destruct (entry_at (tbl (db s')) to) as [m' b];
    [destruct Hn as (-> & ? & ? & ? & ? & ?)|destruct Hn as (-> & ? & ? & ? & ? & ? & ?)];
    exists m'; rewrite Hk; split_and!; try done; congruence.
Qed.

(** C20: Renaming moves, and never loses.  Whatever fails, and wherever: a rename of a live entry to
    another name that is answered with success leaves nothing live at the old name, a live
    entry of the same kind, content, mode and owner at the new one, and every other path as it was; answered
    with an errno, it leaves the old name as it was. *)
Theorem Rename_moves dir name tdir newName flags s r s' m :
  let from := child dir name in
  let to := child tdir newName in
  wf_store (tbl (db s)) → live_entry (tbl (db s)) from m → Valid (MKind m) = true → from ≠ to →
  Rename cfg dir name (Some tdir) newName flags s = (r, s') →
  match r with
  | Done _ => ¬ live (tbl (db s')) from ∧ moved_to (tbl (db s')) to m ∧
      ∀ p, p ≠ from → p ≠ to → entries (tbl (db s')) !! p = entries (tbl (db s)) !! p
  | _ => live_entry (tbl (db s')) from m
  end.
Proof.
  intros from to Hw Hm Hk Hne E. unfold Rename in E. fold from to in E.
  assert (∀ t, entries t !! from = entries (tbl (db s)) !! from → live_entry t from m) as Hsame.
  { intros t Et. destruct Hm as [Em ?]. split; [|done]. unfold entry_at in *. by rewrite Et. }
  destruct (SanitizePath to); [|injection E as <- <-; by apply Hsame].
  handler_step E r1 s1 E1 E2. apply get_live_inv in E1 as [Ho E1]. pose proof (observable_tbl _ _ Ho) as Ht.
  destruct E1 as [(m' & -> & Hm')|[-> _]]; [|destruct E2 as [-> ->]; by apply Hsame; rewrite Ht].
  rewrite (live_entry_fun _ _ _ _ Hm' Hm) in E2. handler_step E2 r2 s2 E2 E3.
  apply rename_copy_inv in E2 as [(Hr & He & _)|(-> & s0 & Ho0 & Hcopy)]; [| |by rewrite Ht].
  { destruct r2 as [[]|e|]; [done|destruct E3 as [-> ->]; apply Hsame; by rewrite He, Ht..]. }
  pose proof (observable_tbl _ _ Ho0) as Ht0. rewrite Ht in Ht0.
  assert (∃ e, run_edit cfg e s0 = (Ok tt, s2) ∧ edit_path e = to ∧
    (MKind m = KindDir ∧ e = EPutDir to (Mode m) (UID m) (GID m) ∨
     MKind m = KindFile ∧ ∃ c, HashContent c = Hash m ∧ e = EPutFile to c (Mode m) (UID m) (GID m)))
    as (e & E2 & Hp & Hput).
  { destruct Hcopy as [[? ?]|[(? & c & ? & ?)|[? _]]]; [| |congruence]; eexists; split_and!; try done; eauto 10. }
  rewrite <- Ht0 in Hw. destruct (edit_settled _ _ _ Hw E2) as (Hw2 & _).
  pose proof (put_moved to m e s0 s2 Hw E2 Hput) as Hmv.
  destruct (edit_frame e s0 _ s2 Hw E2) as (_ & Hfr & _). rewrite Hp, Ht0 in Hfr.
  apply call_inv in E3 as (r0 & E3 & ->). change (run_edit cfg (EDelete from) s2 = (r0, s')) in E3.
  destruct (edit_frame _ _ _ _ Hw2 E3) as (_ & Hfr' & _). simpl in Hfr'.
  destruct r0 as [[]|err].
  - destruct (edit_settled _ _ _ Hw2 E3) as (_ & _ & Hn). split_and!; [done| |].
    + destruct Hmv as (m'' & [Em ?] & Hrest). exists m''. split; [|done]. split; [|done].
      unfold entry_at in *. by rewrite Hfr'.
    + intros p Hpf Hpt. by rewrite Hfr', Hfr.
  - apply Hsame. apply failed_edit_aborted in E3; [|apply Hw2]. rewrite (aborted_entries _ _ _ E3). by apply Hfr.
Qed.

Lemma clean_Rename dir name target newName flags : clean (Rename cfg dir name target newName flags).
Proof.
  unfold Rename. destruct target as [tdir|]; [|by apply clean_quiet].
  destruct (SanitizePath _); [|by apply clean_quiet]. intros s e s' Hr E. pose proof Hr as [Hw Htidy Hroom].
  handler_step E r1 s1 E1 E2. apply get_live_inv in E1 as [Ho E1]. pose proof (observable_tbl _ _ Ho) as Ht.
  destruct E1 as [(m & -> & Hm)|[-> _]]; [|by destruct E2 as [_ ->]].
  handler_step E2 r2 s2 E2 E3.
  assert (¬ no_room 1 s1) as Hroom1.
  { unfold no_room. rewrite Ht. intros [?|?]; destruct Hroom; [by left|right; lia]. }
  apply rename_copy_inv in E2 as [(Hne & _ & Hq)|(-> & s0 & Ho0 & Hcopy)]; [| |by rewrite Ht].
  { destruct r2 as [[]|er|]; [done| |by destruct E3]. destruct E3 as [_ ->]. rewrite <- Ho. by apply Hq. }
  exfalso. pose proof (observable_tbl _ _ Ho0) as Ht0. rewrite Ht in Ht0.
  assert (wf_store (tbl (db s2)) ∧ ¬ no_room 1 s2) as [Hw2 Hroom2].
  { rewrite <- Ht0 in Hw. assert (∀ e0, run_edit cfg e0 s0 = (Ok tt, s2) → wf_store (tbl (db s2)) ∧ ¬ no_room 1 s2) as Hed.
    { intros e0 E0. split; [by eapply edit_settled|]. pose proof (edit_frame _ _ _ _ Hw E0) as (Hs & _).
      rewrite Ht0 in Hs. intros [?|?]; destruct Hroom; [by left|right; lia]. }
    destruct Hcopy as [[_ ?]|[(_ & c & _ & ?)|[_ ->]]]; [by eapply Hed..|]. split; [done|].
    unfold no_room. rewrite Ht0. by unfold no_room in Hroom1; rewrite Ht in Hroom1. }
  apply (call_edit_inv (EDelete (child dir name))) in E3 as [(er & Her & _)|(_ & ? & _)]; [|done|apply Hw2|done].
  unfold edit_refused in Her. simpl in Her. case_decide as Hc; [done|]. by apply Hc, (live_entry_tidy _ _ _ Htidy Hm).
Qed.

(** *** Attributes and truncation *)

(** What truncation leaves: the first bytes, and zeros up to the size. *)
Lemma truncated_spec size content : 0 ≤ size →
  Z.of_nat (length (truncated size content)) = size ∧
  ∀ i, truncated size content !! i =
    if decide (i < Z.to_nat size)%nat
    then if decide (i < length content)%nat then content !! i else Some "000"%byte else None.
Proof.
  intros Hs. unfold truncated.
  destruct (Z.ltb_spec size (Z.of_nat (length content))); [|destruct (Z.ltb_spec (Z.of_nat (length content)) size)].
  - rewrite length_take. split; [lia|]. intros i. repeat case_decide; try lia.
    + by apply lookup_take_lt.
    + apply lookup_take_ge. lia.
  - rewrite grow_length. split; [lia|]. intros i. rewrite grow_lookup by lia. repeat case_decide; done || lia.
  - split; [lia|]. intros i. repeat case_decide; try lia; [done|]. apply lookup_ge_None_2. lia.
Qed.

(** The first half of Setattr: nothing, a refusal, or the truncated content stored. *)
Lemma set_size_inv path in_ m s r s' :
  wf_store (tbl (db s)) → set_size cfg path in_ m s = (r, s') →
  (∀ m', r ≠ Done m' ∧ entries (tbl (db s')) = entries (tbl (db s)) ∧ (¬ no_room 1 s → observable s' = observable s)) ∨
  (r = Done m ∧ s' = s ∧ (in_Size in_ = None ∨ MKind m ≠ KindFile)) ∨
  (∃ size c s0, in_Size in_ = Some size ∧ MKind m = KindFile ∧ HashContent c = Hash m ∧
     wrap64 size ≤ MaxFileSize cfg ∧ (max_int64 < size → size ≤ Z.of_nat (length c)) ∧
     observable s0 = observable s ∧
     run_edit cfg (EPutFile path (truncated size c) (Mode m) (UID m) (GID m)) s0 = (Ok tt, s') ∧
     r = Done (with_Size (Z.of_nat (length (truncated size c))) m)).
Proof.
  intros Hw. unfold set_size. destruct (in_Size in_) as [size|] eqn:Ei.
  2: { intros [= <- <-]. auto 10. }
  destruct (Z.eqb_spec (MKind m) KindFile) as [Hk|Hk]; [|intros [= <- <-]; auto 10].
  destruct (Z.gtb_spec (wrap64 size) (MaxFileSize cfg)) as [Hs|Hs]; [intros [= <- <-]; auto 10|].
  intros E. handler_step E r1 s1 E1 E2. pose proof (quiet_Content (Hash m) (λ _, EIO) s) as Ho.
  rewrite E1 in Ho. simpl in Ho. pose proof (observable_tbl _ _ Ho) as Ht.
  destruct r1 as [c|e|]; [|destruct E2 as [-> ->]; left; by rewrite Ht..].
  destruct ((max_int64 <? size) && (Z.of_nat (length c) <? size)) eqn:Ec.
  { injection E2 as <- <-. left. by rewrite Ht. }
  handler_step E2 r2 s2 E2 E3. change (PutFile cfg path (truncated size c) (Mode m) (UID m) (GID m)) with
    (run_edit cfg (EPutFile path (truncated size c) (Mode m) (UID m) (GID m))) in E2.
  pose proof E2 as (r0 & E0 & ->)%call_inv. pose proof Hw as Hw0. rewrite <- Ht in Hw0. destruct r0 as [[]|err].
  - injection E3 as <- <-. right; right. exists size, c, s1. split_and!; try done.
    + apply call_inv in E1 as (r0 & E1 & Er). apply Content_inv in E1 as [_ Hc]; [|apply Hw].
      destruct Hc as [[-> _]|[[-> _]|(b & -> & _ & Hb)]]; [done..|]. by injection Er as ->.
    + intros Hm. apply andb_false_iff in Ec as [Ec%Z.ltb_ge|Ec%Z.ltb_ge]; lia.
  - destruct E3 as [-> ->]. left. split; [done|]. split.
    + rewrite <- Ht. exact (aborted_entries _ _ _ (failed_edit_aborted cfg _ _ _ _ (proj1 Hw0) E0)).
    + intros Hroom. rewrite <- Ho. apply call_edit_inv in E2 as [(? & _ & _ & ?)|(_ & ? & _)]; [done..|apply Hw0|].
      unfold no_room in *. by rewrite Ht.
Qed.

Lemma clean_Setattr path f in_ : clean (Setattr cfg path f in_).
Proof.
  unfold Setattr. case_match; [by apply clean_quiet|]. intros s e s' Hr E. pose proof Hr as [Hw Htidy Hroom].
  handler_step E r1 s1 E1 E2. apply get_live_inv in E1 as [Ho E1]. pose proof (observable_tbl _ _ Ho) as Ht.
  destruct E1 as [(m & -> & Hm)|[-> _]]; [|by destruct E2 as [_ ->]].
  assert (¬ no_room 1 s1) as Hroom1.
  { unfold no_room. rewrite Ht. intros [?|?]; destruct Hroom; [by left|right; lia]. }
  rewrite <- Ht in Hw. handler_step E2 r2 s2 E2 E3. pose proof E2 as Hss%set_size_inv; [|done].
  destruct Hss as [Hss|Hss].
  { destruct (Hss m) as (_ & _ & Hq). destruct r2 as [m'|er|]; [by destruct (Hss m')| |by destruct E3].
    destruct E3 as [_ ->]. rewrite <- Ho. by apply Hq. }
  exfalso. assert (∃ m2, r2 = Done m2 ∧ wf_store (tbl (db s2)) ∧ live (tbl (db s2)) path ∧ ¬ no_room 1 s2)
    as (m2 & -> & Hw2 & Hl2 & Hroom2).
  { destruct Hss as [(-> & -> & _)|(size & c & s0 & _ & _ & _ & _ & _ & Ho0 & E0 & ->)]; eexists; split; try done.
    - split_and!; [done| |done]. rewrite Ht. by eapply live_entry_live.
    - pose proof (observable_tbl _ _ Ho0) as Ht0. rewrite <- Ht0 in Hw.
      destruct (edit_settled _ _ _ Hw E0) as (? & _ & (m' & ? & _)%noop_put_file).
      split_and!; [done|by eapply live_entry_live|]. pose proof (edit_frame _ _ _ _ Hw E0) as (Hs & _).
      rewrite Ht0, Ht in Hs. intros [?|?]; destruct Hroom; [by left|right; lia]. }
  case_match; [|done]. handler_step E3 r3 s3 E3 E4.
  apply (call_edit_inv (ESetAttr path _ _ _)) in E3 as [(er & Her & _)|(_ & -> & _)]; [|done|apply Hw2|done].
  unfold edit_refused in Her. simpl in Her. repeat case_decide; try done.
  by eapply live_entry_tidy in Hm.
Qed.

(** C21: A refused call has changed nothing.  On a database that works and has room, whatever the
    kernel asks of the mount — well or badly formed, of a path that is there or not — an answer that is an errno
    leaves the entries, the contents, the clock, the feed, the pending signals and the
    announcements as they were. *)
Theorem serve_refused q s e s' :
  ready s → serve q s = (Errno e, s') → observable s' = observable s.
Proof.
  revert s e s'. change (clean (serve q)).
  destruct q; simpl; try apply clean_discard.
  - apply clean_quiet, quiet_Lookup.
  - apply clean_quiet, quiet_Readdir.
  - apply clean_quiet, quiet_Getattr.
  - apply clean_Setattr.
  - apply clean_quiet, quiet_Open.
  - apply clean_Create.
  - apply clean_Mkdir.
  - apply clean_remove.
  - apply clean_Rmdir.
  - apply clean_Rename.
  - apply clean_Flush.
Qed.

(** *** The invariant *)

(** The handler keeps the tree sound. *)
Definition keeps {A} (q : handler A) : Prop := ∀ s, sound s → sound (q s).2.

Lemma keeps_quiet {A} (q : handler A) : quiet q → keeps q.
Proof. intros Hq s Hs. unfold sound. by rewrite (observable_tbl _ _ (Hq s)). Qed.
Lemma keeps_bind {A B} (q : handler A) (k : A → handler B) :
  keeps q → (∀ a, keeps (k a)) → keeps (q ≫= k).
Proof.
  intros Hq Hk s Hs. unfold mbind, handler_bind. specialize (Hq s Hs). destruct (q s) as [[a|e|] s1]; simpl in *;
    [by apply Hk|done..].
Qed.
Lemma keeps_edit e : keeps (call (run_edit cfg e) errnoOf).
Proof.
  intros s Hs. unfold call. destruct (run_edit cfg e s) as [r s'] eqn:E.
  apply edit_sound in E; [|done]. by destruct r.
Qed.
#[local] Hint Resolve keeps_bind : mount.
#[local] Hint Extern 2 (keeps _) => solve [apply keeps_quiet; auto 10 with mount] : mount.
#[local] Hint Extern 1 (keeps (match ?x with _ => _ end)) => destruct x : mount.
#[local] Hint Extern 1 (keeps (call (PutFile _ ?p ?c ?m ?u ?g) _)) => apply (keeps_edit (EPutFile p c m u g)) : mount.
#[local] Hint Extern 1 (keeps (call (PutDir _ ?p ?m ?u ?g) _)) => apply (keeps_edit (EPutDir p m u g)) : mount.
#[local] Hint Extern 1 (keeps (call (SetAttr _ ?p ?m ?u ?g) _)) => apply (keeps_edit (ESetAttr p m u g)) : mount.
#[local] Hint Extern 1 (keeps (call (Delete _ ?p) _)) => apply (keeps_edit (EDelete p)) : mount.

Lemma keeps_serve q : keeps (serve q).
Proof.
  destruct q; simpl; unfold discard, Lookup, Readdir, Getattr, Setattr, set_size, Open, Create, Mkdir, Unlink,
    Rmdir, remove, Rename, rename_copy, Flush; auto 20 with mount.
Qed.

(** C22: The mount keeps the tree sound: whatever the kernel asks, in whatever order, and whatever fails
    while it is served, the store stays well formed and no path enters it that
    [SanitizePath] would refuse. *)
Theorem serve_sound qs s : sound s → sound (foldl (λ s q, (serve q s).2) s qs).
Proof. revert s. induction qs as [|q qs IH]; intros s Hs; [done|]. simpl. by apply IH, keeps_serve. Qed.
End facts.

(** ** A session on a concrete mount *)

Section session.
Import Demo.
#[local] Instance root_process : Process := {| euid := 0; egid := 0 |}.

(** The answer of a handler that is expected to succeed, and the node afterwards. *)
Definition answer {A} (d : A) (out : reply A * node) : A := match out.1 with Done a => a | _ => d end.

Definition no_handle : writeHandle := mkWriteHandle "" [] 0 0 0 false.
Definition created : reply (string * Attr * writeHandle) * node := Create cfg "" "f" 420 0 0 boot.
Definition opened : writeHandle := (answer ("", attrOf zero_meta, no_handle) created).2.
Definition written : writeHandle :=
  match Write cfg opened hello 0 with Done (h, _) => h | _ => no_handle end.

Definition chmod (mode : Z) : SetAttrIn := mkSetAttrIn None (Some mode) None None.
Definition ftruncate (size : Z) : SetAttrIn := mkSetAttrIn (Some size) None None None.
Definition mode_and_size (s : node) : Z * Z :=
  let m := (entry_at (tbl (db s)) "f").1 in (Mode m, Size m).

(** An open file forgets what is done to it.  The handle keeps the attributes of the moment it was
    opened and a buffer that Setattr does not consult: a file is created with mode 0644,
    written, made private with fchmod 0600 and closed — and has mode 0644 again; and a file
    truncated through its open descriptor gets its old bytes back when it is closed. *)
Theorem open_file_forgets :
  let private := (Setattr cfg "f" (Some (WriteHandle written)) (chmod 384) created.2).2 in
  let emptied := (Setattr cfg "f" (Some (WriteHandle written)) (ftruncate 0) created.2).2 in
  mode_and_size private = (384, 0) ∧ mode_and_size (Flush cfg written private).2 = (420, 5) ∧
  mode_and_size emptied = (420, 0) ∧ mode_and_size (Flush cfg written emptied).2 = (420, 5).
Proof. by vm_compute. Qed.

Lemma Write_pwrite_witness :
  ∃ buf, Write cfg opened hello 2 = Done (mkWriteHandle "f" buf 420 0 0 true, 5).
Proof.
  destruct (Write_pwrite cfg opened hello 2) as (buf & E & _); [done|by_compute|]. exists buf. exact E.
Defined.

Lemma ready_boot : ready boot.
Proof.
  split; [apply wf_boot| |apply room; by_compute]. intros p r. simpl. by rewrite lookup_empty.
Qed.

Definition flushed : node := (Flush cfg written boot).2.

Lemma sound_boot : sound boot.
Proof. split; apply ready_boot. Qed.

Lemma sound_flushed : sound flushed.
Proof.
  assert ((serve cfg (KFlush written) boot).2 = flushed) as E by (vm_compute; reflexivity).
  pose proof (keeps_serve cfg (KFlush written) boot sound_boot) as Hs.
  rewrite E in Hs. exact Hs.
Qed.

Lemma Flush_Open_witness : h_dirty (answer no_handle (Flush cfg written boot)) = false.
Proof.
  assert (collision_free (h_buf written) (tbl (db boot))) as Hc.
  { intros h b Hb. exfalso. change ((∅ : gmap string blobRow) !! h = Some b) in Hb.
    rewrite lookup_empty in Hb. discriminate Hb. }
  assert (h_dirty written = true) as Hd by (vm_compute; reflexivity).
  assert (Flush cfg written boot = (Done (answer no_handle (Flush cfg written boot)), flushed)) as E
    by (vm_compute; reflexivity).
  exact (proj1 (Flush_Open cfg written boot _ flushed wf_boot no_fault Hc Hd E)).
Defined.

Lemma Readdir_Lookup_witness :
  NoDup (de_Name <$> answer [] (Readdir "" flushed)) ∧
  de_Name <$> answer [] (Readdir "" flushed) = ["f"%string].
Proof.
  assert (Readdir "" flushed = (Done (answer [] (Readdir "" flushed)), (Readdir "" flushed).2)) as E1
    by (vm_compute; reflexivity).
  split; [|vm_compute; reflexivity].
  exact (proj1 (Readdir_Lookup "" "f" flushed _ _ (Lookup "" "f" flushed).1 (Lookup "" "f" flushed).2
    (proj1 (proj1 sound_flushed)) (proj2 sound_flushed) no_fault eq_refl E1 (surjective_pairing _))).
Defined.

Lemma serve_refused_witness :
  observable (serve cfg (KUnlink "" "absent") boot).2 = observable boot.
Proof.
  assert (serve cfg (KUnlink "" "absent") boot = (Errno ENOENT, (serve cfg (KUnlink "" "absent") boot).2)) as E
    by (vm_compute; reflexivity).
  exact (serve_refused cfg (KUnlink "" "absent") boot ENOENT _ ready_boot E).
Defined.

Lemma serve_sound_witness :
  sound (foldl (λ s q, (serve cfg q s).2) boot [KMkdir "" "d" 493 0 0; KCreate "d" "../x" 420 0 0]).
Proof. exact (serve_sound cfg _ boot sound_boot). Defined.

Lemma Rename_moves_witness :
  let s' := (Rename cfg "" "f" (Some "") "g" 0 flushed).2 in
  ¬ live (tbl (db s')) "f" ∧ Path (entry_at (tbl (db s')) "g").1 = "g"%string.
Proof.
  intros s'. split; [|vm_compute; reflexivity].
  set (m := (entry_at (tbl (db flushed)) "f").1).
  assert (live_entry (tbl (db flushed)) "f" m) as Hm by (split; vm_compute; reflexivity).
  assert (Valid (MKind m) = true) as Hk by (vm_compute; reflexivity).
  assert (Rename cfg "" "f" (Some "") "g" 0 flushed = (Done tt, s')) as E by (vm_compute; reflexivity).
  assert (child "" "f" ≠ child "" "g") as Hne by discriminate.
  exact (proj1 (Rename_moves cfg "" "f" "" "g" 0 flushed (Done tt) s' m (proj1 sound_flushed) Hm Hk Hne E)).
Defined.

(** Setattr hands [SanitizeMode] the kernel's mode, whose setuid bit is 04000 where Go's is bit 23:
    chmod u+s is answered with success and lost. *)
Example setuid_lost :
  SanitizeMode 2541 (* 04755 *) = 493 (* 0755 *) ∧
  a_Mode (answer (attrOf zero_meta) (Setattr cfg "f" None (chmod 2541) created.2)) = Z.lor S_IFREG 493.
Proof. by vm_compute. Qed.
End session.
