(* ===== verification/FileSystem.v ===== *)
(** * An abstract file system

    What a user of the mount may rely on, without the database, the clock, the feed or
    the hashes: a finite map from paths to files and folders, the effect of each request on it and its
    answer.  [FuseRefines] shows that the handlers of the mount implement it.

    Modification times, and the order in which a folder is listed, are left open. *)
From S2P Require Import Prelude GoStrings Clock Paths Crypto Entry Store Syncer Fuse FuseFacts.
From Stdlib Require Import Ascii Strings.Byte.

(** ** Objects *)

Inductive inode :=
  | File (data : bytes) (mode uid gid : Z)
  | Folder (mode uid gid : Z).

Abbreviation fsys := (gmap string inode).

Definition i_kind (i : inode) : Kind := match i with File _ _ _ _ => KindFile | Folder _ _ _ => KindDir end.
Definition i_mode (i : inode) : Z := match i with File _ mode _ _ | Folder mode _ _ => mode end.
Definition i_uid (i : inode) : Z := match i with File _ _ uid _ | Folder _ uid _ => uid end.
Definition i_gid (i : inode) : Z := match i with File _ _ _ gid | Folder _ _ gid => gid end.
Definition i_size (i : inode) : Z :=
  match i with File data _ _ _ => Z.of_nat (length data) | Folder _ _ _ => 0 end.
Definition set_attrs (mode uid gid : Z) (i : inode) : inode :=
  match i with File data _ _ _ => File data mode uid gid | Folder _ _ _ => Folder mode uid gid end.

(** What stat reports, at any modification time. *)
Definition stat_of (p : string) (i : inode) (time : Z) : Attr :=
  mkAttr (inoOf p) (wrapU64 (i_size i)) (Z.lor (i_mode i) (type_bits (i_kind i))) (i_uid i) (i_gid i)
    time (if i_kind i =? KindDir then 2 else 1) (wrapU64 (Z.quot (wrap64 (i_size i + 511)) 512)).

(** A file cut, or filled with zeros, to a size. *)
Definition resize (size : nat) (data : bytes) : bytes :=
  take size data ++ replicate (size - length data) "000"%byte.

(** ** Answers *)

Inductive outcome :=
  | Fails (e : errno)
  | Succeeds
  | Stat (p : string) (i : inode)        (* the attributes of an object *)
  | Found (p : string) (i : inode)       (* the same, with the inode that stands for it *)
  | Attributes (a : Attr)                (* of what is no object: the root, an open file *)
  | Listing (at_ : string → option (string * inode))   (* the objects by name *)
  | Opened (h : handle)
  | Created (p : string) (i : inode) (h : writeHandle).

(** ** Requests *)

Section spec.
Context `{Process} (cfg : Config).
Implicit Types F : fsys.

Definition fails (e : errno) F : outcome * fsys := (Fails e, F).

(** The object a name of a folder stands for. *)
Definition named F (dir name : string) : option (string * inode) :=
  if String.eqb name EmptyString || Str.has_char slash name then None
  else (λ i, (child dir name, i)) <$> F !! child dir name.

Definition nonempty F (p : string) : bool :=
  bool_decide (map_Exists (λ q (_ : inode), Str.has_prefix (p +:+ "/") q = true) F).

(** Puts an object at a path, unless the path is malformed or the content too large. *)
Definition put (p : string) (i : inode) (ok : outcome) F : outcome * fsys :=
  if decide (canonical p) then
    if i_size i >? MaxFileSize cfg then fails EFBIG F else (ok, <[p := i]> F)
  else fails EINVAL F.

(** A file replaced by one of another size; a folder has none. *)
Definition resized (size : option Z) (i : inode) : inode :=
  match size, i with
  | Some n, File data mode uid gid => File (resize (Z.to_nat n) data) mode uid gid
  | _, _ => i
  end.

Definition with_in (in_ : SetAttrIn) (i : inode) : inode :=
  set_attrs (default (i_mode i) (SanitizeMode <$> in_Mode in_))
    (default (i_uid i) (in_UID in_)) (default (i_gid i) (in_GID in_)) i.

(** A folder holds no bytes, so putting one is never refused for its size. *)
Definition put_folder (p : string) (i : inode) (ok : outcome) F : outcome * fsys :=
  if decide (canonical p) then (ok, <[p := i]> F) else fails EINVAL F.

Definition fs_remove (p : string) (kind : Kind) F : outcome * fsys :=
  match F !! p with
  | None => fails ENOENT F
  | Some i =>
      if i_kind i =? kind then (Succeeds, delete p F)
      else fails (if kind =? KindFile then EISDIR else ENOTDIR) F
  end.

Definition fs_rename (from to : string) F : outcome * fsys :=
  if decide (canonical to) then
    match F !! from with
    | None => fails ENOENT F
    | Some (Folder _ _ _ as i) =>
        if nonempty F from then fails ENOTEMPTY F else (Succeeds, delete from (<[to := i]> F))
    | Some (File data _ _ _ as i) =>
        if Z.of_nat (length data) >? MaxFileSize cfg then fails EFBIG F
        else (Succeeds, delete from (<[to := i]> F))
    end
  else fails EINVAL F.

(** Sizes above the limit are refused before anything is looked at but the kind. *)
Definition fs_setattr (path : string) (in_ : SetAttrIn) F : outcome * fsys :=
  if String.eqb path EmptyString then fails EPERM F
  else
    match F !! path with
    | None => fails ENOENT F
    | Some i =>
        let j := with_in in_ (resized (in_Size in_) i) in
        match in_Size in_, i with
        | Some n, File _ _ _ _ =>
            if n >? MaxFileSize cfg then fails EFBIG F else (Stat path j, <[path := j]> F)
        | _, _ => (Stat path j, <[path := j]> F)
        end
    end.

Definition fs_open (path : string) (flags : Z) F : outcome * fsys :=
  match F !! path with
  | None => fails ENOENT F
  | Some (Folder _ _ _) => fails EISDIR F
  | Some (File data mode uid gid) =>
      if Z.land flags O_ACCMODE_WRITE =? 0 then (Opened (ReadHandle data), F)
      else
        let buf := if Z.land flags O_TRUNC =? 0 then data else [] in
        (Opened (WriteHandle (mkWriteHandle path buf mode uid gid false)), F)
  end.

Definition fs_getattr (path : string) (f : option handle) F : outcome * fsys :=
  match f with
  | Some (WriteHandle h) =>
      (Attributes (mkAttr (inoOf (h_path h)) (Z.of_nat (length (h_buf h)))
         (Z.lor (h_mode h) S_IFREG) (h_uid h) (h_gid h) 0 1 0), F)
  | _ =>
      if String.eqb path EmptyString
      then (Attributes (mkAttr (inoOf EmptyString) 0 (Z.lor S_IFDIR 493) euid egid 0 2 0), F)
      else match F !! path with Some i => (Stat path i, F) | None => fails ENOENT F end
  end.

Definition fs_spec (q : kernel_request) F : outcome * fsys :=
  match q with
  | KLookup dir name =>
      let p := child dir name in
      match F !! p with Some i => (Found p i, F) | None => fails ENOENT F end
  | KReaddir dir => (Listing (named F dir), F)
  | KGetattr path f => fs_getattr path f F
  | KSetattr path _ in_ => fs_setattr path in_ F
  | KOpen path flags => fs_open path flags F
  | KCreate dir name mode uid gid =>
      let p := child dir name in
      let i := File [] (SanitizeMode mode) uid gid in
      put p i (Created p i (mkWriteHandle p [] (SanitizeMode mode) uid gid false)) F
  | KMkdir dir name mode uid gid =>
      let p := child dir name in
      let i := Folder (SanitizeMode mode) uid gid in
      put_folder p i (Stat p i) F
  | KUnlink dir name => fs_remove (child dir name) KindFile F
  | KRmdir dir name =>
      if nonempty F (child dir name) then fails ENOTEMPTY F else fs_remove (child dir name) KindDir F
  | KRename dir name target newName _ =>
      match target with
      | None => fails EXDEV F
      | Some tdir => fs_rename (child dir name) (child tdir newName) F
      end
  | KFlush h =>
      if h_dirty h then
        let i := File (h_buf h) (SanitizeMode (h_mode h)) (h_uid h) (h_gid h) in
        put (h_path h) i
          (Opened (WriteHandle (mkWriteHandle (h_path h) (h_buf h) (h_mode h) (h_uid h) (h_gid h) false))) F
      else (Opened (WriteHandle h), F)
  end.

(** The requests of a session in order, with their answers. *)
Fixpoint fs_session (qs : list kernel_request) F : list outcome * fsys :=
  match qs with
  | [] => ([], F)
  | q :: qs' =>
      let '(o, F1) := fs_spec q F in
      let '(os, F2) := fs_session qs' F1 in
      (o :: os, F2)
  end.
End spec.

(** ** Facts on resizing *)

Lemma resize_truncated size data : 0 ≤ size → truncated size data = resize (Z.to_nat size) data.
Proof.
  intros Hs. apply list_eq. intros i. rewrite (proj2 (truncated_spec size data Hs)). unfold resize.
  destruct (decide (i < length (take (Z.to_nat size) data))%nat) as [Hi|Hi]; rewrite length_take in Hi.
  - rewrite lookup_app_l by (rewrite length_take; lia). rewrite lookup_take_lt by lia.
    repeat case_decide; done || lia.
  - rewrite lookup_app_r, length_take by (rewrite length_take; lia). repeat case_decide; try lia.
    + by rewrite lookup_replicate_2 by lia.
    + rewrite lookup_ge_None_2; [done|]. rewrite length_replicate. lia.
Qed.

Lemma resize_length size data : length (resize size data) = size.
Proof. unfold resize. rewrite length_app, length_take, length_replicate. lia. Qed.
