(* ===== verification/FuseRefines.v ===== *)
(** * The mount implements the abstract file system

    [view] is the abstraction function: the live entries of the tables, with the bytes their
    hashes name.  Every handler of [Fuse] answers as [fs_spec] does and moves the view as
    [fs_spec] moves the file system ([serve_refines]), and so does every session. *)
From S2P Require Import Prelude GoStrings Clock Paths Crypto Entry Store StoreFacts Resolve Syncer SyncerFacts TreeFacts Fuse FuseFacts FileSystem.
From Stdlib Require Import Ascii Strings.Byte.

(** ** The abstraction function *)

Section view.
Context `{DBFaults, Sha256}.
Implicit Types (t : tables) (m : Meta) (p : string) (i : inode) (F : fsys).

Definition inode_of t m : inode :=
  if MKind m =? KindDir then Folder (Mode m) (UID m) (GID m)
  else File (default [] (b_Data <$> blobs t !! Hash m)) (Mode m) (UID m) (GID m).

Definition view t : fsys :=
  omap (λ r, if r_Deleted r then None else Some (inode_of t (meta r))) (entries t).

Lemma view_lookup t p i : view t !! p = Some i ↔ ∃ m, live_entry t p m ∧ inode_of t m = i.
Proof.
  unfold view, live_entry, entry_at. rewrite lookup_omap.
  destruct (entries t !! p) as [r|]; simpl; [|naive_solver].
  change (r_Deleted r) with (Deleted (meta r)).
  split.
  - destruct (Deleted (meta r)) eqn:Hd; [done|]. intros [= <-]. by exists (meta r).
  - intros (m & [[= <-] Hd] & <-). by rewrite Hd.
Qed.

Lemma view_live t p : is_Some (view t !! p) ↔ live t p.
Proof.
  split.
  - intros [i (m & Hm & _)%view_lookup]. by eapply live_entry_live.
  - intros Hl. unfold live in Hl. destruct (entry_at t p) as [m h] eqn:E. destruct Hl as [-> ?].
    exists (inode_of t m). apply view_lookup. by exists m.
Qed.

(** Entries as local edits make them: a sanitized mode, a size that is that of the content.  Entries
    of other nodes are taken as they come and need not be so. *)
Definition plain_entry t m : Prop :=
  SanitizeMode (Mode m) = Mode m ∧
  (MKind m = KindDir ∧ Size m = 0 ∨
   MKind m = KindFile ∧ ∃ b, blobs t !! Hash m = Some b ∧ Size m = Z.of_nat (length (b_Data b))).
Definition plain t : Prop := ∀ p m, live_entry t p m → plain_entry t m.

(** The entry stands for the object. *)
Record denotes p i m : Prop := {
  dn_path : Path m = p;
  dn_kind : MKind m = i_kind i;
  dn_mode : Mode m = i_mode i;
  dn_uid : UID m = i_uid i;
  dn_gid : GID m = i_gid i;
  dn_size : Size m = i_size i;
  dn_sane : SanitizeMode (i_mode i) = i_mode i;
  dn_hash : match i with File data _ _ _ => Hash m = HashContent data | _ => True end
}.

Lemma view_denotes t p m : wf_tables t → plain t → live_entry t p m → denotes p (inode_of t m) m.
Proof.
  intros Hw Hp Hm. destruct (Hp _ _ Hm) as [Hmode Hk]. pose proof (live_entry_path _ _ _ Hw Hm).
  unfold inode_of. destruct Hk as [[Hk Hs]|(Hk & b & Hb & Hs)]; rewrite Hk; simpl.
  - by split.
  - rewrite Hb. split; try done. simpl. by destruct (wf_blob _ Hw _ _ Hb) as (_ & -> & _).
Qed.

(** What stat reports of an entry does not depend on its hash. *)
Definition looks p i m : Prop :=
  Path m = p ∧ MKind m = i_kind i ∧ Mode m = i_mode i ∧ UID m = i_uid i ∧ GID m = i_gid i ∧ Size m = i_size i.

Lemma denotes_looks p i m : denotes p i m → looks p i m.
Proof. by intros [? ? ? ? ? ? _ _]. Qed.

Lemma looks_stat p i m : looks p i m → ∃ time, attrOf m = stat_of p i time.
Proof.
  intros (Hp & Hk & Hm & Hu & Hg & Hs). eexists. unfold attrOf, stat_of. by rewrite Hp, Hk, Hm, Hu, Hg, Hs.
Qed.
Lemma attrOf_stat p i m : denotes p i m → ∃ time, attrOf m = stat_of p i time.
Proof. intros ?%denotes_looks. by apply looks_stat. Qed.
Lemma stableOf_stat p i m : denotes p i m → stableOf m = mkStable (type_bits (i_kind i)) (inoOf p).
Proof. intros [Hp Hk _ _ _ _ _ _]. unfold stableOf. by rewrite Hp, Hk. Qed.

(** The view depends on live entries and their contents. *)
Lemma inode_of_blobs t t' m :
  plain_entry t m → (∀ h b, blobs t !! h = Some b → blobs t' !! h = Some b) →
  inode_of t' m = inode_of t m ∧ plain_entry t' m.
Proof.
  intros [Hmode Hk] Hb. unfold inode_of, plain_entry. destruct Hk as [[Hk Hs]|(Hk & b & Hb' & Hs)]; rewrite Hk; simpl.
  - auto.
  - rewrite Hb', (Hb _ _ Hb'). eauto 10.
Qed.
End view.

(** ** Edits on the view *)

Section edits.
Context `{DBFaults, Sha256, !Sha256Laws, SystemTime} (cfg : Config).
Implicit Types (t : tables) (s : node) (m : Meta) (p : string) (i : inode) (F : fsys).

Definition fs_edit (e : edit) F : fsys :=
  match e with
  | EPutFile p content mode uid gid => <[p := File content (SanitizeMode mode) uid gid]> F
  | EPutDir p mode uid gid => <[p := Folder (SanitizeMode mode) uid gid]> F
  | ESetAttr p mode uid gid => alter (set_attrs (SanitizeMode mode) uid gid) p F
  | EDelete p => delete p F
  end.

Lemma fs_edit_ne e p F : p ≠ edit_path e → fs_edit e F !! p = F !! p.
Proof. intros. destruct e; simpl in *; by simplify_map_eq. Qed.

(** Contents are only added. *)
Lemma edit_blobs e s s' h b :
  wf_tables (tbl (db s)) → run_edit cfg e s = (Ok tt, s') →
  blobs (tbl (db s)) !! h = Some b → blobs (tbl (db s')) !! h = Some b.
Proof.
  intros Hw E Hb. apply run_edit_inv in E; [|done]. unfold edit_outcome in E.
  destruct (edit_refused cfg e _); [by destruct E as [[?|[? _]] _]|].
  destruct E as [(_ & _ & [= -> _ _ _ _])|[(_ & _ & [-> _ _ _ _])|(? & _)]]; [done| |done].
  rewrite (proj1 (applied_other _ _)). unfold stored. destruct (edit_content e) as [c|]; [|done].
  unfold with_blob. case_match; [done|]. simpl. rewrite lookup_insert_ne; [done|]. congruence.
Qed.

(** The content of a put file, by its hash. *)
Lemma put_file_content p c mode uid gid s s' :
  wf_store (tbl (db s)) → collision_free c (tbl (db s)) → PutFile cfg p c mode uid gid s = (Ok tt, s') →
  ∃ b, blobs (tbl (db s')) !! HashContent c = Some b ∧ b_Data b = c.
Proof.
  intros Hw Hcol E. set (e := EPutFile p c mode uid gid). change (run_edit cfg e s = (Ok tt, s')) in E.
  destruct (edit_settled _ _ _ Hw E) as ([Hw' Hcl] & _ & Hn). apply run_edit_inv in E; [|apply Hw].
  pose proof (collision_free_edit cfg e _ _ c E eq_refl (proj1 Hw) Hcol) as Hcol'.
  simpl in Hn. unfold holds_file, entry_at in Hn. destruct (entries (tbl (db s')) !! p) as [r|] eqn:Er;
    [|by destruct Hn].
  destruct Hn as (_ & Hd & Hk & Hh & _). destruct (Hcl p r Er Hd Hk) as [b Hb].
  { change (r_Hash r) with (Hash (meta r)). rewrite Hh. apply HashContent_nonempty. }
  change (r_Hash r) with (Hash (meta r)) in Hb. rewrite Hh in Hb. exists b. split; [done|].
  apply (Hcol' _ _ Hb), HashContent_inj. by apply (wf_blob _ Hw').
Qed.

(** What an edit that succeeded left at its path, in full. *)
Definition edit_left (e : edit) t t' : Prop :=
  match e with
  | EPutFile p c mode uid gid => ∃ m, live_entry t' p m ∧ MKind m = KindFile ∧ Hash m = HashContent c ∧
      same_attrs m (SanitizeMode mode) uid gid ∧ Size m = Z.of_nat (length c)
  | EPutDir p mode uid gid => ∃ m, live_entry t' p m ∧ MKind m = KindDir ∧
      same_attrs m (SanitizeMode mode) uid gid ∧ Size m = 0
  | ESetAttr p mode uid gid => ∃ m m', live_entry t p m ∧ live_entry t' p m' ∧ MKind m' = MKind m ∧
      Hash m' = Hash m ∧ same_attrs m' (SanitizeMode mode) uid gid ∧ Size m' = Size m
  | EDelete p => ¬ live t' p
  end.

Lemma edit_leaves e s s' :
  wf_store (tbl (db s)) → plain (tbl (db s)) → (∀ c, edit_content e = Some c → collision_free c (tbl (db s))) →
  run_edit cfg e s = (Ok tt, s') → edit_left e (tbl (db s)) (tbl (db s')).
Proof.
  intros Hw Hp Hcol E. destruct (edit_settled _ _ _ Hw E) as (_ & _ & Hn).
  assert (∀ p m, live_entry (tbl (db s')) p m → tbl (db s') = tbl (db s) → plain_entry (tbl (db s)) m) as Hsize.
  { intros p m Hm Ht. rewrite Ht in Hm. by eapply Hp. }
  pose proof E as Ho%run_edit_inv; [|apply Hw]. unfold edit_outcome in Ho.
  destruct (edit_refused cfg e (tbl (db s))) eqn:Hr; [by destruct Ho as [[?|[? _]] _]|].
  assert (tbl (db s') = tbl (db s) ∨ entry_at (tbl (db s')) (edit_path e) =
    (with_Seq (local_seq (tbl (db s)) + 1) (edit_entry cfg e s (clock s')), true)) as [Ht|He].
  { destruct Ho as [(_ & _ & [= ? _ _ _ _])|[(_ & _ & W%wrote_entry)|(? & _)]]; [by left| |done].
    rewrite edit_entry_path in W. by right. }
  - destruct e as [p c mode uid gid|p mode uid gid|p mode uid gid|p]; simpl in *; unfold holds_file, holds_dir, live in *.
    + destruct (entry_at (tbl (db s')) p) as [m h] eqn:Em. destruct Hn as (-> & Hd & Hk & Hh & Ha).
      destruct (put_file_content p c mode uid gid s s' Hw (Hcol _ eq_refl) E) as (b & Hb & Hc).
      assert (live_entry (tbl (db s')) p m) as Hm by done. exists m. split_and!; [done..|].
      destruct (Hsize p m Hm Ht) as [_ [[Hf _]|(_ & b' & Hb' & ->)]]; [by rewrite Hk in Hf|].
      rewrite <- Ht, Hh, Hb in Hb'. injection Hb' as <-. by rewrite Hc.
    + destruct (entry_at (tbl (db s')) p) as [m h] eqn:Em. destruct Hn as (-> & Hd & Hk & Ha).
      assert (live_entry (tbl (db s')) p m) as Hm by done. exists m. split_and!; [done..|].
      destruct (Hsize p m Hm Ht) as [_ [[_ ?]|(Hf & _)]]; [done|]. by rewrite Hk in Hf.
    + destruct Hn as [Hl Ha]. destruct (entry_at (tbl (db s')) p) as [m h] eqn:Em. destruct Hl as [-> Hd].
      exists m, m. rewrite <- Ht. by unfold live_entry.
    + done.
  - unfold edit_left. destruct e as [p c mode uid gid|p mode uid gid|p mode uid gid|p]; simpl in He; [| | |exact Hn].
    + eexists. split; [split; [exact He|done]|]. done.
    + eexists. split; [split; [exact He|done]|]. done.
    + assert (live (tbl (db s)) p) as Hl.
      { unfold edit_refused in Hr. simpl in Hr. by repeat case_decide. }
      unfold live in Hl. destruct (entry_at (tbl (db s)) p) as [m h] eqn:Em. destruct Hl as [-> Hd].
      exists m. eexists. split; [done|]. split; [split; [exact He|done]|]. done.
Qed.

(** An edit moves the view as it says. *)
Lemma edit_view e s s' :
  wf_store (tbl (db s)) → plain (tbl (db s)) → (∀ c, edit_content e = Some c → collision_free c (tbl (db s))) →
  run_edit cfg e s = (Ok tt, s') →
  plain (tbl (db s')) ∧ view (tbl (db s')) = fs_edit e (view (tbl (db s))).
Proof.
  intros Hw Hp Hcol E. pose proof (edit_leaves e s s' Hw Hp Hcol E) as Hleft.
  pose proof (λ h b, edit_blobs e s s' h b (proj1 Hw) E) as Hb.
  pose proof (edit_frame _ _ _ _ Hw E) as (_ & Hfr & _).
  assert (∀ p m, p ≠ edit_path e → live_entry (tbl (db s')) p m ↔ live_entry (tbl (db s)) p m) as Hoth.
  { intros p m Hne. unfold live_entry, entry_at. by rewrite Hfr. }
  assert (∀ p m, live_entry (tbl (db s)) p m →
    inode_of (tbl (db s')) m = inode_of (tbl (db s)) m ∧ plain_entry (tbl (db s')) m) as Hkeep.
  { intros p m Hm. apply inode_of_blobs; [by eapply Hp|exact Hb]. }
  assert ((∀ m, live_entry (tbl (db s')) (edit_path e) m → plain_entry (tbl (db s')) m) ∧
    view (tbl (db s')) !! edit_path e = fs_edit e (view (tbl (db s))) !! edit_path e) as [Hhere Hview].
  { pose proof (λ m m', live_entry_fun (tbl (db s')) (edit_path e) m m') as Hfun.
    destruct e as [p c mode uid gid|p mode uid gid|p mode uid gid|p]; simpl in *.
    - destruct Hleft as (m & Hm & Hk & Hh & (Hmo & Hu & Hg) & Hs). rewrite lookup_insert_eq.
      destruct (put_file_content p c mode uid gid s s' Hw (Hcol _ eq_refl) E) as (b & Hbb & Hc). split.
      + intros m' Hm'. rewrite <- (Hfun _ _ Hm Hm'). split; [by rewrite Hmo, (proj1 (SanitizeMode_spec _))|].
        right. split; [done|]. exists b. by rewrite Hh, Hc.
      + apply view_lookup. exists m. split; [done|]. unfold inode_of. rewrite Hk, Hh, Hbb. simpl. congruence.
    - destruct Hleft as (m & Hm & Hk & (Hmo & Hu & Hg) & Hs). rewrite lookup_insert_eq. split.
      + intros m' Hm'. rewrite <- (Hfun _ _ Hm Hm'). split; [by rewrite Hmo, (proj1 (SanitizeMode_spec _))|]. by left.
      + apply view_lookup. exists m. split; [done|]. unfold inode_of. rewrite Hk. simpl. congruence.
    - destruct Hleft as (m & m' & Hm & Hm' & Hk & Hh & (Hmo & Hu & Hg) & Hs). rewrite lookup_alter_eq.
      destruct (Hkeep _ _ Hm) as [Hi [_ Hpl]]. split.
      + intros m2 Hm2. rewrite <- (Hfun _ _ Hm' Hm2). split; [by rewrite Hmo, (proj1 (SanitizeMode_spec _))|].
        by rewrite Hk, Hh, Hs.
      + rewrite (proj2 (view_lookup _ p _) (ex_intro _ m (conj Hm eq_refl))). simpl. apply view_lookup.
        exists m'. split; [done|]. rewrite <- Hi. unfold inode_of. rewrite Hk, Hh.
        destruct (MKind m =? KindDir); simpl; congruence.
    - rewrite lookup_delete_eq. split; [intros m Hm; by destruct (not_live_entry _ _ Hleft m)|].
      apply eq_None_not_Some. by rewrite view_live. }
  split.
  - intros p m Hm. destruct (decide (p = edit_path e)) as [->|Hne]; [by apply Hhere|].
    apply Hoth in Hm; [|done]. by eapply Hkeep.
  - apply map_eq. intros p. destruct (decide (p = edit_path e)) as [->|Hne]; [done|].
    rewrite fs_edit_ne by done. apply option_eq. intros i. rewrite !view_lookup.
    split; intros (m & Hm & <-); exists m; pose proof Hm as Hm2; apply Hoth in Hm2; try done; split; try done;
      by destruct (Hkeep p m).
Qed.
End edits.

(** ** Answers *)

Inductive value :=
  | VDone
  | VAttr (a : Attr)
  | VFound (p : string) (a : Attr) (st : StableAttr)
  | VMade (p : string) (a : Attr)
  | VNames (l : list DirEntry)
  | VHandle (h : handle)
  | VCreated (p : string) (a : Attr) (h : writeHandle).

Definition tag {A} (f : A → value) (q : handler A) : handler value := a ← q; mret (f a).

(** The handler of a request, with its answer. *)
Definition answered `{DBFaults, Sha256, SystemTime, Process} (cfg : Config) (q : kernel_request) : handler value :=
  match q with
  | KLookup dir name => tag (λ '(p, a, st), VFound p a st) (Lookup dir name)
  | KReaddir dir => tag VNames (Readdir dir)
  | KGetattr path f => tag VAttr (Getattr path f)
  | KSetattr path f in_ => tag VAttr (Setattr cfg path f in_)
  | KOpen path flags => tag VHandle (Fuse.Open path flags)
  | KCreate dir name mode uid gid => tag (λ '(p, a, h), VCreated p a h) (Create cfg dir name mode uid gid)
  | KMkdir dir name mode uid gid => tag (λ '(p, a), VMade p a) (Mkdir cfg dir name mode uid gid)
  | KUnlink dir name => tag (λ _, VDone) (Unlink cfg dir name)
  | KRmdir dir name => tag (λ _, VDone) (Rmdir cfg dir name)
  | KRename dir name target newName flags => tag (λ _, VDone) (Rename cfg dir name target newName flags)
  | KFlush h => tag (λ h', VHandle (WriteHandle h')) (Flush cfg h)
  end.

(** A listing gives every object once, with its type and number. *)
Definition lists (at_ : string → option (string * inode)) (l : list DirEntry) : Prop :=
  NoDup (de_Name <$> l) ∧
  ∀ e, e ∈ l ↔ ∃ p i, at_ (de_Name e) = Some (p, i) ∧ de_Mode e = type_bits (i_kind i) ∧ de_Ino e = inoOf p.

(** The answer to the kernel is the outcome, at some modification time. *)
Definition shows (o : outcome) (r : reply value) : Prop :=
  match o, r with
  | Fails e, Errno e' => e = e'
  | Succeeds, Done VDone => True
  | Stat p i, Done (VAttr a) => ∃ time, a = stat_of p i time
  | Stat p i, Done (VMade p' a) => p' = p ∧ ∃ time, a = stat_of p i time
  | Found p i, Done (VFound p' a st) =>
      p' = p ∧ st = mkStable (type_bits (i_kind i)) (inoOf p) ∧ ∃ time, a = stat_of p i time
  | Attributes a, Done (VAttr a') => a' = a
  | Listing at_, Done (VNames l) => lists at_ l
  | Opened h, Done (VHandle h') => h' = h
  | Created p i h, Done (VCreated p' a h') => p' = p ∧ h' = h ∧ ∃ time, a = stat_of p i time
  | _, _ => False
  end.

(** ** The simulation relation *)

Section refines.
Context `{DBFaults, Sha256, !Sha256Laws, SystemTime, Process} (cfg : Config).
Implicit Types (t : tables) (s : node) (m : Meta) (p : string) (i : inode) (F : fsys).

(** The node shows the file system, and [n] more edits fit into its feed. *)
Record sim (n : nat) s F : Prop := {
  sim_sound : sound s;
  sim_plain : plain (tbl (db s));
  sim_room : ¬ no_room n s;
  sim_view : view (tbl (db s)) = F
}.

Lemma sim_quiet n s s' F : observable s' = observable s → sim n s F → sim n s' F.
Proof.
  intros Ho [Hs Hp Hr Hv]. pose proof (observable_tbl _ _ Ho) as Ht.
  split; [by eapply sound_quiet|by rewrite Ht..| |by rewrite Ht]. unfold no_room in *. by rewrite Ht.
Qed.

Lemma sim_less n s F : sim (S n) s F → sim n s F.
Proof. intros [Hs Hp Hr Hv]. split; try done. intros [?|?]; apply Hr; [by left|right; lia]. Qed.

Lemma sim_wf n s F : sim n s F → wf_tables (tbl (db s)).
Proof. intros [[[? _] _] _ _ _]. done. Qed.

Lemma sim_canonical n s F p : sim n s F → is_Some (F !! p) → canonical p.
Proof.
  intros [[_ Ht] _ _ <-] [i (m & Hm & _)%view_lookup]. by eapply live_entry_tidy.
Qed.

(** *** Reading *)

Lemma sim_get_live n s F p r s' :
  sim n s F → get_live p s = (r, s') → sim n s' F ∧
  match F !! p with Some i => ∃ m, r = Done m ∧ denotes p i m | None => r = Errno ENOENT end.
Proof.
  intros Hs E. apply get_live_inv in E as [Ho E]. split; [by eapply sim_quiet|].
  pose proof (no_room_fault _ _ (sim_room _ _ _ Hs)) as Hf. pose proof (sim_wf _ _ _ Hs) as Hw.
  destruct Hs as [_ Hp _ <-]. destruct E as [(m & -> & Hm)|[-> Hl]].
  - rewrite (proj2 (view_lookup _ p _) (ex_intro _ m (conj Hm eq_refl))). exists m. split; [done|].
    by apply view_denotes.
  - destruct Hl as [Hl|?]; [|done]. destruct (view _ !! p) eqn:E; [|done]. destruct Hl. apply view_live. by rewrite E.
Qed.

Lemma sim_get n s F p i r s' :
  sim n s F → F !! p = Some i → call (Get p) (λ _, EIO) s = (r, s') →
  sim n s' F ∧ ∃ m, r = Done m ∧ denotes p i m.
Proof.
  intros Hs Hi (r0 & E & ->)%call_inv. apply Get_entry in E as [Ho E]. split; [by eapply sim_quiet|].
  pose proof (no_room_fault _ _ (sim_room _ _ _ Hs)) as Hf. pose proof (sim_wf _ _ _ Hs) as Hw.
  destruct Hs as [_ Hp _ <-]. apply view_lookup in Hi as (m & Hm & <-).
  pose proof (view_denotes _ _ _ Hw Hp Hm). destruct Hm as [Em _].
  destruct E as [[_ ?]|[(m' & -> & Em')|[_ Em']]]; [done| |congruence]. exists m'. split; [done|]. congruence.
Qed.

Lemma sim_content n s F p data mode uid gid m r s' :
  sim n s F → F !! p = Some (File data mode uid gid) → Hash m = HashContent data →
  call (Content (Hash m)) (λ _, EIO) s = (r, s') → sim n s' F ∧ r = Done data.
Proof.
  intros Hs Hi Hh E. apply call_inv in E as (r0 & E & ->).
  pose proof (sim_wf _ _ _ Hs) as Hw. pose proof (no_room_fault _ _ (sim_room _ _ _ Hs)) as Hf.
  apply Content_inv in E as [Ho E]; [|done]. split; [by eapply sim_quiet|].
  destruct Hs as [_ Hp _ <-]. apply view_lookup in Hi as (m' & Hm' & Hi).
  destruct (Hp _ _ Hm') as [_ [[Hk _]|(Hk & b & Hb & _)]]; unfold inode_of in Hi; rewrite Hk in Hi; [done|].
  rewrite Hb in Hi. simpl in Hi. injection Hi as <- _ _ _. rewrite Hh in E.
  destruct (wf_blob _ Hw _ _ Hb) as (_ & Hhb & _). rewrite Hhb, Hb in E.
  destruct E as [[_ ?]|[[_ ?]|(b' & -> & Hb' & _)]]; [done..|]. by injection Hb' as ->.
Qed.

(** The contents of the tree collide with none of their own. *)
Lemma own_content_free n s F p data mode uid gid :
  sim n s F → F !! p = Some (File data mode uid gid) → collision_free data (tbl (db s)).
Proof.
  intros Hs Hi. pose proof (sim_wf _ _ _ Hs) as Hw. destruct Hs as [_ Hp _ <-].
  apply view_lookup in Hi as (m & Hm & Hi).
  destruct (Hp _ _ Hm) as [_ [[Hk _]|(Hk & b & Hb & _)]]; unfold inode_of in Hi; rewrite Hk in Hi; [done|].
  rewrite Hb in Hi. simpl in Hi. injection Hi as <- _ _ _. intros h b' Hb' Hc.
  apply HashContent_inj in Hc. destruct (wf_blob _ Hw _ _ Hb) as (_ & E & _).
  destruct (wf_blob _ Hw _ _ Hb') as (_ & E' & _). assert (h = Hash m) as -> by congruence. congruence.
Qed.

Lemma sim_live n s F r s' :
  sim n s F → call Live (λ _, EIO) s = (r, s') →
  sim n s' F ∧ r = Done (select_live (tbl (db s))).
Proof.
  intros Hs (r0 & E & ->)%call_inv. apply Live_inv in E as [Ho E]. split; [by eapply sim_quiet|].
  destruct E as [[_ ?]| ->]; [|done]. by destruct (no_room_fault _ _ (sim_room _ _ _ Hs)).
Qed.

Lemma sim_select_live n s F p :
  sim n s F → (∃ m, m ∈ select_live (tbl (db s)) ∧ Path m = p) ↔ is_Some (F !! p).
Proof.
  intros Hs. pose proof (sim_wf _ _ _ Hs) as Hw. destruct Hs as [_ _ _ <-]. rewrite view_live. split.
  - intros (m & Hm%elem_of_live & <-); [|done]. by eapply live_entry_live.
  - intros Hl%view_live. destruct Hl as [i (m & Hm & _)%view_lookup].
    pose proof (live_entry_path _ _ _ Hw Hm) as Hp. exists m. split; [|done]. apply elem_of_live; [done|]. by rewrite Hp.
Qed.

Lemma sim_children n s F p : sim n s F → has_children p (select_live (tbl (db s))) = nonempty F p.
Proof.
  intros Hs. apply eq_true_iff_eq. unfold has_children, nonempty. rewrite existsb_exists, bool_decide_eq_true.
  split.
  - intros (m & Hm%list_elem_of_In & Hp). destruct (proj1 (sim_select_live _ _ _ (Path m) Hs)) as [i Hi]; [by exists m|].
    by exists (Path m), i.
  - intros (q & i & Hi & Hp). destruct (proj2 (sim_select_live _ _ _ q Hs)) as (m & Hm & <-); [by exists i|].
    exists m. split; [by apply list_elem_of_In|done].
Qed.

(** *** Editing *)

Definition fs_refused (e : edit) F : option errno :=
  if decide (canonical (edit_path e)) then
    match e with
    | EPutFile _ content _ _ _ => if Z.of_nat (length content) >? MaxFileSize cfg then Some EFBIG else None
    | ESetAttr p _ _ _ => match F !! p with Some _ => None | None => Some ENOENT end
    | _ => None
    end
  else Some EINVAL.

Lemma fs_refused_spec e t : fs_refused e (view t) = errnoOf <$> edit_refused cfg e t.
Proof.
  unfold fs_refused, edit_refused. case_decide; [|done]. destruct e as [p c mode uid gid| |p mode uid gid|]; try done.
  - rewrite Z.gtb_ltb. case_decide; destruct (Z.ltb_spec (MaxFileSize cfg) (Z.of_nat (length c))); done || lia.
  - pose proof (view_live t p) as Hl. case_decide as Hd; destruct (view t !! p); try done.
    + by apply Hl in Hd as [? [=]].
    + destruct Hd. apply Hl. eauto.
Qed.

Lemma sim_edit n s F e r s' :
  sim (S n) s F → (∀ c, edit_content e = Some c → collision_free c (tbl (db s))) →
  call (run_edit cfg e) errnoOf s = (r, s') →
  match fs_refused e F with
  | Some err => r = Errno err ∧ sim n s' F
  | None => r = Done tt ∧ sim n s' (fs_edit e F)
  end.
Proof.
  intros Hs Hcol E. pose proof Hs as [Hsd Hp Hr <-]. pose proof (proj1 Hsd) as Hw. rewrite fs_refused_spec.
  apply call_edit_inv in E as [(err & -> & -> & Ho)|(-> & -> & E)]; simpl; [| |apply Hw|].
  - split; [done|]. eapply sim_quiet, sim_less; [exact Ho|exact Hs].
  - split; [done|]. destruct (edit_view cfg e s s' Hw Hp Hcol E) as [Hp' Hv].
    split; [by eapply edit_sound|done| |done].
    pose proof (edit_frame _ _ _ _ Hw E) as (Hseq & _). unfold no_room in *. intros [?|?]; apply Hr; [by left|right; lia].
  - intros [?|?]; apply Hr; [by left|right; lia].
Qed.

(** Edits without a content collide with nothing. *)
Lemma no_content e s : edit_content e = None → ∀ c, edit_content e = Some c → collision_free c (tbl (db s)).
Proof. congruence. Qed.

(** *** The requests *)

(** The bytes a request may store. *)
Definition stores (q : kernel_request) F : list bytes :=
  match q with
  | KFlush h => [h_buf h]
  | KCreate _ _ _ _ _ => [[]]
  | KSetattr path _ in_ =>
      match in_Size in_, F !! path with
      | Some n, Some (File data _ _ _) => [resize (Z.to_nat n) data]
      | _, _ => []
      end
  | _ => []
  end.

(** A request as the kernel makes it: a size is a file offset. *)
Definition wf_request (q : kernel_request) : Prop :=
  match q with
  | KSetattr _ _ in_ => match in_Size in_ with Some n => 0 ≤ n ≤ max_int64 | None => True end
  | _ => True
  end.

Definition admissible (q : kernel_request) s F : Prop :=
  wf_request q ∧ Forall (λ c, collision_free c (tbl (db s))) (stores q F).

Lemma tag_inv {A} (f : A → value) (q : handler A) s r s' :
  tag f q s = (r, s') →
  ∃ r0, q s = (r0, s') ∧ r = match r0 with Done a => Done (f a) | Errno e => Errno e | Crash => Crash end.
Proof.
  unfold tag. intros E. handler_step E r0 s1 E1 E2. exists r0.
  destruct r0; [by injection E2 as <- <-|by destruct E2 as [-> ->]..].
Qed.

(** The handler of a request implements its specification. *)
Definition implements (q : kernel_request) : Prop := ∀ n s F r s',
  sim (S (S n)) s F → admissible q s F → answered cfg q s = (r, s') →
  shows (fs_spec cfg q F).1 r ∧ sim n s' (fs_spec cfg q F).2.

#[local] Hint Resolve sim_less : mount.

Lemma Lookup_implements dir name : implements (KLookup dir name).
Proof.
  intros n s F r s' Hs _ (r0 & E & ->)%tag_inv. unfold Lookup in E. simpl. set (p := child dir name) in *.
  rewrite SanitizePath_eq in E. case_bool_decide as Hc.
  - handler_step E r1 s1 E1 E2. apply (sim_get_live _ _ _ _ _ _ Hs) in E1 as [Hs1 E1].
    destruct (F !! p) as [i|]; simpl.
    + destruct E1 as (m & -> & Hm). injection E2 as <- <-. simpl.
      split; [|by eauto with mount]. split_and!; [done|by apply stableOf_stat|by apply attrOf_stat].
    + subst r1. destruct E2 as [-> ->]. eauto with mount.
  - injection E as <- <-. destruct (F !! p) eqn:E; simpl; [|by eauto with mount].
    destruct Hc. eapply sim_canonical; [done|by eexists].
Qed.

Lemma Getattr_implements path f : implements (KGetattr path f).
Proof.
  intros n s F r s' Hs _ (r0 & E & ->)%tag_inv. simpl. unfold Getattr, fs_getattr in *.
  assert ((if String.eqb path EmptyString then mret (mkAttr (inoOf EmptyString) 0 (Z.lor S_IFDIR 493) euid egid 0 2 0)
           else m ← get_live path; mret (attrOf m)) s = (r0, s') →
    let out := if String.eqb path EmptyString
      then (Attributes (mkAttr (inoOf EmptyString) 0 (Z.lor S_IFDIR 493) euid egid 0 2 0), F)
      else match F !! path with Some i => (Stat path i, F) | None => fails ENOENT F end in
    shows out.1 (match r0 with Done a => Done (VAttr a) | Errno e => Errno e | Crash => Crash end) ∧ sim n s' out.2)
    as Hpath.
  { clear E. intros E. cbn zeta. destruct (String.eqb path EmptyString);
      [injection E as <- <-; simpl; by eauto with mount|].
    handler_step E r1 s1 E1 E2. apply (sim_get_live _ _ _ _ _ _ Hs) in E1 as [Hs1 E1].
    destruct (F !! path) as [i|]; simpl.
    - destruct E1 as (m & -> & Hm). injection E2 as <- <-. simpl. split; [by apply attrOf_stat|by eauto with mount].
    - subst r1. destruct E2 as [-> ->]. eauto with mount. }
  destruct f as [[|h]|]; [by apply Hpath| |by apply Hpath]. injection E as <- <-. simpl. eauto with mount.
Qed.

Lemma Open_implements path flags : implements (KOpen path flags).
Proof.
  intros n s F r s' Hs _ (r0 & E & ->)%tag_inv. simpl. unfold Fuse.Open, fs_open in *.
  handler_step E r1 s1 E1 E2. apply (sim_get_live _ _ _ _ _ _ Hs) in E1 as [Hs1 E1].
  destruct (F !! path) as [[data mode uid gid|mode uid gid]|] eqn:Ei.
  - destruct E1 as (m & -> & [_ Hk Hm Hu Hg _ _ Hh]). rewrite Hk in E2. simpl in *.
    destruct (Z.land flags O_ACCMODE_WRITE =? 0).
    + handler_step E2 r2 s2 E2 E3. apply (sim_content _ _ _ _ _ _ _ _ _ _ _ Hs1 Ei Hh) in E2 as [Hs2 ->].
      injection E3 as <- <-. simpl. eauto with mount.
    + destruct (Z.land flags O_TRUNC =? 0); handler_step E2 r2 s2 E2 E3.
      * apply (sim_content _ _ _ _ _ _ _ _ _ _ _ Hs1 Ei Hh) in E2 as [Hs2 ->].
        injection E3 as <- <-. simpl. rewrite Hm, Hu, Hg. eauto with mount.
      * injection E2 as <- <-. injection E3 as <- <-. simpl. rewrite Hm, Hu, Hg. eauto with mount.
  - destruct E1 as (m & -> & [_ Hk _ _ _ _ _ _]). rewrite Hk in E2. injection E2 as <- <-. simpl. eauto with mount.
  - subst r1. destruct E2 as [-> ->]. simpl. eauto with mount.
Qed.

Lemma sanitize_twice mode : SanitizeMode (SanitizeMode mode) = SanitizeMode mode.
Proof. apply SanitizeMode_spec. Qed.

Lemma admissible_free q s F c : admissible q s F → stores q F = [c] → collision_free c (tbl (db s)).
Proof. intros [_ Hc] E. rewrite E in Hc. by rewrite Forall_singleton in Hc. Qed.

(** Putting a file, then what follows. *)
Lemma sim_put_file {A} n s F p c mode uid gid (k : handler A) r s' :
  sim (S n) s F → canonical p → collision_free c (tbl (db s)) →
  (_ ← call (PutFile cfg p c mode uid gid) errnoOf; k) s = (r, s') →
  if Z.of_nat (length c) >? MaxFileSize cfg then r = Errno EFBIG ∧ sim n s' F
  else ∃ s1, sim n s1 (<[p := File c (SanitizeMode mode) uid gid]> F) ∧ k s1 = (r, s').
Proof.
  intros Hs Hc Hcol E. handler_step E r1 s1 E1 E2.
  apply (sim_edit n s F (EPutFile p c mode uid gid)) in E1; [|done|by intros ? [= <-]].
  unfold fs_refused in E1. simpl in E1. rewrite decide_True in E1 by done.
  destruct (_ >? _); destruct E1 as [-> Hs1]; [by destruct E2 as [-> ->]|]. by exists s1.
Qed.

Lemma sim_put_dir {A} n s F p mode uid gid (k : handler A) r s' :
  sim (S n) s F → canonical p →
  (_ ← call (PutDir cfg p mode uid gid) errnoOf; k) s = (r, s') →
  ∃ s1, sim n s1 (<[p := Folder (SanitizeMode mode) uid gid]> F) ∧ k s1 = (r, s').
Proof.
  intros Hs Hc E. handler_step E r1 s1 E1 E2.
  apply (sim_edit n s F (EPutDir p mode uid gid)) in E1; [|done|by apply no_content].
  unfold fs_refused in E1. simpl in E1. rewrite decide_True in E1 by done.
  destruct E1 as [-> Hs1]. by exists s1.
Qed.

(** Deleting, at the end. *)
Lemma sim_delete n s F p r s' :
  sim (S n) s F → canonical p → call (Delete cfg p) errnoOf s = (r, s') → r = Done tt ∧ sim n s' (delete p F).
Proof.
  intros Hs Hc E. apply (sim_edit n s F (EDelete p)) in E; [|done|by apply no_content].
  unfold fs_refused in E. simpl in E. by rewrite decide_True in E.
Qed.

Lemma Create_implements dir name mode uid gid : implements (KCreate dir name mode uid gid).
Proof.
  intros n s F r s' Hs Ha (r0 & E & ->)%tag_inv. unfold Create in E. simpl. set (p := child dir name) in *.
  unfold put. rewrite SanitizePath_eq in E. case_bool_decide as Hc.
  - rewrite decide_True by done. eapply sim_put_file in E; [|done..|by eapply (admissible_free (KCreate dir name mode uid gid))].
    cbn [i_size]. destruct (_ >? _); [destruct E as [-> ?]; simpl; by eauto with mount|].
    destruct E as (s1 & Hs1 & E). rewrite sanitize_twice in Hs1. handler_step E r1 s2 E1 E2.
    destruct (sim_get _ _ _ _ _ _ _ Hs1 (lookup_insert_eq _ _ _) E1) as (Hs2 & m & -> & Hm).
    injection E2 as <- <-. simpl. split; [|by eauto with mount]. split_and!; [done..|by apply attrOf_stat].
  - rewrite decide_False by done. injection E as <- <-. simpl. eauto with mount.
Qed.

Lemma Mkdir_implements dir name mode uid gid : implements (KMkdir dir name mode uid gid).
Proof.
  intros n s F r s' Hs Ha (r0 & E & ->)%tag_inv. unfold Mkdir in E. simpl. set (p := child dir name) in *.
  unfold put_folder. rewrite SanitizePath_eq in E. case_bool_decide as Hc.
  - rewrite decide_True by done. eapply sim_put_dir in E; [|done..].
    destruct E as (s1 & Hs1 & E). rewrite sanitize_twice in Hs1. handler_step E r1 s2 E1 E2.
    destruct (sim_get _ _ _ _ _ _ _ Hs1 (lookup_insert_eq _ _ _) E1) as (Hs2 & m & -> & Hm).
    injection E2 as <- <-. simpl. split; [|by eauto with mount]. split_and!; [done..|by apply attrOf_stat].
  - rewrite decide_False by done. injection E as <- <-. simpl. eauto with mount.
Qed.

Lemma Flush_implements h : implements (KFlush h).
Proof.
  intros n s F r s' Hs Ha (r0 & E & ->)%tag_inv. unfold Flush in E. simpl. unfold put.
  destruct (h_dirty h); simpl in *; [|injection E as <- <-; by eauto with mount].
  destruct (decide (canonical (h_path h))) as [Hc|Hc].
  - eapply sim_put_file in E; [|done..|by eapply (admissible_free (KFlush h))].
    cbn [i_size]. destruct (_ >? _); [destruct E as [-> ?]; simpl; by eauto with mount|].
    destruct E as (s1 & Hs1 & [= <- <-]). simpl. eauto with mount.
  - handler_step E r1 s1 E1 E2.
    apply (sim_edit (S n) s F (EPutFile (h_path h) (h_buf h) (h_mode h) (h_uid h) (h_gid h))) in E1; [|done|].
    2: { intros c [= <-]. by eapply (admissible_free (KFlush h)). }
    unfold fs_refused in E1. simpl in E1. rewrite decide_False in E1 by done.
    destruct E1 as [-> Hs1], E2 as [-> ->]. simpl. eauto with mount.
Qed.

Lemma remove_sim n dir name kind s F r s' :
  sim (S n) s F → (kind = KindFile ∨ kind = KindDir) → tag (λ _, VDone) (remove cfg dir name kind) s = (r, s') →
  shows (fs_remove (child dir name) kind F).1 r ∧ sim n s' (fs_remove (child dir name) kind F).2.
Proof.
  intros Hs Hkind (r0 & E & ->)%tag_inv. unfold remove, fs_remove in *. set (p := child dir name) in *.
  handler_step E r1 s1 E1 E2. apply (sim_get_live _ _ _ _ _ _ Hs) in E1 as [Hs1 E1].
  destruct (F !! p) as [i|] eqn:Ei; [|subst r1; destruct E2 as [-> ->]; simpl; by eauto with mount].
  destruct E1 as (m & -> & [_ Hk _ _ _ _ _ _]). rewrite Hk in E2.
  destruct (i_kind i =? kind); simpl in *.
  - apply (sim_delete _ _ _ _ _ _ Hs1) in E2 as [-> ?]; [done|]. eapply sim_canonical; [exact Hs|by eexists].
  - injection E2 as <- <-. simpl. by eauto with mount.
Qed.

Lemma Unlink_implements dir name : implements (KUnlink dir name).
Proof. intros n s F r s' Hs%sim_less _ E. eapply remove_sim in E; [exact E|done|by left]. Qed.

Lemma Rmdir_implements dir name : implements (KRmdir dir name).
Proof.
  intros n s F r s' Hs _ (r0 & E & ->)%tag_inv. simpl. unfold Rmdir in E. handler_step E r1 s1 E1 E2.
  pose proof (sim_children _ _ _ (child dir name) Hs) as Hn.
  apply (sim_live _ _ _ _ _ Hs) in E1 as [Hs1 ->]. rewrite Hn in E2.
  destruct (nonempty F (child dir name)); [injection E2 as <- <-; simpl; by eauto with mount|].
  apply sim_less in Hs1. eapply (remove_sim _ _ _ KindDir); [exact Hs1|by right|]. unfold tag, mbind, handler_bind.
  rewrite E2. by destruct r0.
Qed.

(** The copy a rename makes of a file is no larger than it was and collides with nothing. *)
Lemma rename_sim n from to s F r s' :
  sim (S (S n)) s F → canonical to →
  (m ← get_live from; _ ← rename_copy cfg from to m; call (Delete cfg from) errnoOf) s = (r, s') →
  shows (fs_rename cfg from to F).1 (match r with Done _ => Done VDone | Errno e => Errno e | Crash => Crash end) ∧
  sim n s' (fs_rename cfg from to F).2.
Proof.
  intros Hs Hc E. unfold fs_rename. rewrite decide_True by done.
  handler_step E r1 s1 E1 E2. apply (sim_get_live _ _ _ _ _ _ Hs) in E1 as [Hs1 E1].
  destruct (F !! from) as [i|] eqn:Ei; [|subst r1; destruct E2 as [-> ->]; simpl; by eauto with mount].
  destruct E1 as (m & -> & [_ Hk Hm Hu Hg _ Hsane Hh]). pose proof (sim_canonical _ _ _ _ Hs (ex_intro _ i Ei)) as Hcf.
  unfold rename_copy in E2. rewrite Hk in E2. destruct i as [data mode uid gid|mode uid gid]; simpl in *.
  - handler_step E2 r2 s2 E2 E3. handler_step E2 r3 s3 E2 E4.
    destruct (sim_content _ _ _ _ _ _ _ _ _ _ _ Hs1 Ei Hh E2) as [Hs3 ->].
    assert ((_ ← call (PutFile cfg to data (Mode m) (UID m) (GID m)) errnoOf; call (Delete cfg from) errnoOf) s3 = (r, s')) as E.
    { unfold mbind, handler_bind. rewrite E4. by destruct r2 as [|e|]; [|destruct E3 as [-> ->]..]. }
    apply (sim_put_file (S n) s3 F) in E; [|done..|by eapply own_content_free]. rewrite Hm, Hu, Hg, Hsane in E.
    destruct (_ >? _); [destruct E as [-> ?]; simpl; by eauto with mount|].
    destruct E as (s4 & Hs4 & E). apply (sim_delete _ _ _ _ _ _ Hs4 Hcf) in E as [-> ?]. done.
  - handler_step E2 r2 s2 E2 E3. handler_step E2 r3 s3 E2 E4. pose proof (sim_children _ _ _ from Hs1) as Hn.
    apply (sim_live _ _ _ _ _ Hs1) in E2 as [Hs3 ->]. rewrite Hn in E4.
    destruct (nonempty F from); [injection E4 as <- <-; destruct E3 as [-> ->]; simpl; by eauto with mount|].
    assert ((_ ← call (PutDir cfg to (Mode m) (UID m) (GID m)) errnoOf; call (Delete cfg from) errnoOf) s3 = (r, s')) as E.
    { unfold mbind, handler_bind. rewrite E4. by destruct r2 as [|e|]; [|destruct E3 as [-> ->]..]. }
    apply (sim_put_dir (S n) s3 F) in E; [|done..]. rewrite Hm, Hu, Hg, Hsane in E.
    destruct E as (s4 & Hs4 & E). apply (sim_delete _ _ _ _ _ _ Hs4 Hcf) in E as [-> ?]. done.
Qed.

Lemma Rename_implements dir name target newName flags : implements (KRename dir name target newName flags).
Proof.
  intros n s F r s' Hs _ (r0 & E & ->)%tag_inv. simpl. unfold Rename in E.
  destruct target as [tdir|]; [|injection E as <- <-; simpl; by eauto with mount].
  rewrite SanitizePath_eq in E. case_bool_decide as Hc.
  - apply (rename_sim n _ _ _ F) in E; done.
  - injection E as <- <-. unfold fs_rename. rewrite decide_False by done. simpl. eauto with mount.
Qed.

Lemma Readdir_implements dir : implements (KReaddir dir).
Proof.
  intros n s F r s' Hs _ (r0 & E & ->)%tag_inv. unfold Readdir in E. handler_step E r1 s1 E1 E2. simpl.
  destruct (sim_live _ _ _ _ _ Hs E1) as [Hs1 ->]. injection E2 as <- <-. simpl. split; [|by eauto with mount].
  pose proof (sim_wf _ _ _ Hs) as Hw. split; [by apply dir_entries_NoDup, select_live_NoDup|]. intros e.
  rewrite list_elem_of_omap. unfold named. destruct Hs as [_ Hp _ Hv]. split.
  - intros (m & Hm%elem_of_live & Ee); [|done]. apply dir_entry_Some in Ee as (Hpath & Hne & Hs & Hmode & Hino).
    rewrite (proj2 (String.eqb_neq _ _) Hne), Hs. simpl. pose proof (view_denotes _ _ _ Hw Hp Hm) as [_ Hk _ _ _ _ _ _].
    rewrite <- Hpath, <- Hv, (proj2 (view_lookup _ _ _) (ex_intro _ m (conj Hm eq_refl))). simpl.
    do 2 eexists. split; [done|]. by rewrite Hmode, Hino, Hk.
  - intros (p & i & E & Hmode & Hino). destruct (String.eqb_spec (de_Name e) EmptyString) as [?|Hne]; [done|].
    destruct (Str.has_char slash (de_Name e)) eqn:Hs; [done|]. simpl in E.
    destruct (F !! child dir (de_Name e)) as [i'|] eqn:Ei; [|done]. simpl in E. injection E as <- <-.
    rewrite <- Hv in Ei. apply view_lookup in Ei as (m & Hm & <-). pose proof (live_entry_path _ _ _ Hw Hm) as Hpath.
    exists m. split; [by apply elem_of_live; [done|rewrite Hpath]|]. apply dir_entry_Some.
    pose proof (view_denotes _ _ _ Hw Hp Hm) as [_ Hk _ _ _ _ _ _]. by rewrite Hk, Hpath.
Qed.

(** The first half of Setattr: the file resized. *)
Lemma set_size_sim n path f in_ i m s F r s' :
  sim (S (S n)) s F → admissible (KSetattr path f in_) s F → F !! path = Some i → denotes path i m →
  set_size cfg path in_ m s = (r, s') →
  let i1 := resized (in_Size in_) i in
  match in_Size in_, i with
  | Some size, File _ _ _ _ => if size >? MaxFileSize cfg then r = Errno EFBIG ∧ sim n s' F
      else ∃ m1, r = Done m1 ∧ looks path i1 m1 ∧ sim (S n) s' (<[path := i1]> F)
  | _, _ => r = Done m ∧ sim (S n) s' F
  end.
Proof.
  intros Hs Ha Hi [Hp Hk Hm Hu Hg Hsz Hsane Hh] E i1. unfold set_size in E.
  destruct (in_Size in_) as [size|] eqn:En; [|injection E as <- <-; split; [done|by apply sim_less]].
  pose proof (proj1 Ha) as Hn. simpl in Hn. rewrite En in Hn. rewrite Hk in E.
  destruct i as [data mode uid gid|mode uid gid]; simpl in *;
    [|injection E as <- <-; split; [done|by apply sim_less]].
  rewrite wrap64_id in E by (unfold is_int64, min_int64; lia).
  destruct (size >? MaxFileSize cfg) eqn:Emax; [injection E as <- <-; by eauto with mount|].
  handler_step E r1 s1 E1 E2. destruct (sim_content _ _ _ _ _ _ _ _ _ _ _ Hs Hi Hh E1) as [Hs1 ->].
  rewrite (proj2 (Z.ltb_ge max_int64 size)) in E2 by lia. simpl in E2. rewrite resize_truncated in E2 by lia.
  apply (sim_put_file (S n) s1 F) in E2; [|done|eapply sim_canonical; [exact Hs|by eexists]|].
  - rewrite resize_length, Z2Nat.id, Emax in E2 by lia. destruct E2 as (s2 & Hs2 & [= <- <-]).
    rewrite Hm, Hu, Hg, Hsane in Hs2. eexists. split; [done|]. split; [|done]. unfold looks. simpl.
    rewrite resize_length, Z2Nat.id by lia. done.
  - pose proof (observable_tbl s s1) as Ht. apply call_inv in E1 as (r0 & E1 & _).
    apply Content_inv in E1 as [Ho _]; [|by eapply sim_wf]. rewrite (Ht Ho). eapply admissible_free; [exact Ha|].
    simpl. by rewrite En, Hi.
Qed.

(** The second half: the attributes. *)
Lemma set_attrs_sim n path in_ i m s F r s' :
  sim (S n) s F → F !! path = Some i → looks path i m → SanitizeMode (i_mode i) = i_mode i →
  (let mode := match in_Mode in_ with Some v => SanitizeMode v | None => Mode m end in
   let uid := default (UID m) (in_UID in_) in
   let gid := default (GID m) (in_GID in_) in
   if negb (mode =? Mode m) || negb (uid =? UID m) || negb (gid =? GID m) then
     _ ← call (SetAttr cfg path mode uid gid) errnoOf;
     mret (attrOf (with_attrs mode uid gid m))
   else mret (attrOf m)) s = (r, s') →
  (∃ time, r = Done (stat_of path (with_in in_ i) time)) ∧ sim n s' (<[path := with_in in_ i]> F).
Proof.
  intros Hs Hi Hl Hsane. pose proof Hl as (Hp & Hk & Hm & Hu & Hg & Hsz). cbn zeta. unfold with_in.
  rewrite Hm, Hu, Hg.
  replace (match in_Mode in_ with Some v => SanitizeMode v | None => i_mode i end)
    with (default (i_mode i) (SanitizeMode <$> in_Mode in_)) by (by destruct (in_Mode in_)).
  assert (SanitizeMode (default (i_mode i) (SanitizeMode <$> in_Mode in_)) = default (i_mode i) (SanitizeMode <$> in_Mode in_))
    as Hmode by (destruct (in_Mode in_); [apply sanitize_twice|done]).
  generalize dependent (default (i_mode i) (SanitizeMode <$> in_Mode in_)). intros mode Hmode.
  generalize (default (i_uid i) (in_UID in_)), (default (i_gid i) (in_GID in_)). intros uid gid.
  destruct (negb (mode =? i_mode i) || negb (uid =? i_uid i) || negb (gid =? i_gid i)) eqn:Ec; intros E.
  - handler_step E r1 s1 E1 E2. apply (sim_edit n s F (ESetAttr path mode uid gid)) in E1; [|done|by apply no_content].
    unfold fs_refused in E1. simpl in E1.
    rewrite decide_True, Hi, Hmode in E1 by (eapply sim_canonical; [exact Hs|by eexists]).
    destruct E1 as [-> Hs1]. injection E2 as <- <-. split.
    + destruct (looks_stat path (set_attrs mode uid gid i) (with_attrs mode uid gid m)) as [time ->]; [|by eexists].
      destruct i; unfold looks; simpl in *; by rewrite ?Hp, ?Hk, ?Hsz.
    + assert (<[path := set_attrs mode uid gid i]> F = alter (set_attrs mode uid gid) path F) as ->; [|done].
      apply map_eq. intros q. destruct (decide (q = path)) as [->|]; [|by simplify_map_eq].
      by rewrite lookup_insert_eq, lookup_alter_eq, Hi.
  - apply orb_false_iff in Ec as [[Em Eu]%orb_false_iff Eg].
    apply negb_false_iff, Z.eqb_eq in Em, Eu, Eg. subst mode uid gid.
    replace (set_attrs _ _ _ i) with i by (by destruct i). injection E as <- <-. split.
    + destruct (looks_stat path i m Hl) as [time ->]. by eexists.
    + by rewrite insert_id by done; eauto with mount.
Qed.

Lemma Setattr_implements path f in_ : implements (KSetattr path f in_).
Proof.
  intros n s F r s' Hs Ha (r0 & E & ->)%tag_inv. simpl. unfold Setattr, fs_setattr in *.
  destruct (String.eqb path EmptyString); [injection E as <- <-; simpl; by eauto with mount|].
  handler_step E r1 s1 E1 E2. pose proof (quiet_get_live path s) as Ho. rewrite E1 in Ho. simpl in Ho.
  apply (sim_get_live _ _ _ _ _ _ Hs) in E1 as [Hs1 E1].
  destruct (F !! path) as [i|] eqn:Ei; [|subst r1; destruct E2 as [-> ->]; simpl; by eauto with mount].
  destruct E1 as (m & -> & Hm). handler_step E2 r2 s2 E2 E3.
  assert (admissible (KSetattr path f in_) s1 F) as Ha1 by (unfold admissible; by rewrite (observable_tbl _ _ Ho)).
  pose proof (set_size_sim n path f in_ i m s1 F r2 s2 Hs1 Ha1 Ei Hm E2) as Hz. cbn zeta in Hz.
  pose proof (dn_sane _ _ _ Hm) as Hsane.
  assert (∀ i1 m1 F1, r2 = Done m1 → sim (S n) s2 F1 → F1 !! path = Some i1 → looks path i1 m1 →
    i_mode i1 = i_mode i → <[path := with_in in_ i1]> F1 = <[path := with_in in_ i1]> F →
    shows (Stat path (with_in in_ i1)) (match r0 with Done a => Done (VAttr a) | Errno e => Errno e | Crash => Crash end) ∧
    sim n s' (<[path := with_in in_ i1]> F)) as Hrest.
  { intros i1 m1 F1 -> Hs2 Hi1 Hl Hmode <-.
    destruct (set_attrs_sim n path in_ i1 m1 s2 F1 r0 s' Hs2 Hi1 Hl) as [[time ->] ?]; [by rewrite Hmode|exact E3|].
    split; [by eexists|done]. }
  destruct (in_Size in_) as [size|]; [destruct i as [data mode uid gid|mode uid gid]|]; simpl in Hz.
  - destruct (size >? MaxFileSize cfg); [destruct Hz as [-> Hz], E3 as [-> ->]; simpl; by eauto with mount|].
    destruct Hz as (m1 & -> & Hl & Hs2). eapply Hrest; [done|exact Hs2|by rewrite lookup_insert_eq|done|done|].
    by rewrite insert_insert_eq.
  - destruct Hz as [-> Hs2]. eapply Hrest; [done|exact Hs2|done|by apply denotes_looks|done|done].
  - destruct Hz as [-> Hs2]. simpl. eapply Hrest; [done|exact Hs2|done|by apply denotes_looks|done|done].
Qed.

Lemma serve_implements q : implements q.
Proof.
  destruct q; [apply Lookup_implements|apply Readdir_implements|apply Getattr_implements|apply Setattr_implements
    |apply Open_implements|apply Create_implements|apply Mkdir_implements|apply Unlink_implements
    |apply Rmdir_implements|apply Rename_implements|apply Flush_implements].
Qed.

(** *** Sessions *)

Fixpoint run_session (qs : list kernel_request) s : list (reply value) * node :=
  match qs with
  | [] => ([], s)
  | q :: qs' =>
      let '(r, s1) := answered cfg q s in
      let '(rs, s2) := run_session qs' s1 in
      (r :: rs, s2)
  end.

(** Every request is one the kernel makes, and what it stores collides with nothing then stored. *)
Fixpoint all_admissible (qs : list kernel_request) s F : Prop :=
  match qs with
  | [] => True
  | q :: qs' => admissible q s F ∧ all_admissible qs' (answered cfg q s).2 (fs_spec cfg q F).2
  end.

#[export] Instance wf_request_dec q : Decision (wf_request q).
Proof. destruct q; simpl; try apply _. destruct (in_Size in_); apply _. Defined.
#[export] Instance collision_free_dec c t : Decision (collision_free c t).
Proof. change (Decision (map_Forall (λ _ b, sha256_sum (b_Data b) = sha256_sum c → b_Data b = c) (blobs t))). apply _. Defined.
#[export] Instance admissible_dec q s F : Decision (admissible q s F).
Proof. unfold admissible. apply _. Defined.
#[export] Instance all_admissible_dec qs s F : Decision (all_admissible qs s F).
Proof. revert s F. induction qs; simpl; apply _. Defined.

Lemma session_sim qs n s F :
  sim (2 * length qs + n) s F → all_admissible qs s F →
  Forall2 shows (fs_session cfg qs F).1 (run_session qs s).1 ∧
  sim n (run_session qs s).2 (fs_session cfg qs F).2.
Proof.
  revert s F. induction qs as [|q qs IH]; intros s F Hs Ha; [by split|]. destruct Ha as [Ha Hrest]. simpl.
  replace (2 * length (q :: qs) + n)%nat with (S (S (2 * length qs + n))) in Hs by (simpl; lia).
  destruct (answered cfg q s) as [r s1] eqn:E1, (fs_spec cfg q F) as [o F1] eqn:E2. simpl in Hrest.
  destruct (serve_implements q _ s F r s1 Hs Ha E1) as [Ho Hs1]. rewrite E2 in Ho, Hs1. simpl in Ho, Hs1.
  destruct (IH s1 F1 Hs1 Hrest) as [Hos Hs2]. destruct (run_session qs s1) as [rs s2], (fs_session cfg qs F1) as [os F2].
  simpl in *. split; [by constructor|done].
Qed.

(** C9: The mount implements the abstract file system.  On a database that works, with room for two
    entries per request, over a tree written by local edits: a session of any requests — lookups, listings,
    stats, attribute changes, truncations, opens, creations, removals, renames and flushes, in any order, of
    any paths — is answered request by request as the abstract file system answers it, modification times and the
    order of listings apart, and leaves the tree showing what the abstract file system holds, sound and ready for
    the next. *)
Theorem session_refines qs s :
  sound s → plain (tbl (db s)) → ¬ no_room (2 * length qs) s → all_admissible qs s (view (tbl (db s))) →
  let spec := fs_session cfg qs (view (tbl (db s))) in
  let run := run_session qs s in
  Forall2 shows spec.1 run.1 ∧ view (tbl (db run.2)) = spec.2 ∧ sound run.2 ∧ plain (tbl (db run.2)).
Proof.
  intros Hsd Hp Hr Ha. cbn zeta. destruct (session_sim qs 0 s (view (tbl (db s)))) as [Ho [Hsd' Hp' _ Hv]]; [|done|].
  - split; try done. by rewrite Nat.add_0_r.
  - done.
Qed.
End refines.

(** ** A session *)

Section run.
Import Demo.
#[local] Instance user_process : Process := {| euid := 0; egid := 0 |}.

Definition saved : writeHandle := mkWriteHandle "d/f" hello 420 0 0 true.
(** A folder, a file in it, its content, a look at it, and the file moved to where it cannot go and to where it can. *)
Definition work : list kernel_request :=
  [KMkdir "" "d" 493 0 0; KCreate "d" "f" 420 0 0; KFlush saved; KReaddir "d"; KRmdir "" "d";
   KRename "d" "f" (Some "") "../f" 0; KRename "d" "f" (Some "") "g" 0; KOpen "g" 0].

Lemma session_refines_witness :
  view (tbl (db (run_session cfg work boot).2)) =
    {[ "d" := Folder 493 0 0; "g" := File hello 420 0 0 ]}.
Proof.
  assert (plain (tbl (db boot))) as Hp.
  { intros p m [E _]. exfalso. change ((zero_meta, false) = (m, true)) in E. discriminate E. }
  assert (all_admissible cfg work boot (view (tbl (db boot)))) as Ha.
  { apply (bool_decide_unpack (all_admissible cfg work boot (view (tbl (db boot))))). vm_compute. exact I. }
  assert (¬ no_room (2 * length work) boot) as Hr by (apply room; vm_compute; discriminate).
  pose proof (proj1 (proj2 (session_refines cfg work boot sound_boot Hp Hr Ha))) as Hv.
  rewrite Hv. vm_compute. reflexivity.
Defined.
End run.
