(* ===== verification/Disk.v ===== *)
(** * The file system under the mirror (os.Root)

    The mirror reaches the disk through an [os.Root] only.  A disk is a map from paths, split
    into their elements, to objects; [Root] holds the methods the mirror calls.  What the
    operating system decides is a class: which system call fails and why, the clock,
    the permissions and owner of a new object, how much of a failed write arrived.  An object that
    is neither a directory nor a regular file (a socket, a FIFO, a device) cannot be opened;
    symbolic links, which os.Root follows inside its root, are not modelled. *)
From S2P Require Import Prelude GoStrings Paths Crypto Entry.

Abbreviation key := (list string) (only parsing).

Record perms := mkPerms { p_Mode : Z; p_UID : Z; p_GID : Z }.

Inductive obj :=
  | Dir (a : perms)
  | File (a : perms) (mtime : Z) (content : bytes)
  | Other (a : perms).

#[export] Instance perms_eq_dec : EqDecision perms.
Proof. solve_decision. Defined.
#[export] Instance obj_eq_dec : EqDecision obj.
Proof. solve_decision. Defined.

Definition obj_perms (o : obj) : perms :=
  match o with Dir a | File a _ _ | Other a => a end.
Definition with_perms (a : perms) (o : obj) : obj :=
  match o with Dir _ => Dir a | File _ t c => File a t c | Other _ => Other a end.
Definition obj_is_dir (o : obj) : bool := match o with Dir _ => true | _ => false end.
Definition obj_is_file (o : obj) : bool := match o with File _ _ _ => true | _ => false end.

(** [calls] counts the system calls made. *)
Record disk := mkDisk { objs : gmap key obj; calls : nat }.

Class OS := {
  os_fails : nat → option error;       (* the n-th call fails *)
  os_time : nat → Z;                   (* the time of the n-th call, in nanoseconds *)
  os_dirtime : nat → key → Z;          (* what it reports as the mtime of a directory *)
  os_new : key → Z → perms;            (* the attributes of a new object asked for with a mode *)
  os_short : nat → nat                 (* the bytes a failed write wrote *)
}.

(** fs.FileInfo. *)
Record FileInfo := mkInfo {
  fi_IsDir : bool; fi_IsRegular : bool; fi_Mode : Z; fi_Size : Z; fi_ModTime : Z;
  fi_UID : Z; fi_GID : Z
}.

(** The root is [[]]; every other path is the list of its elements. *)
Definition key_of (p : string) : key := if bool_decide (p = "."%string) then [] else Str.split slash p.
Definition path_of (k : key) : string := Str.join slash k.

(** How the kernel reaches [rest] from the directory [at_]: every element but the last must be a
    directory, and no name is longer than NAME_MAX. *)
Fixpoint descend (f : gmap key obj) (at_ rest : key) : result unit :=
  match rest with
  | [] => Ok tt
  | el :: rest' =>
      if Str.len el >? MaxNameLen then Err ErrOS
      else match rest' with
           | [] => Ok tt
           | _ =>
               match f !! (at_ ++ [el]) with
               | Some (Dir _) => descend f (at_ ++ [el]) rest'
               | Some _ => Err ErrOS
               | None => Err ErrNotExist
               end
           end
  end.

Definition find_obj (f : gmap key obj) (k : key) : result obj :=
  _ ← descend f [] k;
  match f !! k with Some o => Ok o | None => Err ErrNotExist end.

(** Something lies below [k]. *)
Definition has_below (f : gmap key obj) (k : key) : bool :=
  existsb (λ ko, bool_decide (k `prefix_of` ko.1) && negb (bool_decide (ko.1 = k))) (map_to_list f).

Module Root.
Section root.
Context `{OS}.

(** One system call: the [n]-th may fail for reasons of its own, and then does nothing. *)
Definition sys {A : Type} (q : nat → gmap key obj → result A * gmap key obj) : ST disk A := λ d,
  let n := calls d in
  match os_fails n with
  | Some e => (Err e, mkDisk (objs d) (S n))
  | None => let '(r, f) := q n (objs d) in (r, mkDisk f (S n))
  end.

Definition info_of (n : nat) (k : key) (o : obj) : FileInfo :=
  let a := obj_perms o in
  match o with
  | Dir _ => mkInfo true false (p_Mode a) 0 (os_dirtime n k) (p_UID a) (p_GID a)
  | File _ t c => mkInfo false true (p_Mode a) (Z.of_nat (length c)) t (p_UID a) (p_GID a)
  | Other _ => mkInfo false false (p_Mode a) 0 (os_dirtime n k) (p_UID a) (p_GID a)
  end.

Definition Lstat (p : string) : ST disk FileInfo :=
  sys (λ n f, (o ← find_obj f (key_of p); Ok (info_of n (key_of p) o), f)).

Definition ReadFile (p : string) : ST disk bytes :=
  sys (λ _ f, (o ← find_obj f (key_of p);
               match o with File _ _ c => Ok c | _ => Err ErrOS end, f)).

(** Whether a directory can be listed. *)
Definition ReadDir (k : key) : ST disk unit := sys (λ _ f, (Ok tt, f)).

(** os.Root takes no mode with bits beyond the permissions. *)
Definition plain_mode (mode : Z) : bool := Z.land mode ModePerm =? mode.

(** mkdirat of one element; [last]: nothing follows it. *)
Definition mkdir (k : key) (mode : Z) (last : bool) : ST disk unit :=
  sys (λ _ f,
    match descend f [] k with
    | Err e => (Err e, f)
    | Ok _ =>
        match f !! k with
        | Some (Dir _) => (Ok tt, f)
        | Some _ => (Err (if last then ErrExist else ErrOS), f)
        | None => (Ok tt, <[k := Dir (os_new k mode)]> f)
        end
    end).

Fixpoint mkdirs (at_ rest : key) (mode : Z) : ST disk unit :=
  match rest with
  | [] => mret tt
  | el :: rest' =>
      _ ← mkdir (at_ ++ [el]) mode (bool_decide (rest' = []));
      mkdirs (at_ ++ [el]) rest' mode
  end.

Definition MkdirAll (p : string) (mode : Z) : ST disk unit :=
  if plain_mode mode then mkdirs [] (key_of p) mode else throw ErrOS.

(** OpenFile with O_WRONLY|O_CREATE|O_TRUNC. *)
Definition OpenFile (p : string) (mode : Z) : ST disk unit :=
  if plain_mode mode then
    sys (λ n f,
      match descend f [] (key_of p) with
      | Err e => (Err e, f)
      | Ok _ =>
          match f !! key_of p with
          | Some (File a _ _) => (Ok tt, <[key_of p := File a (os_time n) []]> f)
          | Some _ => (Err ErrOS, f)
          | None => (Ok tt, <[key_of p := File (os_new (key_of p) mode) (os_time n) []]> f)
          end
      end)
  else throw ErrOS.

(** Writing to the file just opened at [p]; a write that fails may have written some bytes. *)
Definition Write (p : string) (content : bytes) : ST disk unit := λ d,
  let n := calls d in
  let put c := match objs d !! key_of p with
               | Some (File a _ _) => <[key_of p := File a (os_time n) c]> (objs d)
               | _ => objs d
               end in
  match os_fails n with
  | Some e => (Err e, mkDisk (put (take (os_short n) content)) (S n))
  | None => (Ok tt, mkDisk (put content) (S n))
  end.

Definition Sync : ST disk unit := sys (λ _ f, (Ok tt, f)).
Definition Close : ST disk unit := sys (λ _ f, (Ok tt, f)).

(** The mirror renames only the scratch file it has just written. *)
Definition Rename (from to : string) : ST disk unit :=
  sys (λ _ f,
    match (_ ← descend f [] (key_of to); find_obj f (key_of from)) with
    | Err e => (Err e, f)
    | Ok (Dir _) => (Err ErrOS, f)
    | Ok o =>
        match f !! key_of to with
        | Some (Dir _) => (Err ErrOS, f)
        | _ => (Ok tt, <[key_of to := o]> (delete (key_of from) f))
        end
    end).

Definition Remove (p : string) : ST disk unit :=
  sys (λ _ f,
    match find_obj f (key_of p) with
    | Err e => (Err e, f)
    | Ok _ => if has_below f (key_of p) then (Err ErrOS, f) else (Ok tt, delete (key_of p) f)
    end).

Definition change_perms (p : string) (g : obj → perms) : ST disk unit :=
  sys (λ _ f,
    match find_obj f (key_of p) with
    | Err e => (Err e, f)
    | Ok o => (Ok tt, <[key_of p := with_perms (g o) o]> f)
    end).

(** chmod takes the permission, setuid, setgid and sticky bits of a mode. *)
Definition Chmod (p : string) (mode : Z) : ST disk unit :=
  change_perms p (λ o, mkPerms (SanitizeMode mode) (p_UID (obj_perms o)) (p_GID (obj_perms o))).

(** chown of a file takes its setuid bit away, and its setgid bit when the group may execute it;
    the id 2^32-1 leaves the owner as it is. *)
Definition chown_id (new old : Z) : Z := if new =? max_uint32 then old else new.
Definition chown_mode (o : obj) : Z :=
  let m := p_Mode (obj_perms o) in
  match o with
  | Dir _ => m
  | _ => let m := Z.ldiff m ModeSetuid in if Z.testbit m 3 then Z.ldiff m ModeSetgid else m
  end.
Definition Lchown (p : string) (uid gid : Z) : ST disk unit :=
  change_perms p (λ o, mkPerms (chown_mode o) (chown_id uid (p_UID (obj_perms o)))
                                              (chown_id gid (p_GID (obj_perms o)))).
End root.
End Root.

(** The order in which fs.WalkDir visits: a directory before what is below it, the names of
    a directory in lexical order. *)
Definition walk_key (ko : key * obj) : string := Str.join nul ko.1.
Definition listing (f : gmap key obj) : list (key * obj) :=
  sort_on walk_key Str.le (map_to_list f).
