(* ===== verification/DiskFacts.v ===== *)
(** * What the disk promises

    Paths as keys, and what each call may change: the objects at its own path, and the missing
    directories above it. *)
From S2P Require Import Prelude GoStrings Paths Crypto Entry Disk.
From Stdlib Require Import Ascii.

(** ** Paths and keys *)

(** The elements of a path on disk. *)
Definition name_ok (el : string) : Prop := plain_element el ∧ Str.has_char slash el = false.

#[export] Instance name_ok_dec el : Decision (name_ok el).
Proof. unfold name_ok. apply _. Defined.

Lemma name_ok_plain k : Forall name_ok k → Forall plain_element k.
Proof. intros H. eapply Forall_impl; [exact H|]. by intros ? []. Qed.
Lemma name_ok_slash k : Forall name_ok k → Forall (λ e, Str.has_char slash e = false) k.
Proof. intros H. eapply Forall_impl; [exact H|]. by intros ? []. Qed.
#[export] Hint Resolve name_ok_plain name_ok_slash : dcfs.

Lemma key_path k : k ≠ [] → Forall name_ok k → key_of (path_of k) = k.
Proof.
  intros Hk Hn. unfold key_of, path_of. rewrite bool_decide_false.
  - apply Str.split_join; auto with dcfs.
  - intros E. apply (f_equal (Str.split slash)) in E. rewrite Str.split_join in E by auto with dcfs.
    subst k. inversion_clear Hn as [|? ? [(_ & ? & _) _] _]. done.
Qed.

Lemma path_key p : p ≠ "."%string → path_of (key_of p) = p.
Proof. intros. unfold key_of, path_of. rewrite bool_decide_false by done. apply Str.join_split. Qed.

Lemma canonical_not_dot p : canonical p → p ≠ "."%string.
Proof. intros (_ & _ & Hg) ->. inversion_clear Hg as [|? ? (_ & ? & _)]. done. Qed.

Lemma canonical_key p : canonical p →
  key_of p ≠ [] ∧ Forall name_ok (key_of p) ∧ Forall (λ el, Str.len el ≤ MaxNameLen) (key_of p).
Proof.
  intros Hc. pose proof (canonical_not_dot _ Hc) as Hd. destruct Hc as (_ & _ & Hg).
  unfold key_of. rewrite bool_decide_false by done. split_and!.
  - by destruct (Str.split_cons slash p) as (h & t & ->).
  - apply Forall_forall. intros el Hel. split.
    + apply good_plain. by eapply Forall_forall in Hg.
    + pose proof (Str.split_no_sep slash p) as Hs. by eapply Forall_forall in Hs.
  - eapply Forall_impl; [exact Hg|]. by intros ? (_ & _ & _ & ?).
Qed.

Lemma canonical_path_key p : canonical p → path_of (key_of p) = p.
Proof. intros. by apply path_key, canonical_not_dot. Qed.

Lemma key_of_inj p q : canonical p → canonical q → key_of p = key_of q → p = q.
Proof. intros Hp Hq E. rewrite <- (canonical_path_key p), E by done. by apply canonical_path_key. Qed.

Lemma split_path k : k ≠ [] → Forall name_ok k → Str.split slash (path_of k) = k.
Proof. intros. apply Str.split_join; [done|auto with dcfs]. Qed.

Lemma join_app c k k' : k ≠ [] → k' ≠ [] →
  Str.join c (k ++ k') = Str.join c k +:+ String c (Str.join c k').
Proof.
  intros Hk Hk'. induction k as [|e [|e' k] IH]; [done| |].
  - destruct k'; [done|]. done.
  - change ((e :: e' :: k) ++ k') with (e :: ((e' :: k) ++ k')).
    change (Str.join c (e :: e' :: k)) with (e +:+ String c (Str.join c (e' :: k))).
    rewrite Str.app_assoc.
    change (String c (Str.join c (e' :: k)) +:+ String c (Str.join c k')) with
      (String c (Str.join c (e' :: k) +:+ String c (Str.join c k'))).
    rewrite <- IH by done. done.
Qed.

Lemma path_nonempty k : k ≠ [] → Forall name_ok k → path_of k ≠ EmptyString.
Proof.
  intros Hk Hn E. pose proof (split_path _ Hk Hn) as Es. rewrite E in Es. simpl in Es. subst k.
  inversion_clear Hn as [|? ? [(? & _) _]]. done.
Qed.

Lemma Clean_path k : k ≠ [] → Forall name_ok k → Pkg.Clean (path_of k) = path_of k.
Proof.
  intros Hk Hn. unfold Pkg.Clean, path_of.
  pose proof (split_path _ Hk Hn) as Es. unfold path_of in Es.
  rewrite bool_decide_false by (by apply path_nonempty).
  assert (Str.has_prefix "/" (Str.join slash k) = false) as ->.
  { destruct (Str.has_prefix "/" _) eqn:E; [|done]. apply Str.has_prefix_iff in E as [r E].
    rewrite E in Es. simpl in Es. subst k. inversion_clear Hn as [|? ? [(? & _) _]]. done. }
  rewrite Es, clean_fold_plain, app_nil_r, rev_involutive by auto with dcfs.
  by rewrite bool_decide_false.
Qed.

Section last.
Context (els : key) (el : string).
Hypothesis Hn : Forall name_ok (els ++ [el]).

Lemma snoc_names : Forall name_ok els ∧ name_ok el.
Proof. apply Forall_app in Hn as [? Hl]. rewrite Forall_singleton in Hl. done. Qed.

Lemma split_snoc : Str.split slash (path_of (els ++ [el])) = els ++ [el].
Proof. apply split_path; [by destruct els|done]. Qed.

Lemma Base_snoc : Pkg.Base (path_of (els ++ [el])) = el.
Proof.
  unfold Pkg.Base. rewrite split_snoc, bool_decide_false by (apply path_nonempty; [by destruct els|done]).
  rewrite filter_app, filter_cons_True, filter_nil, last_snoc; [done|]. apply snoc_names.
Qed.

Lemma Dir_snoc : Pkg.Dir (path_of (els ++ [el])) = if decide (els = []) then "."%string else path_of els.
Proof.
  unfold Pkg.Dir. rewrite split_snoc, rev_app_distr. simpl. case_decide as Hd; [by subst|].
  destruct (rev els) as [|e r] eqn:Er.
  { destruct Hd. by rewrite <- (rev_involutive els), Er. }
  rewrite <- Er, rev_involutive. destruct snoc_names as [Hels _].
  transitivity (Pkg.Clean (path_of els)); [|by apply Clean_path]. unfold Pkg.Clean, path_of.
  change (Str.join slash els +:+ "/") with (Str.join slash els +:+ String slash EmptyString).
  rewrite Str.split_app_sep, Str.split_join by auto with dcfs.
  assert (∀ rooted stack, fold_left (Pkg.clean_step rooted) (els ++ Str.split slash EmptyString) stack =
    fold_left (Pkg.clean_step rooted) els stack) as Hfold by (intros; by rewrite fold_left_app).
  rewrite !Hfold. pose proof (path_nonempty _ Hd Hels) as Hne. unfold path_of in Hne.
  rewrite !bool_decide_false by (done || (intros E; destruct (Str.join slash els); done)).
  assert (Str.has_prefix "/" (Str.join slash els +:+ String slash EmptyString) =
    Str.has_prefix "/" (Str.join slash els)) as -> by (by destruct (Str.join slash els)).
  by rewrite (bool_decide_false _ Hne).
Qed.

Lemma Join_snoc name : name_ok name →
  Pkg.Join (Pkg.Dir (path_of (els ++ [el]))) name = path_of (els ++ [name]).
Proof.
  intros Hname. destruct snoc_names as [Hels _]. pose proof Hname as [(Hne & _) _].
  rewrite Dir_snoc. unfold Pkg.Join. case_decide as Hd.
  - subst els. rewrite !filter_cons_True, filter_nil by done.
    change (Str.join slash ["."%string; name]) with (String "."%char (String slash name)).
    unfold Pkg.Clean. rewrite bool_decide_false by done.
    change (Str.has_prefix "/" (String "."%char (String slash name))) with false. cbv iota zeta.
    change (Str.split slash (String "."%char (String slash name))) with ("."%string :: Str.split slash name).
    rewrite Str.split_no_char by (by destruct Hname). cbn [fold_left].
    change (Pkg.clean_step false [] ".") with (@nil string). by rewrite clean_step_plain by (by destruct Hname).
  - pose proof (path_nonempty _ Hd Hels) as Hp. rewrite !filter_cons_True, filter_nil by done.
    rewrite <- (Clean_path (els ++ [name])); [|by destruct els|apply Forall_app; by rewrite Forall_singleton].
    f_equal. unfold path_of. clear -Hd. simpl.
    induction els as [|e [|e' l'] IH]; [done|done|].
    rewrite <- !app_comm_cons. change (Str.join slash (e :: e' :: l')) with (e +:+ String slash (Str.join slash (e' :: l'))).
    change (Str.join slash (e :: e' :: l' ++ [name])) with (e +:+ String slash (Str.join slash ((e' :: l') ++ [name]))).
    rewrite <- IH by done. by rewrite !Str.app_assoc.
Qed.
End last.

(** ** Reaching a path *)

(** Every proper ancestor of [k] is a directory. *)
Definition dirs_to (f : gmap key obj) (k : key) : Prop :=
  ∀ a b, k = a ++ b → a ≠ [] → b ≠ [] → ∃ p, f !! a = Some (Dir p).
Definition names_short (k : key) : Prop := Forall (λ el, Str.len el ≤ MaxNameLen) k.

Lemma descend_spec f at_ rest :
  descend f at_ rest = Ok tt ↔
  names_short rest ∧
  ∀ a b, rest = a ++ b → a ≠ [] → b ≠ [] → ∃ p, f !! (at_ ++ a) = Some (Dir p).
Proof.
  revert at_. induction rest as [|el rest IH]; intros at_; simpl.
  { split; [|done]. intros _. split; [constructor|]. intros [|? ?]; naive_solver. }
  rewrite Z.gtb_ltb. unfold names_short. rewrite Forall_cons.
  destruct (Z.ltb_spec MaxNameLen (Str.len el)) as [Hl|Hl].
  { split; [done|]. intros [[? _] _]. lia. }
  assert ((∀ a b, el :: rest = a ++ b → a ≠ [] → b ≠ [] → ∃ p, f !! (at_ ++ a) = Some (Dir p)) ↔
    (rest ≠ [] → ∃ p, f !! (at_ ++ [el]) = Some (Dir p)) ∧
    (∀ a b, rest = a ++ b → a ≠ [] → b ≠ [] → ∃ p, f !! ((at_ ++ [el]) ++ a) = Some (Dir p))) as Hsplit.
  { split.
    - intros Hd. split; [intros; by apply (Hd [el] rest)|].
      intros a b -> Ha Hb. rewrite <- (assoc_L (++)). by apply (Hd (el :: a) b).
    - intros [H1 H2] [|e a] b Eq Ha Hb; [done|]. injection Eq as <- ->.
      destruct a as [|e' a]; [by apply H1|]. specialize (H2 (e' :: a) b). rewrite <- (assoc_L (++)) in H2.
      by apply H2. }
  rewrite Hsplit. clear Hsplit. destruct rest as [|el' rest'].
  { split; [|done]. intros _. split_and!; [done|constructor|done|]. intros [|? ?]; naive_solver. }
  destruct (f !! (at_ ++ [el])) as [[p| |]|] eqn:Ef.
  - rewrite IH. unfold names_short. naive_solver.
  - split; [done|]. intros (_ & Hd & _). destruct Hd as [? ?]; done.
  - split; [done|]. intros (_ & Hd & _). destruct Hd as [? ?]; done.
  - split; [done|]. intros (_ & Hd & _). destruct Hd as [? ?]; done.
Qed.

Lemma descend_Ok f k : names_short k → dirs_to f k → descend f [] k = Ok tt.
Proof. intros. by apply descend_spec. Qed.

Lemma find_obj_Ok f k o : names_short k → dirs_to f k → f !! k = Some o → find_obj f k = Ok o.
Proof. intros Hs Hd E. unfold find_obj. by rewrite descend_Ok, E. Qed.

Lemma find_obj_inv f k o : find_obj f k = Ok o → f !! k = Some o ∧ dirs_to f k ∧ names_short k.
Proof.
  unfold find_obj. destruct (descend f [] k) as [[]|e] eqn:E; [|done].
  apply descend_spec in E as [Hs Hd]. simpl. destruct (f !! k); [|done]. by intros [= ->].
Qed.

Lemma dirs_to_app f a b : dirs_to f (a ++ b) → dirs_to f a.
Proof.
  intros Hd c d -> Hc Hd'. apply (Hd c (d ++ b)); [by rewrite (assoc_L (++))|done|by destruct d].
Qed.

Lemma dirs_to_snoc f k el : dirs_to f (k ++ [el]) ↔ dirs_to f k ∧ (k ≠ [] → ∃ p, f !! k = Some (Dir p)).
Proof.
  split.
  - intros Hd. split; [by eapply dirs_to_app|]. intros Hk. by apply (Hd k [el]).
  - intros [Hd Hk] a b E Ha Hb. destruct b as [|x b _] using rev_ind; [done|].
    rewrite (assoc_L (++)) in E. apply app_inj_tail in E as [-> ->].
    destruct b as [|y b]; [rewrite app_nil_r in *; by apply Hk|]. by apply (Hd a (y :: b)).
Qed.

(** ** A disk is a tree *)

Definition wf_objs (f : gmap key obj) : Prop :=
  ∀ k o, f !! k = Some o → k ≠ [] ∧ Forall name_ok k ∧ dirs_to f k.

Lemma wf_objs_empty : wf_objs ∅.
Proof. intros k o. by rewrite lookup_empty. Qed.

Lemma wf_objs_insert f k o :
  wf_objs f → k ≠ [] → Forall name_ok k → dirs_to f k →
  (∀ p, f !! k = Some (Dir p) → ∃ p', o = Dir p') → wf_objs (<[k := o]> f).
Proof.
  intros Hw Hk Hn Hd Ho.
  assert (∀ k', dirs_to f k' → dirs_to (<[k := o]> f) k') as Hmono.
  { intros k' Hd' a b E Ha Hb. destruct (Hd' a b E Ha Hb) as [p Hp].
    destruct (decide (a = k)) as [->|Hne]; [|rewrite lookup_insert_ne by done; by eauto].
    destruct (Ho p Hp) as [p' ->]. exists p'. apply lookup_insert_eq. }
  intros k' o' E. destruct (decide (k' = k)) as [->|Hne]; [by eauto|].
  rewrite lookup_insert_ne in E by done. destruct (Hw k' o' E) as (? & ? & ?). by eauto.
Qed.

Lemma has_below_true f k : has_below f k = true ↔ ∃ k' o, f !! k' = Some o ∧ k `prefix_of` k' ∧ k' ≠ k.
Proof.
  unfold has_below. rewrite existsb_exists. split.
  - intros ([k' o] & Hin & Hb). apply list_elem_of_In, elem_of_map_to_list in Hin.
    apply andb_prop in Hb as [Hp%bool_decide_eq_true Hne%negb_true_iff%bool_decide_eq_false]. by eauto.
  - intros (k' & o & E & Hp & Hne). exists (k', o).
    split; [by apply list_elem_of_In, elem_of_map_to_list|]. simpl.
    by rewrite (bool_decide_true _ Hp), (bool_decide_false _ Hne).
Qed.

Lemma wf_objs_delete f k : wf_objs f → has_below f k = false → wf_objs (delete k f).
Proof.
  intros Hw Hb k' o. rewrite lookup_delete_Some. intros [Hne E]. destruct (Hw k' o E) as (? & ? & Hd).
  split_and!; [done..|]. intros a b -> Ha Hb'. destruct (Hd a b eq_refl Ha Hb') as [p Hp].
  exists p. rewrite lookup_delete_ne; [done|]. intros <-.
  assert (has_below f k = true) as Ht; [|congruence]. apply has_below_true.
  exists (k ++ b), o. split_and!; [done|by apply prefix_app_r|done].
Qed.

(** ** What a call may change *)

(** Of the objects there are only those at a path of [K] change; elsewhere only directories appear, above
    such a path. *)
Definition touch (K : key → Prop) (f f' : gmap key obj) : Prop :=
  (∀ k o, f !! k = Some o → ¬ K k → f' !! k = Some o) ∧
  (∀ k, f !! k = None → ¬ K k → f' !! k = None ∨
     ∃ k' a, K k' ∧ k `prefix_of` k' ∧ f' !! k = Some (Dir a)).

#[export] Instance touch_refl K : Reflexive (touch K).
Proof. intros f. split; auto. Qed.
#[export] Instance touch_trans K : Transitive (touch K).
Proof.
  intros f1 f2 f3 [H1 H2] [H3 H4]. split; [eauto|].
  intros k E Hk. destruct (H2 k E Hk) as [E2|(k' & a & ? & ? & E2)]; [by apply H4|].
  right. exists k', a. auto.
Qed.

Lemma touch_insert (K : key → Prop) f k o : K k → touch K f (<[k := o]> f).
Proof.
  intros HK. split.
  - intros k' o' E Hn. rewrite lookup_insert_ne; [done|]. by intros ->.
  - intros k' E Hn. left. rewrite lookup_insert_ne; [done|]. by intros ->.
Qed.

(** A directory that is made above a path of [K]. *)
Lemma touch_fresh (K : key → Prop) f k k' a : K k' → k `prefix_of` k' → f !! k = None → touch K f (<[k := Dir a]> f).
Proof.
  intros HK Hp E. split.
  - intros k1 o1 E1 Hn. rewrite lookup_insert_ne; [done|]. intros ->. congruence.
  - intros k1 E1 Hn. destruct (decide (k = k1)) as [->|Hne]; [|left; by rewrite lookup_insert_ne].
    right. exists k', a. rewrite lookup_insert_eq. auto.
Qed.

Lemma touch_delete (K : key → Prop) f k : K k → touch K f (delete k f).
Proof.
  intros HK. split.
  - intros k' o' E Hn. rewrite lookup_delete_ne; [done|]. by intros ->.
  - intros k' E _. left. apply lookup_delete_None. by right.
Qed.
#[export] Hint Resolve touch_refl touch_insert touch_delete : dcfs.

Section calls.
Context `{OS}.
Implicit Types (d : disk) (f : gmap key obj) (p : string).

Lemma sys_inv {A : Type} (q : nat → gmap key obj → result A * gmap key obj) d r d' :
  Root.sys q d = (r, d') →
  (∃ e, r = Err e ∧ os_fails (calls d) = Some e ∧ objs d' = objs d) ∨ q (calls d) (objs d) = (r, objs d').
Proof.
  unfold Root.sys. destruct (os_fails (calls d)) as [e|]; [intros [= <- <-]; left; by eauto|].
  destruct (q (calls d) (objs d)) as [r0 f0]. intros [= <- <-]. by right.
Qed.

Lemma moves_sys {A : Type} (R : relation (gmap key obj)) `{!Reflexive R} (q : nat → gmap key obj → result A * gmap key obj) :
  (∀ n f, R f (q n f).2) → moves (key_rel objs R) (Root.sys q).
Proof.
  intros HR d. unfold key_rel. destruct (Root.sys q d) as [r d'] eqn:E. simpl.
  apply sys_inv in E as [(e & _ & _ & ->)|E]; [done|]. specialize (HR (calls d) (objs d)). by rewrite E in HR.
Qed.

(** A relation the changes of each kind respect: an object of [K] updated, made or removed, and a
    directory made above one. *)
Class calls_respect (K : key → Prop) (R : relation (gmap key obj)) := {
  cr_refl :: Reflexive R;
  cr_trans :: Transitive R;
  cr_update f k (o o' : obj) : K k → f !! k = Some o → obj_is_dir o' = obj_is_dir o → R f (<[k := o']> f);
  cr_create f k k' (o : obj) : K k' → k = k' ∨ (k `prefix_of` k' ∧ ∃ a, o = Dir a) → k ≠ [] → Forall name_ok k →
    dirs_to f k → f !! k = None → R f (<[k := o]> f);
  cr_delete f k : K k → (∀ a, f !! k = Some (Dir a) → has_below f k = false) → R f (delete k f)
}.

#[export] Instance touch_respects K : calls_respect K (touch K).
Proof.
  split; [apply _..| | |].
  - intros. by apply touch_insert.
  - intros f k k' o HK [->|[Hp [a ->]]] ? ? ? ?; [by apply touch_insert|by eapply touch_fresh].
  - intros. by apply touch_delete.
Qed.

Lemma wf_not_below f k : wf_objs f → (∀ a, f !! k = Some (Dir a) → has_below f k = false) →
  is_Some (f !! k) → has_below f k = false.
Proof.
  intros Hw Hb [o Ho]. destruct (has_below f k) eqn:E; [|done].
  apply has_below_true in E as (k' & o' & E' & [b ->] & Hne).
  destruct (Hw _ _ E') as (_ & _ & Hd), (Hw _ _ Ho) as (Hk & _ & _).
  destruct (Hd k b eq_refl Hk) as [a Ha]; [|by specialize (Hb a Ha)].
  intros ->. by rewrite app_nil_r in Hne.
Qed.

#[export] Instance wf_respects K : calls_respect K (λ f f', wf_objs f → wf_objs f').
Proof.
  split; [by intros ?|intros ?; naive_solver|..].
  - intros f k o o' _ E Hd Hw. destruct (Hw _ _ E) as (? & ? & ?). apply wf_objs_insert; try done.
    intros a Ha. simplify_eq/=. by destruct o'; [eexists|..].
  - intros. apply wf_objs_insert; naive_solver.
  - intros f k _ Hb Hw. destruct (f !! k) eqn:E; [|by rewrite delete_id].
    apply wf_objs_delete; [done|]. apply wf_not_below; [done|by rewrite E|by rewrite E].
Qed.

Section respect.
Context (K : key → Prop) (R : relation (gmap key obj)) `{!calls_respect K R}.
Implicit Types (q : ST disk unit).

Lemma moves_mkdir k k' mode last :
  K k' → k `prefix_of` k' → k ≠ [] → Forall name_ok k → moves (key_rel objs R) (Root.mkdir k mode last).
Proof.
  intros HK Hp Hk Hn. apply moves_sys; [apply cr_refl|]. intros n f.
  destruct (descend f [] k) as [[]|] eqn:Ed; [|apply cr_refl]. apply descend_spec in Ed as [_ Hd].
  destruct (f !! k) as [[]|] eqn:Ef; simpl; try apply cr_refl. eapply cr_create; by eauto.
Qed.

Lemma moves_mkdirs k' at_ rest mode :
  K k' → at_ ++ rest `prefix_of` k' → Forall name_ok (at_ ++ rest) → moves (key_rel objs R) (Root.mkdirs at_ rest mode).
Proof.
  intros HK. revert at_. induction rest as [|el rest IH]; intros at_ Hp Hn; simpl.
  { apply moves_ret. apply _. }
  rewrite cons_middle, (assoc_L (++)) in Hp, Hn. apply moves_bind; [apply _| |intros; by apply IH].
  apply Forall_app in Hn as [Hn _]. eapply moves_mkdir; [done| |by destruct at_|done].
  etransitivity; [|exact Hp]. by apply prefix_app_r.
Qed.

Lemma moves_MkdirAll p k' mode :
  K k' → key_of p `prefix_of` k' → Forall name_ok (key_of p) → moves (key_rel objs R) (Root.MkdirAll p mode).
Proof.
  intros. unfold Root.MkdirAll. case_match; [by eapply moves_mkdirs|apply moves_throw; apply _].
Qed.

Lemma moves_OpenFile p mode :
  K (key_of p) → key_of p ≠ [] → Forall name_ok (key_of p) → moves (key_rel objs R) (Root.OpenFile p mode).
Proof.
  intros. unfold Root.OpenFile. case_match; [|apply moves_throw; apply _]. apply moves_sys; [apply cr_refl|].
  intros n f. destruct (descend f [] (key_of p)) as [[]|] eqn:Ed; [|apply cr_refl].
  apply descend_spec in Ed as [_ Hd].
  destruct (f !! key_of p) as [[]|] eqn:Ef; simpl; try apply cr_refl; [by eapply cr_update|eapply cr_create; by eauto].
Qed.

Lemma moves_Write p content : K (key_of p) → moves (key_rel objs R) (Root.Write p content).
Proof.
  intros HK d. unfold key_rel, Root.Write. destruct (os_fails (calls d)); simpl;
    destruct (objs d !! key_of p) as [[]|] eqn:Ef; try apply cr_refl; by eapply cr_update.
Qed.

Lemma moves_Sync : moves (key_rel objs R) Root.Sync.
Proof. apply moves_sys; [apply cr_refl|]. intros. apply cr_refl. Qed.
Lemma moves_Close : moves (key_rel objs R) Root.Close.
Proof. apply moves_sys; [apply cr_refl|]. intros. apply cr_refl. Qed.
Lemma moves_Lstat p : moves (key_rel objs R) (Root.Lstat p).
Proof. apply moves_sys; [apply cr_refl|]. intros. apply cr_refl. Qed.
Lemma moves_ReadFile p : moves (key_rel objs R) (Root.ReadFile p).
Proof. apply moves_sys; [apply cr_refl|]. intros. apply cr_refl. Qed.
Lemma moves_ReadDir k : moves (key_rel objs R) (Root.ReadDir k).
Proof. apply moves_sys; [apply cr_refl|]. intros. apply cr_refl. Qed.

Lemma moves_Remove p : K (key_of p) → moves (key_rel objs R) (Root.Remove p).
Proof.
  intros HK. apply moves_sys; [apply cr_refl|]. intros n f.
  destruct (find_obj f (key_of p)); [|apply cr_refl].
  destruct (has_below f (key_of p)) eqn:Eb; [apply cr_refl|]. by apply cr_delete.
Qed.

Lemma moves_change_perms p g : K (key_of p) → moves (key_rel objs R) (Root.change_perms p g).
Proof.
  intros HK. apply moves_sys; [apply cr_refl|]. intros n f.
  destruct (find_obj f (key_of p)) as [o|] eqn:E; [|apply cr_refl]. apply find_obj_inv in E as (E & _ & _).
  eapply cr_update; [done|exact E|]. by destruct o.
Qed.

Lemma dirs_to_delete_file f k from o :
  f !! from = Some o → obj_is_dir o = false → dirs_to f k → dirs_to (delete from f) k.
Proof.
  intros E Ho Hd a b Eq Ha Hb. destruct (Hd a b Eq Ha Hb) as [x Hx]. exists x.
  rewrite lookup_delete_ne; [done|]. intros ->. rewrite Hx in E. by injection E as <-.
Qed.

Lemma moves_Rename from to :
  K (key_of from) → K (key_of to) → key_of to ≠ [] → Forall name_ok (key_of to) →
  moves (key_rel objs R) (Root.Rename from to).
Proof.
  intros HF HT Hk Hn. apply moves_sys; [apply cr_refl|]. intros n f.
  destruct (descend f [] (key_of to)) as [[]|] eqn:Ed; [|apply cr_refl].
  apply descend_spec in Ed as [_ Hd]. simpl.
  destruct (find_obj f (key_of from)) as [o|] eqn:E; [|apply cr_refl]. apply find_obj_inv in E as (E & _ & _).
  assert (obj_is_dir o = false → R f (<[key_of to := o]> (delete (key_of from) f)) ∨
    ∃ a, f !! key_of to = Some (Dir a)) as Hgo.
  { intros Ho. destruct (f !! key_of to) as [o'|] eqn:Et.
    - destruct (obj_is_dir o') eqn:Ho'; [right; destruct o'; by eauto|]. left.
      etransitivity; [apply (cr_delete f (key_of from)); [done|]; intros a Ha; by rewrite Ha in E; injection E as <-|].
      destruct (decide (key_of from = key_of to)) as [Eft|Hne].
      + rewrite Eft. eapply cr_create; [exact HT|by left|done|done| |apply lookup_delete_eq].
        rewrite <- Eft at 1. by eapply dirs_to_delete_file.
      + eapply cr_update; [done|rewrite lookup_delete_ne; [exact Et|done]|]. congruence.
    - left. etransitivity; [apply (cr_delete f (key_of from)); [done|]; intros a Ha; by rewrite Ha in E; injection E as <-|].
      eapply cr_create; [exact HT|by left|done|done| |rewrite lookup_delete_ne; [done|congruence]].
      by eapply dirs_to_delete_file. }
  destruct o as [a| |]; [apply cr_refl|..].
  all: destruct Hgo as [Hgo|[a' ->]]; [done| |apply cr_refl].
  all: by destruct (f !! key_of to) as [[]|]; [apply cr_refl|..].
Qed.
End respect.
End calls.
#[export] Hint Resolve moves_Sync moves_Close moves_Lstat moves_ReadFile moves_ReadDir moves_Remove
  moves_Write moves_change_perms moves_OpenFile : hoare.
