(* ===== verification/Mirror.v ===== *)
(** * The mirror (internal/mirror/mirror.go)

    A directory kept in step with the tree: [render] writes the tree out, [scan] offers what is
    on disk to the tree.  The state is the node whose tree is mirrored, the disk, and
    the fields of Mirror that change.  The methods run one at a time in the loop of Run, so each is
    a function on the state; what the users of the directory, the peers and the watcher do happens
    between them. *)
From S2P Require Import Prelude GoStrings Clock Paths Crypto Entry Store Resolve Syncer Disk.

Definition tmpPrefix : string := ".dcfs-tmp-".

Record mirror := mkMirror {
  mi_node : node;
  mi_disk : disk;
  canChown : bool;
  warnedChown : bool;
  inflight : gset string
}.

Definition set_mi_node (s : node) (m : mirror) : mirror :=
  mkMirror s (mi_disk m) (canChown m) (warnedChown m) (inflight m).
Definition set_mi_disk (d : disk) (m : mirror) : mirror :=
  mkMirror (mi_node m) d (canChown m) (warnedChown m) (inflight m).
Definition set_chown (can warned : bool) (m : mirror) : mirror :=
  mkMirror (mi_node m) (mi_disk m) can warned (inflight m).
Definition set_inflight (x : gset string) (m : mirror) : mirror :=
  mkMirror (mi_node m) (mi_disk m) (canChown m) (warnedChown m) x.

Section mirror.
Context `{DBFaults, Sha256, SystemTime, OS} (cfg : Config).

Definition on_tree {A} (q : ST node A) : ST mirror A := zoom mi_node set_mi_node q.
Definition on_disk {A} (q : ST disk A) : ST mirror A := zoom mi_disk set_mi_disk q.

(** [Open]: the directory exists and is held; [euid] is os.Geteuid(). *)
Definition Open (euid : Z) (created opened : result unit) (s : node) (d : disk) : result mirror :=
  _ ← created;
  _ ← opened;
  Ok (mkMirror s d (euid =? 0) false ∅).

(** ** Claims *)

Definition markInflight (p : string) : ST mirror unit :=
  modify (λ m, set_inflight ({[p]} ∪ inflight m) m).
Definition clearInflight (p : string) : ST mirror unit :=
  modify (λ m, set_inflight (inflight m ∖ {[p]}) m).
Definition isInflight (p : string) : ST mirror bool :=
  gets (λ m, bool_decide (p ∈ inflight m)).

(** A loop whose body's errors are logged, or not, and never stop it. *)
Fixpoint each {A} (body : A → ST mirror unit) (l : list A) : ST mirror unit :=
  match l with
  | [] => mret tt
  | x :: l' => _ ← attempt (body x); each body l'
  end.

(** ** The walk *)

(** The callback of fs.WalkDir: visits the path, or not, and says whether to enter a directory.
    A visit folds over what it has collected so far. *)
Definition on_walk {A} (visit : string → bool → A → ST mirror A) (p : string) (o : obj) (acc : A) :
    ST mirror (A * bool) :=
  if Str.has_prefix tmpPrefix (Pkg.Base p) then mret (acc, true)
  else match o with
       | Other _ => mret (acc, true)
       | _ =>
           match SanitizePath p with
           | Err _ => mret (acc, negb (obj_is_dir o))
           | Ok _ => acc' ← visit p (obj_is_dir o) acc; mret (acc', true)
           end
       end.

(** fs.WalkDir over a listing; [skipped] are the directories it does not enter, because the
    callback said so or because they cannot be listed. *)
Fixpoint walk_list {A} (visit : string → bool → A → ST mirror A) (skipped : list key)
    (l : list (key * obj)) (acc : A) : ST mirror A :=
  match l with
  | [] => mret acc
  | (k, o) :: l' =>
      if existsb (λ a, bool_decide (a `prefix_of` k)) skipped then walk_list visit skipped l' acc
      else
        '(acc', enter) ← on_walk visit (path_of k) o acc;
        if negb (obj_is_dir o) then walk_list visit skipped l' acc'
        else if negb enter then walk_list visit (k :: skipped) l' acc'
        else
          r ← attempt (on_disk (Root.ReadDir k));
          match r with
          | Ok _ => walk_list visit skipped l' acc'
          | Err _ => walk_list visit (k :: skipped) l' acc'
          end
  end.

(** A root that cannot be listed is an empty walk. *)
Definition walk {A} (visit : string → bool → A → ST mirror A) (acc : A) : ST mirror A :=
  r ← attempt (on_disk (Root.ReadDir []));
  match r with
  | Err _ => mret acc
  | Ok _ => l ← gets (λ m, listing (objs (mi_disk m))); walk_list visit [] l acc
  end.

(** ** Rendering *)

(** The hash of the file at a path. *)
Definition readLocal (p : string) : ST disk string :=
  info ← Root.Lstat p;
  if negb (fi_IsRegular info) then throw ErrOS
  else
    content ← Root.ReadFile p;
    mret (HashContent content).

(** The first failure of chown ends the attempts of this process to set owners. *)
Definition applyMeta (e : Meta) : ST mirror unit :=
  _ ← on_disk (Root.Chmod (Path e) (Mode e));
  can ← gets canChown;
  if negb can then mret tt
  else
    r ← attempt (on_disk (Root.Lchown (Path e) (UID e) (GID e)));
    match r with
    | Ok _ => mret tt
    | Err _ => modify (set_chown false true)
    end.

(** [MkdirAll] whose fs.ErrExist does not count. *)
Definition mkdir_all (p : string) (mode : Z) : ST disk unit :=
  r ← attempt (Root.MkdirAll p mode);
  match r with
  | Err ErrExist | Ok _ => mret tt
  | Err e => throw e
  end.

Definition renderDir (e : Meta) : ST mirror unit :=
  _ ← on_disk (mkdir_all (Path e) (Mode e));
  applyMeta e.

(** One step of a write through the scratch file, which is removed if the step fails. *)
Definition or_remove (tmp : string) (q : ST disk unit) : ST disk unit :=
  r ← attempt q;
  match r with
  | Ok _ => mret tt
  | Err e => _ ← attempt (Root.Remove tmp); throw e
  end.

(** A step after which the file is closed as well when it fails. *)
Definition or_close_remove (tmp : string) (q : ST disk unit) : ST disk unit :=
  or_remove tmp (
    r ← attempt q;
    match r with
    | Ok _ => mret tt
    | Err e => _ ← attempt Root.Close; throw e
    end).

Definition tmp_of (p : string) : string := Pkg.Join (Pkg.Dir p) (tmpPrefix +:+ Pkg.Base p).

Definition writeAtomic (p : string) (content : bytes) (mode : Z) : ST disk unit :=
  let dir := Pkg.Dir p in
  _ ← (if bool_decide (dir = "."%string) then mret tt else mkdir_all dir 493 (* 0o755 *));
  let tmp := tmp_of p in
  _ ← Root.OpenFile tmp mode;
  _ ← or_close_remove tmp (Root.Write tmp content);
  _ ← or_close_remove tmp Root.Sync;
  _ ← or_remove tmp Root.Close;
  or_remove tmp (Root.Rename tmp p).

Definition renderFile (e : Meta) : ST mirror unit :=
  onDisk ← attempt (on_disk (readLocal (Path e)));
  let write :=
    content ← on_tree (Content (Hash e));
    _ ← on_disk (writeAtomic (Path e) content (Mode e));
    applyMeta e in
  match onDisk with
  | Ok hash => if String.eqb hash (Hash e) then applyMeta e else write
  | Err ErrNotExist => write
  | Err err => throw err
  end.

Definition render_entry (e : Meta) : ST mirror unit :=
  busy ← isInflight (Path e);
  if busy : bool then mret tt
  else if MKind e =? KindDir then renderDir e
  else if MKind e =? KindFile then renderFile e
  else mret tt.

(** ** Removing what the tree says is gone *)

(** Adds a path on disk that the tree knows as deleted; a path with no row is left alone. *)
Definition doom (keep : list string) (p : string) (is_dir : bool) (doomed : list string) :
    ST mirror (list string) :=
  busy ← isInflight p;
  if bool_decide (p ∈ keep) || busy then mret doomed
  else
    r ← attempt (on_tree (Syncer.Get p));
    match r with
    | Ok entry => mret (if Deleted entry then doomed ++ [p] else doomed)
    | Err _ => mret doomed
    end.

Definition str_ge (a b : string) : Prop := Str.le b a.
#[export] Instance str_ge_dec : RelDecision str_ge := λ a b, Str.le_dec b a.

Definition removeTombstoned : ST mirror unit :=
  live ← on_tree Live;
  doomed ← walk (doom (Path <$> live)) [];
  each (λ p, on_disk (Root.Remove p)) (sort_on id str_ge doomed).

Definition render : ST mirror unit :=
  entries ← on_tree Live;
  _ ← each render_entry (sort_on Path Str.le entries);
  removeTombstoned.

(** ** Promoting *)

Definition stored (p : string) : ST mirror (Meta * bool) :=
  r ← attempt (on_tree (Syncer.Get p));
  match r with
  | Ok entry => mret (entry, true)
  | Err _ => mret (zero_meta, false)
  end.

(** Times are compared in nanoseconds: the file's mtime against time.Unix(0, Wall). *)
Definition diskIsNewer (st : Meta) (known : bool) (modTime : Z) : bool :=
  if negb known then true
  else if Deleted st then false
  else Wall (HLC (MVersion st)) <? modTime.

Definition ownershipFor (can : bool) (info : FileInfo) (st : Meta) (known : bool) : Z * Z :=
  if negb can && known then (UID st, GID st) else (fi_UID info, fi_GID info).

Definition promote (p : string) (isDir : bool) : ST mirror unit :=
  i ← attempt (on_disk (Root.Lstat p));
  match i with
  | Err _ => mret tt
  | Ok info =>
      '(st, known) ← stored p;
      if negb (diskIsNewer st known (fi_ModTime info)) then mret tt
      else
        can ← gets canChown;
        let '(uid, gid) := ownershipFor can info st known in
        let mode := Z.land (fi_Mode info) ModePerm in
        if isDir then
          _ ← attempt (on_tree (PutDir cfg p mode uid gid)); mret tt
        else if fi_Size info >? MaxFileSize cfg then mret tt
        else
          c ← attempt (on_disk (Root.ReadFile p));
          match c with
          | Err _ => mret tt
          | Ok content => _ ← attempt (on_tree (PutFile cfg p content mode uid gid)); mret tt
          end
  end.

Definition scan : ST mirror unit :=
  walk (λ p is_dir _, promote p is_dir) tt.

(** ** Events (internal/mirror/watch.go) *)

(** One settled change. *)
Record event := mkEvent { e_Path : string; e_Removed : bool }.

Definition deleteLocal (p : string) : ST mirror unit :=
  _ ← attempt (on_tree (Delete cfg p)); mret tt.

Definition apply_event (ev : event) : ST mirror unit :=
  i ← attempt (on_disk (Root.Lstat (e_Path ev)));
  if e_Removed ev then
    match i with
    | Ok _ => promote (e_Path ev) false
    | Err _ => deleteLocal (e_Path ev)
    end
  else
    match i with
    | Err ErrNotExist => deleteLocal (e_Path ev)
    | Err _ => mret tt
    | Ok info =>
        if negb (fi_IsDir info) && negb (fi_IsRegular info) then mret tt
        else promote (e_Path ev) (fi_IsDir info)
    end.

Definition applyEvents (batch : list event) : ST mirror unit :=
  _ ← each apply_event batch;
  each (λ ev, clearInflight (e_Path ev)) batch.
End mirror.
