(* ===== verification/Watch.v ===== *)
(** * The watcher and the loop of the mirror (internal/mirror/watch.go and Mirror.Run)

    The watcher goroutine turns raw file system events into settled batches and claims the paths on the way;
    the loop of Run applies a batch at a time, renders when the tree has moved, and scans and
    renders on its timer.  [act] is one action of the two goroutines, of a user of
    the directory or of the rest of the node; a run is a list of actions. *)
From S2P Require Import Prelude GoStrings Clock Paths Crypto Entry Store Resolve Syncer Disk Mirror.

(** fsnotify: an event with the absolute path it is about, and whether adding a watch fails. *)
Record raw := mkRaw { ev_Name : string; op_Create : bool; op_Remove : bool; op_Rename : bool }.
Class Watcher := watch_fails : string → bool.

Record running := mkRunning {
  r_mirror : mirror;
  r_watched : gset string;                           (* the directories with a watch *)
  r_pending : gmap string bool;                      (* path -> removed *)
  r_timer : bool;
  r_sending : option (list event);                   (* the batch the watcher waits to send *)
  r_queue : list (list event);                       (* the channel of depth one *)
  r_applying : option (list event * list event)      (* what is left of the batch, and the batch *)
}.

Definition set_r_mirror (m : mirror) (x : running) : running :=
  mkRunning m (r_watched x) (r_pending x) (r_timer x) (r_sending x) (r_queue x) (r_applying x).
Definition set_watched (w : gset string) (x : running) : running :=
  mkRunning (r_mirror x) w (r_pending x) (r_timer x) (r_sending x) (r_queue x) (r_applying x).
Definition set_pending (p : gmap string bool) (timer : bool) (x : running) : running :=
  mkRunning (r_mirror x) (r_watched x) p timer (r_sending x) (r_queue x) (r_applying x).
Definition set_channel (s : option (list event)) (q : list (list event)) (x : running) : running :=
  mkRunning (r_mirror x) (r_watched x) (r_pending x) (r_timer x) s q (r_applying x).
Definition set_applying (a : option (list event * list event)) (x : running) : running :=
  mkRunning (r_mirror x) (r_watched x) (r_pending x) (r_timer x) (r_sending x) (r_queue x) a.

(** filepath.Rel when the target lies in the base; otherwise it is an error or a path that begins with
    "..", which SanitizePath refuses. *)
Fixpoint strip_elements (base targ : list string) : option (list string) :=
  match base, targ with
  | [], _ => Some targ
  | b :: base', x :: targ' => if String.eqb b x then strip_elements base' targ' else None
  | _, [] => None
  end.
Definition elements (p : string) : list string :=
  if bool_decide (Pkg.Clean p = "."%string) then [] else Str.split slash (Pkg.Clean p).
Definition Rel (base targ : string) : option string :=
  match strip_elements (elements base) (elements targ) with
  | Some [] => Some "."%string
  | Some els => Some (Str.join slash els)
  | None => None
  end.

Section watch.
Context `{DBFaults, Sha256, SystemTime, OS, Watcher} (cfg : Config) (dir : string).

Definition relative (abs : string) : option string :=
  match Rel dir abs with
  | None => None
  | Some rel =>
      if bool_decide (rel = "."%string) then None
      else if Str.has_prefix tmpPrefix (Pkg.Base rel) then None
      else if SanitizePath rel is Ok _ then Some rel else None
  end.

Definition on_mirror {A : Type} (q : ST mirror A) : ST running A := zoom r_mirror set_r_mirror q.

(** fs.WalkDir below [top]: the objects it visits, without what lies below a directory [enter] refuses
    or that cannot be listed. *)
Fixpoint visit_list (enter : key → bool) (skipped : list key) (l : list (key * obj)) : ST mirror (list (key * obj)) :=
  match l with
  | [] => mret []
  | (k, o) :: l' =>
      if existsb (λ a, bool_decide (a `prefix_of` k)) skipped then visit_list enter skipped l'
      else
        readable ← (if obj_is_dir o && enter k then
                      r ← attempt (on_disk (Root.ReadDir k)); mret (is_Ok r)
                    else mret false);
        rest ← visit_list enter (if obj_is_dir o && negb readable then k :: skipped else skipped) l';
        mret ((k, o) :: rest)
  end.

Definition is_scratch (k : key) : bool := Str.has_prefix tmpPrefix (Pkg.Base (path_of k)).

Definition walk_below (top : key) : ST mirror (list (key * obj)) :=
  l ← gets (λ m, filter (λ ko, top `prefix_of` ko.1) (listing (objs (mi_disk m))));
  visit_list (λ k, negb (is_scratch k)) [] l.

(** A watch on a directory and on every directory below it. *)
Definition addWatches (top : key) : ST running unit :=
  l ← on_mirror (walk_below top);
  modify (λ x, set_watched (r_watched x ∪ list_to_set (path_of <$>
    filter (λ k, watch_fails (path_of k) = false)
      ((if bool_decide (top = []) then [[]] else []) ++
       (filter (λ ko, obj_is_dir ko.2 = true ∧ is_scratch ko.1 = false) l).*1))) x).

(** Everything below a directory that has appeared is pending. *)
Definition enqueueTree (top : key) : ST running unit :=
  l ← on_mirror (walk_below top);
  let ps := path_of <$> (filter (λ ko, is_scratch ko.1 = false) l).*1 in
  _ ← modify (λ x, set_pending (foldr (λ p m, <[p := false]> m) (r_pending x) ps) (r_timer x) x);
  on_mirror (each markInflight ps).

(** [watch]: the watcher starts with a watch on every directory. *)
Definition watch : ST running unit := addWatches [].

(** [pump], on a raw event. *)
Definition on_raw (ev : raw) : ST running unit :=
  match relative (ev_Name ev) with
  | None => mret tt
  | Some rel =>
      _ ← (if op_Create ev then
             i ← attempt (on_mirror (on_disk (Root.Lstat rel)));
             match i with
             | Ok info =>
                 if fi_IsDir info then _ ← addWatches (key_of rel); enqueueTree (key_of rel) else mret tt
             | Err _ => mret tt
             end
           else mret tt);
      _ ← modify (λ x, set_pending (<[rel := op_Remove ev || op_Rename ev]> (r_pending x)) true x);
      on_mirror (markInflight rel)
  end.

(** [flush]: the pending paths as a batch, in the order of the map's iteration. *)
Definition flush (order : list string) (pending : gmap string bool) : list event :=
  (λ p, mkEvent p (default false (pending !! p))) <$> order.

(** The loop of Run, on its timer. *)
Definition tick : ST mirror unit :=
  _ ← attempt (scan cfg);
  _ ← attempt render;
  mret tt.

(** Before the loop: adopt what is there, then write out the tree. *)
Definition Run_start : ST mirror unit :=
  _ ← scan cfg;
  render.

Inductive action :=
  | ARaw (ev : raw)                  (* the watcher receives an event *)
  | AFire (order : list string)      (* the settle timer fires *)
  | ASend                            (* the batch goes into the channel *)
  | AReceive                         (* the loop receives a batch *)
  | AApply                           (* one event of it is applied *)
  | ARelease (batch : list event)    (* the batch is done with: its claims are released *)
  | AChanged                         (* the tree has moved *)
  | ATick                            (* the scan timer fires *)
  | AUser (f : gmap key obj)         (* a user changes the directory *)
  | ANode (s : node).                (* the node changes: a pull, an edit through the mount *)

Definition act (a : action) (x : running) : option running :=
  match a with
  | ARaw ev =>
      if r_sending x is None then Some (on_raw ev x).2 else None
  | AFire order =>
      if r_sending x is None then
        if negb (r_timer x) then None
        else if bool_decide (r_pending x = ∅) then Some (set_pending ∅ false x)
        else if bool_decide (NoDup order ∧ list_to_set order = dom (r_pending x)) then
          Some (set_channel (Some (flush order (r_pending x))) (r_queue x) (set_pending ∅ false x))
        else None
      else None
  | ASend =>
      match r_sending x, r_queue x with
      | Some b, [] => Some (set_channel None [b] x)
      | _, _ => None
      end
  | AReceive =>
      match r_applying x, r_queue x with
      | None, b :: q => Some (set_applying (Some (b, b)) (set_channel (r_sending x) q x))
      | _, _ => None
      end
  | AApply =>
      match r_applying x with
      | Some (ev :: todo, all) =>
          Some (set_applying (Some (todo, all)) (set_r_mirror (apply_event cfg ev (r_mirror x)).2 x))
      | _ => None
      end
  | ARelease batch =>
      match r_applying x with
      | Some ([], all) =>
          if bool_decide (e_Path <$> batch = e_Path <$> all) then
            Some (set_applying None
              (set_r_mirror (each (λ ev, clearInflight (e_Path ev)) batch (r_mirror x)).2 x))
          else None
      | _ => None
      end
  | AChanged => if r_applying x is None then Some (set_r_mirror (render (r_mirror x)).2 x) else None
  | ATick => if r_applying x is None then Some (set_r_mirror (tick (r_mirror x)).2 x) else None
  | AUser f => Some (set_r_mirror (set_mi_disk (mkDisk f (calls (mi_disk (r_mirror x)))) (r_mirror x)) x)
  | ANode s => Some (set_r_mirror (set_mi_node s (r_mirror x)) x)
  end.

Fixpoint run (acts : list action) (x : running) : option running :=
  match acts with
  | [] => Some x
  | a :: acts' => y ← act a x; run acts' y
  end.
End watch.
