(* ===== verification/MirrorFacts.v ===== *)
(** * What the mirror promises

    Rendering touches only what the tree accounts for; scanning never deletes; the two do not
    echo each other. *)
From S2P Require Import Prelude GoStrings Clock Paths Crypto Entry Store StoreFacts Resolve Syncer SyncerFacts TreeFacts Disk DiskFacts Mirror.

Section mirror.
Context `{DBFaults, Sha256, !Sha256Laws, SystemTime, OS} (cfg : Config).
Implicit Types (t : tables) (s m : mirror) (e : Meta) (p : string) (f : gmap key obj).

(** ** Loops *)

Lemma moves_each {A} (R : relation mirror) `{!PreOrder R} (body : A → ST mirror unit) l :
  (∀ x, x ∈ l → moves R (body x)) → moves R (each body l).
Proof.
  induction l as [|x l IH]; intros Hb; simpl; [apply moves_ret, _|].
  apply moves_bind; [apply _|apply moves_attempt, Hb; left|]. intros _. apply IH. intros y Hy. apply Hb. by right.
Qed.

Lemma each_Ok {A} (body : A → ST mirror unit) l s : (each body l s).1 = Ok tt.
Proof.
  revert s. induction l as [|x l IH]; intros s; simpl; [done|]. unfold mbind, ST_bind, attempt.
  destruct (body x s). apply IH.
Qed.

Lemma each_cons {A} (body : A → ST mirror unit) x l s : each body (x :: l) s = each body l (body x s).2.
Proof. simpl. unfold mbind, ST_bind, attempt. by destruct (body x s). Qed.

(** The objects the callback of the walk visits. *)
Definition visible (k : key) (o : obj) : Prop :=
  Str.has_prefix tmpPrefix (Pkg.Base (path_of k)) = false ∧ (∀ a, o ≠ Other a) ∧ canonical (path_of k).

Section walk.
Context {A : Type} (visit : string → bool → A → ST mirror A) (J : A → mirror → Prop) (l0 : list (key * obj)).
Hypothesis visit_keeps : ∀ k o acc s, (k, o) ∈ l0 → visible k o → J acc s →
  ∃ acc' s', visit (path_of k) (obj_is_dir o) acc s = (Ok acc', s') ∧ J acc' s'.
Hypothesis read_keeps : ∀ acc s k, J acc s → J acc (on_disk (Root.ReadDir k) s).2.

Lemma on_walk_keeps k o acc s : (k, o) ∈ l0 → J acc s →
  ∃ acc' enter s', on_walk visit (path_of k) o acc s = (Ok (acc', enter), s') ∧ J acc' s' ∧
    (canonical (path_of k) → obj_is_dir o = true → enter = true).
Proof.
  intros Hin HJ. unfold on_walk. destruct (Str.has_prefix _ _) eqn:Et; [by do 3 eexists|].
  rewrite SanitizePath_eq. destruct o as [a|a x c|a]; [| |by do 3 eexists]; case_bool_decide as Hc.
  2,4: by do 3 eexists.
  all: destruct (visit_keeps k _ acc s Hin) as (acc' & s' & E & HJ'); [by split_and!|done|].
  all: unfold mbind, ST_bind; rewrite E; by do 3 eexists.
Qed.

Lemma walk_list_keeps skipped l acc s : l ⊆ l0 → J acc s →
  ∃ acc' s', walk_list visit skipped l acc s = (Ok acc', s') ∧ J acc' s'.
Proof.
  revert skipped acc s. induction l as [|[k o] l IH]; intros skipped acc s Hl HJ; simpl; [by do 2 eexists|].
  assert (l ⊆ l0) as Hl' by set_solver. case_match; [by apply IH|].
  destruct (on_walk_keeps k o acc s) as (acc' & enter & s' & E & HJ' & _); [set_solver|done|].
  unfold mbind, ST_bind at 1. rewrite E. cbn. destruct (negb (obj_is_dir o)); [by apply IH|].
  destruct (negb enter); [by apply IH|].
  pose proof (read_keeps acc' s' k HJ') as HJr. unfold mbind, ST_bind, attempt.
  destruct (on_disk (Root.ReadDir k) s') as [[]]; by apply IH.
Qed.

Lemma on_walk_visible k o acc s : visible k o →
  on_walk visit (path_of k) o acc s =
    (acc' ← visit (path_of k) (obj_is_dir o) acc; mret (acc', true)) s.
Proof.
  intros (Ht & Ho & Hc). unfold on_walk. rewrite Ht, SanitizePath_eq, bool_decide_true by done.
  destruct o as [| |a]; [done|done|by destruct (Ho a)].
Qed.
End walk.

(** When nothing fails, the walk visits every object that is visible and below directories it enters. *)
Section reach.
Context {A : Type} (visit : string → bool → A → ST mirror A) (J Q : A → mirror → Prop) (l0 : list (key * obj)).
Context (Hos : ∀ n, os_fails n = None) (k : key) (o : obj) (Hvis : visible k o).
Hypothesis visit_keeps : ∀ k' o' acc s, (k', o') ∈ l0 → visible k' o' → J acc s →
  ∃ acc' s', visit (path_of k') (obj_is_dir o') acc s = (Ok acc', s') ∧ J acc' s' ∧
    (k' = k → o' = o → Q acc' s') ∧ (Q acc s → Q acc' s').
Hypothesis read_keeps : ∀ acc s k', (J acc s → J acc (on_disk (Root.ReadDir k') s).2) ∧
  (Q acc s → Q acc (on_disk (Root.ReadDir k') s).2).

Lemma walk_list_reaches skipped l acc s :
  l ⊆ l0 → (k, o) ∈ l → (∀ k' o', (k', o') ∈ l → k' `prefix_of` k → canonical (path_of k')) →
  Forall (λ a, ¬ a `prefix_of` k) skipped → J acc s →
  ∃ acc' s', walk_list visit skipped l acc s = (Ok acc', s') ∧ J acc' s' ∧ Q acc' s'.
Proof.
  revert skipped acc s. induction l as [|[k1 o1] l IH]; intros skipped acc s Hl Hin Hpre Hsk HJ.
  { by apply elem_of_nil in Hin. }
  assert (l ⊆ l0) as Hl' by set_solver. simpl. destruct (decide ((k1, o1) = (k, o))) as [[= -> ->]|Hne].
  - destruct (existsb _ skipped) eqn:Ex.
    { apply existsb_exists in Ex as (a & Ha%list_elem_of_In & Hp%bool_decide_eq_true).
      rewrite Forall_forall in Hsk. by destruct (Hsk a Ha). }
    destruct (visit_keeps k o acc s) as (acc1 & s1 & E1 & HJ1 & HQ1 & _); [set_solver|done|done|].
    specialize (HQ1 eq_refl eq_refl). unfold mbind at 1, ST_bind at 1. rewrite on_walk_visible by done.
    unfold mbind at 1, ST_bind at 1. rewrite E1. cbn.
    assert (∀ s2 sk, J acc1 s2 → Q acc1 s2 →
      ∃ acc' s', walk_list visit sk l acc1 s2 = (Ok acc', s') ∧ J acc' s' ∧ Q acc' s') as Hrest.
    { intros s2 sk HJ2 HQ2. apply (walk_list_keeps visit (λ a m, J a m ∧ Q a m) l0); [| |done|done].
      - intros k' o' a m Hin' Hv' [Ja Qa]. destruct (visit_keeps k' o' a m) as (a' & m' & E' & ? & _ & ?); [done..|].
        exists a', m'. auto.
      - intros a m k' [Ja Qa]. destruct (read_keeps a m k'). auto. }
    destruct (negb (obj_is_dir o)); [by apply Hrest|]. destruct (read_keeps acc1 s1 k) as [R1 R2].
    unfold mbind, ST_bind, attempt. destruct (on_disk (Root.ReadDir k) s1) as [[]]; apply Hrest; auto.
  - assert ((k, o) ∈ l) as Hin' by (apply elem_of_cons in Hin as [?|?]; [congruence|done]).
    assert (∀ k' o', (k', o') ∈ l → k' `prefix_of` k → canonical (path_of k')) as Hpre'
      by (intros; eapply Hpre; [by right|done]).
    destruct (existsb _ skipped); [by apply IH|].
    destruct (on_walk_keeps visit J l0) with (k := k1) (o := o1) (acc := acc) (s := s)
      as (acc1 & enter & s1 & E1 & HJ1 & Hent); [|set_solver|done|].
    { intros k' o' a m H1' H2' H3'. destruct (visit_keeps k' o' a m) as (a' & m' & ? & ? & _); eauto. }
    unfold mbind at 1, ST_bind at 1. rewrite E1. cbn. destruct (obj_is_dir o1) eqn:Eo; simpl; [|by apply IH].
    destruct enter; simpl.
    + destruct (read_keeps acc1 s1 k1) as [R1 _]. unfold mbind, ST_bind, attempt, on_disk, zoom in *.
      unfold Root.ReadDir, Root.sys in *. rewrite Hos in *. apply IH; auto.
    + apply IH; try done. apply Forall_cons. split; [|done]. intros Hp.
      assert (false = true) as Hf; [|done]. apply Hent; [|done]. eapply Hpre; [by left|done].
Qed.
End reach.

Lemma walk_reaches {A} (visit : string → bool → A → ST mirror A) (J Q : A → mirror → Prop) k o acc s :
  (∀ n, os_fails n = None) → wf_objs (objs (mi_disk s)) → objs (mi_disk s) !! k = Some o → visible k o →
  (∀ k' o' acc s', objs (mi_disk s) !! k' = Some o' → visible k' o' → J acc s' →
     ∃ acc' s'', visit (path_of k') (obj_is_dir o') acc s' = (Ok acc', s'') ∧ J acc' s'' ∧
       (k' = k → o' = o → Q acc' s'') ∧ (Q acc s' → Q acc' s'')) →
  (∀ acc s k, (J acc s → J acc (on_disk (Root.ReadDir k) s).2) ∧ (Q acc s → Q acc (on_disk (Root.ReadDir k) s).2)) →
  J acc s → ∃ acc' s', walk visit acc s = (Ok acc', s') ∧ J acc' s' ∧ Q acc' s'.
Proof.
  intros Hos Hw Ek Hvis Hv Hr HJ. unfold walk, mbind, ST_bind, attempt. destruct (Hr acc s []) as [HJ1 _].
  specialize (HJ1 HJ). revert HJ1. unfold on_disk at 1 2, zoom, Root.ReadDir, Root.sys. rewrite Hos. simpl. intros HJ1.
  assert (∀ k' o', (k', o') ∈ listing (objs (mi_disk s)) ↔ objs (mi_disk s) !! k' = Some o') as Hin.
  { intros. unfold listing. by rewrite elem_of_sort_on, elem_of_map_to_list. }
  eapply (walk_list_reaches visit J Q (listing (objs (mi_disk s))) Hos k o Hvis); [|done|done| | |constructor|done].
  - intros k' o' acc' s' H1' H2' H3'. apply Hv; [by apply Hin|done..].
  - by apply Hin.
  - intros k' o' H1'%Hin Hp. destruct Hvis as (_ & _ & Hc). destruct (Hw _ _ H1') as (Hk' & Hn' & _).
    destruct Hp as [r ->]. destruct r as [|x r]; [by rewrite app_nil_r in Hc|].
    eapply canonical_prefix; [exact Hc|]. apply Str.has_prefix_iff. exists (path_of (x :: r)).
    unfold path_of. rewrite Str.app_assoc. by apply join_app.
Qed.

Lemma walk_keeps {A} (visit : string → bool → A → ST mirror A) (J : A → mirror → Prop) acc s :
  (∀ k o acc s', objs (mi_disk s) !! k = Some o → visible k o → J acc s' →
     ∃ acc' s'', visit (path_of k) (obj_is_dir o) acc s' = (Ok acc', s'') ∧ J acc' s'') →
  (∀ acc s k, J acc s → J acc (on_disk (Root.ReadDir k) s).2) → J acc s →
  ∃ acc' s', walk visit acc s = (Ok acc', s') ∧ J acc' s'.
Proof.
  intros Hv Hr HJ. unfold walk, mbind, ST_bind, attempt. pose proof (Hr acc s [] HJ) as HJ1.
  assert (objs (mi_disk (on_disk (Root.ReadDir []) s).2) = objs (mi_disk s)) as Eo.
  { unfold on_disk, zoom, Root.ReadDir, Root.sys. by destruct (os_fails _). }
  destruct (on_disk (Root.ReadDir []) s) as [[u|e] s1]; simpl in *; [|by do 2 eexists].
  eapply (walk_list_keeps visit J (listing (objs (mi_disk s1)))); [|done|done|done].
  intros k o acc' s' Hin Hvis HJ'. apply Hv; [|done..]. rewrite <- Eo.
  unfold listing in Hin. rewrite elem_of_sort_on, elem_of_map_to_list in Hin. done.
Qed.

(** ** Scratch names *)

Lemma name_ok_tmp el : name_ok el → name_ok (tmpPrefix +:+ el).
Proof.
  intros [_ Hs]. split; [by split_and!|]. by rewrite Str.has_char_app, Hs.
Qed.

Lemma canonical_snoc p : canonical p → ∃ els el, key_of p = els ++ [el] ∧ Forall name_ok (els ++ [el]) ∧
  p = path_of (els ++ [el]) ∧ names_short (els ++ [el]).
Proof.
  intros Hc. destruct (canonical_key p Hc) as (Hk & Hn & Hs). pose proof (canonical_path_key p Hc) as Ep.
  destruct (key_of p) as [|el els _] using rev_ind; [done|]. by exists els, el.
Qed.

Lemma tmp_key p els el : p = path_of (els ++ [el]) → Forall name_ok (els ++ [el]) →
  key_of (tmp_of p) = els ++ [tmpPrefix +:+ el] ∧ Forall name_ok (els ++ [tmpPrefix +:+ el]).
Proof.
  intros -> Hn. pose proof (snoc_names _ _ Hn) as [Hels Hel]. apply name_ok_tmp in Hel.
  assert (Forall name_ok (els ++ [tmpPrefix +:+ el])) as Hn' by (apply Forall_app; by rewrite Forall_singleton).
  split; [|done]. unfold tmp_of. rewrite Base_snoc, Join_snoc by done. apply key_path; [by destruct els|done].
Qed.

Lemma dir_key p els el : p = path_of (els ++ [el]) → Forall name_ok (els ++ [el]) → key_of (Pkg.Dir p) = els.
Proof.
  intros -> Hn. rewrite Dir_snoc by done. case_decide as Hd; [by subst|].
  apply key_path; [done|]. by apply (snoc_names _ _ Hn).
Qed.

(** ** What rendering may touch *)

(** Writing out one entry changes its own object and its scratch file, and makes the directories
    that are missing above it. *)
Section entry.
Context (K : key → Prop) (R : relation (gmap key obj)) `{!calls_respect K R} (p : string).
Hypotheses (Hp : canonical p) (HK : K (key_of p)) (HT : K (key_of (tmp_of p))).


Lemma moves_mkdir_all q mode : key_of q `prefix_of` key_of p → moves (key_rel objs R) (mkdir_all q mode).
Proof.
  intros Hq. unfold mkdir_all. apply moves_bind; [apply _| |].
  - eapply moves_attempt, moves_MkdirAll; [done|exact HK|done|]. destruct (canonical_key p Hp) as (_ & Hn & _).
    destruct Hq as [r Er]. rewrite Er in Hn. by apply Forall_app in Hn as [? _].
  - intros [|[]]; apply moves_ret || apply moves_throw; apply _.
Qed.

Lemma moves_or_remove tmp q : K (key_of tmp) → moves (key_rel objs R) q → moves (key_rel objs R) (or_remove tmp q).
Proof.
  intros Ht Hq. apply moves_bind; [apply _|by apply moves_attempt|]. intros [|e]; [apply moves_ret, _|].
  apply moves_bind; [apply _|by eapply moves_attempt, moves_Remove|intros; apply moves_throw, _].
Qed.

Lemma moves_or_close_remove tmp q :
  K (key_of tmp) → moves (key_rel objs R) q → moves (key_rel objs R) (or_close_remove tmp q).
Proof.
  intros Ht Hq. apply moves_or_remove; [done|]. apply moves_bind; [apply _|by apply moves_attempt|].
  intros [|e]; [apply moves_ret, _|].
  apply moves_bind; [apply _|by eapply moves_attempt, moves_Close|intros; apply moves_throw, _].
Qed.

Lemma moves_writeAtomic content mode : moves (key_rel objs R) (writeAtomic p content mode).
Proof.
  destruct (canonical_snoc p Hp) as (els & el & Ek & Hn & Ep & _). pose proof (tmp_key p els el Ep Hn) as [Et Htn].
  unfold writeAtomic. apply moves_bind; [apply _| |intros _; apply moves_bind; [apply _| |intros _]].
  - case_bool_decide; [apply moves_ret, _|]. apply moves_mkdir_all. rewrite Ek, (dir_key p els el) by done.
    by apply prefix_app_r.
  - eapply moves_OpenFile; [done|exact HT|by rewrite Et; destruct els|by rewrite Et].
  - apply moves_bind; [apply _|by eapply moves_or_close_remove, moves_Write|intros _].
    apply moves_bind; [apply _|by eapply moves_or_close_remove, moves_Sync|intros _].
    apply moves_bind; [apply _|by eapply moves_or_remove, moves_Close|intros _].
    apply moves_or_remove; [done|]. destruct (canonical_key p Hp) as (? & ? & _). by eapply moves_Rename.
Qed.

Lemma moves_readLocal : moves (key_rel objs R) (readLocal p).
Proof.
  unfold readLocal. apply moves_bind; [apply _|by eapply moves_Lstat|]. intros info.
  case_match; [apply moves_throw, _|]. apply moves_bind; [apply _|by eapply moves_ReadFile|].
  intros; apply moves_ret, _.
Qed.
End entry.

(** ** Rendering as a move *)

(** The tree and the claims stay as they are, and the disk changes along [R]. *)
Definition rendering t (fl : gset string) (R : relation (gmap key obj)) m m' : Prop :=
  tbl (db (mi_node m)) = t → inflight m = fl →
  observable (mi_node m') = observable (mi_node m) ∧ inflight m' = fl ∧ R (objs (mi_disk m)) (objs (mi_disk m')).

Lemma rendering_preorder t fl R : PreOrder R → PreOrder (rendering t fl R).
Proof.
  intros HR. split; [by intros m|]. intros m1 m2 m3 H12 H23 Ht Hf.
  destruct (H12 Ht Hf) as (Ho & Hf' & HR1). pose proof (observable_tbl _ _ Ho) as Ht'. rewrite Ht in Ht'.
  destruct (H23 Ht' Hf') as (Ho' & Hf'' & HR2). split_and!; [congruence|done|by etransitivity].
Qed.

Section moves.
Context t (fl : gset string) (R : relation (gmap key obj)) `{!PreOrder R}.
#[local] Instance rendering_pre : PreOrder (rendering t fl R) := rendering_preorder t fl R _.

Lemma rendering_disk {A : Type} (q : ST disk A) : moves (key_rel objs R) q → moves (rendering t fl R) (on_disk q).
Proof. intros Hq. apply moves_zoom. intros m Ht Hf. split_and!; [done..|]. apply Hq. Qed.

Lemma rendering_tree {A : Type} (q : ST node A) :
  (∀ n : node, observable (q n).2 = observable n) → moves (rendering t fl R) (on_tree q).
Proof. intros Hq. apply moves_zoom. intros m Ht Hf. split_and!; [apply Hq|done..]. Qed.

Lemma rendering_chown can warned : moves (rendering t fl R) (modify (set_chown can warned)).
Proof. intros m Ht Hf. by split_and!. Qed.

Lemma rendering_busy {A : Type} p (k : bool → ST mirror A) :
  (p ∈ fl → moves (rendering t fl R) (k true)) → (p ∉ fl → moves (rendering t fl R) (k false)) →
  moves (rendering t fl R) (b ← isInflight p; k b).
Proof.
  intros Hin Hout m Ht Hf. unfold mbind, ST_bind, isInflight, gets. rewrite Hf.
  case_bool_decide; [by apply Hin|by apply Hout].
Qed.

Lemma quiet_tree_Content h (s : node) : observable (Content h s).2 = observable s.
Proof.
  destruct (Content h s) as [r s'] eqn:E. simpl. apply on_db_inv in E as (d' & E & ->). apply on_db_quiet.
  unfold GetBlob in E. apply select_bind_inv in E as [(_ & _ & ?)|(d1 & <- & E)]; [done|].
  case_match; by injection E as _ <-.
Qed.

Lemma rendering_Live {A : Type} (k : list Meta → ST mirror A) :
  moves (rendering t fl R) (k (select_live t)) → moves (rendering t fl R) (l ← on_tree Live; k l).
Proof.
  intros Hk m Ht Hf. unfold mbind, ST_bind, on_tree, zoom.
  destruct (Live (mi_node m)) as [r s'] eqn:E. apply Live_inv in E as [Ho [[-> _]| ->]].
  - by split_and!.
  - rewrite Ht. pose proof (observable_tbl _ _ Ho) as Ht'. rewrite Ht in Ht'.
    destruct (Hk (set_mi_node s' m) Ht' Hf) as (Ho' & ? & ?). split_and!; [|done..]. by rewrite Ho'.
Qed.
End moves.
#[local] Existing Instance rendering_preorder.

Section renders.
Context t (fl : gset string) (K : key → Prop) (R : relation (gmap key obj)) `{!calls_respect K R}.
#[local] Instance respect_pre : PreOrder R.
Proof. split; [apply cr_refl|apply cr_trans]. Qed.

Lemma moves_applyMeta e : K (key_of (Path e)) → moves (rendering t fl R) (applyMeta e).
Proof.
  intros HK. unfold applyMeta. apply moves_bind; [apply _| |intros _].
  { by eapply rendering_disk, moves_change_perms. }
  apply moves_bind; [apply _|apply moves_gets, _|]. intros can. destruct (negb can); [apply moves_ret, _|].
  apply moves_bind; [apply _| |].
  - by eapply moves_attempt, rendering_disk, moves_change_perms.
  - intros [|]; [apply moves_ret, _|apply rendering_chown, _].
Qed.

Lemma moves_render_entry e : canonical (Path e) →
  (Path e ∉ fl → K (key_of (Path e)) ∧ K (key_of (tmp_of (Path e)))) →
  moves (rendering t fl R) (render_entry e).
Proof.
  intros Hc HK. unfold render_entry. apply rendering_busy; [intros _; apply moves_ret, _|].
  intros [HK1 HK2]%HK. destruct (MKind e =? KindDir).
  { apply moves_bind; [apply _| |intros; by apply moves_applyMeta].
    by eapply rendering_disk, moves_mkdir_all. }
  destruct (MKind e =? KindFile); [|apply moves_ret, _]. unfold renderFile.
  apply moves_bind; [apply _|by eapply moves_attempt, rendering_disk, moves_readLocal|].
  assert (moves (rendering t fl R) (content ← on_tree (Content (Hash e));
    _ ← on_disk (writeAtomic (Path e) content (Mode e)); applyMeta e)) as Hw.
  { apply moves_bind; [apply _|apply rendering_tree, quiet_tree_Content; apply _|]. intros content.
    apply moves_bind; [apply _|by eapply rendering_disk, moves_writeAtomic|intros; by apply moves_applyMeta]. }
  intros [h|[]]; try done; try apply moves_throw, _. case_match; [by apply moves_applyMeta|done].
Qed.
End renders.

(** The tree knows the path as deleted. *)
Definition tombstone t p : Prop := (entry_at t p).2 = true ∧ Deleted (entry_at t p).1 = true.

#[export] Instance tombstone_dec t p : Decision (tombstone t p).
Proof. unfold tombstone. apply _. Defined.

(** Reading the disk or the tree is no change. *)
Lemma read_dir_quiet t fl R `{!PreOrder R} k : moves (rendering t fl R) (on_disk (Root.ReadDir k)).
Proof. apply rendering_disk. apply moves_sys; [apply _|]. by intros. Qed.

(** What removeTombstoned has collected: tombstones that are not claimed. *)
Definition doomed_ok t (fl : gset string) p : Prop := canonical p ∧ tombstone t p ∧ ¬ p ∈ fl.

Lemma doom_spec keep p b acc m : ∃ acc' m', doom keep p b acc m = (Ok acc', m') ∧
  observable (mi_node m') = observable (mi_node m) ∧ inflight m' = inflight m ∧ mi_disk m' = mi_disk m ∧
  canChown m' = canChown m ∧
  (acc' = acc ∨ (acc' = acc ++ [p] ∧ tombstone (tbl (db (mi_node m))) p ∧ p ∉ inflight m)) ∧
  (¬ db_fault → tombstone (tbl (db (mi_node m))) p → p ∉ inflight m → p ∉ keep → acc' = acc ++ [p]).
Proof.
  unfold doom, isInflight, mbind, ST_bind, gets. bool_case (p ∈ keep) as Hk; [by do 2 eexists; split_and!; auto|].
  bool_case (p ∈ inflight m) as Hf; [by do 2 eexists; split_and!; auto|]. simpl.
  unfold attempt, on_tree, zoom. destruct (Syncer.Get p (mi_node m)) as [r s'] eqn:E.
  apply Get_entry in E as [Ho [[-> Hfault]|[(e & -> & Em)|[-> Em]]]]; unfold tombstone; rewrite ?Em; simpl.
  - do 2 eexists. split; [done|]. by split_and!; auto.
  - destruct (Deleted e); do 2 eexists; (split; [done|]); split_and!; auto; by intros _ [].
  - do 2 eexists. split; [done|]. split_and!; auto. by intros _ [].
Qed.

Lemma walk_doom keep m t : tbl (db (mi_node m)) = t →
  ∃ acc m', walk (doom keep) [] m = (Ok acc, m') ∧
    observable (mi_node m') = observable (mi_node m) ∧ inflight m' = inflight m ∧
    objs (mi_disk m') = objs (mi_disk m) ∧ canChown m' = canChown m ∧
    Forall (doomed_ok t (inflight m)) acc.
Proof.
  intros Ht.
  destruct (walk_keeps (doom keep) (λ acc m', observable (mi_node m') = observable (mi_node m) ∧
    inflight m' = inflight m ∧ objs (mi_disk m') = objs (mi_disk m) ∧ canChown m' = canChown m ∧
    Forall (doomed_ok t (inflight m)) acc) [] m) as (acc & m' & E & HJ).
  - intros k o acc m' Ek (_ & _ & Hc) (Ho & Hf & Hd & Hch & Hacc).
    destruct (doom_spec keep (path_of k) (obj_is_dir o) acc m') as (acc' & m'' & E & Ho' & Hf' & Hd' & Hch' & Hacc' & _).
    do 2 eexists. split; [exact E|]. split_and!; try congruence.
    destruct Hacc' as [->|(-> & Htomb & Hfl)]; [done|]. apply Forall_app. split; [done|]. apply Forall_singleton.
    pose proof (observable_tbl _ _ Ho) as Ht'. rewrite Ht', Ht in Htomb. rewrite Hf in Hfl.
    by split_and!.
  - intros acc m' k. unfold on_disk, zoom, Root.ReadDir, Root.sys. by destruct (os_fails _).
  - by split_and!.
  - eauto 10.
Qed.

(** The paths a render may touch: those of live entries that are not claimed, with their scratch names, and
    those of tombstones that are not claimed. *)
Definition tomb_scope t (fl : gset string) (k : key) : Prop :=
  ∃ p, tombstone t p ∧ canonical p ∧ ¬ p ∈ fl ∧ k = key_of p.
Definition render_scope t (fl : gset string) (k : key) : Prop :=
  (∃ e, live_entry t (Path e) e ∧ ¬ Path e ∈ fl ∧ (k = key_of (Path e) ∨ k = key_of (tmp_of (Path e)))) ∨
  tomb_scope t fl k.

Lemma respect_weaken (K K' : key → Prop) R : (∀ k, K' k → K k) → calls_respect K R → calls_respect K' R.
Proof.
  intros HK C. split; [apply cr_refl|apply cr_trans|..].
  - intros. eapply cr_update; eauto.
  - intros. eapply cr_create; eauto.
  - intros. eapply cr_delete; eauto.
Qed.

Lemma moves_removeTombstoned t fl R `{!calls_respect (tomb_scope t fl) R} :
  moves (rendering t fl R) removeTombstoned.
Proof.
  unfold removeTombstoned. apply rendering_Live; [by apply (respect_pre (tomb_scope t fl))|].
  set (keep := Path <$> select_live t). intros m Ht Hf. unfold mbind, ST_bind.
  destruct (walk_doom keep m t Ht) as (acc & m1 & -> & Ho & Hf1 & Hd & _ & Hacc). rewrite Hf in *.
  pose proof (observable_tbl _ _ Ho) as Ht1. rewrite Ht in Ht1.
  assert (PreOrder R) as HR by (by apply (respect_pre (tomb_scope t fl))).
  assert (moves (rendering t fl R) (each (λ p, on_disk (Root.Remove p)) (sort_on id str_ge acc))) as Hm.
  { apply moves_each; [apply _|]. intros p Hp. eapply rendering_disk, moves_Remove; [done|].
    rewrite Forall_forall in Hacc. destruct (Hacc p) as (? & ? & ?).
    - unfold sort_on in Hp. by rewrite merge_sort_Permutation in Hp.
    - by exists p. }
  destruct (Hm m1 Ht1 Hf1) as (Ho' & Hf' & HR'). rewrite Ho, Hd in *. by split_and!.
Qed.

#[export] Instance both_respect (K : key → Prop) (R1 R2 : relation (gmap key obj)) :
  calls_respect K R1 → calls_respect K R2 → calls_respect K (λ f f', R1 f f' ∧ R2 f f').
Proof.
  intros C1 C2. split.
  - intros f. split; apply cr_refl.
  - intros f1 f2 f3 [] []. split; by eapply cr_trans.
  - intros. split; by eapply cr_update.
  - intros. split; by eapply cr_create.
  - intros. split; by eapply cr_delete.
Qed.

Lemma moves_render t fl R `{!calls_respect (render_scope t fl) R} :
  wf_tables t → tidy t → moves (rendering t fl R) render.
Proof.
  intros Hw Htidy. assert (PreOrder R) as HR by (by apply (respect_pre (render_scope t fl))).
  unfold render. apply rendering_Live; [apply _|].
  apply moves_bind; [apply _| |intros; apply moves_removeTombstoned; eapply respect_weaken; [|done]; by right].
  apply moves_each; [apply _|]. intros e He. rewrite elem_of_sort_on in He. apply elem_of_live in He; [|done].
  eapply moves_render_entry; [done|by eapply live_entry_tidy|]. intros Hfl. split; left; exists e; auto.
Qed.

Lemma render_frame m r m' :
  let t := tbl (db (mi_node m)) in
  wf_tables t → tidy t → wf_objs (objs (mi_disk m)) → render m = (r, m') →
  observable (mi_node m') = observable (mi_node m) ∧ inflight m' = inflight m ∧
  wf_objs (objs (mi_disk m')) ∧
  touch (render_scope t (inflight m)) (objs (mi_disk m)) (objs (mi_disk m')).
Proof.
  intros t Hw Htidy Hd E.
  destruct (moves_render t (inflight m) (λ f f', (wf_objs f → wf_objs f') ∧ touch (render_scope t (inflight m)) f f')
    Hw Htidy m eq_refl eq_refl) as (Ho & Hf & Hd' & Ht). rewrite E in *. split_and!; auto.
Qed.

(** C24: Rendering never touches what the tree does not account for.  Whatever fails on the way, a
    render leaves the tree, the claims and every object on disk as they are, except at the path of a live
    entry, at its scratch name, and at the path of a tombstone — and not even there while the path is
    claimed by an event that waits; what it adds is at such a path or a directory above
    one; and the disk stays a tree. *)
Theorem render_touches m r m' :
  let t := tbl (db (mi_node m)) in
  wf_tables t → tidy t → wf_objs (objs (mi_disk m)) → render m = (r, m') →
  observable (mi_node m') = observable (mi_node m) ∧ inflight m' = inflight m ∧
  wf_objs (objs (mi_disk m')) ∧
  touch (render_scope t (inflight m)) (objs (mi_disk m)) (objs (mi_disk m')).
Proof. apply render_frame. Qed.
End mirror.
