(* ===== verification/RenderFacts.v ===== *)
(** * Rendering on a disk that works

    When no system call fails and nothing on disk or in the tree is in the way, a render leaves
    every entry of the tree on disk as it is in the tree. *)
From S2P Require Import Prelude GoStrings Clock Paths Crypto Entry Store StoreFacts Resolve Syncer SyncerFacts TreeFacts Disk DiskFacts Mirror MirrorFacts.

(** Nothing but directories at [k] and above it. *)
Definition clear_to (f : gmap key obj) (k : key) : Prop :=
  ∀ a b, k = a ++ b → a ≠ [] → f !! a = None ∨ ∃ x, f !! a = Some (Dir x).

(** The objects of [f] are still there, and what is new are directories at or above [k]. *)
Definition dirs_grown (k : key) (f f' : gmap key obj) : Prop :=
  (∀ k' o, f !! k' = Some o → f' !! k' = Some o) ∧
  (∀ k', f !! k' = None → f' !! k' = None ∨ (k' ≠ [] ∧ k' `prefix_of` k ∧ ∃ x, f' !! k' = Some (Dir x))).

Lemma dirs_grown_refl k f : dirs_grown k f f.
Proof. split; auto. Qed.

Lemma dirs_grown_trans k f1 f2 f3 : dirs_grown k f1 f2 → dirs_grown k f2 f3 → dirs_grown k f1 f3.
Proof.
  intros [H12 N12] [H23 N23]. split; [auto|]. intros k' E.
  destruct (N12 k' E) as [E2|(? & ? & x & E2)]; [by apply N23|]. right. split_and!; [done..|]. exists x. by apply H23.
Qed.

Lemma grown_dirs k f f' k' : dirs_grown k f f' → dirs_to f k' → dirs_to f' k'.
Proof. intros [Hs _] Hd a b E Ha Hb. destruct (Hd a b E Ha Hb) as [x Hx]. eauto. Qed.

Section run.
Context `{OS} (Hos : ∀ n, os_fails n = None).
Implicit Types (d : disk) (f : gmap key obj) (k : key).

Lemma sys_run {A : Type} (q : nat → gmap key obj → result A * gmap key obj) d :
  Root.sys q d = ((q (calls d) (objs d)).1, mkDisk (q (calls d) (objs d)).2 (S (calls d))).
Proof. unfold Root.sys. rewrite Hos. by destruct (q (calls d) (objs d)). Qed.

Lemma mkdir_run k mode last d :
  names_short k → k ≠ [] → dirs_to (objs d) k → (objs d !! k = None ∨ ∃ x, objs d !! k = Some (Dir x)) →
  ∃ d', Root.mkdir k mode last d = (Ok tt, d') ∧ dirs_grown k (objs d) (objs d') ∧ ∃ x, objs d' !! k = Some (Dir x).
Proof.
  intros Hs Hk Hd Hc. unfold Root.mkdir. rewrite sys_run, descend_Ok by done.
  destruct Hc as [Ek|[x Ek]]; rewrite Ek; eexists; (split; [done|]); simpl.
  - split; [|rewrite lookup_insert_eq; by eauto]. split.
    + intros k' o E. rewrite lookup_insert_ne; [done|congruence].
    + intros k' E. destruct (decide (k = k')) as [->|Hne]; [right|left; by rewrite lookup_insert_ne].
      rewrite lookup_insert_eq. split_and!; by eauto.
  - split; [apply dirs_grown_refl|by eauto].
Qed.

Lemma mkdirs_run at_ rest mode d :
  names_short (at_ ++ rest) → dirs_to (objs d) at_ → (at_ ≠ [] → ∃ x, objs d !! at_ = Some (Dir x)) →
  clear_to (objs d) (at_ ++ rest) →
  ∃ d', Root.mkdirs at_ rest mode d = (Ok tt, d') ∧ dirs_grown (at_ ++ rest) (objs d) (objs d') ∧
    dirs_to (objs d') (at_ ++ rest) ∧ (at_ ++ rest ≠ [] → ∃ x, objs d' !! (at_ ++ rest) = Some (Dir x)).
Proof.
  revert at_ d. induction rest as [|el rest IH]; intros at_ d Hs Hd Hat Hc; simpl.
  { rewrite app_nil_r in *. exists d. split_and!; [done|apply dirs_grown_refl|done|done]. }
  assert (at_ ++ el :: rest = (at_ ++ [el]) ++ rest) as Eq by (by rewrite <- (assoc_L (++))).
  rewrite Eq in *. clear Eq. assert (dirs_to (objs d) (at_ ++ [el])) as Hd1 by (by apply dirs_to_snoc).
  destruct (mkdir_run (at_ ++ [el]) mode (bool_decide (rest = [])) d) as (d1 & E1 & G1 & X1).
  - by apply Forall_app in Hs as [? _].
  - by destruct at_.
  - done.
  - apply (Hc _ rest); [done|by destruct at_].
  - unfold mbind, ST_bind. rewrite E1. destruct (IH (at_ ++ [el]) d1) as (d2 & E2 & G2 & D2 & X2).
    + done.
    + by eapply grown_dirs.
    + done.
    + intros a b E Ha. destruct G1 as [S1 N1]. destruct (Hc a b E Ha) as [Hn|[x Hx]]; [|eauto].
      destruct (N1 a Hn) as [?|(_ & _ & ?)]; auto.
    + exists d2. split_and!; [done| |done|done]. eapply dirs_grown_trans; [|exact G2].
      destruct G1 as [S1 N1]. split; [done|]. intros k' E. destruct (N1 k' E) as [?|(? & ? & ?)]; [by left|right].
      split_and!; [done| |done]. etransitivity; [done|]. by apply prefix_app_r.
Qed.

Lemma MkdirAll_run p mode d :
  names_short (key_of p) → Root.plain_mode mode = true → clear_to (objs d) (key_of p) →
  ∃ d', mkdir_all p mode d = (Ok tt, d') ∧ dirs_grown (key_of p) (objs d) (objs d') ∧
    dirs_to (objs d') (key_of p) ∧ (key_of p ≠ [] → ∃ x, objs d' !! key_of p = Some (Dir x)).
Proof.
  intros Hs Hm Hc. destruct (mkdirs_run [] (key_of p) mode d) as (d' & E & G & D & X); [done| |done|done|].
  { intros [|] ? ?; naive_solver. }
  exists d'. split_and!; [|done..]. unfold mkdir_all, Root.MkdirAll. rewrite Hm.
  unfold mbind, ST_bind, attempt. by rewrite E.
Qed.

(** The attributes after chmod and chown. *)
Definition dressed (can : bool) (e : Meta) (o : obj) : obj :=
  let o1 := with_perms (mkPerms (SanitizeMode (Mode e)) (p_UID (obj_perms o)) (p_GID (obj_perms o))) o in
  if can then with_perms (mkPerms (Root.chown_mode o1) (Root.chown_id (UID e) (p_UID (obj_perms o)))
                            (Root.chown_id (GID e) (p_GID (obj_perms o)))) o1
  else o1.

Lemma change_perms_run p g d o :
  names_short (key_of p) → dirs_to (objs d) (key_of p) → objs d !! key_of p = Some o →
  Root.change_perms p g d = (Ok tt, mkDisk (<[key_of p := with_perms (g o) o]> (objs d)) (S (calls d))).
Proof. intros Hs Hd E. unfold Root.change_perms. by rewrite sys_run, (find_obj_Ok _ _ _ Hs Hd E). Qed.

Lemma dirs_to_update f k o o' k' : f !! k = Some o → obj_is_dir o' = obj_is_dir o →
  dirs_to f k' → dirs_to (<[k := o']> f) k'.
Proof.
  intros E Ho Hd a b Eq Ha Hb. destruct (Hd a b Eq Ha Hb) as [x Hx].
  destruct (decide (k = a)) as [->|Hne]; [|rewrite lookup_insert_ne by done; by eauto].
  rewrite lookup_insert_eq. simplify_eq. by destruct o'; [eexists|..].
Qed.

Lemma applyMeta_run e m o :
  names_short (key_of (Path e)) → dirs_to (objs (mi_disk m)) (key_of (Path e)) →
  objs (mi_disk m) !! key_of (Path e) = Some o →
  ∃ n, applyMeta e m =
    (Ok tt, set_mi_disk (mkDisk (<[key_of (Path e) := dressed (canChown m) e o]> (objs (mi_disk m))) n) m).
Proof.
  intros Hs Hd E. unfold applyMeta, mbind, ST_bind, on_disk, zoom.
  unfold Root.Chmod. rewrite (change_perms_run _ _ _ o) by done. simpl. unfold gets. simpl.
  unfold dressed. destruct (canChown m); simpl; [|by eexists].
  set (o1 := with_perms _ o). unfold attempt, Root.Lchown.
  rewrite (change_perms_run _ _ _ o1); [|done| |simpl; by rewrite lookup_insert_eq].
  - simpl. rewrite insert_insert_eq. eexists. unfold set_mi_disk. simpl. do 4 f_equal. by destruct o.
  - simpl. eapply dirs_to_update; [done|by destruct o|done].
Qed.

(** No object, or a regular file, at [k]. *)
Definition file_or_none f k : Prop := f !! k = None ∨ ∃ a t c, f !! k = Some (File a t c).

Lemma OpenFile_run p mode d :
  names_short (key_of p) → dirs_to (objs d) (key_of p) → Root.plain_mode mode = true →
  file_or_none (objs d) (key_of p) →
  ∃ a t n, Root.OpenFile p mode d = (Ok tt, mkDisk (<[key_of p := File a t []]> (objs d)) n).
Proof.
  intros Hs Hd Hm Hf. unfold Root.OpenFile. rewrite Hm, sys_run, descend_Ok by done.
  destruct Hf as [E|(a & t & c & E)]; rewrite E; by do 3 eexists.
Qed.

Lemma or_remove_run tmp q d d' : q d = (Ok tt, d') → or_remove tmp q d = (Ok tt, d').
Proof. intros E. unfold or_remove, mbind, ST_bind, attempt. by rewrite E. Qed.
Lemma or_close_remove_run tmp q d d' : q d = (Ok tt, d') → or_close_remove tmp q d = (Ok tt, d').
Proof. intros E. apply or_remove_run. unfold mbind, ST_bind, attempt. by rewrite E. Qed.

Lemma Write_run p content d a t c : objs d !! key_of p = Some (File a t c) →
  ∃ t' n, Root.Write p content d = (Ok tt, mkDisk (<[key_of p := File a t' content]> (objs d)) n).
Proof. intros E. unfold Root.Write. rewrite Hos, E. by do 2 eexists. Qed.

Lemma Rename_run from to d a t c :
  names_short (key_of from) → names_short (key_of to) → dirs_to (objs d) (key_of from) →
  dirs_to (objs d) (key_of to) → objs d !! key_of from = Some (File a t c) → file_or_none (objs d) (key_of to) →
  ∃ n, Root.Rename from to d =
    (Ok tt, mkDisk (<[key_of to := File a t c]> (delete (key_of from) (objs d))) n).
Proof.
  intros Hs Hs' Hd Hd' E Hf. unfold Root.Rename. rewrite sys_run, descend_Ok by done.
  cbn [mbind result_bind]. rewrite (find_obj_Ok _ _ _ Hs Hd E).
  destruct Hf as [E'|(a' & t' & c' & E')]; rewrite E'; by eexists.
Qed.

Section write.
Context (p : string) (els : key) (el : string).
Hypotheses (Hk : key_of p = els ++ [el]) (Hp : p = path_of (els ++ [el])) (Hn : Forall name_ok (els ++ [el])).
Hypothesis Hshort : names_short (els ++ [el]) ∧ names_short (els ++ [tmpPrefix +:+ el]).

Lemma tmp_ne : els ++ [tmpPrefix +:+ el] ≠ els ++ [el].
Proof.
  intros [_ E]%app_inj_tail. apply (f_equal Str.len) in E. rewrite Str.len_app in E.
  change (Str.len tmpPrefix) with 10 in E. lia.
Qed.

(** The directories above [p]. *)
Lemma parents_run d : clear_to (objs d) els →
  ∃ d', (if bool_decide (Pkg.Dir p = "."%string) then mret tt else mkdir_all (Pkg.Dir p) 493) d = (Ok tt, d') ∧
    dirs_grown els (objs d) (objs d') ∧ dirs_to (objs d') els ∧ (els ≠ [] → ∃ x, objs d' !! els = Some (Dir x)).
Proof.
  intros Hc. rewrite Hp, Dir_snoc by done. destruct (snoc_names _ _ Hn) as [Hels _]. case_decide as He.
  - rewrite bool_decide_true by done. exists d. subst. split_and!; [done|apply dirs_grown_refl| |done].
    intros [|] ? ?; naive_solver.
  - rewrite bool_decide_false.
    + destruct (MkdirAll_run (path_of els) 493 d) as (d' & E & G & D & X); rewrite ?key_path in * by done; try done.
      * destruct Hshort as [Hs _]. by apply Forall_app in Hs as [? _].
      * by exists d'.
    + intros E. apply (f_equal key_of) in E. rewrite key_path in E by done.
      change (key_of "."%string) with (@nil string) in E. done.
Qed.

Lemma writeAtomic_run content mode d :
  Root.plain_mode mode = true → clear_to (objs d) els →
  file_or_none (objs d) (els ++ [el]) → file_or_none (objs d) (els ++ [tmpPrefix +:+ el]) →
  ∃ d' f1 a t, writeAtomic p content mode d = (Ok tt, d') ∧ dirs_grown els (objs d) f1 ∧
    objs d' = <[els ++ [el] := File a t content]> (delete (els ++ [tmpPrefix +:+ el]) f1) ∧
    dirs_to (objs d') (els ++ [el]).
Proof.
  intros Hm Hc Hf Hft. destruct Hshort as [Hs Hst]. destruct (tmp_key p els el Hp Hn) as [Et Htn].
  pose proof tmp_ne as Hne. destruct (parents_run d Hc) as (d1 & E1 & G1 & D1 & X1).
  assert (∀ x, dirs_to (objs d1) (els ++ [x])) as Hd1 by (intros; by apply dirs_to_snoc).
  assert (∀ x, file_or_none (objs d) (els ++ [x]) → file_or_none (objs d1) (els ++ [x])) as Hfn.
  { intros x [Hx|(a & t & c & Hx)]; [|right; exists a, t, c; by apply G1].
    destruct G1 as [_ N1]. destruct (N1 _ Hx) as [?|(_ & [r Er] & _)]; [by left|].
    apply (f_equal length) in Er. rewrite !length_app in Er. simpl in Er. lia. }
  unfold writeAtomic, mbind, ST_bind. rewrite E1.
  destruct (OpenFile_run (tmp_of p) mode d1) as (a & t & n & E2); rewrite ?Et; auto. rewrite E2.
  rewrite Et in *. set (d2 := mkDisk _ n).
  assert (objs d2 !! key_of (tmp_of p) = Some (File a t [])) as X2 by (rewrite Et; apply lookup_insert_eq).
  destruct (Write_run (tmp_of p) content d2 a t [] X2) as (t' & n3 & E3).
  rewrite (or_close_remove_run _ _ _ _ E3). set (d3 := mkDisk _ n3).
  assert (∀ dd, Root.Sync dd = (Ok tt, mkDisk (objs dd) (S (calls dd)))) as Hsync by (intros; apply sys_run).
  assert (∀ dd, Root.Close dd = (Ok tt, mkDisk (objs dd) (S (calls dd)))) as Hclose by (intros; apply sys_run).
  rewrite (or_close_remove_run _ _ _ _ (Hsync d3)), (or_remove_run _ _ _ _ (Hclose _)).
  set (d4 := mkDisk _ _).
  assert (objs d4 = <[els ++ [tmpPrefix +:+ el] := File a t' content]> (objs d1)) as O4.
  { subst d4 d3 d2. simpl. by rewrite Et, insert_insert_eq. }
  clearbody d4. clear Hsync Hclose E3 X2.
  assert (∀ x, dirs_to (objs d4) (els ++ [x])) as Hd4.
  { intros x. rewrite O4. destruct (Hfn _ Hft) as [Hx|(a0 & t0 & c0 & Hx)].
    - intros a1 b1 Eq Ha Hb. destruct (Hd1 x a1 b1 Eq Ha Hb) as [z Hz]. exists z.
      rewrite lookup_insert_ne; [done|congruence].
    - by eapply dirs_to_update. }
  destruct (Rename_run (tmp_of p) p d4 a t' content) as (n5 & E5); rewrite ?Et, ?Hk; auto.
  { rewrite O4. apply lookup_insert_eq. }
  { rewrite O4. unfold file_or_none. rewrite lookup_insert_ne by done. by apply Hfn. }
  rewrite (or_remove_run _ _ _ _ E5). eexists _, (objs d1), a, t'. split_and!; [done|done| |].
  - simpl. by rewrite O4, Et, Hk, delete_insert_eq.
  - simpl. rewrite Et, Hk. intros a1 b1 Eq Ha Hb. destruct (Hd4 el a1 b1 Eq Ha Hb) as [z Hz]. exists z.
    rewrite O4 in *. assert (els ++ [tmpPrefix +:+ el] ≠ a1).
    { intros <-. rewrite lookup_insert_eq in Hz. done. }
    rewrite lookup_insert_ne, lookup_delete_ne; [done|done|].
    intros <-. rewrite <- app_nil_r in Eq at 1. by apply app_inv_head in Eq as <-.
Qed.
End write.
End run.

(** Looking for what is not there, with nothing in the way. *)
Lemma descend_clear f at_ rest :
  names_short rest → (∀ a b, rest = a ++ b → a ≠ [] → b ≠ [] → f !! (at_ ++ a) = None ∨ ∃ x, f !! (at_ ++ a) = Some (Dir x)) →
  descend f at_ rest = Ok tt ∨ descend f at_ rest = Err ErrNotExist.
Proof.
  revert at_. induction rest as [|el rest IH]; intros at_ Hs Hc; simpl; [by left|].
  apply Forall_cons in Hs as [Hl Hs]. rewrite Z.gtb_ltb, (proj2 (Z.ltb_ge _ _)) by done.
  destruct rest as [|el' rest']; [by left|].
  destruct (Hc [el] (el' :: rest')) as [->|[x ->]]; [done..|by right|].
  apply IH; [done|]. intros a b E Ha Hb. rewrite <- (assoc_L (++)).
  apply (Hc (el :: a) b); [by rewrite E|done|done].
Qed.

Lemma find_obj_missing f k :
  names_short k → (∀ a b, k = a ++ b → a ≠ [] → b ≠ [] → f !! a = None ∨ ∃ x, f !! a = Some (Dir x)) →
  f !! k = None → find_obj f k = Err ErrNotExist.
Proof.
  intros Hs Hc E. unfold find_obj. destruct (descend_clear f [] k Hs Hc) as [->| ->]; simpl; by rewrite ?E.
Qed.

(** ** One entry *)

Lemma plain_ldiff m s : Z.land m ModePerm = m → Z.land ModePerm s = 0 → Z.ldiff m s = m.
Proof.
  intros Em Es. apply Z.bits_inj'. intros i Hi. rewrite Z.ldiff_spec. rewrite <- Em, Z.land_spec.
  apply (f_equal (λ z, Z.testbit z i)) in Es. rewrite Z.land_spec, Z.bits_0 in Es.
  by destruct (Z.testbit m i), (Z.testbit ModePerm i), (Z.testbit s i).
Qed.

Lemma plain_SanitizeMode m : Z.land m ModePerm = m → SanitizeMode m = m.
Proof. intros Em. unfold SanitizeMode. rewrite <- Em at 1. rewrite <- Z.land_assoc. by rewrite <- Em at 2. Qed.

Section render.
Context `{DBFaults, Sha256, !Sha256Laws, SystemTime, OS}.
Implicit Types (t : tables) (m : mirror) (e : Meta) (p : string) (f : gmap key obj) (k : key).

Definition owner_shown (can : bool) e (a : perms) : Prop :=
  can = true → p_UID a = UID e ∧ p_GID a = GID e.

(** The object on disk is what the tree holds; [can]: owners are set. *)
Definition object_shows (can : bool) (o : obj) e : Prop :=
  match o with
  | Dir a => MKind e = KindDir ∧ p_Mode a = Mode e ∧ owner_shown can e a
  | File a _ c => MKind e = KindFile ∧ HashContent c = Hash e ∧ p_Mode a = Mode e ∧ owner_shown can e a
  | Other _ => False
  end.
Definition shows (can : bool) f e : Prop :=
  ∃ o, f !! key_of (Path e) = Some o ∧ object_shows can o e.

(** An entry the mirror can write out: a mode os.Root takes, ids that are ids, and names that are
    not scratch names and whose scratch names are not too long. *)
Record entry_ok e : Prop := {
  eo_canonical : canonical (Path e);
  eo_mode : Root.plain_mode (Mode e) = true;
  eo_ids : UID e ≠ max_uint32 ∧ GID e ≠ max_uint32;
  eo_names : Forall (λ el, Str.has_prefix tmpPrefix el = false) (key_of (Path e));
  eo_kind : MKind e = KindDir ∨ (MKind e = KindFile ∧ names_short (key_of (tmp_of (Path e))))
}.

(** Nothing of another type is in the way of an entry. *)
Record room_for f e : Prop := {
  rf_above : ∀ a b, key_of (Path e) = a ++ b → a ≠ [] → b ≠ [] → f !! a = None ∨ ∃ x, f !! a = Some (Dir x);
  rf_dir : MKind e = KindDir → f !! key_of (Path e) = None ∨ ∃ x, f !! key_of (Path e) = Some (Dir x);
  rf_file : MKind e = KindFile →
    file_or_none f (key_of (Path e)) ∧ file_or_none f (key_of (tmp_of (Path e)))
}.

(** What writing out an entry leaves of the rest. *)
Record stepped e f f' : Prop := {
  st_same : ∀ k o, k ≠ key_of (Path e) → k ≠ key_of (tmp_of (Path e)) → f !! k = Some o → f' !! k = Some o;
  st_new : ∀ k, k ≠ key_of (Path e) → f !! k = None →
    f' !! k = None ∨ (k ≠ [] ∧ k `prefix_of` key_of (Path e) ∧ ∃ x, f' !! k = Some (Dir x));
  st_tmp : f' !! key_of (tmp_of (Path e)) = f !! key_of (tmp_of (Path e)) ∨ f' !! key_of (tmp_of (Path e)) = None
}.

Lemma dressed_shows can e o :
  entry_ok e → (∃ a, o = Dir a ∧ MKind e = KindDir) ∨ (∃ a x c, o = File a x c ∧ MKind e = KindFile ∧ HashContent c = Hash e) →
  object_shows can (dressed can e o) e.
Proof.
  intros [_ Hm [Hu Hg] _ _] Ho. apply Z.eqb_eq in Hm. unfold dressed, Root.chown_mode, Root.chown_id.
  rewrite !(proj2 (Z.eqb_neq _ _)) by done.
  destruct Ho as [(a & -> & Hk)|(a & x & c & -> & Hk & Hh)], can; simpl;
    rewrite !(plain_SanitizeMode _ Hm); unfold owner_shown; split_and!; try done.
  rewrite (plain_ldiff _ ModeSetuid Hm) by done. case_match; [|done]. by apply plain_ldiff.
Qed.

Lemma tmp_prefix_not_above e k : entry_ok e → key_of (tmp_of (Path e)) `prefix_of` k →
  Forall (λ el, Str.has_prefix tmpPrefix el = false) k → False.
Proof.
  intros He [r ->] Hn. destruct (canonical_snoc _ (eo_canonical e He)) as (els & el & _ & Hnm & Ep & _).
  destruct (tmp_key _ els el Ep Hnm) as [Et _]. rewrite Et in Hn.
  rewrite !Forall_app, Forall_singleton in Hn. destruct Hn as [[_ Hn] _]. by rewrite Str.has_prefix_app in Hn.
Qed.

Section steps.
Context (Hos : ∀ n, os_fails n = None) (Hdb : ¬ db_fault).

(** A render of one entry that has worked. *)
Record rendered e m m' : Prop := {
  rn_tree : observable (mi_node m') = observable (mi_node m);
  rn_claims : inflight m' = inflight m;
  rn_chown : canChown m' = canChown m;
  rn_shows : shows (canChown m) (objs (mi_disk m')) e;
  rn_step : stepped e (objs (mi_disk m)) (objs (mi_disk m'))
}.

Lemma applyMeta_rendered e m0 m f1 o :
  entry_ok e → objs (mi_disk m) = f1 → f1 !! key_of (Path e) = Some o → dirs_to f1 (key_of (Path e)) →
  (∃ a, o = Dir a ∧ MKind e = KindDir) ∨ (∃ a x c, o = File a x c ∧ MKind e = KindFile ∧ HashContent c = Hash e) →
  observable (mi_node m) = observable (mi_node m0) → inflight m = inflight m0 → canChown m = canChown m0 →
  stepped e (objs (mi_disk m0)) f1 →
  ∃ m', applyMeta e m = (Ok tt, m') ∧ rendered e m0 m'.
Proof.
  intros He <- Eo Hd Ho Hob Hf Hch [S1 S2 S3]. destruct (canonical_key _ (eo_canonical e He)) as (_ & _ & Hs).
  destruct (applyMeta_run Hos e m o Hs Hd Eo) as [n E]. eexists. split; [exact E|].
  split; simpl; [done..| |].
  - rewrite <- Hch. eexists. split; [apply lookup_insert_eq|]. by apply dressed_shows.
  - split.
    + intros k o' Hk Ht Ek. rewrite lookup_insert_ne by done. by apply S1.
    + intros k Hk Ek. rewrite lookup_insert_ne by done. by apply S2.
    + destruct (decide (key_of (Path e) = key_of (tmp_of (Path e)))) as [Ekt|Hne].
      * exfalso. eapply tmp_prefix_not_above; [done|by rewrite <- Ekt|apply He].
      * by rewrite lookup_insert_ne.
Qed.

Lemma renderDir_run e m :
  entry_ok e → MKind e = KindDir → room_for (objs (mi_disk m)) e →
  ∃ m', renderDir e m = (Ok tt, m') ∧ rendered e m m'.
Proof.
  intros He Hk [Ha Hr _]. destruct (canonical_key _ (eo_canonical e He)) as (Hne & _ & Hs).
  destruct (MkdirAll_run Hos (Path e) (Mode e) (mi_disk m)) as (d' & E & [G1 G2] & D & X);
    [done|apply He| |].
  { intros a b Eab Ha'. destruct b as [|y b]; [|by eapply Ha]. rewrite app_nil_r in Eab. subst a. by apply Hr. }
  unfold renderDir, mbind, ST_bind. unfold on_disk at 1, zoom. rewrite E. simpl.
  destruct (X Hne) as [x Hx].
  apply (applyMeta_rendered e m (set_mi_disk d' m) (objs d') (Dir x)); try done; [left; by eauto|].
  split; [auto| |].
  - intros k _ Ek. destruct (G2 k Ek) as [?|(? & ? & ?)]; auto.
  - destruct (objs (mi_disk m) !! key_of (tmp_of (Path e))) as [o|] eqn:Et; [left; by apply G1|].
    destruct (G2 _ Et) as [->|(_ & Hp & _)]; [by left|]. exfalso. by eapply tmp_prefix_not_above, He.
Qed.

Lemma readLocal_run p m (f := objs (mi_disk m)) :
  wf_objs f → canonical p → (∀ a b, key_of p = a ++ b → a ≠ [] → b ≠ [] → f !! a = None ∨ ∃ x, f !! a = Some (Dir x)) →
  file_or_none f (key_of p) →
  ∃ d', objs d' = f ∧ on_disk (readLocal p) m =
    (match f !! key_of p with Some (File _ _ c) => Ok (HashContent c) | _ => Err ErrNotExist end, set_mi_disk d' m).
Proof.
  intros Hw Hc Ha Hf. destruct (canonical_key p Hc) as (_ & _ & Hs).
  unfold on_disk, zoom, readLocal, mbind, ST_bind. unfold Root.Lstat. rewrite sys_run by done. fold f.
  destruct Hf as [E|(a & x & c & E)].
  - rewrite find_obj_missing, E by done. by exists (mkDisk f (S (calls (mi_disk m)))).
  - destruct (Hw _ _ E) as (_ & _ & Hd). rewrite (find_obj_Ok _ _ _ Hs Hd E), E. simpl.
    unfold Root.ReadFile. rewrite sys_run by done. simpl. fold f. rewrite (find_obj_Ok _ _ _ Hs Hd E). simpl.
    by eexists (mkDisk f _).
Qed.

Lemma renderFile_run e m t :
  tbl (db (mi_node m)) = t → wf_tables t → is_Some (blobs t !! Hash e) → wf_objs (objs (mi_disk m)) →
  entry_ok e → MKind e = KindFile → room_for (objs (mi_disk m)) e →
  ∃ m', renderFile e m = (Ok tt, m') ∧ rendered e m m'.
Proof.
  intros Ht Hw [b Hb] Hwd He Hk [Ha _ Hr]. destruct (Hr Hk) as [Hr1 Hr2].
  pose proof (eo_canonical e He) as Hc. destruct (canonical_snoc _ Hc) as (els & el & Ek & Hn & Ep & Hs).
  destruct (tmp_key _ els el Ep Hn) as [Et Htn].
  assert (names_short (els ++ [tmpPrefix +:+ el])) as Hst.
  { rewrite <- Et. destruct (eo_kind e He) as [Hk'|[_ ?]]; [by rewrite Hk in Hk'|done]. }
  destruct (readLocal_run (Path e) m Hwd Hc Ha Hr1) as (d0 & Ed0 & E0).
  unfold renderFile, mbind, ST_bind. unfold attempt at 1. rewrite E0. clear E0.
  set (m0 := set_mi_disk d0 m).
  assert (∃ m', (content ← on_tree (Content (Hash e)); _ ← on_disk (writeAtomic (Path e) content (Mode e)); applyMeta e) m0
    = (Ok tt, m') ∧ rendered e m m') as Hwrite.
  { destruct (Content_run (Hash e) (mi_node m) Hdb) as (s1 & E1 & Ho1); [by rewrite Ht|].
    unfold content_of in E1. rewrite Ht, Hb in E1.
    unfold mbind, ST_bind. unfold on_tree at 1, zoom. change (mi_node m0) with (mi_node m). rewrite E1.
    destruct (writeAtomic_run Hos (Path e) els el Ek Ep Hn (conj Hs Hst) (b_Data b) (Mode e) d0)
      as (d' & f1 & a & x & E2 & [G1 G2] & O2 & D2); rewrite ?Ed0, ?Ek, ?Et in *; [apply He| |done..|].
    { intros a1 b1 Eab Ha1. apply (Ha a1 (b1 ++ [el])); [by rewrite Eab, (assoc_L (++))|done|by destruct b1]. }
    unfold on_disk, zoom. change (mi_disk (set_mi_node s1 m0)) with d0. rewrite E2.
    apply (applyMeta_rendered e m _ (objs d') (File a x (b_Data b))); try done; rewrite ?Ek.
    - simpl. rewrite O2. apply lookup_insert_eq.
    - done.
    - right. do 3 eexists. split_and!; [done|done|]. by apply (wf_blob _ Hw) in Hb as (_ & ? & _).
    - rewrite O2. split; rewrite ?Ek, ?Et.
      + intros k o Hk1 Hk2 Eo. rewrite lookup_insert_ne, lookup_delete_ne by done. by apply G1.
      + intros k Hk1 Eo. rewrite lookup_insert_ne by done. destruct (decide (k = els ++ [tmpPrefix +:+ el])) as [->|Hne].
        { left. apply lookup_delete_eq. }
        rewrite lookup_delete_ne by done. destruct (G2 k Eo) as [?|(? & ? & ?)]; [by left|right].
        split_and!; [done| |done]. by apply prefix_app_r.
      + right. rewrite lookup_insert_ne, lookup_delete_eq; [done|]. intros E. by eapply tmp_ne. }
  destruct Hr1 as [E1|(a & x & c & E1)]; rewrite E1; [exact Hwrite|].
  destruct (String.eqb_spec (HashContent c) (Hash e)) as [Eh|Hne]; [|exact Hwrite].
  apply (applyMeta_rendered e m m0 (objs (mi_disk m)) (File a x c)); try done.
  - by apply (Hwd _ _ E1).
  - right. by do 3 eexists.
  - split; [auto|auto|by left].
Qed.

Lemma render_entry_run e m t :
  tbl (db (mi_node m)) = t → wf_tables t → (MKind e = KindFile → is_Some (blobs t !! Hash e)) →
  wf_objs (objs (mi_disk m)) → entry_ok e → room_for (objs (mi_disk m)) e → ¬ Path e ∈ inflight m →
  ∃ m', render_entry e m = (Ok tt, m') ∧ rendered e m m'.
Proof.
  intros Ht Hw Hb Hwd He Hr Hf. unfold render_entry. unfold mbind, ST_bind at 1, isInflight, gets.
  rewrite bool_decide_false by done. destruct (eo_kind e He) as [Hk|[Hk _]]; rewrite Hk.
  - by apply renderDir_run.
  - eapply renderFile_run; by eauto.
Qed.

(** ** The whole tree *)

(** A tree the mirror can write out: entries it can write, whose contents it has, and no file
    where another entry needs a directory. *)
Record coherent t : Prop := {
  co_ok : ∀ e, live_entry t (Path e) e → entry_ok e;
  co_blob : ∀ e, live_entry t (Path e) e → MKind e = KindFile → is_Some (blobs t !! Hash e);
  co_tree : ∀ e e', live_entry t (Path e) e → live_entry t (Path e') e' → MKind e = KindFile →
    key_of (Path e) `prefix_of` key_of (Path e') → Path e = Path e'
}.

Section tree.
Context t (Hco : coherent t).

Lemma key_ne e e2 : live_entry t (Path e) e → live_entry t (Path e2) e2 → Path e ≠ Path e2 →
  key_of (Path e2) ≠ key_of (Path e) ∧ key_of (Path e2) ≠ key_of (tmp_of (Path e)).
Proof.
  intros L L2 Hne. pose proof (co_ok _ Hco _ L) as He. pose proof (co_ok _ Hco _ L2) as He2. split.
  - intros E. apply key_of_inj in E; [done|apply He2|apply He].
  - intros E. eapply tmp_prefix_not_above; [exact He| |apply (eo_names _ He2)]. by rewrite E.
Qed.

Lemma stepped_shows can e e2 f f' : live_entry t (Path e) e → live_entry t (Path e2) e2 → Path e ≠ Path e2 →
  stepped e f f' → shows can f e2 → shows can f' e2.
Proof.
  intros L L2 Hne [S1 _ _] (o & E & Ho). destruct (key_ne e e2 L L2 Hne). exists o. split; [by apply S1|done].
Qed.

Lemma stepped_room can e e2 f f' : live_entry t (Path e) e → live_entry t (Path e2) e2 → Path e ≠ Path e2 →
  stepped e f f' → shows can f' e → room_for f e2 → room_for f' e2.
Proof.
  intros L L2 Hne [S1 S2 S3] (oe & Eoe & Hoe) [R1 R2 R3]. pose proof (co_ok _ Hco _ L) as He.
  pose proof (co_ok _ Hco _ L2) as He2. destruct (key_ne e e2 L L2 Hne) as [N1 N2]. split.
  - intros a b Eab Ha Hb.
    assert (a ≠ key_of (tmp_of (Path e))) as Na.
    { intros ->. pose proof (eo_names _ He2) as Hn. rewrite Eab in Hn. eapply tmp_prefix_not_above; [exact He| |exact Hn].
      by apply prefix_app_r. }
    destruct (decide (a = key_of (Path e))) as [->|Nk].
    + right. rewrite Eoe. destruct oe as [x| |]; [by eexists| |done]. destruct Hoe as [Hk _]. exfalso. apply Hne.
      apply (co_tree _ Hco e e2); try done. rewrite Eab. by apply prefix_app_r.
    + destruct (R1 a b Eab Ha Hb) as [E|[x E]]; [|right; exists x; by apply S1].
      destruct (S2 a Nk E) as [?|(_ & _ & ?)]; auto.
  - intros Hk. destruct (R2 Hk) as [E|[x E]]; [|right; exists x; by apply S1].
    destruct (S2 _ N1 E) as [?|(_ & _ & ?)]; auto.
  - intros Hk. destruct (R3 Hk) as [F1 F2]. split.
    + destruct F1 as [E|(a & x & c & E)]; [|right; do 3 eexists; by apply S1].
      destruct (S2 _ N1 E) as [?|(_ & Hp & _)]; [by left|]. destruct Hne. symmetry. by apply (co_tree _ Hco e2 e).
    + destruct (decide (key_of (tmp_of (Path e2)) = key_of (tmp_of (Path e)))) as [Et|Nt].
      { rewrite Et in *. unfold file_or_none. destruct S3 as [->| ->]; [done|by left]. }
      assert (¬ key_of (tmp_of (Path e2)) `prefix_of` key_of (Path e)) as Np.
      { intros Hp. eapply tmp_prefix_not_above; [exact He2|exact Hp|apply (eo_names _ He)]. }
      assert (key_of (tmp_of (Path e2)) ≠ key_of (Path e)) as Nk by (intros E; destruct Np; by rewrite E).
      destruct F2 as [E|(a & x & c & E)]; [|right; do 3 eexists; by apply S1].
      destruct (S2 _ Nk E) as [?|(_ & Hp & _)]; [by left|done].
Qed.

Lemma render_entries_run l m :
  tbl (db (mi_node m)) = t → wf_tables t → Forall (λ e, live_entry t (Path e) e) l → NoDup (Path <$> l) →
  wf_objs (objs (mi_disk m)) → (∀ e, e ∈ l → room_for (objs (mi_disk m)) e) →
  ∃ m', each render_entry l m = (Ok tt, m') ∧
    observable (mi_node m') = observable (mi_node m) ∧ inflight m' = inflight m ∧ canChown m' = canChown m ∧
    wf_objs (objs (mi_disk m')) ∧
    (∀ e, e ∈ l → ¬ Path e ∈ inflight m → shows (canChown m) (objs (mi_disk m')) e) ∧
    (∀ e, live_entry t (Path e) e → ¬ Path e ∈ Path <$> l →
       shows (canChown m) (objs (mi_disk m)) e → shows (canChown m) (objs (mi_disk m')) e).
Proof.
  intros Ht Hw. revert m Ht. induction l as [|e l IH]; intros m Ht Hl Hnd Hwd Hr; simpl.
  { exists m. split_and!; try done. intros e. by rewrite elem_of_nil. }
  apply Forall_cons in Hl as [L Hl]. apply NoDup_cons in Hnd as [Hni Hnd].
  unfold mbind, ST_bind, attempt.
  assert (∃ m1, render_entry e m = (Ok tt, m1) ∧ observable (mi_node m1) = observable (mi_node m) ∧
    inflight m1 = inflight m ∧ canChown m1 = canChown m ∧
    (¬ Path e ∈ inflight m → shows (canChown m) (objs (mi_disk m1)) e) ∧
    (∀ e2, live_entry t (Path e2) e2 → Path e ≠ Path e2 → room_for (objs (mi_disk m)) e2 → room_for (objs (mi_disk m1)) e2) ∧
    (∀ e2, live_entry t (Path e2) e2 → Path e ≠ Path e2 →
       shows (canChown m) (objs (mi_disk m)) e2 → shows (canChown m) (objs (mi_disk m1)) e2))
    as (m1 & E1 & Ho1 & Hf1 & Hc1 & Hs1 & Hr1 & Hk1).
  { destruct (decide (Path e ∈ inflight m)) as [Hin|Hin].
    - exists m. unfold render_entry, mbind, ST_bind, isInflight, gets. rewrite bool_decide_true by done. by split_and!.
    - destruct (render_entry_run e m t) as (m1 & E1 & [Ho Hf Hc Hs Hst]); try done;
        [by apply (co_blob _ Hco)|by apply (co_ok _ Hco)|apply Hr; left|].
      exists m1. split_and!; try done; intros e2 L2 Hne; [by apply (stepped_room (canChown m) e)|by apply (stepped_shows _ e)]. }
  rewrite E1. pose proof (observable_tbl _ _ Ho1) as Ht1. rewrite Ht in Ht1.
  assert (wf_objs (objs (mi_disk m1))) as Hwd1.
  { destruct (moves_render_entry t (inflight m) (λ _, True) (λ f f', wf_objs f → wf_objs f') e) with (s := m)
      as (_ & _ & Hwf); [apply (co_ok _ Hco _ L)|done|done|done|]. rewrite E1 in Hwf. by apply Hwf. }
  destruct (IH m1) as (m2 & E2 & Ho2 & Hf2 & Hc2 & Hw2 & Hs2 & Hk2); try done.
  { intros e2 He2. rewrite Forall_forall in Hl. apply Hr1; [by apply Hl| |apply Hr; by right].
    intros E. apply Hni. rewrite E. by apply list_elem_of_fmap_2. }
  exists m2. rewrite E2. rewrite Hc1, Hf1 in *. split_and!; try done; [congruence| |].
  - intros e2 He2 Hin2. apply elem_of_cons in He2 as [->|He2]; [|by apply Hs2]. apply Hk2; [done|done|by apply Hs1].
  - intros e2 L2 Hni2. simpl in Hni2. rewrite not_elem_of_cons in Hni2. destruct Hni2 as [Hne Hni2].
    intros Hs. apply Hk2; [done|done|]. apply Hk1; [done|congruence|done].
Qed.
End tree.

(** ** Removal *)

Lemma Remove_step p m (m1 := (on_disk (Root.Remove p) m).2) :
  wf_objs (objs (mi_disk m)) →
  wf_objs (objs (mi_disk m1)) ∧
  (∀ k, objs (mi_disk m1) !! k = objs (mi_disk m) !! k ∨ objs (mi_disk m1) !! k = None) ∧
  (canonical p → ∀ a x c, objs (mi_disk m) !! key_of p = Some (File a x c) → objs (mi_disk m1) !! key_of p = None).
Proof.
  intros Hw. subst m1. unfold on_disk, zoom, Root.Remove. rewrite sys_run by done.
  destruct (find_obj (objs (mi_disk m)) (key_of p)) as [o|err] eqn:Ef; simpl.
  - apply find_obj_inv in Ef as (Eo & _ & _).
    destruct (has_below (objs (mi_disk m)) (key_of p)) eqn:Eb; simpl.
    + split_and!; [done|by left|]. intros _ a x c Ea. exfalso.
      rewrite (wf_not_below _ _ Hw) in Eb; [done|intros b Hb; congruence|by rewrite Ea].
    + split_and!; [by apply wf_objs_delete| |intros; apply lookup_delete_eq].
      intros k. destruct (decide (key_of p = k)) as [->|Hne]; [right; apply lookup_delete_eq|left; by apply lookup_delete_ne].
  - split_and!; [done|by left|]. intros Hc a x c Ea. destruct (canonical_key p Hc) as (_ & _ & Hs).
    rewrite (find_obj_Ok _ _ _ Hs (proj2 (proj2 (Hw _ _ Ea))) Ea) in Ef. done.
Qed.

(** Removing a list of paths only removes, and a file at one of them is gone. *)
Lemma each_Remove_run l m (m' := (each (λ p, on_disk (Root.Remove p)) l m).2) :
  wf_objs (objs (mi_disk m)) → (∀ p, p ∈ l → canonical p) →
  (∀ k, objs (mi_disk m') !! k = objs (mi_disk m) !! k ∨ objs (mi_disk m') !! k = None) ∧
  (∀ p a x c, p ∈ l → objs (mi_disk m') !! key_of p ≠ Some (File a x c)).
Proof.
  subst m'. revert m. induction l as [|p l IH]; intros m Hw Hc.
  { split; [by left|]. intros p a x c Hp. by apply elem_of_nil in Hp. }
  rewrite each_cons. destruct (Remove_step p m Hw) as (Hw1 & Hsub & Hgone).
  destruct (IH (on_disk (Root.Remove p) m).2 Hw1) as [IH1 IH2]; [intros; apply Hc; by right|].
  assert (∀ k, objs (mi_disk (each (λ p, on_disk (Root.Remove p)) l (on_disk (Root.Remove p) m).2).2) !! k =
    objs (mi_disk m) !! k ∨ objs (mi_disk (each (λ p, on_disk (Root.Remove p)) l (on_disk (Root.Remove p) m).2).2) !! k = None)
    as Hall.
  { intros k. destruct (IH1 k) as [->|?]; [apply Hsub|by right]. }
  split; [done|]. intros q a x c Hq. apply elem_of_cons in Hq as [->|Hq]; [|by apply IH2]. intros E.
  destruct (Hall (key_of p)) as [Es|Es]; [|congruence]. rewrite E in Es. symmetry in Es.
  pose proof (Hgone (Hc p ltac:(left)) _ _ _ Es) as Eg. destruct (IH1 (key_of p)); congruence.
Qed.

Lemma each_Remove_chown l m : canChown (each (λ p, on_disk (Root.Remove p)) l m).2 = canChown m.
Proof.
  revert m. induction l as [|p l IH]; intros m; [done|]. rewrite each_cons, IH.
  unfold on_disk, zoom. by destruct (Root.Remove p (mi_disk m)).
Qed.

(** What removeTombstoned collects when nothing fails: every visible path on disk that is a
    tombstone and not claimed. *)
Lemma walk_doom_all keep m t p o :
  tbl (db (mi_node m)) = t → wf_objs (objs (mi_disk m)) → canonical p →
  Str.has_prefix tmpPrefix (Pkg.Base p) = false → (∀ a, o ≠ Other a) → objs (mi_disk m) !! key_of p = Some o →
  tombstone t p → ¬ p ∈ inflight m → ¬ p ∈ keep →
  ∀ acc m', walk (doom keep) [] m = (Ok acc, m') → p ∈ acc.
Proof.
  intros Ht Hw Hc Hb Hot Eo Htomb Hfl Hkeep acc m' E. pose proof (canonical_path_key p Hc) as Hpk.
  destruct (walk_reaches (doom keep) (λ _ m1, tbl (db (mi_node m1)) = t ∧ inflight m1 = inflight m)
    (λ a _, p ∈ a) (key_of p) o [] m) as (acc1 & m1 & E1 & _ & HQ); try done.
  - split_and!; rewrite ?Hpk; done.
  - intros k' o' a s _ _ [Ht' Hf'].
    destruct (doom_spec keep (path_of k') (obj_is_dir o') a s) as (a' & s' & Ed & Ho & Hf & _ & _ & Ha & Hadd).
    exists a', s'. split_and!; [done| |congruence| |].
    + rewrite (observable_tbl _ _ Ho). done.
    + intros -> _. rewrite Hpk in *. rewrite (Hadd Hdb) by (by rewrite ?Ht', ?Hf').
      apply elem_of_app. right. by apply list_elem_of_singleton.
    + intros Hp. destruct Ha as [->|(-> & _)]; [done|]. apply elem_of_app. by left.
  - intros a s k'. unfold on_disk, zoom, Root.ReadDir, Root.sys. rewrite Hos. done.
  - by rewrite E in E1; injection E1 as -> _.
Qed.

Lemma tree_Live_run m : ∃ m1, on_tree Live m = (Ok (select_live (tbl (db (mi_node m)))), m1) ∧
  observable (mi_node m1) = observable (mi_node m) ∧ inflight m1 = inflight m ∧ canChown m1 = canChown m ∧
  mi_disk m1 = mi_disk m.
Proof.
  destruct (Live_run (mi_node m) Hdb) as (s1 & E & Ho). exists (set_mi_node s1 m).
  unfold on_tree, zoom. by rewrite E.
Qed.

Lemma live_not_tomb t e p : wf_tables t → live_entry t (Path e) e → tombstone t p → canonical p →
  canonical (Path e) → key_of (Path e) ≠ key_of p.
Proof.
  intros Hw [Le Ld] [Te Td] Hp Hc E. apply key_of_inj in E; [|done..]. subst p. rewrite Le in Td. simpl in Td. congruence.
Qed.

Lemma removeTombstoned_run m t :
  tbl (db (mi_node m)) = t → wf_tables t → wf_objs (objs (mi_disk m)) → coherent t →
  ∃ m', removeTombstoned m = (Ok tt, m') ∧ observable (mi_node m') = observable (mi_node m) ∧
    inflight m' = inflight m ∧ canChown m' = canChown m ∧ wf_objs (objs (mi_disk m')) ∧
    (∀ e, live_entry t (Path e) e → objs (mi_disk m') !! key_of (Path e) = objs (mi_disk m) !! key_of (Path e) ∨
       objs (mi_disk m) !! key_of (Path e) = None) ∧
    (∀ p a x c, canonical p → Str.has_prefix tmpPrefix (Pkg.Base p) = false → tombstone t p →
       ¬ p ∈ inflight m → objs (mi_disk m') !! key_of p ≠ Some (File a x c)).
Proof.
  intros Ht Hw Hwd Hco.
  assert (calls_respect (tomb_scope t (inflight m))
    (λ f f', (wf_objs f → wf_objs f') ∧ touch (tomb_scope t (inflight m)) f f')) as Hcr by apply _.
  destruct (moves_removeTombstoned t (inflight m) _ m Ht eq_refl) as (Ho & Hf & Hwf & Htc & _).
  destruct (removeTombstoned m) as [r m'] eqn:E. simpl in *.
  unfold removeTombstoned, mbind, ST_bind in E. destruct (tree_Live_run m) as (m1 & E1 & Ho1 & Hf1 & Hc1 & Hd1).
  rewrite E1, Ht in E. pose proof (observable_tbl _ _ Ho1) as Ht1. rewrite Ht in Ht1.
  destruct (walk_doom (Path <$> select_live t) m1 t Ht1) as (acc & m2 & E2 & _ & _ & Hd2 & Hc2 & Hacc).
  rewrite E2 in E. rewrite <- Hd1 in *.
  assert (∀ p, p ∈ sort_on id str_ge acc ↔ p ∈ acc) as Hsort.
  { intros p. unfold sort_on. by rewrite merge_sort_Permutation. }
  destruct (each_Remove_run (sort_on id str_ge acc) m2) as [Hsub Hgone]; [by rewrite Hd2| |].
  { intros p Hp%Hsort. rewrite Forall_forall in Hacc. by apply Hacc. }
  pose proof (each_Ok (λ p, on_disk (Root.Remove p)) (sort_on id str_ge acc) m2) as Er.
  pose proof (each_Remove_chown (sort_on id str_ge acc) m2) as Ec. rewrite E in *. simpl in *.
  rewrite Er. exists m'. split_and!; [done|done|done|congruence|by apply Hwf| |].
  - intros e Le. destruct (objs (mi_disk m1) !! key_of (Path e)) as [o|] eqn:Eo; [left|by right].
    apply Htc; [done|]. intros (p & Hp & Hpc & _ & Ek). eapply live_not_tomb; [done|exact Le|exact Hp|done| |done].
    by apply (co_ok _ Hco).
  - intros p a x c Hc Hb Htomb Hfl Ef. eapply Hgone; [|exact Ef]. apply Hsort.
    destruct (Hsub (key_of p)) as [Es|Es]; [|congruence]. rewrite Ef, Hd2 in Es. symmetry in Es.
    eapply (walk_doom_all _ m1 t p (File a x c)); [done|done|done|done|done|exact Es|done|by rewrite Hf1| |exact E2].
    intros (e & -> & He)%list_elem_of_fmap. apply elem_of_live in He; [|done].
    eapply live_not_tomb; [done|exact He|exact Htomb|done|done|done].
Qed.

Lemma render_run m :
  let t := tbl (db (mi_node m)) in
  wf_tables t → coherent t → wf_objs (objs (mi_disk m)) →
  (∀ e, live_entry t (Path e) e → room_for (objs (mi_disk m)) e) →
  ∃ m', render m = (Ok tt, m') ∧ canChown m' = canChown m ∧
    (∀ e, live_entry t (Path e) e → ¬ Path e ∈ inflight m → shows (canChown m) (objs (mi_disk m')) e) ∧
    (∀ p a x c, canonical p → Str.has_prefix tmpPrefix (Pkg.Base p) = false → tombstone t p →
       ¬ p ∈ inflight m → objs (mi_disk m') !! key_of p ≠ Some (File a x c)).
Proof.
  intros t Hw Hco Hwd Hr. unfold render, mbind, ST_bind.
  destruct (tree_Live_run m) as (m1 & E1 & Ho1 & Hf1 & Hc1 & Hd1). rewrite E1.
  pose proof (observable_tbl _ _ Ho1) as Ht1. fold t in Ht1 |- *.
  assert (∀ e, e ∈ sort_on Path Str.le (select_live t) ↔ live_entry t (Path e) e) as Hsort.
  { intros e. rewrite elem_of_sort_on. by apply elem_of_live. }
  destruct (render_entries_run t Hco (sort_on Path Str.le (select_live t)) m1)
    as (m2 & E2 & Ho2 & Hf2 & Hc2 & Hw2 & Hs2 & _); [done|done| | |by rewrite Hd1| |].
  { apply Forall_forall. intros e He. by apply Hsort. }
  { rewrite (sort_on_perm Path Str.le). by apply select_live_NoDup. }
  { intros e He%Hsort. rewrite Hd1. by apply Hr. }
  rewrite E2. pose proof (observable_tbl _ _ Ho2) as Ht2. rewrite Ht1 in Ht2.
  destruct (removeTombstoned_run m2 t Ht2 Hw Hw2 Hco) as (m3 & E3 & _ & _ & Hc3 & _ & Hlive & Hgone).
  rewrite E3. exists m3. rewrite Hf2, Hf1 in Hgone. split_and!; [done|congruence| |done].
  intros e Le Hfl. destruct (Hs2 e) as (o & Eo & Hsh); [by apply Hsort|by rewrite Hf1|]. rewrite Hc1 in Hsh.
  exists o. split; [|done]. destruct (Hlive e Le) as [->|?]; [done|congruence].
Qed.

(** C23: A render brings the directory in step.  When the database and the disk work, the mirror can
    write the tree out ([coherent]: every live entry has a canonical path, a mode without special bits, ids that are ids, no element that is
    a scratch name and a scratch name that is not too long, its content is stored, and no file lies above another entry) and nothing of
    another type is in the way on disk, a render returns without an
    error; every live entry whose path no pending event claims is on disk as the tree holds it — a directory,
    or a file of the entry's content, with its mode and, where the process may set it, its
    owner; and no file is left at the path of an unclaimed tombstone, scratch names apart.  (What becomes of other entries:
    [never_rendered].) *)
Theorem render_projects m :
  let t := tbl (db (mi_node m)) in
  wf_tables t → coherent t → wf_objs (objs (mi_disk m)) →
  (∀ e, live_entry t (Path e) e → room_for (objs (mi_disk m)) e) →
  ∃ m', render m = (Ok tt, m') ∧ canChown m' = canChown m ∧
    (∀ e, live_entry t (Path e) e → ¬ Path e ∈ inflight m → shows (canChown m) (objs (mi_disk m')) e) ∧
    (∀ p a x c, canonical p → Str.has_prefix tmpPrefix (Pkg.Base p) = false → tombstone t p →
       ¬ p ∈ inflight m → objs (mi_disk m') !! key_of p ≠ Some (File a x c)).
Proof. apply render_run. Qed.
End steps.
End render.
