(* ===== verification/ScanFacts.v ===== *)
(** * Scanning

    What a scan adopts from the disk, what it leaves alone, and that a directory in step with the
    tree is silent. *)
From S2P Require Import Prelude GoStrings Clock Paths Crypto Entry Store StoreFacts Resolve Syncer SyncerFacts TreeFacts Disk DiskFacts Mirror MirrorFacts RenderFacts.

Section scan.
Context `{DBFaults, Sha256, !Sha256Laws, SystemTime, OS} (cfg : Config).
Implicit Types (t : tables) (m : mirror) (e : Meta) (p : string) (f : gmap key obj) (k : key).

(** ** One promotion *)

(** The owner a promotion carries: what is on disk, unless this process cannot set owners and
    the tree knows the path. *)
Definition offered_owner (can : bool) t p (o : obj) : Z * Z :=
  let '(st, known) := entry_at t p in
  if negb can && known then (UID st, GID st) else (p_UID (obj_perms o), p_GID (obj_perms o)).

(** The edit a promotion makes of an object. *)
Definition offer (can : bool) t p (is_dir : bool) (o : obj) : option edit :=
  let mode := Z.land (p_Mode (obj_perms o)) ModePerm in
  let '(uid, gid) := offered_owner can t p o in
  if is_dir then Some (EPutDir p mode uid gid)
  else match o with
       | File _ _ c => if Z.of_nat (length c) >? MaxFileSize cfg then None else Some (EPutFile p c mode uid gid)
       | _ => None
       end.

(** What promoting did: nothing to the tree, or the edit of an object that is newer. *)
Definition promoted (is_dir : bool) p m m' : Prop :=
  let t := tbl (db (mi_node m)) in
  ∃ o ed x s1 res, objs (mi_disk m) !! key_of p = Some o ∧
    (¬ db_fault → diskIsNewer (entry_at t p).1 (entry_at t p).2 x = true ∧
                  offer (canChown m) t p is_dir o = Some ed) ∧
    (∀ a y c, o = File a y c → x = y) ∧ (edit_path ed = p) ∧
    observable s1 = observable (mi_node m) ∧ run_edit cfg ed s1 = (res, mi_node m').

Lemma stored_inv p m r m' : stored p m = (r, m') →
  observable (mi_node m') = observable (mi_node m) ∧ mi_disk m' = mi_disk m ∧ canChown m' = canChown m ∧
  inflight m' = inflight m ∧ warnedChown m' = warnedChown m ∧
  (r = Ok (entry_at (tbl (db (mi_node m))) p) ∨ (r = Ok (zero_meta, false) ∧ db_fault)).
Proof.
  unfold stored, mbind, ST_bind, attempt, on_tree, zoom.
  destruct (Syncer.Get p (mi_node m)) as [r0 s1] eqn:E.
  apply Get_entry in E as [Ho [[-> Hf]|[(e & -> & ->)|[-> ->]]]]; intros [= <- <-]; by split_and!; auto.
Qed.

(** Looking at the disk leaves it, and everything else, as it is. *)
Lemma disk_read_inv {A : Type} (q : nat → gmap key obj → result A * gmap key obj) m r m' :
  (∀ n f, (q n f).2 = f) → on_disk (Root.sys q) m = (r, m') →
  mi_node m' = mi_node m ∧ objs (mi_disk m') = objs (mi_disk m) ∧ canChown m' = canChown m ∧
  inflight m' = inflight m ∧ warnedChown m' = warnedChown m ∧
  ((∃ n, r = (q n (objs (mi_disk m))).1) ∨ ∃ err, r = Err err ∧ os_fails (calls (mi_disk m)) = Some err).
Proof.
  intros Hq. unfold on_disk, zoom. destruct (Root.sys q (mi_disk m)) as [r0 d] eqn:E. intros [= <- <-].
  apply sys_inv in E as [(e & -> & He & Hd)|E]; simpl.
  - split_and!; try done. right. by eauto.
  - pose proof (Hq (calls (mi_disk m)) (objs (mi_disk m))) as Hq0. rewrite E in Hq0. simpl in Hq0.
    split_and!; try done. left. exists (calls (mi_disk m)). by rewrite E.
Qed.

Lemma promote_inv p is_dir m :
  ∃ m', promote cfg p is_dir m = (Ok tt, m') ∧
    objs (mi_disk m') = objs (mi_disk m) ∧ canChown m' = canChown m ∧ inflight m' = inflight m ∧
    (observable (mi_node m') = observable (mi_node m) ∨ promoted is_dir p m m').
Proof.
  unfold promote. unfold mbind at 1, ST_bind at 1, attempt at 1.
  destruct (on_disk (Root.Lstat p) m) as [i m1] eqn:E1.
  apply disk_read_inv in E1 as (N1 & O1 & C1 & F1 & _ & R1); [|done].
  destruct i as [info|err]; [|exists m1; split_and!; try done; left; by rewrite N1].
  assert (∃ o n, find_obj (objs (mi_disk m)) (key_of p) = Ok o ∧ info = Root.info_of n (key_of p) o) as (o & n & Eo & ->).
  { destruct R1 as [[n R1]|(e & ? & _)]; [|done]. simpl in R1.
    destruct (find_obj (objs (mi_disk m)) (key_of p)) as [o|]; [|done]. injection R1 as ->. by eauto. }
  apply find_obj_inv in Eo as (Eo & _ & _). simpl.
  unfold mbind at 1, ST_bind at 1. destruct (stored p m1) as [rs m2] eqn:E2.
  apply stored_inv in E2 as (Ho2 & D2 & C2 & F2 & _ & R2). rewrite N1 in *.
  assert (∃ st known, rs = Ok (st, known) ∧ (¬ db_fault → (st, known) = entry_at (tbl (db (mi_node m))) p)) as (st & known & -> & Hst).
  { destruct R2 as [->|[-> ?]]; [destruct (entry_at _ p) as [st known]; by exists st, known|by exists zero_meta, false]. }
  destruct (negb (diskIsNewer st known _)) eqn:En; [exists m2; rewrite D2; split_and!; [done|congruence|congruence|congruence|left; congruence]|].
  apply negb_false_iff in En. unfold mbind at 1, ST_bind at 1, gets. rewrite C2, C1.
  destruct (ownershipFor (canChown m) (Root.info_of n (key_of p) o) st known) as [uid gid] eqn:Eow.
  set (mode := Z.land (fi_Mode (Root.info_of n (key_of p) o)) ModePerm).
  assert (∀ ed m3, edit_path ed = p → mi_node m3 = mi_node m2 → objs (mi_disk m3) = objs (mi_disk m) → canChown m3 = canChown m →
    inflight m3 = inflight m → (¬ db_fault → offer (canChown m) (tbl (db (mi_node m))) p is_dir o = Some ed) →
    ∃ m', (_ ← attempt (on_tree (run_edit cfg ed)); mret tt) m3 = (Ok tt, m') ∧ objs (mi_disk m') = objs (mi_disk m) ∧ canChown m' = canChown m ∧
      inflight m' = inflight m ∧ (observable (mi_node m') = observable (mi_node m) ∨ promoted is_dir p m m')) as Hedit.
  { intros ed m3 Hp N3 O3 C3 F3 Hoff. unfold mbind, ST_bind, attempt, on_tree, zoom.
    destruct (run_edit cfg ed (mi_node m3)) as [res s4] eqn:E4. exists (set_mi_node s4 m3). split_and!; try done.
    right. exists o, ed, (fi_ModTime (Root.info_of n (key_of p) o)), (mi_node m3), res. split_and!; try done.
    - intros Hf. rewrite <- (Hst Hf). split; [done|by apply Hoff].
    - by intros a y c ->.
    - by rewrite N3. }
  assert (¬ db_fault → offered_owner (canChown m) (tbl (db (mi_node m))) p o = (uid, gid)) as How.
  { intros Hf. unfold offered_owner. rewrite <- (Hst Hf), <- Eow. unfold ownershipFor. by destruct o. }
  assert (mode = Z.land (p_Mode (obj_perms o)) ModePerm) as Emode by (unfold mode; by destruct o).
  destruct is_dir.
  - apply (Hedit (EPutDir p mode uid gid)); try done; [by rewrite D2|congruence..|].
    intros Hf. unfold offer. by rewrite (How Hf), Emode.
  - destruct (fi_Size (Root.info_of n (key_of p) o) >? MaxFileSize cfg) eqn:Es.
    { exists m2. rewrite D2. split_and!; [done|congruence|congruence|congruence|left; congruence]. }
    unfold mbind at 1, ST_bind at 1, attempt at 1. destruct (on_disk (Root.ReadFile p) m2) as [c m3] eqn:E3.
    apply disk_read_inv in E3 as (N3 & O3 & C3 & F3 & _ & R3); [|done]. rewrite D2, O1 in *.
    destruct c as [content|err]; [|exists m3; split_and!; [done|congruence|congruence|congruence|left; congruence]].
    assert (∃ a y, o = File a y content) as (a & y & ->).
    { destruct R3 as [[n3 R3]|(e & ? & _)]; [|done]. simpl in R3.
      destruct (find_obj (objs (mi_disk m)) (key_of p)) as [o'|] eqn:Eo'; [|done].
      apply find_obj_inv in Eo' as (Eo' & _ & _). rewrite Eo in Eo'. injection Eo' as <-.
      destruct o; [done| |done]. injection R3 as ->. by eauto. }
    apply (Hedit (EPutFile p content mode uid gid)); try done; [congruence..|].
    intros Hf. unfold offer. rewrite (How Hf), Emode. simpl in Es. by rewrite Es.
Qed.

(** ** A directory in step is silent *)

(** The tree has nothing to learn from an object: the path is deleted, or the object is what the tree holds. *)
Definition in_step (can : bool) t p (o : obj) : Prop :=
  tombstone t p ∨ ∃ e, live_entry t p e ∧ object_shows can o e ∧ Root.plain_mode (Mode e) = true.

Lemma no_room_quiet n (s s' : node) : observable s' = observable s → no_room n s' ↔ no_room n s.
Proof. intros [= Ht _ _ _ _]. unfold no_room. by rewrite Ht. Qed.

Lemma offered_noop can t p o e ed :
  live_entry t p e → object_shows can o e → Root.plain_mode (Mode e) = true →
  offer can t p (obj_is_dir o) o = Some ed → edit_noop ed t.
Proof.
  intros [Ee Hd] Hs Hm. apply Z.eqb_eq in Hm.
  assert (SanitizeMode (Mode e) = Mode e) as Hsm by (by apply plain_SanitizeMode).
  assert (∀ a, owner_shown can e a → (if negb can && true then (UID e, GID e) else (p_UID a, p_GID a)) = (UID e, GID e)) as How.
  { intros a Ha. destruct can; [|done]. simpl. by destruct Ha as [-> ->]. }
  unfold offer, offered_owner. rewrite Ee. destruct o as [a|a x c|a]; simpl; [| |done].
  - destruct Hs as (Hk & Ha & Ho). rewrite (How a Ho). intros [= <-]. simpl. unfold holds_dir. rewrite Ee.
    unfold same_attrs. by rewrite Ha, Hm, Hsm.
  - destruct Hs as (Hk & Hh & Ha & Ho). rewrite (How a Ho). destruct (_ >? _); [done|]. intros [= <-]. simpl.
    unfold holds_file. rewrite Ee. unfold same_attrs. by rewrite Ha, Hm, Hsm.
Qed.

Lemma promote_in_step p o m :
  wf_tables (tbl (db (mi_node m))) → ¬ no_room 1 (mi_node m) → canonical p →
  objs (mi_disk m) !! key_of p = Some o → in_step (canChown m) (tbl (db (mi_node m))) p o →
  ∃ m', promote cfg p (obj_is_dir o) m = (Ok tt, m') ∧ objs (mi_disk m') = objs (mi_disk m) ∧
    canChown m' = canChown m ∧ inflight m' = inflight m ∧ observable (mi_node m') = observable (mi_node m).
Proof.
  intros Hw Hroom Hc Eo Hstep. destruct (promote_inv p (obj_is_dir o) m) as (m' & E & Ho & Hch & Hf & Hp).
  exists m'. split_and!; try done. destruct Hp as [?|(o' & ed & x & s1 & res & Eo' & Hnew & _ & Hpath & Hs1 & Er)]; [done|].
  rewrite Eo in Eo'. injection Eo' as <-. destruct Hnew as [Hnew Hoff]; [by eapply no_room_fault|].
  destruct Hstep as [[Hk Hd]|(e & Hl & Hsh & Hm)].
  { exfalso. unfold diskIsNewer in Hnew. by rewrite Hk, Hd in Hnew. }
  pose proof (offered_noop _ _ _ _ _ _ Hl Hsh Hm Hoff) as Hnoop.
  pose proof (observable_tbl _ _ Hs1) as Ht1. rewrite <- Ht1 in Hw. apply run_edit_inv in Er; [|done].
  unfold edit_outcome in Er. rewrite Ht1 in Er.
  destruct (edit_refused cfg ed _); [by destruct Er as [_ ->]|].
  destruct Er as [(_ & _ & ->)|[(Hn & _)|(_ & Hr & _)]]; [done|done|].
  destruct Hroom. by rewrite <- (no_room_quiet _ _ _ Hs1).
Qed.

Lemma scan_quiet m :
  wf_tables (tbl (db (mi_node m))) → ¬ no_room 1 (mi_node m) → wf_objs (objs (mi_disk m)) →
  (∀ k o, objs (mi_disk m) !! k = Some o → visible k o →
     in_step (canChown m) (tbl (db (mi_node m))) (path_of k) o) →
  ∃ m', scan cfg m = (Ok tt, m') ∧ observable (mi_node m') = observable (mi_node m) ∧
    objs (mi_disk m') = objs (mi_disk m) ∧ inflight m' = inflight m.
Proof.
  intros Hw Hroom Hwd Hstep. unfold scan.
  destruct (walk_keeps (λ p is_dir _, promote cfg p is_dir)
    (λ _ m', observable (mi_node m') = observable (mi_node m) ∧ objs (mi_disk m') = objs (mi_disk m) ∧
       canChown m' = canChown m ∧ inflight m' = inflight m) tt m) as ([] & m' & E & Ho & Hd & Hc & Hf).
  - intros k o [] m1 Ek Hvis (Ho & Hd & Hc & Hf). pose proof (observable_tbl _ _ Ho) as Ht.
    destruct (Hwd _ _ Ek) as (Hk & Hn & _).
    destruct (promote_in_step (path_of k) o m1) as (m2 & E2 & O2 & C2 & F2 & N2).
    + by rewrite Ht.
    + by rewrite (no_room_quiet _ _ _ Ho).
    + apply Hvis.
    + by rewrite Hd, key_path.
    + rewrite Hc, Ht. by apply Hstep.
    + exists tt, m2. split_and!; congruence.
  - intros [] m1 k HJ. unfold on_disk, zoom, Root.ReadDir, Root.sys. by destruct (os_fails _).
  - by split_and!.
  - by exists m'.
Qed.

(** A directory in step with the tree is silent.  When every object the walk can see is what the tree
    holds at its path, or lies at the path of a tombstone, a scan stores nothing, announces nothing and
    signals nobody, whatever the modification times are and whichever of its looks at
    the disk fail — and it never changes the disk.  So the mirror does not hear its own renders. *)
Theorem scan_in_step m :
  wf_tables (tbl (db (mi_node m))) → ¬ no_room 1 (mi_node m) → wf_objs (objs (mi_disk m)) →
  (∀ k o, objs (mi_disk m) !! k = Some o → visible k o →
     in_step (canChown m) (tbl (db (mi_node m))) (path_of k) o) →
  ∃ m', scan cfg m = (Ok tt, m') ∧ observable (mi_node m') = observable (mi_node m) ∧
    objs (mi_disk m') = objs (mi_disk m) ∧ inflight m' = inflight m.
Proof. apply scan_quiet. Qed.

(** *** A render is not heard *)

Definition known t p : Prop := (entry_at t p).2 = true.
#[export] Instance known_dec t p : Decision (known t p).
Proof. unfold known. apply _. Defined.

(** The tree has an entry for every directory above an entry. *)
Definition known_closed t : Prop :=
  ∀ p q, known t p → canonical q → key_of q `prefix_of` key_of p → known t q.

(** What is on disk after a render is known to the tree, if what was there was. *)
Lemma scope_known t fl k k' :
  tidy t → known_closed t → Forall name_ok k → k ≠ [] → Str.has_prefix tmpPrefix (Pkg.Base (path_of k)) = false →
  canonical (path_of k) → render_scope t fl k' → k `prefix_of` k' → known t (path_of k).
Proof.
  intros Htidy Hcl Hk Hn Hb Hc Hsc Hp.
  assert (∀ p, known t p → k `prefix_of` key_of p → known t (path_of k)) as Hup.
  { intros p Hkn Hpp. eapply Hcl; [exact Hkn|done|]. by rewrite key_path. }
  destruct Hsc as [(e & [Le Ld] & _ & [->| ->])|(p & [Hp1 _] & _ & _ & ->)].
  - eapply Hup; [|exact Hp]. unfold known. by rewrite Le.
  - destruct (canonical_snoc (Path e)) as (els & el & Eke & Hne & Epe & _).
    { eapply live_entry_tidy; [exact Htidy|by split]. }
    destruct (tmp_key _ els el Epe Hne) as [Et _]. rewrite Et in Hp.
    destruct (decide (k = els ++ [tmpPrefix +:+ el])) as [->|Hne'].
    { exfalso. rewrite Base_snoc in Hb by done. by rewrite Str.has_prefix_app in Hb. }
    apply (Hup (Path e)); [unfold known; by rewrite Le|].
    rewrite Eke. destruct Hp as [r Er]. destruct r as [|x r _] using rev_ind.
    { rewrite app_nil_r in Er. congruence. }
    rewrite (assoc_L (++)) in Er. apply app_inj_tail in Er as [-> _]. exists (r ++ [el]). by rewrite (assoc_L (++)).
  - by eapply Hup.
Qed.

Lemma rendered_known t fl f f' k o :
  tidy t → known_closed t → wf_objs f' → touch (render_scope t fl) f f' →
  (∀ k o, f !! k = Some o → known t (path_of k)) → f' !! k = Some o → visible k o → known t (path_of k).
Proof.
  intros Htidy Hcl Hwd [_ Hnew] Hknown Ek (Hb & _ & Hc). destruct (Hwd _ _ Ek) as (Hk & Hn & _).
  destruct (f !! k) as [o0|] eqn:E0; [by eapply Hknown|]. apply dec_stable. intros Hnk.
  destruct (Hnew k E0) as [?|(k' & a & Hsc & Hp & _)]; [|congruence|by destruct Hnk; eapply scope_known].
  intros Hsc. by destruct Hnk; eapply scope_known.
Qed.

(** C25: A render is not heard.  On a tree the mirror can write out, in which every directory above an
    entry has an entry of its own, with no claim pending and a disk that works and holds nothing the tree does not know: a render,
    as a change of the tree starts it, and the scan of the next tick of the rescan timer together leave the entries, the feed, the clock,
    the signals and the announcements of the node as they were. *)
Theorem render_then_scan m :
  let t := tbl (db (mi_node m)) in
  (∀ n, os_fails n = None) → wf_tables t → tidy t → coherent t → known_closed t → ¬ no_room 1 (mi_node m) →
  inflight m = ∅ → wf_objs (objs (mi_disk m)) → (∀ e, live_entry t (Path e) e → room_for (objs (mi_disk m)) e) →
  (∀ k o, objs (mi_disk m) !! k = Some o → known t (path_of k)) →
  ∃ m1 m2, render m = (Ok tt, m1) ∧ scan cfg m1 = (Ok tt, m2) ∧ observable (mi_node m2) = observable (mi_node m).
Proof.
  intros t Hos Hw Htidy Hco Hcl Hroom Hfl Hwd Hr Hknown.
  destruct (render_run Hos (no_room_fault _ _ Hroom) m Hw Hco Hwd Hr) as (m1 & E1 & Hc1 & Hshow & _).
  destruct (render_frame m (Ok tt) m1 Hw Htidy Hwd E1) as (Ho & Hf & Hwd1 & Htouch).
  fold t in Htouch, Hshow. pose proof (observable_tbl _ _ Ho) as Ht1. fold t in Ht1.
  destruct (scan_quiet m1) as (m2 & E2 & Ho2 & _); [by rewrite Ht1|by rewrite (no_room_quiet _ _ _ Ho)|done| |].
  - intros k o Ek Hvis. rewrite Ht1, Hc1. destruct (Hwd1 _ _ Ek) as (Hk & Hn & _).
    assert (known t (path_of k)) as Hkn by (by eapply rendered_known).
    unfold known in Hkn. destruct (entry_at t (path_of k)) as [e b] eqn:Ee. simpl in Hkn. subst b.
    destruct (Deleted e) eqn:Hd; [left; unfold tombstone; by rewrite Ee|right].
    assert (live_entry t (path_of k) e) as Hl by done. pose proof (live_entry_path _ _ _ Hw Hl) as Hpe.
    assert (live_entry t (Path e) e) as Hl' by (by rewrite Hpe).
    exists e. split; [done|]. destruct (Hshow e Hl') as (o' & Eo' & Hsh); [rewrite Hfl; set_solver|].
    rewrite Hpe, key_path, Ek in Eo' by done. injection Eo' as <-. split; [done|]. by apply (co_ok _ Hco).
  - exists m1, m2. split_and!; congruence.
Qed.

(** ** What a scan adopts *)

(** The entry made of an object found at [p] by a scan that started from the tables [t]. *)
Definition adopted (can : bool) t p (o : obj) e : Prop :=
  Deleted e = false ∧ Mode e = Z.land (p_Mode (obj_perms o)) ModePerm ∧
  (UID e, GID e) = offered_owner can t p o ∧
  match o with
  | Dir _ => MKind e = KindDir
  | File _ _ c => MKind e = KindFile ∧ Hash e = HashContent c ∧ Z.of_nat (length c) ≤ MaxFileSize cfg
  | Other _ => False
  end.

(** The path's entry is untouched, or made of the object on disk, which was newer. *)
Definition adopted_or_same (can : bool) t f t' p : Prop :=
  entry_at t' p = entry_at t p ∨
  ∃ o e x, f !! key_of p = Some o ∧ entry_at t' p = (e, true) ∧ adopted can t p o e ∧
    diskIsNewer (entry_at t p).1 (entry_at t p).2 x = true ∧ (∀ a y c, o = File a y c → x = y).

Lemma SanitizeMode_perm (x : Z) : SanitizeMode (Z.land x ModePerm) = Z.land x ModePerm.
Proof. apply plain_SanitizeMode. by rewrite <- Z.land_assoc, Z.land_diag. Qed.

Lemma offer_adopted can t p o ed (s : node) h n :
  offer can t p (obj_is_dir o) o = Some ed → adopted can t p o (with_Seq n (edit_entry cfg ed s h)).
Proof.
  unfold offer, adopted. destruct (offered_owner can t p o) as [uid gid].
  destruct o as [a|a x c|a]; simpl; [| |done].
  - intros [= <-]. simpl. by rewrite SanitizeMode_perm.
  - rewrite Z.gtb_ltb. destruct (Z.ltb_spec (MaxFileSize cfg) (Z.of_nat (length c))); [done|].
    intros [= <-]. simpl. by rewrite SanitizeMode_perm.
Qed.

Lemma adopted_owner can t t1 p o o1 e1 :
  entry_at t1 p = (e1, true) → adopted can t p o1 e1 → o1 = o → offered_owner can t1 p o = offered_owner can t p o.
Proof.
  intros E1 (_ & _ & Ho & _) ->. unfold offered_owner at 1. rewrite E1. destruct can; simpl; [|exact Ho].
  unfold offered_owner. by destruct (entry_at t p).
Qed.

(** One promotion on the way. *)
Lemma promoted_adopts can t f p o m m' :
  ¬ db_fault → wf_store (tbl (db (mi_node m))) → f !! key_of p = Some o → objs (mi_disk m) = f →
  canChown m = can → promoted (obj_is_dir o) p m m' → (∀ q, adopted_or_same can t f (tbl (db (mi_node m))) q) →
  wf_store (tbl (db (mi_node m'))) ∧ ∀ q, adopted_or_same can t f (tbl (db (mi_node m'))) q.
Proof.
  intros Hdb Hw Eo <- <- (o' & ed & x & s1 & res & Eo' & Hnew & Hx & Hpath & Hs1 & Er) Hall.
  rewrite Eo in Eo'. injection Eo' as <-. destruct (Hnew Hdb) as [Hn Hoff]. clear Hnew.
  pose proof (observable_tbl _ _ Hs1) as Ht1. pose proof Hw as Hw1. rewrite <- Ht1 in Hw1.
  pose proof (edit_frame _ _ _ _ Hw1 Er) as (_ & Hfr & _). rewrite Hpath, Ht1 in Hfr.
  apply run_edit_inv in Er; [|apply Hw1]. pose proof (edit_outcome_wf _ _ _ _ _ Hw1 Er) as Hw'.
  split; [done|]. intros q. destruct (decide (q = p)) as [->|Hq].
  2: { unfold adopted_or_same, entry_at in *. rewrite Hfr by done. apply Hall. }
  assert (entry_at (tbl (db (mi_node m'))) p = entry_at (tbl (db (mi_node m))) p ∨
    ∃ h n, entry_at (tbl (db (mi_node m'))) p = (with_Seq n (edit_entry cfg ed s1 h), true)) as [E|(h & n & E)].
  { rewrite <- Ht1. unfold edit_outcome in Er. destruct (edit_refused cfg ed _).
    { left. destruct Er as [_ Ho]. apply observable_tbl in Ho. by rewrite Ho. }
    destruct Er as [(_ & _ & Ho)|[(_ & _ & W)|(_ & _ & A)]].
    - left. apply observable_tbl in Ho. by rewrite Ho.
    - right. do 2 eexists. pose proof (wrote_entry _ _ _ _ _ W) as We. rewrite edit_entry_path, Hpath in We. exact We.
    - left. unfold entry_at. by rewrite (aborted_entries _ _ _ A). }
  { unfold adopted_or_same. rewrite E. apply Hall. }
  right. pose proof (offer_adopted _ _ _ _ _ s1 h n Hoff) as Had.
  destruct (Hall p) as [Hsame|(o1 & e1 & x1 & Eo1 & E1 & Had1 & Hn1 & Hx1)].
  - exists o, (with_Seq n (edit_entry cfg ed s1 h)), x. rewrite Hsame in Hn. split_and!; try done.
    destruct Had as (? & ? & Hown & ?). split_and!; try done. rewrite Hown. unfold offered_owner. by rewrite Hsame.
  - rewrite Eo in Eo1. injection Eo1 as <-. exists o, (with_Seq n (edit_entry cfg ed s1 h)), x1. split_and!; try done.
    destruct Had as (? & ? & Hown & ?). split_and!; try done. rewrite Hown. by eapply adopted_owner.
Qed.

(** C26: A scan never deletes.  While no statement of the database fails, and whatever of its looks at the disk
    fail, a scan leaves the disk and the claims alone and keeps the store well formed, and each
    entry of the tree is afterwards what it was, or is made of the object found on disk at its path — kind,
    content, permission bits and the owner [ownershipFor] chooses — and then the path was unknown, or live and
    older than the object.  No live entry is deleted and no deleted one comes back.  (When a read fails
    one can: [read_error_resurrects].) *)
Theorem scan_adopts_only m r m' :
  let t := tbl (db (mi_node m)) in
  ¬ db_fault → wf_store t → wf_objs (objs (mi_disk m)) → scan cfg m = (r, m') →
  r = Ok tt ∧ objs (mi_disk m') = objs (mi_disk m) ∧ inflight m' = inflight m ∧
  wf_store (tbl (db (mi_node m'))) ∧
  (∀ p, adopted_or_same (canChown m) t (objs (mi_disk m)) (tbl (db (mi_node m'))) p) ∧
  (∀ p, live t p → live (tbl (db (mi_node m'))) p) ∧
  (∀ p, tombstone t p → entry_at (tbl (db (mi_node m'))) p = entry_at t p).
Proof.
  intros t Hdb Hw Hwd Es. unfold scan in Es.
  destruct (walk_keeps (λ p is_dir _, promote cfg p is_dir)
    (λ _ m1, wf_store (tbl (db (mi_node m1))) ∧ objs (mi_disk m1) = objs (mi_disk m) ∧
       canChown m1 = canChown m ∧ inflight m1 = inflight m ∧
       ∀ p, adopted_or_same (canChown m) t (objs (mi_disk m)) (tbl (db (mi_node m1))) p) tt m)
    as ([] & m1 & E & Hw1 & Hd1 & _ & Hf1 & Hall).
  - intros k o [] m1 Ek _ (Hw1 & Hd & Hc & Hf & Hall). destruct (Hwd _ _ Ek) as (Hk & Hn & _).
    destruct (promote_inv (path_of k) (obj_is_dir o) m1) as (m2 & E2 & O2 & C2 & F2 & Hp).
    exists tt, m2. split; [done|]. rewrite O2, C2, F2. destruct Hp as [Ho|Hp].
    + rewrite (observable_tbl _ _ Ho). by split_and!.
    + eapply (promoted_adopts (canChown m) t (objs (mi_disk m))) in Hp as [? ?]; try done.
      by rewrite key_path.
  - intros [] m1 k HJ. unfold on_disk, zoom, Root.ReadDir, Root.sys. by destruct (os_fails _).
  - split_and!; try done. by left.
  - rewrite Es in E. injection E as -> ->. split_and!; try done.
    + intros p Hl. destruct (Hall p) as [Hsame|(o & e & x & _ & Ee & (Hd & _) & _)]; unfold live in *;
        [by rewrite Hsame|by rewrite Ee].
    + intros p [Hk Hd]. destruct (Hall p) as [?|(o & e & x & _ & _ & _ & Hnew & _)]; [done|].
      unfold diskIsNewer in Hnew. by rewrite Hk, Hd in Hnew.
Qed.

(** *** What it does adopt *)

Section live.
Context (Hos : ∀ n, os_fails n = None) (Hdb : ¬ db_fault).

(** The modification time a look at the object may report. *)
Definition mtime_of (o : obj) (x : Z) : Prop := ∀ a y c, o = File a y c → x = y.

Lemma promote_run p o ed m :
  wf_objs (objs (mi_disk m)) → canonical p → objs (mi_disk m) !! key_of p = Some o →
  (∀ x, mtime_of o x → diskIsNewer (entry_at (tbl (db (mi_node m))) p).1 (entry_at (tbl (db (mi_node m))) p).2 x = true) →
  offer (canChown m) (tbl (db (mi_node m))) p (obj_is_dir o) o = Some ed →
  ∃ m' s1 res, promote cfg p (obj_is_dir o) m = (Ok tt, m') ∧
    observable s1 = observable (mi_node m) ∧ run_edit cfg ed s1 = (res, mi_node m').
Proof.
  intros Hwd Hc Eo Hnew Hoff. destruct (canonical_key p Hc) as (_ & _ & Hs).
  destruct (Hwd _ _ Eo) as (_ & _ & Hd). pose proof (find_obj_Ok _ _ _ Hs Hd Eo) as Hfind.
  unfold promote. unfold mbind at 1, ST_bind at 1, attempt at 1. unfold on_disk at 1, zoom, Root.Lstat.
  rewrite sys_run by done. rewrite Hfind. simpl.
  set (info := Root.info_of (calls (mi_disk m)) (key_of p) o).
  set (m1 := set_mi_disk _ m). unfold mbind at 1, ST_bind at 1.
  destruct (stored p m1) as [rs m2] eqn:E2. apply stored_inv in E2 as (Ho2 & D2 & C2 & _ & _ & [->|[_ ?]]); [|done].
  change (mi_node m1) with (mi_node m) in *. change (canChown m1) with (canChown m) in C2.
  destruct (entry_at (tbl (db (mi_node m))) p) as [st known] eqn:Eat. simpl in Hnew.
  rewrite Hnew by (intros a y c ->; done). simpl. unfold mbind at 1, ST_bind at 1, gets. rewrite C2.
  assert (ownershipFor (canChown m) info st known = offered_owner (canChown m) (tbl (db (mi_node m))) p o) as Eow.
  { unfold offered_owner. rewrite Eat. unfold ownershipFor, info. by destruct o. }
  assert (fi_Mode info = p_Mode (obj_perms o)) as Emode by (unfold info; by destruct o).
  rewrite Eow, Emode. unfold offer in Hoff. destruct (offered_owner _ _ p o) as [uid gid].
  assert (∀ m3, mi_node m3 = mi_node m2 → ∃ m' s1 res, (_ ← attempt (on_tree (run_edit cfg ed)); mret tt) m3 = (Ok tt, m') ∧
    observable s1 = observable (mi_node m) ∧ run_edit cfg ed s1 = (res, mi_node m')) as Hgo.
  { intros m3 N3. unfold mbind, ST_bind, attempt, on_tree, zoom. rewrite N3.
    destruct (run_edit cfg ed (mi_node m2)) as [res s3] eqn:E3. by exists (set_mi_node s3 m3), (mi_node m2), res. }
  destruct o as [a|a x c|a]; simpl in Hoff |- *; [injection Hoff as <-; by apply Hgo| |done].
  destruct (Z.of_nat (length c) >? MaxFileSize cfg); [done|]. injection Hoff as <-.
  unfold mbind at 1, ST_bind at 1, attempt at 1. unfold on_disk at 1, zoom, Root.ReadFile.
  rewrite sys_run by done. rewrite D2. simpl. rewrite Hfind. simpl. by apply Hgo.
Qed.

(** What the path holds once it has been offered, unless the feed is used up. *)
Definition settled (can : bool) t p (o : obj) (s : node) : Prop :=
  no_room 1 s ∨ ∃ e, live_entry (tbl (db s)) p e ∧ adopted can t p o e.

Lemma noop_adopted can t p o ed t' :
  offer can t p (obj_is_dir o) o = Some ed → edit_noop ed t' → ∃ e, live_entry t' p e ∧ adopted can t p o e.
Proof.
  unfold offer. destruct (offered_owner can t p o) as [uid gid] eqn:Eo.
  destruct o as [a|a x c|a]; simpl; [|rewrite Z.gtb_ltb; destruct (Z.ltb_spec (MaxFileSize cfg) (Z.of_nat (length c))); [done|]|done];
    intros [= <-]; simpl; unfold holds_dir, holds_file, same_attrs, live_entry;
    destruct (entry_at t' p) as [e b]; rewrite SanitizeMode_perm.
  - intros (-> & Hd & Hk & Hm & Hu & Hg). exists e. split; [done|]. unfold adopted. rewrite Eo. simpl. split_and!; congruence.
  - intros (-> & Hd & Hk & Hh & Hm & Hu & Hg). exists e. split; [done|]. unfold adopted. rewrite Eo. simpl.
    split_and!; congruence || lia.
Qed.

Lemma no_room_mono (s s' : node) : local_seq (tbl (db s)) ≤ local_seq (tbl (db s')) → no_room 1 s → no_room 1 s'.
Proof. intros Hle [?|?]; [by left|right; lia]. Qed.

Lemma offer_run_settled can t p o ed (s1 s2 : node) res :
  canonical p → wf_store (tbl (db s1)) → offer can t p (obj_is_dir o) o = Some ed → run_edit cfg ed s1 = (res, s2) →
  settled can t p o s2.
Proof.
  intros Hc Hw Hoff Er. pose proof (edit_frame _ _ _ _ Hw Er) as (Hseq & _).
  assert (edit_refused cfg ed (tbl (db s1)) = None) as Href.
  { revert Hoff. unfold offer. destruct (offered_owner can t p o) as [uid gid].
    destruct o as [a|a x c|a]; simpl; [|rewrite Z.gtb_ltb; destruct (Z.ltb_spec (MaxFileSize cfg) (Z.of_nat (length c))); [done|]|done];
      intros [= <-]; unfold edit_refused; simpl; rewrite decide_True by done; [done|]. case_decide; [lia|done]. }
  destruct res as [[]|err].
  - right. destruct (edit_settled _ _ _ Hw Er) as (_ & _ & Hn). by eapply noop_adopted.
  - left. eapply no_room_mono; [apply Hseq|]. apply run_edit_inv in Er; [|apply Hw]. unfold edit_outcome in Er.
    rewrite Href in Er. by destruct Er as [(_ & ? & _)|[(_ & ? & _)|(_ & ? & _)]].
Qed.

(** The offer does not change while the path is unchanged or holds what was adopted. *)
Lemma offer_same can t t1 f p o : adopted_or_same can t f t1 p → f !! key_of p = Some o →
  offer can t1 p (obj_is_dir o) o = offer can t p (obj_is_dir o) o.
Proof.
  intros Hs Eo. unfold offer. assert (offered_owner can t1 p o = offered_owner can t p o) as ->; [|done].
  destruct Hs as [E|(o1 & e1 & x & Eo1 & E1 & Ha & _)]; [unfold offered_owner; by rewrite E|].
  rewrite Eo in Eo1. injection Eo1 as <-. by eapply adopted_owner.
Qed.

Lemma promoted_settled can t f p o m m' :
  canonical p → wf_store (tbl (db (mi_node m))) → f !! key_of p = Some o → objs (mi_disk m) = f → canChown m = can →
  adopted_or_same can t f (tbl (db (mi_node m))) p → promoted (obj_is_dir o) p m m' → settled can t p o (mi_node m').
Proof.
  intros Hc Hw Eo <- <- Hs (o' & ed & x & s1 & res & Eo' & Hnew & _ & _ & Hs1 & Er).
  rewrite Eo in Eo'. injection Eo' as <-. destruct (Hnew Hdb) as [_ Hoff].
  rewrite (offer_same _ _ _ _ _ _ Hs Eo) in Hoff. eapply offer_run_settled; [done| |exact Hoff|exact Er].
  by rewrite (observable_tbl _ _ Hs1).
Qed.

End live.
End scan.
