(* ===== verification/WatchFacts.v ===== *)
(** * What the watcher promises

    Events applied do what they say, and a claimed path is not written back. *)
From S2P Require Import Prelude GoStrings Clock Paths Crypto Entry Store StoreFacts Resolve Syncer SyncerFacts TreeFacts Disk DiskFacts Mirror MirrorFacts RenderFacts ScanFacts Watch.

Section events.
Context `{DBFaults, Sha256, !Sha256Laws, SystemTime, OS} (cfg : Config).
Implicit Types (t : tables) (m : mirror) (p : string).

(** ** Steps that do not change the disk *)

(** What promoting, deleting and scanning leave: the disk, the claims, a sound tree. *)
Definition listens m m' : Prop :=
  objs (mi_disk m') = objs (mi_disk m) ∧ inflight m' = inflight m ∧ (sound (mi_node m) → sound (mi_node m')).

#[export] Instance listens_preorder : PreOrder listens.
Proof.
  split; [by intros m|]. intros m1 m2 m3 (? & ? & ?) (? & ? & ?). split_and!; [congruence..|auto].
Qed.

Lemma listens_promote p is_dir : moves listens (promote cfg p is_dir).
Proof.
  intros m. destruct (promote_inv cfg p is_dir m) as (m' & -> & Ho & _ & Hf & Hp). split_and!; [done..|].
  intros Hs. destruct Hp as [Hq|(o & ed & x & s1 & res & _ & _ & _ & _ & Hs1 & Er)]; [by eapply sound_quiet|].
  eapply edit_sound; [|exact Er]. by eapply sound_quiet.
Qed.

Lemma listens_delete p : moves listens (deleteLocal cfg p).
Proof.
  intros m. unfold deleteLocal, mbind, ST_bind, attempt, on_tree, zoom.
  destruct (Delete cfg p (mi_node m)) as [r s'] eqn:E. split_and!; [done..|].
  intros Hs. by eapply (edit_sound (EDelete p)).
Qed.

Lemma listens_Lstat p : moves listens (on_disk (Root.Lstat p)).
Proof.
  intros m. destruct (on_disk (Root.Lstat p) m) as [r m'] eqn:E.
  apply disk_read_inv in E as (N & O & _ & F & _); [|done]. unfold listens. simpl. by rewrite N.
Qed.

Lemma listens_apply_event ev : moves listens (apply_event cfg ev).
Proof.
  unfold apply_event. apply moves_bind; [apply _|apply moves_attempt, listens_Lstat|]. intros i.
  destruct (e_Removed ev), i as [info|[]]; try apply listens_promote; try apply listens_delete;
    try (apply moves_ret, _).
  case_match; [apply moves_ret, _|apply listens_promote].
Qed.

Lemma listens_scan : moves listens (scan cfg).
Proof.
  intros m. unfold scan.
  destruct (walk_keeps (λ p is_dir _, promote cfg p is_dir) (λ _ m', listens m m') tt m) as ([] & m' & -> & Hl).
  - intros k o [] m1 _ _ Hl. destruct (promote_inv cfg (path_of k) (obj_is_dir o) m1) as (m2 & E & _).
    exists tt, m2. split; [done|]. etransitivity; [exact Hl|].
    pose proof (listens_promote (path_of k) (obj_is_dir o) m1) as Hp. by rewrite E in Hp.
  - intros [] m1 k Hl. etransitivity; [exact Hl|].
    unfold on_disk, zoom, Root.ReadDir, Root.sys. by destruct (os_fails _).
  - done.
  - done.
Qed.

(** ** Applying an event *)

(** What an event means for the tree: with nothing at its path, the path is deleted; with an object
    there, it is offered as a scan would — as a file, when the event was a removal. *)
Definition event_effect (m : mirror) (ev : event) (t' : tables) : Prop :=
  let t := tbl (db (mi_node m)) in let p := e_Path ev in
  match objs (mi_disk m) !! key_of p with
  | None => ¬ live t' p
  | Some (Other _) => entry_at t' p = entry_at t p
  | Some _ => adopted_or_same cfg (canChown m) t (objs (mi_disk m)) t' p
  end.

Lemma edit_runs ed (s s' : node) res :
  wf_store (tbl (db s)) → ¬ no_room 1 s → edit_refused cfg ed (tbl (db s)) = None → run_edit cfg ed s = (res, s') → res = Ok tt.
Proof.
  intros Hw Hroom Href E. apply run_edit_inv in E; [|apply Hw]. unfold edit_outcome in E. rewrite Href in E.
  by destruct E as [(_ & -> & _)|[(_ & -> & _)|(_ & ? & _)]].
Qed.

Lemma deleteLocal_run p m :
  wf_store (tbl (db (mi_node m))) → ¬ no_room 1 (mi_node m) → canonical p →
  ∃ m', deleteLocal cfg p m = (Ok tt, m') ∧ ¬ live (tbl (db (mi_node m'))) p ∧
    (∀ q, q ≠ p → entry_at (tbl (db (mi_node m'))) q = entry_at (tbl (db (mi_node m))) q).
Proof.
  intros Hw Hroom Hc. unfold deleteLocal, mbind, ST_bind, attempt, on_tree, zoom.
  destruct (Delete cfg p (mi_node m)) as [res s'] eqn:E. change (run_edit cfg (EDelete p) (mi_node m) = (res, s')) in E.
  assert (res = Ok tt) as ->.
  { eapply edit_runs; [done|done| |exact E]. unfold edit_refused. simpl. by rewrite decide_True. }
  exists (set_mi_node s' m). destruct (edit_settled _ _ _ Hw E) as (_ & _ & Hn). split_and!; [done|exact Hn|].
  intros q Hq. pose proof (edit_frame _ _ _ _ Hw E) as (_ & Hfr & _). unfold entry_at. simpl. by rewrite Hfr.
Qed.

Lemma promote_event p is_dir o m :
  ¬ db_fault → wf_store (tbl (db (mi_node m))) → objs (mi_disk m) !! key_of p = Some o →
  (is_dir = obj_is_dir o ∨ is_dir = false) →
  ∃ m', promote cfg p is_dir m = (Ok tt, m') ∧
    (∀ q, q ≠ p → entry_at (tbl (db (mi_node m'))) q = entry_at (tbl (db (mi_node m))) q) ∧
    match o with
    | Other _ => entry_at (tbl (db (mi_node m'))) p = entry_at (tbl (db (mi_node m))) p
    | _ => adopted_or_same cfg (canChown m) (tbl (db (mi_node m))) (objs (mi_disk m)) (tbl (db (mi_node m'))) p
    end.
Proof.
  intros Hdb Hw Eo Hd. destruct (promote_inv cfg p is_dir m) as (m' & E & _ & _ & _ & Hp). exists m'. split; [done|].
  assert (entry_at (tbl (db (mi_node m'))) p = entry_at (tbl (db (mi_node m))) p →
    match o with
    | Other _ => entry_at (tbl (db (mi_node m'))) p = entry_at (tbl (db (mi_node m))) p
    | _ => adopted_or_same cfg (canChown m) (tbl (db (mi_node m))) (objs (mi_disk m)) (tbl (db (mi_node m'))) p
    end) as Hsame by (intros Es; destruct o; [by left..|done]).
  destruct Hp as [Hq|Hp].
  { rewrite (observable_tbl _ _ Hq) in *. by split; [|apply Hsame]. }
  split.
  - destruct Hp as (o' & ed & x & s1 & res & _ & _ & _ & Hpath & Hs1 & Er). intros q Hq.
    pose proof Hw as Hw1. rewrite <- (observable_tbl _ _ Hs1) in Hw1.
    pose proof (edit_frame _ _ _ _ Hw1 Er) as (_ & Hfr & _). rewrite (observable_tbl _ _ Hs1) in Hfr.
    unfold entry_at. rewrite Hfr; [done|congruence].
  - assert (is_dir = obj_is_dir o ∧ ∀ a, o ≠ Other a) as [-> Hot].
    { destruct Hp as (o' & ed & x & s1 & res & Eo' & Hnew & _). rewrite Eo in Eo'. injection Eo' as <-.
      destruct (Hnew Hdb) as [_ Hoff]. unfold offer in Hoff. destruct (offered_owner _ _ p o).
      destruct o as [a| |a], Hd as [->| ->]; simpl in *; done. }
    eapply (promoted_adopts cfg (canChown m) (tbl (db (mi_node m))) (objs (mi_disk m))) in Hp as [_ Hall]; try done;
      [|by left]. destruct o as [| |a]; [apply Hall..|by destruct (Hot a)].
Qed.

(** C28: An event does what it says.  When the database and the disk work, the database has room, and what lies above the path
    is directories or nothing, applying a settled event leaves the disk, the
    claims and every other path of the tree alone; the path of an event with nothing on disk is
    deleted from the tree, whether the event was seen as a removal or not; an object that is there is offered to
    the tree — so a file that was replaced is a change, not a deletion; and what is neither a file nor a
    directory changes nothing.  (A look at the disk that fails: [stat_error_deletes].) *)
Theorem apply_event_spec ev m :
  (∀ n, os_fails n = None) → ¬ no_room 1 (mi_node m) → wf_store (tbl (db (mi_node m))) →
  wf_objs (objs (mi_disk m)) → canonical (e_Path ev) →
  (∀ a b, key_of (e_Path ev) = a ++ b → a ≠ [] → b ≠ [] →
     objs (mi_disk m) !! a = None ∨ ∃ x, objs (mi_disk m) !! a = Some (Dir x)) →
  ∃ m', apply_event cfg ev m = (Ok tt, m') ∧ listens m m' ∧
    (∀ q, q ≠ e_Path ev → entry_at (tbl (db (mi_node m'))) q = entry_at (tbl (db (mi_node m))) q) ∧
    event_effect m ev (tbl (db (mi_node m'))).
Proof.
  intros Hos Hroom Hw Hwd Hc Hclear. pose proof (no_room_fault _ _ Hroom) as Hdb.
  pose proof (listens_apply_event ev m) as Hl. destruct (canonical_key _ Hc) as (_ & _ & Hs).
  enough (∃ m', apply_event cfg ev m = (Ok tt, m') ∧
    (∀ q, q ≠ e_Path ev → entry_at (tbl (db (mi_node m'))) q = entry_at (tbl (db (mi_node m))) q) ∧
    event_effect m ev (tbl (db (mi_node m')))) as (m' & E & Hq & He).
  { exists m'. rewrite E in Hl. by split_and!. }
  clear Hl. unfold apply_event, mbind, ST_bind, attempt, on_disk, zoom, Root.Lstat. rewrite sys_run by done.
  set (m1 := set_mi_disk _ m). unfold event_effect.
  destruct (objs (mi_disk m) !! key_of (e_Path ev)) as [o|] eqn:Eo.
  - destruct (Hwd _ _ Eo) as (_ & _ & Hd). rewrite (find_obj_Ok _ _ _ Hs Hd Eo). simpl.
    destruct (e_Removed ev); [|destruct (negb _ && negb _) eqn:Eoth].
    + destruct (promote_event (e_Path ev) false o m1) as (m' & E & ? & ?); auto. by exists m'.
    + exists m1. by destruct o.
    + assert (fi_IsDir (Root.info_of (calls (mi_disk m)) (key_of (e_Path ev)) o) = obj_is_dir o) as -> by (by destruct o).
      destruct (promote_event (e_Path ev) (obj_is_dir o) o m1) as (m' & E & ? & ?); auto. by exists m'.
  - rewrite find_obj_missing by done. simpl.
    destruct (deleteLocal_run (e_Path ev) m1) as (m' & E & ? & ?); [done..|]. destruct (e_Removed ev); by exists m'.
Qed.
End events.

(** ** Claims *)

Section claims.
Context `{DBFaults, Sha256, !Sha256Laws, SystemTime, OS, Watcher} (cfg : Config) (dir : string) (p : string).
Implicit Types (x y : running) (m : mirror).

(** What the watcher does to the mirror: it looks at the disk and claims paths. *)
Definition watches m m' : Prop :=
  mi_node m' = mi_node m ∧ objs (mi_disk m') = objs (mi_disk m) ∧ inflight m ⊆ inflight m'.

#[export] Instance watches_preorder : PreOrder watches.
Proof.
  split; [by intros m|]. intros m1 m2 m3 (? & ? & ?) (? & ? & ?). split_and!; [congruence..|set_solver].
Qed.
#[local] Abbreviation looks := (key_rel r_mirror watches).

Lemma watches_on_mirror {A : Type} (q : ST mirror A) : moves watches q → moves looks (on_mirror q).
Proof. intros Hq. apply moves_zoom. intros x. apply Hq. Qed.

Lemma watches_read {A : Type} (q : nat → gmap (list string) obj → result A * gmap (list string) obj) :
  (∀ n f, (q n f).2 = f) → moves watches (on_disk (Root.sys q)).
Proof.
  intros Hq m. destruct (on_disk (Root.sys q) m) as [r m'] eqn:E.
  apply disk_read_inv in E as (N & O & _ & F & _); [|done]. unfold watches. simpl. by rewrite N, O, F.
Qed.

Lemma watches_mark q : moves watches (markInflight q).
Proof. intros m. split_and!; [done..|]. simpl. set_solver. Qed.

Lemma watches_visit enter skipped l : moves watches (visit_list enter skipped l).
Proof.
  revert skipped. induction l as [|[k o] l IH]; intros skipped; simpl; [apply moves_ret, _|].
  destruct (existsb _ skipped); [apply IH|]. apply moves_bind; [apply _| |intros readable].
  - destruct (obj_is_dir o && enter k); [|apply moves_ret, _].
    apply moves_bind; [apply _|by apply moves_attempt, watches_read|intros; apply moves_ret, _].
  - apply moves_bind; [apply _|apply IH|intros; apply moves_ret, _].
Qed.

Lemma watches_walk_below top : moves watches (walk_below top).
Proof. apply moves_bind; [apply _|apply moves_gets, _|intros; apply watches_visit]. Qed.

Lemma looks_fields (f : running → running) : (∀ x, r_mirror (f x) = r_mirror x) → moves looks (modify f).
Proof. intros Hf x. unfold key_rel. simpl. by rewrite Hf. Qed.

Lemma looks_addWatches top : moves looks (addWatches top).
Proof.
  apply moves_bind; [apply _|apply watches_on_mirror, watches_walk_below|intros; by apply looks_fields].
Qed.

Lemma looks_enqueueTree top : moves looks (enqueueTree top).
Proof.
  apply moves_bind; [apply _|apply watches_on_mirror, watches_walk_below|intros].
  apply moves_bind; [apply _|by apply looks_fields|intros]. apply watches_on_mirror.
  apply moves_each; [apply _|]. intros. apply watches_mark.
Qed.

Lemma looks_on_raw ev : moves looks (on_raw dir ev).
Proof.
  unfold on_raw. destruct (relative dir (ev_Name ev)) as [rel|]; [|apply moves_ret, _].
  apply moves_bind; [apply _| |intros].
  - destruct (op_Create ev); [|apply moves_ret, _].
    apply moves_bind; [apply _|by apply moves_attempt, watches_on_mirror, watches_read|]. intros [info|]; [|apply moves_ret, _].
    destruct (fi_IsDir info); [|apply moves_ret, _].
    apply moves_bind; [apply _|apply looks_addWatches|intros; apply looks_enqueueTree].
  - apply moves_bind; [apply _|by apply looks_fields|intros; apply watches_on_mirror, watches_mark].
Qed.

(** What happens while the claim on [p] is held: no batch with [p] is finished, users do not create a file
    at [p], and the node stays sound. *)
Definition keeps_claim (a : action) : Prop :=
  match a with
  | ARelease batch => ¬ p ∈ e_Path <$> batch
  | AUser f => wf_objs f ∧ ∀ b t c, f !! key_of p ≠ Some (File b t c)
  | ANode s => sound s
  | _ => True
  end.

(** The claim is held and there is no file at the path. *)
Record protected x : Prop := {
  pr_sound : sound (mi_node (r_mirror x));
  pr_disk : wf_objs (objs (mi_disk (r_mirror x)));
  pr_claim : p ∈ inflight (r_mirror x);
  pr_gone : ∀ b t c, objs (mi_disk (r_mirror x)) !! key_of p ≠ Some (File b t c)
}.

Lemma protected_listens x m' (f : running → running) :
  listens (r_mirror x) m' → r_mirror (f x) = m' → protected x → protected (f x).
Proof. intros (Ho & Hf & Hs) Em [? ? ? ?]. split; rewrite Em, ?Ho, ?Hf; auto. Qed.

Lemma protected_watches x y : watches (r_mirror x) (r_mirror y) → protected x → protected y.
Proof. intros (Hn & Ho & Hf) [? ? ? ?]. split; rewrite ?Hn, ?Ho; auto. Qed.

Context (Hp : canonical p) (Hbase : Str.has_prefix tmpPrefix (Pkg.Base p) = false).

Lemma claimed_not_in_scope t (fl : gset string) : wf_tables t → tidy t → p ∈ fl → ¬ render_scope t fl (key_of p).
Proof.
  intros Hw Ht Hfl [(e & Le & Hne & Ek)|(q & _ & Hq & Hne & Ek)].
  - pose proof (live_entry_tidy _ _ _ Ht Le) as Hc. destruct Ek as [Ek|Ek].
    + apply key_of_inj in Ek; [by subst|done..].
    + destruct (canonical_snoc _ Hc) as (els & el & _ & Hn & Ep & _). destruct (tmp_key _ els el Ep Hn) as [Et Hnt].
      rewrite Et in Ek. rewrite <- (canonical_path_key p Hp), Ek, Base_snoc in Hbase by done.
      by rewrite Str.has_prefix_app in Hbase.
  - apply key_of_inj in Ek; [by subst|done..].
Qed.

Lemma protected_render x : protected x → protected (set_r_mirror (render (r_mirror x)).2 x).
Proof.
  intros [[Hw Ht] Hd Hc Hg]. destruct (render (r_mirror x)) as [r m'] eqn:E.
  destruct (render_frame _ _ _ (proj1 Hw) Ht Hd E) as (Ho & Hf & Hd' & Hold & Hnew).
  pose proof (claimed_not_in_scope _ _ (proj1 Hw) Ht Hc) as Hns. split; simpl.
  - eapply sound_quiet; [exact Ho|by split].
  - done.
  - by rewrite Hf.
  - intros b t c Ef. destruct (objs (mi_disk (r_mirror x)) !! key_of p) as [o|] eqn:Eo.
    + rewrite (Hold _ _ Eo Hns) in Ef. by apply (Hg b t c).
    + destruct (Hnew _ Eo Hns) as [En|(k' & a & _ & _ & En)]; congruence.
Qed.

Lemma released_claim batch m : p ∈ inflight m → ¬ p ∈ e_Path <$> batch →
  let m' := (each (λ ev, clearInflight (e_Path ev)) batch m).2 in
  p ∈ inflight m' ∧ mi_node m' = mi_node m ∧ mi_disk m' = mi_disk m.
Proof.
  revert m. induction batch as [|ev batch IH]; intros m Hin Hni; [done|]. cbv zeta. rewrite each_cons.
  rewrite fmap_cons, not_elem_of_cons in Hni. destruct Hni as [Hne Hni].
  destruct (IH (clearInflight (e_Path ev) m).2) as (? & -> & ->); [|done|done]. simpl. set_solver.
Qed.

Lemma act_protected a x y : act cfg dir a x = Some y → keeps_claim a → protected x → protected y.
Proof.
  intros E Hk Hx. destruct a; simpl in E, Hk.
  - destruct (r_sending x); [done|]. injection E as <-. eapply protected_watches; [|done]. apply looks_on_raw.
  - destruct (r_sending x); [done|]. repeat (case_match; try done); injection E as <-; by destruct Hx.
  - repeat (case_match; try done). injection E as <-. by destruct Hx.
  - repeat (case_match; try done). injection E as <-. by destruct Hx.
  - repeat (case_match; try done). injection E as <-.
    eapply (protected_listens x _ (λ x, set_applying _ (set_r_mirror _ x))); [apply listens_apply_event|done|done].
  - repeat (case_match; try done). injection E as <-. destruct Hx as [Hs Hd Hc Hg].
    destruct (released_claim batch (r_mirror x) Hc Hk) as (Hc' & Hn' & Hd'). split; simpl; by rewrite ?Hn', ?Hd'.
  - destruct (r_applying x); [done|]. injection E as <-. by apply protected_render.
  - destruct (r_applying x); [done|]. injection E as <-. unfold tick, mbind, ST_bind, attempt.
    pose proof (listens_scan cfg (r_mirror x)) as Hl. destruct (scan cfg (r_mirror x)) as [r m1]. simpl in Hl.
    pose proof (protected_listens x m1 (set_r_mirror m1) Hl eq_refl Hx) as Hx1. apply protected_render in Hx1.
    simpl in Hx1. by destruct (render m1).
  - injection E as <-. destruct Hk, Hx. by split.
  - injection E as <-. destruct Hx. by split.
Qed.

(** C29: A deletion that has been seen is not undone.  Once the watcher has claimed a path at which no file is left —
    the user has deleted it, the event waits for its delay, its batch waits in the channel or is being applied —
    no file appears there, and the claim stays, whatever the goroutines do, in whatever order, whatever is pulled,
    edited through the mount or changed by users elsewhere, and whatever fails; until some batch that contains
    the path is done with — it need not be the one of this deletion: [deletion_lost] — or a user creates the file again. *)
Theorem claim_protects acts x y :
  run cfg dir acts x = Some y → Forall keeps_claim acts → protected x → protected y.
Proof.
  intros E Hk. revert x E. induction Hk as [|a acts Ha _ IH]; intros x E Hx; simpl in E; [by injection E as <-|].
  destruct (act cfg dir a x) as [x1|] eqn:E1; [|done]. eapply IH; [exact E|]. by eapply act_protected.
Qed.
End claims.
