(* ===== verification/AntiEntropy.v ===== *)
(** * Pulling from peers (internal/syncer/antientropy.go)

    Validation, the loop over a page of a peer's entries, the walk over its feed with the
    cursor and the bookmark, and the janitor.  What peers
    answer is the interface [PeerClient]: arbitrary, request by request. *)
From S2P Require Import Prelude GoStrings Clock Paths Crypto Entry Store StoreFacts Resolve Syncer Transport Client.

Section antientropy.
Context `{DBFaults, Sha256, SystemTime, PeerClient} (cfg : Config).

(** A request to a peer: its answer, and one more request made. *)
Definition request {A} (ask : nat → result A) : ST node A := λ s,
  (ask (reqs s), set_reqs (S (reqs s)) s).

Definition validate (m : Meta) : result unit :=
  _ ← SanitizePath (Path m);
  if negb (Valid (MKind m)) then Err ErrInvalidEntry
  else if String.eqb (Origin (MVersion m)) EmptyString then Err ErrInvalidEntry
  else if Size m >? MaxFileSize cfg then Err ErrTooLarge
  else if negb (String.eqb (Hash m) EmptyString) && negb (Str.len (Hash m) =? 64)
    then Err ErrInvalidEntry
  else if negb (String.eqb (Hash m) EmptyString) && negb (Hex.decodes (Hash m))
    then Err ErrInvalidEntry
  else if (MKind m =? KindDir) && negb (String.eqb (Hash m) EmptyString) then Err ErrInvalidEntry
  else Ok tt.

Definition ensureBlob (addr hash : string) : ST node unit :=
  have ← on_db (HasBlob hash);
  if (have : bool) then mret tt
  else
    content ← request (λ i, peer_Blob i addr hash);
    if Z.of_nat (length content) >? MaxFileSize cfg then throw ErrTooLarge
    else
      _ ← on_db (PutBlob content);
      mret tt.

Definition conflictCopy (local : Meta) : ST node Meta :=
  hlc ← clock_now;
  mret (mkMeta
    (ConflictName (Path local) (Origin (MVersion local)) (Wall (HLC (MVersion local))))
    (MKind local) (Hash local) "" (Size local) (Mode local) (UID local) (GID local)
    (mkVersion hlc (Node cfg)) (Deleted local) (DeletedAt local) 0).

(** The variables of the loop of applyRemote. *)
Record progress := mkProgress {
  batch : list Meta;
  conflict : Z;
  safe : Z;
  deferred : bool
}.
Definition start : progress := mkProgress [] 0 0 false.

Definition advance (m : Meta) (a : progress) : progress :=
  if deferred a then a
  else mkProgress (batch a) (conflict a) (Z.max (safe a) (Seq m)) (deferred a).
Definition push (m : Meta) (a : progress) : progress :=
  mkProgress (batch a ++ [m]) (conflict a) (safe a) (deferred a).
Definition push_copy (m : Meta) (a : progress) : progress :=
  mkProgress (batch a ++ [m]) (conflict a + 1) (safe a) (deferred a).
Definition defer (a : progress) : progress :=
  mkProgress (batch a) (conflict a) (safe a) true.

(** The entry's content has to be present before the entry is stored. *)
Definition needs_blob (m : Meta) : bool :=
  (MKind m =? KindFile) && negb (Deleted m) && negb (String.eqb (Hash m) EmptyString).

(** One turn of the loop. *)
Definition apply_entry (addr : string) (remote : Meta) (a : progress) : ST node progress :=
  match validate remote with
  | Err _ => mret (advance remote a)
  | Ok _ =>
      r ← attempt (clock_observe (HLC (MVersion remote)));
      match r with
      | Err _ => mret (advance remote a)
      | Ok _ =>
          '(local, have) ← lookup (Path remote);
          match resolve local have remote with
          | decisionSkip => mret (advance remote a)
          | d =>
              a ← match d with
                  | decisionConflict =>
                      copyOf ← conflictCopy local;
                      mret (push_copy copyOf a)
                  | _ => mret a
                  end;
              if needs_blob remote then
                r ← attempt (ensureBlob addr (Hash remote));
                match r with
                | Err _ => mret (defer a)
                | Ok _ => mret (advance remote (push remote a))
                end
              else mret (advance remote (push remote a))
          end
      end
  end.

Fixpoint apply_entries (addr : string) (entries : list Meta) (a : progress) : ST node progress :=
  match entries with
  | [] => mret a
  | remote :: rest =>
      a ← apply_entry addr remote a;
      apply_entries addr rest a
  end.

Definition applyRemote (addr : string) (entries : list Meta) : ST node Z :=
  a ← apply_entries addr entries start;
  match batch a with
  | [] => mret (safe a)
  | _ =>
      _ ← commit cfg (batch a);
      mret (safe a)
  end.

(** The loop of syncPeer over the pages; [false] when the fuel has run out. *)
Fixpoint pull (fuel : nat) (node addr : string) (cursor bookmark : Z) : ST Syncer.node bool :=
  match fuel with
  | O => mret false
  | S fuel' =>
      page ← request (λ i, peer_Manifest i addr cursor);
      match m_Entries page with
      | [] => mret true
      | _ =>
          safe ← applyRemote addr (m_Entries page);
          let cursor := m_Head page in
          let bookmark := Z.max bookmark safe in
          seenAt ← now;
          _ ← on_db (SetPeerSeq node addr bookmark seenAt);
          if negb (m_More page) then mret true
          else pull fuel' node addr cursor bookmark
      end
  end.

Definition syncPeer (fuel : nat) (node addr : string) : ST Syncer.node bool :=
  remote ← request (λ i, peer_Digest i addr);
  '(local, _, _) ← on_db Digest;
  if String.eqb local (d_Digest remote) then
    seenAt ← now;
    _ ← on_db (SetPeerSeq node addr (d_Head remote) seenAt);
    mret true
  else
    since ← on_db (PeerSeq node);
    let since := if d_Head remote <? since then 0 else since in
    pull fuel node addr since since.

(** ** The janitor *)

Definition collect : ST node unit :=
  t ← now;
  let horizon := wrap64 (t - TombstoneTTL cfg) in
  r ← attempt (on_db (GCTombstones horizon));
  match r with
  | Err _ => mret tt
  | Ok _ =>
      _ ← attempt (on_db GCBlobs);
      mret tt
  end.
End antientropy.
