(* ===== verification/AntiFacts.v ===== *)
(** * What a page of a peer's entries does

    The turns of the loop of applyRemote as a relation, and the invariants every pull
    keeps whatever the peer serves and whatever fails. *)
From S2P Require Import Prelude GoStrings Clock Paths Crypto Entry Store StoreFacts Resolve Syncer SyncerFacts Transport Client AntiEntropy.

Section facts.
Context `{DBFaults, Sha256, SystemTime, PeerClient} (cfg : Config).
Implicit Types (t : tables) (s : node) (m remote local : Meta) (a : progress).

(** ** Validation *)

(** What [validate] lets through. *)
Definition acceptable m : Prop :=
  canonical (Path m) ∧ (MKind m = KindFile ∨ MKind m = KindDir) ∧
  Origin (MVersion m) ≠ EmptyString ∧ Size m ≤ MaxFileSize cfg ∧
  (Hash m = EmptyString ∨
   MKind m = KindFile ∧ Str.len (Hash m) = 64 ∧ Hex.decodes (Hash m) = true).

(** [validate] accepts an entry exactly when its path is canonical, its kind is file or
    directory, it names an origin, its size is within the limit, and its hash is empty or
    — for a file only — 64 hexadecimal characters.  A bad path is reported as
    [ErrBadPath], and only an oversized entry as [ErrTooLarge]. *)
Theorem validate_spec m :
  (validate cfg m = Ok tt ↔ acceptable m) ∧
  (¬ canonical (Path m) ↔ validate cfg m = Err ErrBadPath) ∧
  (validate cfg m = Err ErrTooLarge → MaxFileSize cfg < Size m).
Proof.
  unfold validate, acceptable. rewrite SanitizePath_eq.
  case_bool_decide as Hc; unfold mbind, result_bind; [|naive_solver].
  unfold Valid. destruct (Z.eqb_spec (MKind m) KindFile) as [Hf|Hf], (Z.eqb_spec (MKind m) KindDir) as [Hd|Hd];
    try (by rewrite Hf in Hd); simpl; [| |naive_solver].
  all: destruct (String.eqb_spec (Origin (MVersion m)) EmptyString); [naive_solver|].
  all: rewrite Z.gtb_ltb; destruct (Z.ltb_spec (MaxFileSize cfg) (Size m)); [naive_solver lia|].
  all: destruct (String.eqb_spec (Hash m) EmptyString) as [He|He]; simpl; [naive_solver|].
  all: destruct (Z.eqb_spec (Str.len (Hash m)) 64); simpl; [|naive_solver].
  all: destruct (Hex.decodes (Hash m)); simpl; naive_solver.
Qed.

(** ** The turns of the loop *)

(** Between two states of a page in progress only contents are added, the clock moves, and
    readings and requests are counted. *)
Record grown s s' : Prop := {
  grown_entries : entries (tbl (db s')) = entries (tbl (db s));
  grown_seq : local_seq (tbl (db s')) = local_seq (tbl (db s));
  grown_peers : peers (tbl (db s')) = peers (tbl (db s));
  grown_blobs : ∀ h, is_Some (blobs (tbl (db s)) !! h) → is_Some (blobs (tbl (db s')) !! h);
  grown_next : subs_next s' = subs_next s;
  grown_subs : subs s' = subs s;
  grown_announced : announced s' = announced s;
  grown_ticks : (ticks s ≤ ticks s')%nat;
  grown_wf : wf_store (tbl (db s)) → wf_store (tbl (db s'))
}.

Lemma grown_refl s : grown s s.
Proof. by split. Qed.
Lemma grown_trans s1 s2 s3 : grown s1 s2 → grown s2 s3 → grown s1 s3.
Proof. intros [] []. split; try congruence; try lia; auto. Qed.
Lemma grown_same_db s s' :
  tbl (db s') = tbl (db s) → subs_next s' = subs_next s → subs s' = subs s →
  announced s' = announced s → (ticks s ≤ ticks s')%nat → grown s s'.
Proof. intros Ht ? ? ? ?. split; rewrite ?Ht; done. Qed.
Lemma grown_quiet s s' : observable s' = observable s → (ticks s ≤ ticks s')%nat → grown s s'.
Proof. intros [= ? ? ? ? ?]. by apply grown_same_db. Qed.

Lemma grown_entry_at s s' p : grown s s' → entry_at (tbl (db s')) p = entry_at (tbl (db s)) p.
Proof. intros G. unfold entry_at. by rewrite (grown_entries _ _ G). Qed.
Lemma grown_content s s' m : grown s s' → has_content (tbl (db s)) m → has_content (tbl (db s')) m.
Proof. intros G Hm ? ? ?. by apply (grown_blobs _ _ G), Hm. Qed.
Lemma grown_covers s s' c : grown s s' → covers c (tbl (db s)) → covers c (tbl (db s')).
Proof. intros G. unfold covers. by rewrite (grown_entries _ _ G). Qed.

(** The clock after observing the entry, at some reading of the system clock. *)
Definition observed remote (c c1 : Timestamp) : Prop :=
  ∃ n, Observe (time_now n) (HLC (MVersion remote)) c = (Ok c1, c1).
(** The entry is too far ahead of reading [n] of the system clock; of one of the readings from [lo] up to [hi]; of none from
    [lo] on. *)
Definition drifted (n : nat) remote : Prop :=
  MaxClockDrift < wrap64 (Wall (HLC (MVersion remote)) - time_now n).
Definition early (lo hi : nat) remote : Prop := ∃ n, (lo ≤ n < hi)%nat ∧ drifted n remote.
Definition punctual (lo : nat) remote : Prop := ∀ n, (lo ≤ n)%nat → ¬ drifted n remote.

Lemma early_later lo hi hi' m : (hi ≤ hi')%nat → early lo hi m → early lo hi' m.
Proof. intros Hle (n & Hn & Hd). exists n. split; [lia|done]. Qed.

Lemma punctual_early lo hi m : punctual lo m → ¬ early lo hi m.
Proof. intros Hp (n & Hn & Hd). apply (Hp n); [lia|done]. Qed.

Definition copy_of local (c : Timestamp) : Meta :=
  mkMeta (ConflictName (Path local) (Origin (MVersion local)) (Wall (HLC (MVersion local))))
    (MKind local) (Hash local) "" (Size local) (Mode local) (UID local) (GID local)
    (mkVersion c (Node cfg)) (Deleted local) (DeletedAt local) 0.

(** The conflict copy, if the decision asks for one: the progress and clock after it. *)
Definition copied (d : decision) local a (c1 : Timestamp) a1 (c2 : Timestamp) : Prop :=
  (d = decisionAccept ∧ a1 = a ∧ c2 = c1) ∨
  (d = decisionConflict ∧ a1 = push_copy (copy_of local c2) a ∧ ∃ n, c2 = Now (time_now n) c1).

(** The content was not to be had: the peer failed to serve it or served too much of it,
    or the database failed. *)
Definition unserved (addr : string) (hash : string) : Prop :=
  db_fault ∨ ∃ i, match peer_Blob i addr hash with
                  | Ok content => MaxFileSize cfg < Z.of_nat (length content)
                  | Err _ => True
                  end.

(** A turn for [remote], from progress [a] in [s] to [a'] in [s']. *)
Inductive turn (addr : string) remote a s : progress → node → Prop :=
  | turn_rejected e s' :
      validate cfg remote = Err e → grown s s' → clock s' = clock s →
      turn addr remote a s (advance remote a) s'
  | turn_drifted s' :
      validate cfg remote = Ok tt → drifted (ticks s) remote → ticks s' = S (ticks s) → grown s s' → clock s' = clock s →
      turn addr remote a s (advance remote a) s'
  | turn_skipped local s' :
      validate cfg remote = Ok tt → observed remote (clock s) (clock s') → grown s s' →
      entry_at (tbl (db s)) (Path remote) = (local, true) → ¬ wins remote local →
      turn addr remote a s (advance remote a) s'
  | turn_deferred local have c1 a1 s' :
      validate cfg remote = Ok tt → observed remote (clock s) c1 → grown s s' →
      entry_at (tbl (db s)) (Path remote) = (local, have) →
      copied (resolve local have remote) local a c1 a1 (clock s') →
      needs_blob remote = true → unserved addr (Hash remote) →
      turn addr remote a s (defer a1) s'
  | turn_stored local have c1 a1 s' :
      validate cfg remote = Ok tt → observed remote (clock s) c1 → grown s s' →
      entry_at (tbl (db s)) (Path remote) = (local, have) →
      copied (resolve local have remote) local a c1 a1 (clock s') →
      has_content (tbl (db s')) remote →
      turn addr remote a s (advance remote (push remote a1)) s'.

Lemma clock_observe_inv remote s res s' :
  clock_observe (HLC (MVersion remote)) s = (res, s') →
  grown s s' ∧
  ((res = Err ErrClockDrift ∧ clock s' = clock s ∧ drifted (ticks s) remote ∧ ticks s' = S (ticks s)) ∨
   (res = Ok (clock s') ∧ observed remote (clock s) (clock s'))).
Proof.
  unfold clock_observe. intros (r & s1 & [= <- <-] & Hk)%bind_inv. unfold zoom in Hk. simpl in Hk.
  destruct (Observe (time_now (ticks s)) _ (clock s)) as [r l] eqn:E. injection Hk as <- <-.
  split; [apply grown_same_db; simpl; try done; lia|].
  pose proof E as [(-> & -> & Hd)|(-> & Hd & _)]%Observe_inv; simpl.
  - left. by split_and!.
  - right. split; [done|]. by exists (ticks s).
Qed.

Lemma ensureBlob_inv `{!PeerClientLaws} addr hash s res s' :
  ensureBlob cfg addr hash s = (res, s') →
  grown s s' ∧ clock s' = clock s ∧ (res = Ok tt → is_Some (blobs (tbl (db s')) !! hash)) ∧
  (∀ e, res = Err e → unserved addr hash).
Proof.
  unfold ensureBlob. intros (r & s1 & (d1 & E1 & ->)%on_db_inv & Hk)%bind_inv.
  apply HasBlob_inv in E1 as [Ht Hr].
  assert (grown s (set_db d1 s)) as G1 by by apply grown_same_db.
  destruct Hr as [[-> Hf]| ->].
  { destruct Hk as [-> ->]. split_and!; [done..|]. intros. by left. }
  destruct (decide (is_Some (blobs (tbl (db s)) !! hash))) as [Hh|Hh];
    rewrite ?(bool_decide_true _ Hh), ?(bool_decide_false _ Hh) in Hk.
  { injection Hk as <- <-. split_and!; [done..| |done]. intros _. simpl. by rewrite Ht. }
  apply bind_inv in Hk as (r & s2 & [= <- <-] & Hk).
  assert (grown s (set_reqs (S (reqs s)) (set_db d1 s))) as G2 by by apply grown_same_db.
  simpl in Hk. destruct (peer_Blob (reqs s) addr hash) as [content|e] eqn:Eb;
    [|destruct Hk as [-> ->]; split_and!; [done..|intros ? _; right; exists (reqs s); by rewrite Eb]].
  rewrite Z.gtb_ltb in Hk. destruct (Z.ltb_spec (MaxFileSize cfg) (Z.of_nat (length content))) as [Hbig|Hbig].
  { injection Hk as <- <-. split_and!; [done..|]. intros ? _. right. exists (reqs s). by rewrite Eb. }
  apply bind_inv in Hk as (r & s3 & (d3 & E3 & ->)%on_db_inv & Hk).
  apply PutBlob_inv in E3 as [(-> & Hf & Ht3)|[-> Ht3]]; simpl in Ht3.
  - destruct Hk as [-> ->]. split_and!; [|done..|by left]. apply grown_same_db; simpl; [congruence|done..].
  - injection Hk as <- <-. rewrite Ht in Ht3. split_and!; [|done| |done].
    + destruct (with_blob_entries content (tbl (db s))) as (He & Hp & Hl).
      split; simpl; rewrite ?Ht3; try done.
      * intros h. apply with_blob_mono.
      * apply wf_store_with_blob.
    + intros _. simpl. rewrite Ht3. rewrite <- (peer_blob_verified _ _ _ _ Eb). apply with_blob_has.
Qed.

Lemma needs_blob_false t m : needs_blob m = false → has_content t m.
Proof.
  unfold needs_blob, has_content. intros E Hd Hk Hh. rewrite Hd, Hk in E. simpl in E.
  by destruct (String.eqb_spec (Hash m) EmptyString).
Qed.

Lemma conflictCopy_inv local s res s' :
  conflictCopy cfg local s = (res, s') →
  grown s s' ∧ res = Ok (copy_of local (clock s')) ∧ ∃ n, clock s' = Now (time_now n) (clock s).
Proof.
  unfold conflictCopy. intros (r & s1 & (n & -> & Hc & Hdb & ? & ? & ? & Htk)%clock_now_inv & Hk)%bind_inv.
  injection Hk as <- <-. split_and!; [by apply grown_same_db; [rewrite Hdb|..|lia]|by rewrite <- Hc|by exists n].
Qed.

(** The copy a decision asks for. *)
Lemma copied_inv local have remote a s res s' :
  resolve local have remote ≠ decisionSkip →
  (match resolve local have remote with
   | decisionConflict => copyOf ← conflictCopy cfg local; mret (push_copy copyOf a)
   | _ => mret a
   end) s = (res, s') →
  ∃ a1, res = Ok a1 ∧ grown s s' ∧
    copied (resolve local have remote) local a (clock s) a1 (clock s').
Proof.
  unfold copied. destruct (resolve local have remote); intros Hd E; [done|..].
  - injection E as <- <-. exists a. split_and!; [done|apply grown_refl|by left].
  - apply bind_inv in E as (r & s1 & (G & -> & Hn)%conflictCopy_inv & Hk).
    injection Hk as <- <-. eexists. split_and!; [done..|]. by right.
Qed.

Lemma apply_entry_turn `{!PeerClientLaws} addr remote a s res s' :
  apply_entry cfg addr remote a s = (res, s') →
  (res = Err ErrDB ∧ db_fault ∧ grown s s' ∧ observed remote (clock s) (clock s')) ∨
  ∃ a', res = Ok a' ∧ turn addr remote a s a' s'.
Proof.
  unfold apply_entry. destruct (validate cfg remote) as [[]|e] eqn:Ev.
  2:{ intros [= <- <-]. right. eexists. split; [done|]. by eapply turn_rejected; [|apply grown_refl|]. }
  intros (r & s1 & (r1 & E1 & ->)%attempt_inv & Hk)%bind_inv.
  apply clock_observe_inv in E1 as [G1 [(-> & Hc1 & Hd & Htk)|(-> & Ho)]].
  { injection Hk as <- <-. right. eexists. split; [done|]. by apply turn_drifted. }
  apply bind_inv in Hk as (r & s2 & (Hq & Htq & Hr)%lookup_inv & Hk).
  pose proof (grown_trans _ _ _ G1 (grown_quiet _ _ Hq ltac:(lia))) as G2.
  pose proof Hq as [= _ Hc2 _ _ _]. rewrite <- Hc2 in Ho.
  destruct Hr as [[-> Hf]| ->]; [left; by destruct Hk as [-> ->]|]. right.
  rewrite (grown_entry_at _ _ _ G1) in Hk. clear Hc2 Hq G1.
  destruct (entry_at (tbl (db s)) (Path remote)) as [local have] eqn:El.
  destruct (decide (resolve local have remote = decisionSkip)) as [Hs|Hs].
  { rewrite Hs in Hk. injection Hk as <- <-. eexists. split; [done|].
    apply resolve_skip in Hs as [-> Hw]. by eapply turn_skipped. }
  assert (∃ a1 s3, copied (resolve local have remote) local a (clock s2) a1 (clock s3) ∧ grown s s3 ∧
    (if needs_blob remote
     then r ← attempt (ensureBlob cfg addr (Hash remote));
          match r with Ok _ => mret (advance remote (push remote a1)) | Err _ => mret (defer a1) end
     else mret (advance remote (push remote a1))) s3 = (res, s')) as (a1 & s3 & Hcp & G3 & Hk3).
  { destruct (resolve local have remote) eqn:Er; [done|..];
      apply bind_inv in Hk as (r & s3 & E3 & Hk3);
      pose proof (copied_inv local have remote a s2 r s3) as Hci; rewrite Er in Hci;
      destruct (Hci Hs E3) as (a1 & -> & G3 & Hcp); exists a1, s3;
      (split; [done|]; split; [by eapply grown_trans|done]). }
  clear Hk. destruct (needs_blob remote) eqn:Hnb.
  - apply bind_inv in Hk3 as (r & s4 & (r4 & E4 & ->)%attempt_inv & Hk4).
    apply ensureBlob_inv in E4 as (G4 & Hc4 & Hok & Herr).
    destruct r4 as [[]|e]; injection Hk4 as <- <-; eexists; (split; [done|]).
    + eapply turn_stored; try done; [by eapply grown_trans|by rewrite Hc4|].
      intros _ _ _. by apply Hok.
    + eapply turn_deferred; try done; [by eapply grown_trans|by rewrite Hc4|by eapply Herr].
  - injection Hk3 as <- <-. eexists. split; [done|].
    eapply turn_stored; try done. by apply needs_blob_false.
Qed.

(** ** A page *)

Inductive turns (addr : string) : list Meta → progress → node → progress → node → Prop :=
  | turns_nil a s : turns addr [] a s a s
  | turns_cons m ms a1 s1 a2 s2 a3 s3 :
      turn addr m a1 s1 a2 s2 → turns addr ms a2 s2 a3 s3 → turns addr (m :: ms) a1 s1 a3 s3.

Lemma turn_grown addr m a s a' s' : turn addr m a s a' s' → grown s s'.
Proof. by destruct 1. Qed.

Lemma turns_grown addr ms a s a' s' : turns addr ms a s a' s' → grown s s'.
Proof.
  induction 1 as [|???????? Ht _ IH]; [apply grown_refl|].
  eapply grown_trans; [by eapply turn_grown|done].
Qed.

Lemma apply_entries_turns `{!PeerClientLaws} addr ms a s res s' :
  apply_entries cfg addr ms a s = (res, s') →
  (res = Err ErrDB ∧ db_fault ∧ grown s s' ∧
   ∃ ms1 m ms2 a1 s1, ms = ms1 ++ m :: ms2 ∧ turns addr ms1 a s a1 s1 ∧ observed m (clock s1) (clock s')) ∨
  ∃ a', res = Ok a' ∧ turns addr ms a s a' s'.
Proof.
  revert a s. induction ms as [|m ms IH]; intros a s; simpl.
  - intros [= <- <-]. right. eexists. split; [done|constructor].
  - intros (r & s1 & [(-> & ? & ? & ?)|(a1 & -> & Ht)]%apply_entry_turn & Hk)%bind_inv.
    + destruct Hk as [-> ->]. left. split_and!; [done..|]. exists [], m, ms, a, s. split_and!; [done|constructor|done].
    + destruct (IH _ _ Hk) as [(-> & Hf & G & ms1 & m' & ms2 & a2 & s2 & -> & Hts & Ho)|(a' & -> & Hts)].
      * left. split_and!; [done..|eapply grown_trans; [by eapply turn_grown|done]|].
        exists (m :: ms1), m', ms2, a2, s2. split_and!; [done|by econstructor|done].
      * right. eexists. split; [done|]. by econstructor.
Qed.

(** Progress made in a turn: the batch grows by at most a copy and the entry. *)
Lemma copied_batch d local a c1 a1 c2 :
  copied d local a c1 a1 c2 → (a1 = a ∨ a1 = push_copy (copy_of local c2) a).
Proof. intros [(_ & -> & _)|(_ & -> & _)]; auto. Qed.

Lemma advance_batch m a : batch (advance m a) = batch a.
Proof. unfold advance. by destruct (deferred a). Qed.

Lemma turn_batch_length addr m a s a' s' :
  turn addr m a s a' s' → (length (batch a') ≤ length (batch a) + 2)%nat.
Proof.
  intros Ht. destruct Ht; rewrite ?advance_batch; simpl; try lia;
    match goal with Hc : copied _ _ _ _ _ _ |- _ => apply copied_batch in Hc as [->| ->] end;
    simpl; rewrite ?length_app; simpl; rewrite ?length_app; simpl; lia.
Qed.

Lemma turns_batch_length addr ms a s a' s' :
  turns addr ms a s a' s' → (length (batch a') ≤ length (batch a) + 2 * length ms)%nat.
Proof.
  induction 1 as [|???????? Ht _ IH]; simpl; [lia|]. apply turn_batch_length in Ht. lia.
Qed.

(** *** The contents of the batch are stored *)

Lemma entry_at_content t p m b : wf_store t → entry_at t p = (m, b) → has_content t m.
Proof.
  intros [_ Hc]. unfold entry_at. destruct (entries t !! p) as [r|] eqn:E; intros [= <- <-].
  - intros ? ? ?. by apply (Hc p r).
  - by intros _ [=].
Qed.

Lemma copied_content s d local a c1 a1 c2 p b :
  wf_store (tbl (db s)) → entry_at (tbl (db s)) p = (local, b) →
  copied d local a c1 a1 c2 → Forall (has_content (tbl (db s))) (batch a) →
  Forall (has_content (tbl (db s))) (batch a1).
Proof.
  intros Hw Hl Hcp Hb. apply copied_batch in Hcp as [->| ->]; [done|]. simpl.
  apply Forall_app. split; [done|]. apply Forall_singleton. exact (entry_at_content _ _ _ _ Hw Hl).
Qed.

Lemma turn_content addr m a s a' s' :
  turn addr m a s a' s' → wf_store (tbl (db s)) →
  Forall (has_content (tbl (db s))) (batch a) → Forall (has_content (tbl (db s'))) (batch a').
Proof.
  intros Ht Hw Hb. pose proof (turn_grown _ _ _ _ _ _ Ht) as G.
  assert (∀ l, Forall (has_content (tbl (db s))) l → Forall (has_content (tbl (db s'))) l) as Hg.
  { intros l Hl. eapply Forall_impl; [done|]. intros ?. by apply grown_content. }
  destruct Ht; rewrite ?advance_batch; simpl; auto.
  - apply Hg. by eapply copied_content.
  - apply Forall_app. split; [apply Hg; by eapply copied_content|by apply Forall_singleton].
Qed.

Lemma turns_content addr ms a s a' s' :
  turns addr ms a s a' s' → wf_store (tbl (db s)) →
  Forall (has_content (tbl (db s))) (batch a) → Forall (has_content (tbl (db s'))) (batch a').
Proof.
  induction 1 as [|???????? Ht _ IH]; [done|]. intros Hw Hb. apply IH.
  - by apply (grown_wf _ _ (turn_grown _ _ _ _ _ _ Ht)).
  - by eapply turn_content.
Qed.

Lemma commit_ticks ms s res s' : commit cfg ms s = (res, s') → ticks s' = ticks s.
Proof.
  intros (r & s1 & (d' & E & ->)%on_db_inv & Hk)%bind_inv. destruct r as [head|e]; [|by destruct Hk as [_ ->]].
  apply bind_inv in Hk as (r & s2 & [= <- <-] & Hk). destruct (HasPeers cfg); by injection Hk as <- <-.
Qed.

(** What applyRemote does: the turns, and then the batch is committed if there is one. *)
Lemma applyRemote_inv `{!PeerClientLaws} addr ms s res s' :
  wf_store (tbl (db s)) → applyRemote cfg addr ms s = (res, s') →
  (res = Err ErrDB ∧ no_room (2 * length ms) s ∧ grown s s') ∨
  (∃ a s1, res = Ok (safe a) ∧ turns addr ms start s a s1 ∧
     wf_store (tbl (db s1)) ∧ Forall (has_content (tbl (db s1))) (batch a) ∧
     ((batch a = [] ∧ s' = s1) ∨ (batch a ≠ [] ∧ committed cfg (batch a) s1 s'))).
Proof.
  intros Hw (r & s1 & [(-> & Hf & G & _)|(a & -> & Ht)]%apply_entries_turns & Hk)%bind_inv.
  { destruct Hk as [-> ->]. left. split_and!; [done|by left|done]. }
  pose proof (turns_grown _ _ _ _ _ _ Ht) as G. pose proof (grown_wf _ _ G Hw) as Hw1.
  pose proof (turns_content _ _ _ _ _ _ Ht Hw ltac:(constructor)) as Hb.
  pose proof (turns_batch_length _ _ _ _ _ _ Ht) as Hlen. simpl in Hlen.
  destruct (batch a) as [|b bs] eqn:Eb.
  { injection Hk as <- <-. right. exists a, s1. rewrite Eb. split_and!; auto. }
  apply bind_inv in Hk as (r & s2 & Ec & Hk). pose proof (commit_ticks _ _ _ _ Ec) as Htk.
  apply commit_inv in Ec as [(-> & Hq & Hf)|(-> & Hc)]; [| |apply Hw1].
  - destruct Hk as [-> ->]. left. split_and!; [done| |eapply grown_trans; [done|apply grown_quiet; [done|by rewrite Htk]]].
    destruct Hf as [Hf|Hf]; [by left|right]. rewrite (grown_seq _ _ G) in Hf. lia.
  - injection Hk as <- <-. right. exists a, s1. rewrite Eb. split_and!; auto.
Qed.

(** Readings of the clock are never taken back. *)
Lemma applyRemote_ticks `{!PeerClientLaws} addr ms s res s' :
  applyRemote cfg addr ms s = (res, s') → (ticks s ≤ ticks s')%nat.
Proof.
  intros (r & s1 & [(-> & _ & G & _)|(a & -> & Ht)]%apply_entries_turns & Hk)%bind_inv.
  { destruct Hk as [_ ->]. apply G. }
  pose proof (grown_ticks _ _ (turns_grown _ _ _ _ _ _ Ht)) as Hle.
  destruct (batch a); [by injection Hk as <- <-|].
  apply bind_inv in Hk as (r & s2 & Ec%commit_ticks & Hk). destruct r; [injection Hk as <- <-|destruct Hk as [_ ->]]; by rewrite Ec.
Qed.

(** A page takes at most two positions of the feed per entry. *)
Lemma applyRemote_seq `{!PeerClientLaws} addr ms s res s' :
  wf_store (tbl (db s)) → applyRemote cfg addr ms s = (res, s') →
  local_seq (tbl (db s')) ≤ local_seq (tbl (db s)) + 2 * Z.of_nat (length ms).
Proof.
  intros Hw [(_ & _ & G)|(a & s1 & _ & Ht & _ & _ & [[_ ->]|[_ Hc]])]%applyRemote_inv; [..|done].
  - rewrite (grown_seq _ _ G). lia.
  - rewrite (grown_seq _ _ (turns_grown _ _ _ _ _ _ Ht)). lia.
  - destruct Hc as [-> _]. rewrite applied_seq, (grown_seq _ _ (turns_grown _ _ _ _ _ _ Ht)).
    apply turns_batch_length in Ht. simpl in Ht. lia.
Qed.

Lemma applyRemote_wf `{!PeerClientLaws} addr ms :
  preserves (λ s, wf_store (tbl (db s))) (applyRemote cfg addr ms).
Proof.
  intros s Hw. destruct (applyRemote cfg addr ms s) as [res s'] eqn:E. simpl.
  apply applyRemote_inv in E as [(_ & _ & G)|(a & s1 & _ & _ & Hw1 & Hb & [[_ ->]|[_ Hc]])]; try done.
  - by apply (grown_wf _ _ G).
  - destruct Hc as [-> _]. by apply wf_store_applied.
Qed.

(** Anything that keeps the tables keeps what they satisfy. *)
Lemma keeps_tables {A} (q : ST node A) (I : tables → Prop) :
  (∀ s res s', q s = (res, s') → tbl (db s') = tbl (db s)) → preserves (λ s, I (tbl (db s))) q.
Proof. intros Hq s Hs. destruct (q s) as [res s'] eqn:E. simpl. by rewrite (Hq _ _ _ E). Qed.

(** ** Recording a bookmark *)

Lemma SetPeerSeq_inv node addr seq at_ s res s' :
  on_db (SetPeerSeq node addr seq at_) s = (res, s') →
  clock s' = clock s ∧ ticks s' = ticks s ∧
  ((res = Err ErrDB ∧ db_fault ∧ tbl (db s') = tbl (db s)) ∨
   (res = Ok tt ∧ tbl (db s') = set_peers (<[node := mkPeerRow node addr seq at_]> (peers (tbl (db s)))) (tbl (db s)))).
Proof.
  intros (d' & E & ->)%on_db_inv. split; [done|]. split; [done|].
  apply exec_inv in E as [(-> & Hf & Ht)|[(? & ? & ? & ? & Hq)|(a & -> & Hq)]]; [by left|done|right].
  injection Hq as <- Hq. split; [done|]. simpl. by rewrite <- Hq.
Qed.

Lemma wf_set_peers p t : wf_store t → wf_store (set_peers p t).
Proof. intros [[] Hc]. split; [by split|done]. Qed.
End facts.
