(* ===== verification/Pages.v ===== *)
(** * What a page leaves behind

    After a page, every entry at or before the position applyRemote returns is malformed, or was too far ahead of the system clock
    while the page was applied, or the tree holds something at least as late at its path. *)
From S2P Require Import Prelude GoStrings Clock Paths Crypto Entry Store StoreFacts Resolve Syncer SyncerFacts Transport Client AntiEntropy AntiFacts.

Section dominance.
Implicit Types (t : tables) (m x : Meta) (ms : list Meta).

(** The tree holds, at the path of the entry, a write at least as late. *)
Definition dominates t m : Prop :=
  ∃ r, entries t !! Path m = Some r ∧ ver_le (MVersion m) (MVersion (meta r)).

Lemma entries_applied_ext ms t1 t2 :
  entries t1 = entries t2 → local_seq t1 = local_seq t2 →
  entries (applied ms t1) = entries (applied ms t2).
Proof.
  intros He Hs. induction ms as [|m ms IH] using rev_ind; [done|].
  rewrite !applied_snoc. simpl. by rewrite IH, !applied_seq, Hs.
Qed.

Lemma dominates_ext t1 t2 m : entries t1 = entries t2 → dominates t1 m → dominates t2 m.
Proof. unfold dominates. by intros ->. Qed.

(** Storing an entry makes the tree dominate it. *)
Lemma dominates_push ms x t : dominates (applied (ms ++ [x]) t) x.
Proof.
  rewrite applied_snoc. unfold dominates. simpl. rewrite lookup_insert_eq. eexists. split; [done|].
  right. by destruct x as [? ? ? ? ? ? ? ? [[? ?] ?] ? ? ?].
Qed.

(** Storing something else, or something later, keeps what is dominated. *)
Lemma dominates_snoc ms x t m :
  dominates (applied ms t) m →
  (Path x = Path m → ver_le (MVersion m) (MVersion x)) →
  dominates (applied (ms ++ [x]) t) m.
Proof.
  intros (r & Hr & Hv) Hx. rewrite applied_snoc. unfold dominates. simpl. rewrite lookup_insert.
  case_decide as Hp; [|by eauto]. eexists. split; [done|].
  destruct x as [? ? ? ? ? ? ? ? [[? ?] ?] ? ? ?]. by apply Hx.
Qed.

(** What a tree dominates is not later than a clock that covers it. *)
Lemma dominates_covered c t m : covers c t → dominates t m → ts_le (HLC (MVersion m)) c.
Proof.
  intros Hc (r & Hr & Hv). specialize (Hc _ _ Hr).
  destruct Hv as [[Hv|[-> _]]| ->]; [|done..]. left. by eapply ts_lt_le_trans.
Qed.

(** Storing something later than all there is. *)
Lemma dominates_later ms x c t m :
  covers c (applied ms t) → ts_lt c (HLC (MVersion x)) →
  dominates (applied ms t) m → dominates (applied (ms ++ [x]) t) m.
Proof.
  intros Hc Hlt Hd. apply dominates_snoc; [done|]. intros _. left. left.
  eapply ts_le_lt_trans; [by eapply dominates_covered|done].
Qed.

Lemma covers_push ms x c t :
  covers c (applied ms t) → ts_le (HLC (MVersion x)) c → covers c (applied (ms ++ [x]) t).
Proof.
  intros Hc Hx. rewrite applied_snoc. apply (covers_applied [x]); [done|]. by apply Forall_singleton.
Qed.
End dominance.

Section pages.
Context `{DBFaults, Sha256, SystemTime, PeerClient, !PeerClientLaws} (cfg : Config).
Implicit Types (t : tables) (s : node) (m remote local : Meta) (a : progress).

(** ** The clock along a page *)

(** A counter that can take [n] more readings. *)
Definition counter_room (n : Z) (c : Timestamp) : Prop := 0 ≤ Counter c ≤ max_uint32 - n.

Lemma observed_clock n m c c1 :
  0 < n → counter_room n c → counter_room n (HLC (MVersion m)) → observed m c c1 →
  ts_lt c c1 ∧ ts_lt (HLC (MVersion m)) c1 ∧ counter_room (n - 1) c1.
Proof.
  unfold counter_room. intros Hn Hc Hm [i Ho]. apply Observe_after in Ho; unfold is_uint32; [|lia..].
  destruct Ho as (? & ? & ?). split_and!; [done..|lia|lia].
Qed.

Lemma Now_room n p c : 0 < n → counter_room n c → ts_lt c (Now p c) ∧ counter_room (n - 1) (Now p c).
Proof.
  unfold counter_room. intros Hn Hc. split; [apply Now_after; unfold is_uint32; lia|].
  pose proof (Now_counter p c). unfold is_uint32 in *. lia.
Qed.

Lemma counter_room_le n n' c : n' ≤ n → counter_room n c → counter_room n' c.
Proof. unfold counter_room. lia. Qed.

(** Room for a page: two readings of the clock per entry, above the clock and above the entries. *)
Definition page_room (ms : list Meta) (c : Timestamp) : Prop :=
  counter_room (2 * Z.of_nat (length ms)) c ∧
  Forall (λ m, counter_room (2 * Z.of_nat (length ms)) (HLC (MVersion m))) ms.

(** ** The invariant of the loop *)

(** The tables as they will be if the batch is committed now. *)
Definition pending a s : tables := applied (batch a) (tbl (db s)).

(** Malformed, so refused for good, or dominated. *)
Definition settled t m : Prop := (∃ e, validate cfg m = Err e) ∨ dominates t m.

(** A page from reading [lo] of the system clock on. *)
Section inv.
Context (lo : nat).

Record page_inv (addr : string) (done : list Meta) a s : Prop := {
  pi_wf : wf_store (tbl (db s));
  pi_covers : covers (clock s) (pending a s);
  pi_stored : ∀ p r, entries (tbl (db s)) !! p = Some r → dominates (pending a s) (meta r);
  pi_ticks : (lo ≤ ticks s)%nat;
  pi_settled : ∀ m, m ∈ done → Seq m ≤ safe a → settled (pending a s) m ∨ early lo (ticks s) m;
  pi_fine : deferred a = false → ∀ m, m ∈ done → Seq m ≤ safe a;
  pi_safe : safe a = 0 ∨ ∃ m, m ∈ done ∧ safe a = Seq m;
  pi_deferred : deferred a = true → ∃ m, m ∈ done ∧ needs_blob m = true ∧ validate cfg m = Ok tt ∧
                                            unserved cfg addr (Hash m)
}.

(** The next entry of a page: further in the feed, and at another path. *)
Definition next (done : list Meta) m : Prop :=
  0 < Seq m ∧ (∀ x, x ∈ done → Seq x < Seq m) ∧ ¬ Path m ∈ Path <$> done.

Lemma settled_mono t t' m : (dominates t m → dominates t' m) → settled t m → settled t' m.
Proof. unfold settled. naive_solver. Qed.

Lemma settled_or_mono t t' m (P P' : Prop) :
  (dominates t m → dominates t' m) → (P → P') → settled t m ∨ P → settled t' m ∨ P'.
Proof. intros Hd HP [?|?]; [left; by eapply settled_mono|right; by apply HP]. Qed.

Lemma pending_grown a s s' : grown s s' → entries (pending a s') = entries (pending a s).
Proof. intros G. apply entries_applied_ext; apply G. Qed.

Lemma page_inv_grown addr done a s s' :
  grown s s' → ts_le (clock s) (clock s') → page_inv addr done a s → page_inv addr done a s'.
Proof.
  intros G Hc [Hw Hcov Hst Htk Hse Hf Hsa Hd]. pose proof (pending_grown a _ _ G) as Ep.
  split; try done.
  - by apply (grown_wf _ _ G).
  - eapply covers_le; [done|]. intros p r. rewrite Ep. apply Hcov.
  - intros p r. rewrite (grown_entries _ _ G). intros Hr. by eapply dominates_ext, Hst.
  - etrans; [exact Htk|apply (grown_ticks _ _ G)].
  - intros m Hm Hs. eapply settled_or_mono, Hse; [by apply dominates_ext|apply early_later, (grown_ticks _ _ G)|done..].
Qed.

(** An entry that is settled is accounted for. *)
Lemma page_inv_advance addr done m a s :
  next done m → settled (pending a s) m ∨ early lo (ticks s) m → page_inv addr done a s →
  page_inv addr (done ++ [m]) (advance m a) s.
Proof.
  intros (Hpos & Hn & Hp) Hm [Hw Hcov Hst Htk Hse Hf Hsa Hd].
  assert (pending (advance m a) s = pending a s) as Ep by (unfold pending; by rewrite advance_batch).
  split; rewrite ?Ep; try done.
  - intros x [Hx| ->%list_elem_of_singleton]%elem_of_app; [|done]. intros Hs.
    unfold advance in Hs. destruct (deferred a) eqn:Ed; [by apply Hse|].
    apply Hse; [done|]. by apply Hf.
  - unfold advance. destruct (deferred a) eqn:Ed; simpl; [by rewrite Ed|]. intros _ x.
    intros [Hx| ->%list_elem_of_singleton]%elem_of_app; [specialize (Hn x Hx)|]; lia.
  - unfold advance. destruct (deferred a) eqn:Ed; simpl; [set_solver|right].
    exists m. split; [set_solver|]. destruct Hsa as [->|(x & Hx & ->)]; [lia|]. specialize (Hn x Hx). lia.
  - unfold advance. destruct (deferred a) eqn:Ed; simpl; [|done].
    intros _. destruct (Hd eq_refl) as (x & Hx & ?). exists x. set_solver.
Qed.

(** An entry that is deferred keeps the position behind it. *)
Lemma page_inv_defer addr done m a s :
  next done m → validate cfg m = Ok tt → needs_blob m = true → unserved cfg addr (Hash m) →
  page_inv addr done a s → page_inv addr (done ++ [m]) (defer a) s.
Proof.
  intros (Hpos & Hn & Hp) Hv Hnb Hu [Hw Hcov Hst Htk Hse Hf Hsa Hd]. split; try done.
  - intros x [Hx| ->%list_elem_of_singleton]%elem_of_app Hs; simpl in Hs; [by apply Hse|].
    destruct Hsa as [E|(y & Hy & E)]; [lia|]. specialize (Hn y Hy). lia.
  - simpl. set_solver.
  - intros _. exists m. set_solver.
Qed.

(** Pushing an entry that replaces nothing later. *)
Lemma page_inv_push addr done m a s :
  next done m → ts_le (HLC (MVersion m)) (clock s) →
  (∀ r, entries (tbl (db s)) !! Path m = Some r → ver_le (MVersion (meta r)) (MVersion m)) →
  page_inv addr done a s → page_inv addr done (push m a) s.
Proof.
  intros (Hpos & Hn & Hp) Hc Hwin [Hw Hcov Hst Htk Hse Hf Hsa Hd].
  split; try done.
  - by apply covers_push.
  - intros p r Hr. apply dominates_snoc; [by apply (Hst p)|].
    rewrite (wf_key _ (proj1 Hw) _ _ Hr : Path (meta r) = p). intros <-. by apply Hwin.
  - intros x Hx Hs. eapply settled_or_mono, Hse; [|done..]. intros. apply dominates_snoc; [done|].
    intros E. destruct Hp. rewrite E. by apply list_elem_of_fmap_2.
Qed.

(** The conflict copy, later than everything. *)
Lemma page_inv_copied addr done d local a a1 s1 s2 c1 :
  clock s1 = c1 → tbl (db s1) = tbl (db s2) → ticks s1 = ticks s2 →
  counter_room 1 c1 → copied cfg d local a c1 a1 (clock s2) → page_inv addr done a s1 →
  page_inv addr done a1 s2 ∧ ts_le c1 (clock s2) ∧ counter_room 0 (clock s2).
Proof.
  intros <- Ht Etk Hroom Hcp [Hw Hcov Hst Htk Hse Hf Hsa Hd]. rewrite Etk in *.
  destruct Hcp as [(_ & -> & E)|(_ & -> & i & E)].
  - unfold pending in *. rewrite Ht in *. rewrite E. split_and!; [by split; rewrite ?E|by right|].
    by eapply counter_room_le; [|done].
  - destruct (Now_room 1 (time_now i) (clock s1)) as [Hlt Hroom2]; [lia|done|]. rewrite <- E in *.
    split_and!; [|by left|done]. unfold pending in *. rewrite Ht in *.
    assert (∀ x, dominates (applied (batch a) (tbl (db s2))) x →
      dominates (applied (batch (push_copy (copy_of cfg local (clock s2)) a)) (tbl (db s2))) x) as Hkeep.
    { intros x. by apply (dominates_later _ _ (clock s1)). }
    split; try done.
    + apply covers_push; [|apply ts_le_refl]. eapply covers_le; [by left|done].
    + intros p r Hr. by apply Hkeep, (Hst p).
    + intros x Hx Hs. eapply settled_or_mono, Hse; [apply Hkeep|done..].
Qed.

(** ** A turn keeps the invariant *)

Lemma wins_le remote local : wins remote local → ver_le (MVersion local) (MVersion remote).
Proof. by left. Qed.

Lemma resolve_stored_le local have remote :
  resolve local have remote ≠ decisionSkip → have = true → ver_le (MVersion local) (MVersion remote).
Proof.
  intros Hs ->. destruct (ver_trichotomy (MVersion local) (MVersion remote)) as [Hlt|[E|Hlt]]; [by left|by right|].
  destruct Hs. apply resolve_skip. split; [done|]. intros Hw. unfold wins in Hw.
  destruct (ver_lt_irrefl (MVersion local)). by_trans.
Qed.

Lemma copied_not_skip d local a c1 a1 c2 : copied cfg d local a c1 a1 c2 → d ≠ decisionSkip.
Proof. intros [(-> & _)|(-> & _)]; done. Qed.

Lemma grown_clock s c s' : grown s s' → grown s (set_clock c s').
Proof. intros []. by split. Qed.

(** A turn that accepts the entry, up to its copy: the clock has observed it. *)
Lemma page_inv_accepted addr done m a s s' local have a1 c1 :
  counter_room 2 (clock s) → counter_room 2 (HLC (MVersion m)) →
  observed m (clock s) c1 → grown s s' → entry_at (tbl (db s)) (Path m) = (local, have) →
  copied cfg (resolve local have m) local a c1 a1 (clock s') → page_inv addr done a s →
  page_inv addr done a1 s' ∧ ts_le (HLC (MVersion m)) (clock s') ∧
  (∀ r, entries (tbl (db s')) !! Path m = Some r → ver_le (MVersion (meta r)) (MVersion m)).
Proof.
  intros Hc Hm Ho G Hl Hcp Hinv.
  destruct (observed_clock 2 m (clock s) c1) as (Hlt & Hlm & Hr); [lia|done..|].
  assert (page_inv addr done a (set_clock c1 s')) as Hinv1.
  { eapply page_inv_grown; [by apply grown_clock|by left|done]. }
  destruct (page_inv_copied addr done (resolve local have m) local a a1 (set_clock c1 s') s' c1)
    as (Hinv2 & Hle & _); [done..|].
  split; [done|]. split; [left; by eapply ts_lt_le_trans|].
  intros r. rewrite (grown_entries _ _ G). intros Hr'. unfold entry_at in Hl. rewrite Hr' in Hl.
  injection Hl as <- <-. eapply resolve_stored_le; [by eapply copied_not_skip|done].
Qed.

Lemma turn_inv addr done m a s a' s' :
  next done m → counter_room 2 (clock s) → counter_room 2 (HLC (MVersion m)) →
  turn cfg addr m a s a' s' → page_inv addr done a s → page_inv addr (done ++ [m]) a' s'.
Proof.
  intros Hnext Hc Hm Ht Hinv. pose proof (turn_grown _ _ _ _ _ _ _ Ht) as G.
  destruct Ht as [e s' Hv _ E|s' Hv Hd Htk _ E|local s' Hv Ho _ Hl Hw|local have c1 a1 s' Hv Ho _ Hl Hcp Hnb Hu
    |local have c1 a1 s' Hv Ho _ Hl Hcp _].
  - apply page_inv_advance; [done|left; left; by eauto|]. eapply page_inv_grown; [done|by right|done].
  - apply page_inv_advance; [done| |].
    { right. exists (ticks s). pose proof (pi_ticks _ _ _ _ Hinv). split; [lia|done]. }
    eapply page_inv_grown; [done|by right|done].
  - destruct (observed_clock 2 m (clock s) (clock s')) as (Hlt & _ & _); [lia|done..|].
    assert (page_inv addr done a s') as Hinv' by (eapply page_inv_grown; [done|by left|done]).
    apply page_inv_advance; [done| |done]. left. right.
    unfold entry_at in Hl. destruct (entries (tbl (db s)) !! Path m) as [r|] eqn:Er; [|done].
    injection Hl as <-. rewrite <- (grown_entries _ _ G) in Er.
    destruct (pi_stored _ _ _ _ Hinv' _ _ Er) as (r' & Hr' & Hv').
    rewrite (wf_key _ (proj1 (pi_wf _ _ _ _ Hinv')) _ _ Er : Path (meta r) = Path m) in Hr'.
    exists r'. split; [done|]. eapply ver_le_trans; [|done].
    destruct (ver_trichotomy (MVersion (meta r)) (MVersion m)) as [?|[E|?]]; [done|by right|by left].
  - destruct (page_inv_accepted addr done m a s s' local have a1 c1) as (Hinv' & _); [done..|].
    by apply page_inv_defer.
  - destruct (page_inv_accepted addr done m a s s' local have a1 c1) as (Hinv' & Hle & Hst); [done..|].
    apply page_inv_advance; [done| |by apply page_inv_push].
    left. right. apply dominates_push.
Qed.

(** ** The whole page *)

(** A page as a peer's feed has it: in increasing positions, one entry per path. *)
Definition ordered_page (ms : list Meta) : Prop :=
  StronglySorted (key_rel Seq Z.lt) ms ∧ NoDup (Path <$> ms) ∧ Forall (λ m, 0 < Seq m) ms.

Lemma ordered_next done m ms : ordered_page (done ++ m :: ms) → next done m.
Proof.
  intros (Hs & Hnd & Hpos). split_and!.
  - rewrite Forall_forall in Hpos. apply Hpos. set_solver.
  - intros x Hx. apply StronglySorted_app in Hs as (Hlt & _). apply (Hlt x m Hx). set_solver.
  - rewrite fmap_app, fmap_cons in Hnd. apply NoDup_app in Hnd as (_ & Hd & _).
    intros Hin. apply (Hd _ Hin). by left.
Qed.

(** A turn takes two readings of the clock at most. *)
Lemma turn_room addr n m a s a' s' :
  0 ≤ n → counter_room (n + 2) (clock s) → counter_room (n + 2) (HLC (MVersion m)) →
  turn cfg addr m a s a' s' → counter_room n (clock s') ∧ ts_le (clock s) (clock s').
Proof.
  intros Hn Hc Hm Ht.
  assert (∀ c1, observed m (clock s) c1 → counter_room (n + 1) c1 ∧ ts_lt (clock s) c1) as Hobs.
  { intros c1 Ho. destruct (observed_clock (n + 2) m (clock s) c1) as (? & _ & Hr); [lia|done..|].
    split; [|done]. by replace (n + 1) with (n + 2 - 1) by lia. }
  assert (∀ d local c1 a1 c2, observed m (clock s) c1 → copied cfg d local a c1 a1 c2 →
    counter_room n c2 ∧ ts_le (clock s) c2) as Hcp.
  { intros d local c1 a1 c2 [Hr Hlt]%Hobs [(_ & _ & ->)|(_ & _ & i & ->)].
    - split; [by eapply counter_room_le; [|done]; lia|by left].
    - destruct (Now_room (n + 1) (time_now i) c1) as [Hlt2 Hr2]; [lia|done|].
      split; [by replace n with (n + 1 - 1) by lia|left; by trans c1]. }
  destruct Ht as [? ? _ _ ->|? _ _ _ _ ->|? ? _ Ho _ _ _|? ? ? ? ? _ Ho _ _ Hc2 _ _|? ? ? ? ? _ Ho _ _ Hc2 _];
    [split; [by eapply counter_room_le; [|done]; lia|by right]..| |by eapply Hcp|by eapply Hcp].
  apply Hobs in Ho as [Hr Hlt]. split; [by eapply counter_room_le; [|done]; lia|by left].
Qed.

Lemma turns_inv addr ms done a s a' s' n :
  turns cfg addr ms a s a' s' → 0 ≤ n → ordered_page (done ++ ms) →
  counter_room (n + 2 * Z.of_nat (length ms)) (clock s) →
  Forall (λ m, counter_room (n + 2 * Z.of_nat (length ms)) (HLC (MVersion m))) ms →
  page_inv addr done a s →
  page_inv addr (done ++ ms) a' s' ∧ counter_room n (clock s') ∧ ts_le (clock s) (clock s').
Proof.
  intros Ht Hn. revert done.
  induction Ht as [a s|m ms a1 s1 a2 s2 a3 s3 Ht _ IH]; intros done Hord Hc Hms Hinv.
  { rewrite (right_id_L [] (++)). simpl in Hc. rewrite Z.add_0_r in Hc. split_and!; [done..|by right]. }
  inversion_clear Hms as [|? ? Hm Hms']. simpl in Hc, Hm.
  assert (n + 2 * Z.of_nat (S (length ms)) = n + 2 * Z.of_nat (length ms) + 2) as En by lia.
  rewrite En in *.
  destruct (turn_room addr (n + 2 * Z.of_nat (length ms)) m a1 s1 a2 s2 ltac:(lia) Hc Hm Ht) as [Hc2 Hle].
  destruct (IH (done ++ [m])) as (Hinv3 & Hc3 & Hle3).
  - by rewrite <- (assoc_L (++)).
  - done.
  - eapply Forall_impl; [done|]. intros x. simpl. apply counter_room_le. lia.
  - eapply turn_inv; [by eapply ordered_next|..|done|done].
    + eapply counter_room_le; [|done]. lia.
    + eapply counter_room_le; [|done]. lia.
  - rewrite <- (assoc_L (++)) in Hinv3. split_and!; [done..|by eapply ts_le_trans].
Qed.

Lemma page_inv_start addr s :
  (lo ≤ ticks s)%nat → wf_store (tbl (db s)) → covers (clock s) (tbl (db s)) → page_inv addr [] start s.
Proof.
  intros Htk Hw Hc. split; try done.
  - intros p r Hr. exists r. split; [|by right].
    by rewrite (wf_key _ (proj1 Hw) _ _ Hr : Path (meta r) = p).
  - intros m Hm. by apply not_elem_of_nil in Hm.
  - intros _ m Hm. by apply not_elem_of_nil in Hm.
  - by left.
Qed.
End inv.

(** What a page that did not fail leaves behind. *)
Record page_done (addr : string) (ms : list Meta) s (pos : Z) s' : Prop := {
  pd_wf : wf_store (tbl (db s'));
  pd_covers : covers (clock s') (tbl (db s'));
  pd_settled : ∀ m, m ∈ ms → Seq m ≤ pos → settled (tbl (db s')) m ∨ early (ticks s) (ticks s') m;
  pd_ticks : (ticks s ≤ ticks s')%nat;
  pd_kept : ∀ m, dominates (tbl (db s)) m → dominates (tbl (db s')) m;
  pd_pos : pos = 0 ∨ ∃ m, m ∈ ms ∧ pos = Seq m;
  pd_all : (∀ m, m ∈ ms → Seq m ≤ pos) ∨
           ∃ m, m ∈ ms ∧ needs_blob m = true ∧ validate cfg m = Ok tt ∧ unserved cfg addr (Hash m);
  pd_clock : ts_le (clock s) (clock s');
  pd_peers : peers (tbl (db s')) = peers (tbl (db s))
}.

Lemma applyRemote_done addr ms s pos s' n :
  wf_store (tbl (db s)) → covers (clock s) (tbl (db s)) → 0 ≤ n → ordered_page ms →
  counter_room (n + 2 * Z.of_nat (length ms)) (clock s) →
  Forall (λ m, counter_room (n + 2 * Z.of_nat (length ms)) (HLC (MVersion m))) ms →
  applyRemote cfg addr ms s = (Ok pos, s') →
  page_done addr ms s pos s' ∧ counter_room n (clock s').
Proof.
  intros Hw Hcov Hn Hord Hc Hms E.
  destruct (applyRemote_inv cfg addr ms s (Ok pos) s' Hw E)
    as [(? & _)|(a & s1 & [= ->] & Ht & _ & _ & Hend)]; [done|].
  destruct (turns_inv (ticks s) addr ms [] start s a s1 n Ht) as ([] & Hroom & Hle); [done..|by apply page_inv_start|].
  pose proof (turns_grown _ _ _ _ _ _ _ Ht) as G. simpl in *.
  assert (wf_store (tbl (db s1)) → wf_store (tbl (db s')) ∧ tbl (db s') = pending a s1 ∧
    clock s' = clock s1 ∧ ticks s' = ticks s1) as Hend'.
  { intros Hw1. destruct Hend as [[Eb ->]|[_ (Et & Ec & _ & _ & _ & Etk)]].
    - unfold pending. by rewrite Eb.
    - split_and!; [|done..]. rewrite Et. apply wf_store_applied; [done|].
      eapply turns_content; [done..|constructor]. }
  destruct Hend' as (Hw' & Et & Ec & Etk); [done|].
  split; [|by rewrite Ec]. split; rewrite ?Ec, ?Etk; try done; try (by rewrite Et).
  - intros m (r & Hr & Hv). rewrite <- (grown_entries _ _ G) in Hr.
    destruct (pi_stored0 _ _ Hr) as (r' & Hr' & Hv').
    rewrite (wf_key _ (proj1 pi_wf0) _ _ Hr : Path (meta r) = Path m) in Hr'.
    exists r'. rewrite Et. split; [done|]. by eapply ver_le_trans.
  - destruct (deferred a) eqn:Ed; [right|left]; auto.
  - rewrite Et. unfold pending. rewrite (proj2 (applied_other _ _)). apply (grown_peers _ _ G).
Qed.

(** C12: The position a page returns is safe to bookmark.  After a page in feed order, every
    entry at or before it has been refused — because it is malformed, or because it was too far ahead of the system clock when the
    page was applied — or the tree holds something at least as late at its path; it is a position of the page;
    and it is short of the end of the page only if some content could not be had.  Nothing
    the tree held goes backwards. *)
Theorem applyRemote_bookmark_safe addr ms s pos s' :
  wf_store (tbl (db s)) → covers (clock s) (tbl (db s)) → ordered_page ms →
  counter_room (2 * Z.of_nat (length ms)) (clock s) →
  Forall (λ m, counter_room (2 * Z.of_nat (length ms)) (HLC (MVersion m))) ms →
  applyRemote cfg addr ms s = (Ok pos, s') →
  (∀ m, m ∈ ms → Seq m ≤ pos → settled (tbl (db s')) m ∨ early (ticks s) (ticks s') m) ∧
  (pos = 0 ∨ ∃ m, m ∈ ms ∧ pos = Seq m) ∧
  ((∀ m, m ∈ ms → Seq m ≤ pos) ∨
   ∃ m, m ∈ ms ∧ needs_blob m = true ∧ validate cfg m = Ok tt ∧ unserved cfg addr (Hash m)) ∧
  (∀ m, dominates (tbl (db s)) m → dominates (tbl (db s')) m) ∧
  wf_store (tbl (db s')) ∧ covers (clock s') (tbl (db s')).
Proof.
  intros Hw Hcov Hord Hc Hms E.
  destruct (applyRemote_done addr ms s pos s' 0) as [[] _]; done.
Qed.

(** The clock along a page. *)
Lemma turns_clock addr ms a s a' s' n :
  turns cfg addr ms a s a' s' → 0 ≤ n → counter_room (n + 2 * Z.of_nat (length ms)) (clock s) →
  Forall (λ m, counter_room (n + 2 * Z.of_nat (length ms)) (HLC (MVersion m))) ms →
  counter_room n (clock s') ∧ ts_le (clock s) (clock s').
Proof.
  intros Ht Hn. induction Ht as [a s|m ms a1 s1 a2 s2 a3 s3 Ht _ IH]; intros Hc Hms.
  { simpl in Hc. rewrite Z.add_0_r in Hc. split; [done|by right]. }
  inversion_clear Hms as [|? ? Hm Hms']. simpl in Hc, Hm.
  replace (n + 2 * Z.of_nat (S (length ms))) with (n + 2 * Z.of_nat (length ms) + 2) in * by lia.
  destruct (turn_room addr (n + 2 * Z.of_nat (length ms)) m a1 s1 a2 s2 ltac:(lia) Hc Hm Ht) as [Hc2 Hle].
  destruct IH as [Hc3 Hle3]; [done| |by split; [|eapply ts_le_trans]].
  eapply Forall_impl; [done|]. intros x. simpl. apply counter_room_le. lia.
Qed.

(** ** One concurrent edit *)

(** What is written last, and what is not written. *)
Lemma entry_at_unwritten p ms t : (∀ x, x ∈ ms → Path x ≠ p) → entry_at (applied ms t) p = entry_at t p.
Proof.
  induction ms as [|x ms IH] using rev_ind; intros Hp; [done|]. rewrite applied_snoc. unfold entry_at. simpl.
  rewrite lookup_insert_ne by (apply Hp; set_solver). apply IH. intros y Hy. apply Hp. set_solver.
Qed.

Lemma entry_at_written ms1 m ms2 t :
  (∀ x, x ∈ ms2 → Path x ≠ Path m) → ∃ k, entry_at (applied (ms1 ++ m :: ms2) t) (Path m) = (with_Seq k m, true).
Proof.
  induction ms2 as [|x ms2 IH] using rev_ind; intros Hp.
  - rewrite applied_snoc. unfold entry_at. simpl. rewrite lookup_insert_eq, meta_rowOf. by eexists.
  - rewrite app_comm_cons, (assoc_L (++)), applied_snoc. unfold entry_at. simpl.
    rewrite lookup_insert_ne by (apply Hp; set_solver). apply IH. intros y Hy. apply Hp. set_solver.
Qed.

Lemma last_for_written ms1 m ms2 : (∀ x, x ∈ ms2 → Path x ≠ Path m) → last_for (Path m) (ms1 ++ m :: ms2) = Some m.
Proof.
  induction ms2 as [|x ms2 IH] using rev_ind; intros Hp; [by rewrite last_for_snoc, decide_True|].
  rewrite app_comm_cons, (assoc_L (++)), last_for_snoc, decide_False by (apply Hp; set_solver).
  apply IH. intros y Hy. apply Hp. set_solver.
Qed.

(** The paths an entry of a page can make the page write: its own, and the conflict name of what it replaces. *)
Definition writes_at t m p : Prop :=
  Path m = p ∨ ∃ local, entry_at t (Path m) = (local, true) ∧
    ConflictName (Path local) (Origin (MVersion local)) (Wall (HLC (MVersion local))) = p.

Lemma writes_at_grown s s' m p : grown s s' → writes_at (tbl (db s')) m p → writes_at (tbl (db s)) m p.
Proof. intros G. unfold writes_at. by rewrite (grown_entry_at _ _ _ G). Qed.

Lemma copied_writes t local have m a c1 a1 c2 :
  entry_at t (Path m) = (local, have) → copied cfg (resolve local have m) local a c1 a1 c2 →
  ∃ b, batch a1 = batch a ++ b ∧ ∀ x, x ∈ b → writes_at t m (Path x).
Proof.
  intros Hl [(_ & -> & _)|(Hd & -> & _)].
  - exists []. split; [by rewrite (right_id_L [] (++))|]. by intros x ?%not_elem_of_nil.
  - apply resolve_conflict in Hd as (-> & _). exists [copy_of cfg local c2]. split; [done|].
    intros x ->%list_elem_of_singleton. right. by exists local.
Qed.

Lemma turn_writes addr m a s a' s' : turn cfg addr m a s a' s' →
  ∃ b, batch a' = batch a ++ b ∧ ∀ x, x ∈ b → writes_at (tbl (db s)) m (Path x).
Proof.
  intros Ht.
  assert (∃ b, batch a = batch a ++ b ∧ ∀ x, x ∈ b → writes_at (tbl (db s)) m (Path x)) as Hnone.
  { exists []. split; [by rewrite (right_id_L [] (++))|]. by intros x ?%not_elem_of_nil. }
  destruct Ht as [| | |local have c1 a1 s' _ _ _ Hl Hcp _ _|local have c1 a1 s' _ _ _ Hl Hcp _]; rewrite ?advance_batch; try done.
  - exact (copied_writes _ _ _ _ _ _ _ _ Hl Hcp).
  - destruct (copied_writes _ _ _ _ _ _ _ _ Hl Hcp) as (b & Eb & Hb). exists (b ++ [m]). simpl. rewrite Eb.
    split; [by rewrite (assoc_L (++))|]. intros x [Hx| ->%list_elem_of_singleton]%elem_of_app; [by apply Hb|by left].
Qed.

Lemma turns_writes addr ms a s a' s' : turns cfg addr ms a s a' s' →
  ∃ b, batch a' = batch a ++ b ∧ ∀ x, x ∈ b → ∃ m, m ∈ ms ∧ writes_at (tbl (db s)) m (Path x).
Proof.
  induction 1 as [a s|m ms a1 s1 a2 s2 a3 s3 Ht _ IH].
  { exists []. split; [by rewrite (right_id_L [] (++))|]. by intros x ?%not_elem_of_nil. }
  destruct (turn_writes _ _ _ _ _ _ Ht) as (b1 & E1 & Hb1), IH as (b2 & E2 & Hb2).
  exists (b1 ++ b2). rewrite E2, E1. split; [by rewrite (assoc_L (++))|]. intros x [Hx|Hx]%elem_of_app.
  - exists m. split; [by left|by apply Hb1].
  - destruct (Hb2 x Hx) as (m' & Hm' & Hw). exists m'. split; [by right|]. eapply writes_at_grown; [by eapply turn_grown|done].
Qed.

Lemma turns_app addr ms1 ms2 a s a' s' : turns cfg addr (ms1 ++ ms2) a s a' s' →
  ∃ a1 s1, turns cfg addr ms1 a s a1 s1 ∧ turns cfg addr ms2 a1 s1 a' s'.
Proof.
  revert a s. induction ms1 as [|m ms1 IH]; intros a s Ht; [exists a, s; split; [constructor|done]|].
  inversion Ht as [|? ? ? ? a2 s2 ? ? Hm Hts]; subst. destruct (IH _ _ Hts) as (a1 & s1 & Ht1 & Ht2).
  exists a1, s1. split; [by econstructor|done].
Qed.

Lemma copy_path_longer local c : Path (copy_of cfg local c) ≠ Path local.
Proof.
  simpl. intros E. apply (f_equal Str.len) in E. unfold ConflictName in E.
  rewrite !Str.len_app in E. pose proof (Str.len_nonneg (Origin (MVersion local))).
  pose proof (Str.len_nonneg (Dec.fmt_d (Wall (HLC (MVersion local))))).
  change (Str.len ".conflict.") with 10 in E. change (Str.len ".") with 1 in E. lia.
Qed.

(** The turn of a conflict: the copy, and the entry unless its content is missing. *)
Lemma conflict_turn addr remote local s a a' s' :
  counter_room 2 (clock s) → counter_room 2 (HLC (MVersion remote)) →
  entry_at (tbl (db s)) (Path remote) = (local, true) →
  resolve local true remote = decisionConflict → validate cfg remote = Ok tt → ¬ drifted (ticks s) remote →
  turn cfg addr remote a s a' s' →
  ∃ c, ts_lt (clock s) c ∧ ts_lt (HLC (MVersion remote)) c ∧
    (batch a' = batch a ++ [copy_of cfg local c; remote] ∨
     batch a' = batch a ++ [copy_of cfg local c] ∧ unserved cfg addr (Hash remote)).
Proof.
  intros Hc Hm Hl Hd Hv Hdr Ht. exists (clock s').
  assert (∀ c1 a1, observed remote (clock s) c1 →
    copied cfg (resolve local true remote) local a c1 a1 (clock s') →
    ts_lt (clock s) (clock s') ∧ ts_lt (HLC (MVersion remote)) (clock s') ∧ batch a1 = batch a ++ [copy_of cfg local (clock s')]) as Hcp.
  { intros c1 a1 Ho. rewrite Hd. intros [(? & _)|(_ & -> & i & Ec)]; [done|].
    destruct (observed_clock 2 remote (clock s) c1) as (Hlt & Hlr & Hr); [lia|done..|].
    destruct (Now_room 1 (time_now i) c1) as [Hlt2 _]; [lia|done|]. rewrite <- Ec in Hlt2.
    split_and!; [by trans c1..|done]. }
  destruct Ht as [e s' Hv' _ _|s' _ Hd' _ _ _|l' s' _ _ _ Hl' Hw'|l' have c1 a1 s' _ Ho _ Hl' Hcp' _ Hu
    |l' have c1 a1 s' _ Ho _ Hl' Hcp' _]; [congruence|done|..]; rewrite Hl in Hl'; simplify_eq.
  - apply resolve_conflict in Hd as (_ & ? & _). done.
  - destruct (Hcp c1 a1 Ho Hcp') as (? & ? & Eb). split_and!; [done..|]. by right.
  - destruct (Hcp c1 a1 Ho Hcp') as (? & ? & Eb). split_and!; [done..|]. left.
    rewrite advance_batch. simpl. by rewrite Eb, <- (assoc_L (++)).
Qed.

(** The batch of a page with a conflict in it. *)
Lemma conflict_batch addr ms1 remote ms2 local s a s' :
  page_room (ms1 ++ remote :: ms2) (clock s) →
  entry_at (tbl (db s)) (Path remote) = (local, true) →
  resolve local true remote = decisionConflict → validate cfg remote = Ok tt → punctual (ticks s) remote →
  turns cfg addr (ms1 ++ remote :: ms2) start s a s' →
  ∃ b1 b2 c, ts_lt (clock s) c ∧ ts_lt (HLC (MVersion remote)) c ∧
    (batch a = b1 ++ copy_of cfg local c :: remote :: b2 ∨
     batch a = b1 ++ copy_of cfg local c :: b2 ∧ unserved cfg addr (Hash remote)) ∧
    ∀ x, x ∈ b1 ++ b2 → ∃ m, m ∈ ms1 ++ ms2 ∧ writes_at (tbl (db s)) m (Path x).
Proof.
  intros [Hc Hms] Hl Hd Hv Hdr (a1 & s1 & Ht1 & Ht2)%turns_app. rewrite length_app in Hc, Hms. cbn [length] in Hc, Hms.
  apply Forall_app in Hms as [Hms1 [Hr _]%Forall_cons].
  replace (2 * Z.of_nat (length ms1 + S (length ms2))) with (2 * Z.of_nat (S (length ms2)) + 2 * Z.of_nat (length ms1)) in * by lia.
  destruct (turns_clock addr ms1 start s a1 s1 (2 * Z.of_nat (S (length ms2))) Ht1) as [Hc1 Hle1]; [lia|done..|].
  pose proof (turns_grown _ _ _ _ _ _ _ Ht1) as G1.
  inversion Ht2 as [|? ? ? ? a2 s2 ? ? Hm Ht3]; subst. pose proof (turn_grown _ _ _ _ _ _ _ Hm) as G2.
  destruct (conflict_turn addr remote local s1 a1 a2 s2) as (c & Hlt & Hlr & Hb); try done.
  { eapply counter_room_le; [|exact Hc1]. lia. }
  { eapply counter_room_le; [|exact Hr]. lia. }
  { by rewrite (grown_entry_at _ _ _ G1). }
  { apply Hdr, (grown_ticks _ _ G1). }
  destruct (turns_writes _ _ _ _ _ _ Ht1) as (b1 & E1 & Hb1), (turns_writes _ _ _ _ _ _ Ht3) as (b2 & E2 & Hb2).
  exists b1, b2, c. split_and!; [by eapply ts_le_lt_trans|done| |].
  - rewrite E2. rewrite E1 in Hb. simpl in Hb. destruct Hb as [->|[-> ?]]; [left|right; split; [|done]]; by rewrite <- (assoc_L (++)).
  - intros x [Hx|Hx]%elem_of_app.
    + destruct (Hb1 x Hx) as (m & Hm' & Hw). exists m. split; [set_solver|done].
    + destruct (Hb2 x Hx) as (m & Hm' & Hw). exists m. split; [set_solver|].
      eapply writes_at_grown; [exact G1|]. by eapply writes_at_grown.
Qed.

(** C11: A concurrent edit loses nothing.  When a page has a later write for a path where this node holds live content the writer
    did not build on, and no other entry of the page makes it write to that path or to the conflict name of the losing version, then
    after the page the tree holds the losing content as a new entry at that name, with this
    node's own version, later than both — so it replicates like any other file — and at the path itself
    either the remote write or, while its content cannot be had, the local one.  (Without the condition on the rest of the page:
    [copy_lost_in_page].) *)
Theorem conflict_keeps_both addr ms1 remote ms2 local s pos s' :
  let name := ConflictName (Path remote) (Origin (MVersion local)) (Wall (HLC (MVersion local))) in
  wf_store (tbl (db s)) → page_room (ms1 ++ remote :: ms2) (clock s) →
  entry_at (tbl (db s)) (Path remote) = (local, true) → ts_le (HLC (MVersion local)) (clock s) →
  resolve local true remote = decisionConflict → validate cfg remote = Ok tt → punctual (ticks s) remote →
  (∀ m, m ∈ ms1 ++ ms2 → ¬ writes_at (tbl (db s)) m name ∧ ¬ writes_at (tbl (db s)) m (Path remote)) →
  applyRemote cfg addr (ms1 ++ remote :: ms2) s = (Ok pos, s') →
  ∃ copy : Meta,
    entry_at (tbl (db s')) name = (copy, true) ∧
    Hash copy = Hash local ∧ MKind copy = MKind local ∧ Deleted copy = false ∧ Mode copy = Mode local ∧
    wins copy local ∧ wins copy remote ∧ Origin (MVersion copy) = Node cfg ∧
    ((tree (tbl (db s')) !! Path remote = Some (with_Seq 0 remote)) ∨
     (entry_at (tbl (db s')) (Path remote) = (local, true) ∧ unserved cfg addr (Hash remote))).
Proof.
  intros name Hw Hroom Hl Hle Hd Hv Hdr Hclear E.
  destruct (applyRemote_inv cfg addr _ s (Ok pos) s' Hw E)
    as [(? & _)|(a & s1 & _ & Ht & _ & _ & Hend)]; [done|].
  destruct (conflict_batch addr ms1 remote ms2 local s a s1) as (b1 & b2 & c & Hlt & Hlr & Hb & Hout); [done..|].
  pose proof (turns_grown _ _ _ _ _ _ _ Ht) as G.
  assert (tbl (db s') = applied (batch a) (tbl (db s1))) as Et.
  { destruct Hend as [[Eb _]|[_ (Et & _)]]; [|done]. rewrite Eb in Hb.
    destruct Hb as [Hb|[Hb _]]; by apply (f_equal length) in Hb; rewrite length_app in Hb; simpl in Hb; lia. }
  assert (Path local = Path remote ∧ Deleted local = false) as [Hp Hdel].
  { apply resolve_conflict in Hd as (_ & _ & Hd & _). split; [|done].
    unfold entry_at in Hl. destruct (entries (tbl (db s)) !! Path remote) as [r|] eqn:Er; [|done].
    injection Hl as <-. exact (wf_key _ (proj1 Hw) _ _ Er). }
  pose proof (copy_path_longer local c) as Hlong. set (copy := copy_of cfg local c) in *.
  assert (Path copy = name) as Ename by (unfold name; by rewrite <- Hp).
  assert (∀ x, x ∈ b1 ++ b2 → Path x ≠ name ∧ Path x ≠ Path remote) as Hne.
  { intros x Hx. destruct (Hout x Hx) as (m & Hm & Hwr). destruct (Hclear m Hm) as [Hn Hr].
    split; intros Ex; rewrite Ex in Hwr; done. }
  assert (∃ k, entry_at (tbl (db s')) (Path copy) = (with_Seq k copy, true)) as [k Ek].
  { rewrite Et. destruct Hb as [->|[-> _]]; apply entry_at_written; rewrite Ename.
    - intros x [->|Hx]%elem_of_cons; [by rewrite <- Hp, <- Ename|apply Hne; set_solver].
    - intros x Hx. apply Hne. set_solver. }
  rewrite <- Ename. exists (with_Seq k copy). split_and!; try done.
  - left. by eapply ts_le_lt_trans.
  - by left.
  - destruct Hb as [Eb|[Eb Hu]]; rewrite Et, Eb.
    + left. rewrite tree_applied_lookup. change (b1 ++ copy :: remote :: b2) with (b1 ++ [copy] ++ remote :: b2).
      rewrite (assoc_L (++)), last_for_written; [done|]. intros x Hx. apply Hne. set_solver.
    + right. split; [|done]. rewrite entry_at_unwritten, (grown_entry_at _ _ _ G); [done|].
      intros x [Hx|[->|Hx]%elem_of_cons]%elem_of_app; [apply Hne; set_solver|by rewrite <- Hp|apply Hne; set_solver].
Qed.

End pages.
