(* ===== verification/Convergence.v ===== *)
(** * Convergence

    A pull from a peer that serves its feed ends, fails only if the database does, and leaves
    a tree that dominates the peer's; two nodes that dominate each other have the same
    digest, so anti-entropy falls silent. *)
From S2P Require Import Prelude GoStrings Clock Paths Crypto Entry Store StoreFacts Resolve Syncer SyncerFacts Transport Client AntiEntropy AntiFacts Pages.

(** The size of a page is 2000 as a unary number: never to be unfolded by conversion. *)
#[local] Arguments MaxManifestPage : simpl never.
#[local] Opaque MaxManifestPage.

Section agreement.
Context `{DBFaults, Sha256}.
Implicit Types (t : tables) (m : Meta).

(** Every entry of the second tree is dominated by the first. *)
Definition dominates_all t t2 : Prop := ∀ m, m ∈ rows t2 → dominates t m.

(** The version identifies the write, as far as the digest sees it. *)
Definition same_writes t1 t2 : Prop :=
  ∀ m1 m2, m1 ∈ rows t1 → m2 ∈ rows t2 → Path m1 = Path m2 → MVersion m1 = MVersion m2 →
    digested m1 = digested m2.

Lemma digested_tree_lookup t p :
  digested_tree t !! p = (λ r, digested (meta r)) <$> entries t !! p.
Proof. unfold digested_tree, tree. rewrite !lookup_fmap. by destruct (entries t !! p). Qed.

Lemma dominates_lookup t1 t2 p r2 :
  wf_tables t2 → dominates_all t1 t2 → entries t2 !! p = Some r2 →
  ∃ r1, entries t1 !! p = Some r1 ∧ ver_le (MVersion (meta r2)) (MVersion (meta r1)).
Proof.
  intros Hw Hd Hr. destruct (Hd (meta r2)) as (r1 & Hr1 & Hv); [apply elem_of_rows; by eauto|].
  rewrite (wf_key _ Hw _ _ Hr : Path (meta r2) = p) in Hr1. eauto.
Qed.

Lemma dominance_same_tree t1 t2 :
  wf_tables t1 → wf_tables t2 → same_writes t1 t2 →
  dominates_all t1 t2 → dominates_all t2 t1 → digested_tree t1 = digested_tree t2.
Proof.
  intros Hw1 Hw2 Hs H12 H21. apply map_eq. intros p. rewrite !digested_tree_lookup.
  destruct (entries t1 !! p) as [r1|] eqn:E1, (entries t2 !! p) as [r2|] eqn:E2; simpl; [|exfalso..|done].
  - f_equal. destruct (dominates_lookup _ _ _ _ Hw2 H12 E2) as (r1' & E1' & V12).
    destruct (dominates_lookup _ _ _ _ Hw1 H21 E1) as (r2' & E2' & V21). simplify_eq.
    apply Hs; [apply elem_of_rows; by eauto..| |by apply ver_le_antisym].
    by rewrite (wf_key _ Hw1 _ _ E1 : Path (meta r1) = p), (wf_key _ Hw2 _ _ E2 : Path (meta r2) = p).
  - destruct (dominates_lookup _ _ _ _ Hw1 H21 E1) as (? & ? & _). congruence.
  - destruct (dominates_lookup _ _ _ _ Hw2 H12 E2) as (? & ? & _). congruence.
Qed.

(** Two nodes whose trees each hold, for every entry of the other, something at least as
    late, hold the same tree and report the same digest — so the next anti-entropy
    round between them ends after the digests are compared. *)
Theorem mutual_dominance_agrees t1 t2 :
  wf_tables t1 → wf_tables t2 → same_writes t1 t2 →
  dominates_all t1 t2 → dominates_all t2 t1 →
  digested_tree t1 = digested_tree t2 ∧ digest_of t1 = digest_of t2.
Proof.
  intros Hw1 Hw2 Hs H12 H21. pose proof (dominance_same_tree t1 t2 Hw1 Hw2 Hs H12 H21) as E.
  split; [done|]. by apply digest_of_tree.
Qed.
End agreement.

Section pull.
Context `{DBFaults, Sha256, SystemTime, PeerClient, !PeerClientLaws} (cfg : Config).
Implicit Types (t : tables) (s : node) (m : Meta).

(** ** A peer that serves *)

(** The answers of a peer with these tables, all of whose entries this node can take from reading [from] of its system clock on. *)
Record serves (addr : string) (from : nat) (tp : tables) (n : Z) : Prop := {
  sv_wf : wf_tables tp;
  sv_head : local_seq tp ≤ max_int64;
  sv_manifest : ∀ i since, 0 ≤ since ≤ max_int64 → peer_Manifest i addr since = Ok (manifest_of since tp);
  sv_valid : ∀ m, m ∈ rows tp → validate cfg m = Ok tt ∧ punctual from m ∧
               counter_room n (HLC (MVersion m));
  sv_blob : ∀ m, m ∈ rows tp → needs_blob m = true →
              ∀ i, ∃ c, peer_Blob i addr (Hash m) = Ok c ∧ Z.of_nat (length c) ≤ MaxFileSize cfg
}.

(** Everything of the peer's up to a position of its feed is dominated. *)
Definition read_up_to (pos : Z) tp t : Prop := ∀ m, m ∈ rows tp → Seq m ≤ pos → dominates t m.

Lemma page_ordered since tp : wf_tables tp → ordered_page (m_Entries (manifest_of since tp)).
Proof.
  intros Hw. destruct (page_prefix since tp Hw) as [rest E].
  pose proof (feed_sorted_lt since tp Hw) as Hs. rewrite E in Hs. apply StronglySorted_app in Hs as (_ & Hs & _).
  assert (∀ m, m ∈ m_Entries (manifest_of since tp) → m ∈ rows tp) as Hin.
  { intros m Hm. by apply (page_elem since). }
  split_and!; [done| |].
  - apply NoDup_fmap_2_strong.
    + intros x y Hx%Hin Hy%Hin. by apply (NoDup_fmap_elem_inj Path (rows tp) x y (rows_NoDup tp Hw)).
    + apply (NoDup_fmap_1 Seq). pose proof (feed_NoDup since tp Hw) as Hnd. rewrite E, fmap_app in Hnd.
      by apply NoDup_app in Hnd as (? & _ & _).
  - rewrite Forall_forall. intros m (p & r & Hr & ->)%Hin%elem_of_rows. by apply (wf_seq _ Hw p).
Qed.

(** With the peer's whole feed acceptable and served, a page is settled whole: the tree
    dominates it and the position returned is that of its last entry. *)
Lemma serving_page addr from tp since s n R :
  serves addr from tp R → (from ≤ ticks s)%nat → ¬ db_fault → wf_store (tbl (db s)) → covers (clock s) (tbl (db s)) → 0 ≤ n →
  let ms := m_Entries (manifest_of since tp) in
  n + 2 * Z.of_nat (length ms) ≤ R → counter_room (n + 2 * Z.of_nat (length ms)) (clock s) →
  local_seq (tbl (db s)) + 2 * Z.of_nat (length ms) ≤ max_int64 →
  ∃ pos s', applyRemote cfg addr ms s = (Ok pos, s') ∧ page_done cfg addr ms s pos s' ∧
    counter_room n (clock s') ∧ (∀ m, m ∈ ms → Seq m ≤ pos ∧ dominates (tbl (db s')) m) ∧
    local_seq (tbl (db s')) ≤ local_seq (tbl (db s)) + 2 * Z.of_nat (length ms).
Proof.
  intros [Hw Hhead Hman Hval Hblob] Hfrom Hnf Hws Hcov Hn ms HR Hroom Hseq.
  destruct (applyRemote cfg addr ms s) as [res s'] eqn:E.
  assert (local_seq (tbl (db s')) ≤ local_seq (tbl (db s)) + 2 * Z.of_nat (length ms) ∧
    ∃ pos, res = Ok pos) as (Hls & pos & ->).
  { pose proof (applyRemote_seq cfg addr ms s res s' Hws E) as Hs. split; [done|].
    destruct (applyRemote_inv cfg addr ms s res s' Hws E) as [(_ & [Hf|Hf] & _)|(a & s1 & -> & _)];
      [done|lia|by eauto]. }
  destruct (applyRemote_done cfg addr ms s pos s' n) as [Hpd Hr]; try done.
  { by apply page_ordered. }
  { rewrite Forall_forall. intros m [Hm _]%page_elem; [|done]. destruct (Hval m Hm) as (_ & _ & Hc).
    by eapply counter_room_le; [|done]. }
  assert (∀ m, m ∈ ms → Seq m ≤ pos) as Hall.
  { destruct (pd_all _ _ _ _ _ _ Hpd) as [Hall|(m & [Hm _]%page_elem & Hnb & _ & [Hf|[i Hu]])]; [done|done| |done].
    destruct (Hblob m Hm Hnb i) as (c & Ec & Hc). rewrite Ec in Hu. lia. }
  exists pos, s'. split_and!; try done. intros m Hm. split; [by apply Hall|].
  pose proof (page_elem since tp m Hw Hm) as [Hin _]. destruct (Hval m Hin) as (Hv & Hd & _).
  destruct (pd_settled _ _ _ _ _ _ Hpd m Hm (Hall m Hm)) as [[[e He]|?]|Hearly]; [congruence|done|].
  exfalso. eapply punctual_early; [|exact Hearly]. intros k Hk. apply Hd. lia.
Qed.

(** Which entries of the peer a page covers. *)
Lemma page_below since tp m x :
  wf_tables tp → m ∈ rows tp → x ∈ m_Entries (manifest_of since tp) → Seq m ≤ Seq x →
  Seq m ≤ since ∨ m ∈ m_Entries (manifest_of since tp).
Proof.
  intros Hw Hm Hx Hle. destruct (Z.le_gt_cases (Seq m) since) as [|Hgt]; [by left|right].
  destruct (page_prefix since tp Hw) as [rest E].
  assert (m ∈ feed since tp) as Hf by (apply feed_elem; split; [done|lia]).
  rewrite E in Hf. apply elem_of_app in Hf as [|Hrest]; [done|].
  pose proof (feed_sorted_lt since tp Hw) as Hs. rewrite E in Hs.
  apply StronglySorted_app in Hs as (Hlt & _). specialize (Hlt x m Hx Hrest). unfold key_rel in Hlt. lia.
Qed.

Lemma page_last since tp m :
  wf_tables tp → m ∈ rows tp → m_More (manifest_of since tp) = false →
  Seq m ≤ since ∨ m ∈ m_Entries (manifest_of since tp).
Proof.
  intros Hw Hm Hmore. destruct (Z.le_gt_cases (Seq m) since) as [|Hgt]; [by left|right].
  rewrite manifest_of_last by done. apply feed_elem. split; [done|lia].
Qed.

Lemma page_head since tp m :
  wf_tables tp → m ∈ rows tp → m_More (manifest_of since tp) = true →
  Seq m ≤ m_Head (manifest_of since tp) → Seq m ≤ since ∨ m ∈ m_Entries (manifest_of since tp).
Proof.
  intros Hw Hm Hmore Hle. destruct (Z.le_gt_cases (Seq m) since) as [|Hgt]; [by left|right].
  destruct (manifest_of_more since tp Hw Hmore) as (E & _ & _).
  assert (m ∈ feed since tp) as Hf by (apply feed_elem; split; [done|lia]).
  rewrite E in Hf. apply elem_of_app in Hf as [|[_ ?]%feed_elem]; [done|lia].
Qed.

(** The positions the puller asks for are positions of the feed. *)
Lemma page_head_range since tp :
  wf_tables tp → local_seq tp ≤ max_int64 → 0 ≤ since ≤ max_int64 →
  0 ≤ m_Head (manifest_of since tp) ≤ max_int64.
Proof.
  intros Hw Hh Hs. pose proof (page_elem since tp) as Hin. unfold manifest_of, page_of in *. cbn [m_Head m_Entries] in *.
  destruct (last _) as [m|] eqn:E; [|done]. apply last_Some_elem_of in E.
  apply Hin in E as [(p & r & Hr & ->)%elem_of_rows _]; [|done]. pose proof (wf_seq _ Hw _ _ Hr). simpl in *. lia.
Qed.

(** What the bookmark kept for the peer stands for. *)
Definition bookmark_ok (node : string) tp t : Prop :=
  ∀ row, peers t !! node = Some row → 0 ≤ p_LastSeq row ∧ read_up_to (p_LastSeq row) tp t.

(** What a page and the recording of its bookmark leave. *)
Lemma page_recorded node addr from tp cursor bookmark s n R :
  serves addr from tp R → (from ≤ ticks s)%nat → ¬ db_fault → wf_store (tbl (db s)) → covers (clock s) (tbl (db s)) → 0 ≤ n →
  let ms := m_Entries (manifest_of cursor tp) in
  n + 2 * Z.of_nat (length ms) ≤ R → counter_room (n + 2 * Z.of_nat (length ms)) (clock s) →
  local_seq (tbl (db s)) + 2 * Z.of_nat (length ms) ≤ max_int64 →
  read_up_to cursor tp (tbl (db s)) → read_up_to bookmark tp (tbl (db s)) → 0 ≤ bookmark →
  ∃ pos s1 s2, applyRemote cfg addr ms s = (Ok pos, s1) ∧
    on_db (SetPeerSeq node addr (Z.max bookmark pos) (time_now (ticks s1)))
      (set_ticks (S (ticks s1)) s1) = (Ok tt, s2) ∧
    wf_store (tbl (db s2)) ∧ covers (clock s2) (tbl (db s2)) ∧ counter_room n (clock s2) ∧
    local_seq (tbl (db s2)) ≤ local_seq (tbl (db s)) + 2 * Z.of_nat (length ms) ∧
    (∀ m, dominates (tbl (db s)) m → dominates (tbl (db s2)) m) ∧
    (∀ m, m ∈ ms → dominates (tbl (db s2)) m) ∧
    read_up_to (Z.max bookmark pos) tp (tbl (db s2)) ∧ bookmark_ok node tp (tbl (db s2)) ∧ (from ≤ ticks s2)%nat.
Proof.
  intros Hsv Hfrom Hnf Hws Hcov Hn ms HR Hroom Hseq Hcur Hbm Hb0. pose proof (sv_wf _ _ _ _ Hsv) as Hw.
  destruct (serving_page addr from tp cursor s n R) as (pos & s1 & E & Hpd & Hr & Hall & Hls); try done.
  exists pos, s1.
  destruct (on_db (SetPeerSeq node addr (Z.max bookmark pos) (time_now (ticks s1)))
    (set_ticks (S (ticks s1)) s1)) as [res s2] eqn:E2.
  apply SetPeerSeq_inv in E2 as (Hc2 & Htk2 & [(_ & ? & _)|[-> Ht2]]); [done|]. simpl in Hc2, Htk2, Ht2.
  assert (∀ m, dominates (tbl (db s1)) m → dominates (tbl (db s2)) m) as H12.
  { intros m. rewrite Ht2. by apply dominates_ext. }
  assert (read_up_to (Z.max bookmark pos) tp (tbl (db s2))) as Hread.
  { intros m Hm Hs. apply H12.
    destruct (Z.le_gt_cases (Seq m) bookmark); [by apply (pd_kept _ _ _ _ _ _ Hpd), Hbm|].
    destruct (pd_pos _ _ _ _ _ _ Hpd) as [->|(x & Hx & ->)].
    - apply (pd_kept _ _ _ _ _ _ Hpd), Hbm; [done|].
      apply elem_of_rows in Hm as (p & r & Hr' & ->). pose proof (wf_seq _ Hw _ _ Hr'). simpl in *. lia.
    - destruct (page_below cursor tp m x) as [Hle|Hin]; [done..|lia| |].
      + by apply (pd_kept _ _ _ _ _ _ Hpd), Hcur.
      + by apply Hall. }
  exists s2. split_and!; try done.
  - rewrite Ht2. apply wf_set_peers, Hpd.
  - rewrite Hc2, Ht2. apply (pd_covers _ _ _ _ _ _ Hpd).
  - by rewrite Hc2.
  - by rewrite Ht2.
  - intros m Hm. by apply H12, (pd_kept _ _ _ _ _ _ Hpd).
  - intros m Hm. by apply H12, Hall.
  - intros row. rewrite Ht2 at 1. simpl. rewrite lookup_insert_eq. intros [= <-]. simpl. split; [lia|done].
  - pose proof (pd_ticks _ _ _ _ _ _ Hpd). lia.
Qed.

(** What a page leaves of the feed: nothing, if it is the last. *)
Lemma page_left cursor tp :
  wf_tables tp → let ms := m_Entries (manifest_of cursor tp) in
  ∃ n, 0 ≤ n ∧ Z.of_nat (length (feed cursor tp)) = n + Z.of_nat (length ms) ∧
    (m_More (manifest_of cursor tp) = true →
      n = Z.of_nat (length (feed (m_Head (manifest_of cursor tp)) tp)) ∧ length ms = MaxManifestPage).
Proof.
  intros Hw ms. destruct (m_More (manifest_of cursor tp)) eqn:Em.
  - destruct (manifest_of_more cursor tp Hw Em) as (E & Hl & _).
    exists (Z.of_nat (length (feed (m_Head (manifest_of cursor tp)) tp))).
    split_and!; [lia| |by intros _]. rewrite E at 1. rewrite length_app. unfold ms. lia.
  - exists 0. split_and!; [done| |done]. unfold ms. by rewrite (manifest_of_last cursor tp Em).
Qed.

(** The loop over the pages, to its end. *)
Lemma pull_serving node addr from tp R fuel : ∀ cursor bookmark s,
  serves addr from tp R → (from ≤ ticks s)%nat → ¬ db_fault → wf_store (tbl (db s)) → covers (clock s) (tbl (db s)) →
  let left := Z.of_nat (length (feed cursor tp)) in
  2 * left ≤ R → counter_room (2 * left) (clock s) →
  local_seq (tbl (db s)) + 2 * left ≤ max_int64 →
  read_up_to cursor tp (tbl (db s)) → read_up_to bookmark tp (tbl (db s)) →
  bookmark_ok node tp (tbl (db s)) → 0 ≤ cursor ≤ max_int64 → 0 ≤ bookmark →
  (length (feed cursor tp) < MaxManifestPage * fuel)%nat →
  ∃ s', pull cfg fuel node addr cursor bookmark s = (Ok true, s') ∧
    wf_store (tbl (db s')) ∧ covers (clock s') (tbl (db s')) ∧
    dominates_all (tbl (db s')) tp ∧ bookmark_ok node tp (tbl (db s')) ∧
    (∀ m, dominates (tbl (db s)) m → dominates (tbl (db s')) m).
Proof.
  induction fuel as [|fuel IH];
    intros cursor bookmark s Hsv Hfrom Hnf Hws Hcov left HR Hroom Hseq Hcur Hbm Hbok Hc0 Hb0 Hfuel; [lia|].
  pose proof (sv_wf _ _ _ _ Hsv) as Hw. cbn [pull].
  unfold request at 1. unfold mbind at 1. unfold ST_bind at 1. cbv beta.
  rewrite (sv_manifest _ _ _ _ Hsv) by done. set (s0 := set_reqs (S (reqs s)) s).
  set (ms := m_Entries (manifest_of cursor tp)).
  destruct (page_left cursor tp Hw) as (n & Hn & Hleft & Hmore). fold ms in Hleft, Hmore. fold left in Hleft.
  destruct (page_recorded node addr from tp cursor bookmark s0 (2 * n) R)
    as (pos & s1 & s2 & E1 & E2 & Hw2 & Hcov2 & Hroom2 & Hseq2 & Hkept & Hpage & Hread & Hbok2 & Hfrom2);
    try done; try (fold ms; simpl in *; first [lia | eapply counter_room_le; [|exact Hroom]; lia]).
  fold ms in E1, Hpage, Hseq2.
  destruct (decide (ms = [])) as [Ems|Ems].
  - rewrite Ems. exists s0. split_and!; try done. intros m Hm.
    destruct (page_last cursor tp m) as [Hle|Hin]; [done..| |by apply Hcur|].
    + destruct (m_More (manifest_of cursor tp)); [|done]. destruct Hmore as [_ Hl]; [done|]. by rewrite Ems in Hl.
    + fold ms in Hin. rewrite Ems in Hin. by apply not_elem_of_nil in Hin.
  - assert (∀ (k1 k2 : ST Syncer.node bool), match ms with [] => k1 | _ :: _ => k2 end = k2) as ->
      by (intros; by destruct ms).
    unfold mbind, ST_bind. rewrite E1. unfold now. rewrite E2.
    destruct (m_More (manifest_of cursor tp)) eqn:Em; simpl.
    + destruct (Hmore eq_refl) as [En Hl].
      assert (length (feed cursor tp) = (MaxManifestPage + length (feed (m_Head (manifest_of cursor tp)) tp))%nat)
        as Elen by lia.
      destruct (IH (m_Head (manifest_of cursor tp)) (Z.max bookmark pos) s2)
        as (s' & E & ? & ? & ? & ? & Hk); try done; try lia.
      * by rewrite <- En.
      * simpl in Hseq2. lia.
      * intros m Hm Hs. destruct (page_head cursor tp m) as [Hle|Hin]; [done..| |by apply Hpage].
        by apply Hkept, Hcur.
      * apply page_head_range; [done|apply Hsv|done].
      * exists s'. split_and!; try done. intros m Hm. by apply Hk, Hkept.
    + exists s2. split_and!; try done. intros m Hm.
      destruct (page_last cursor tp m) as [Hle|Hin]; [done..| |by apply Hpage].
      by apply Hkept, Hcur.
Qed.

Lemma pull_catches_up node addr tp n s fuel :
  let R := 2 * Z.of_nat (length (rows tp)) in
  serves addr (ticks s) tp R → (∀ i, ∃ entries, peer_Digest i addr = Ok (mkDigestResponse (digest_of tp) entries n)) →
  ¬ db_fault → wf_store (tbl (db s)) → covers (clock s) (tbl (db s)) →
  counter_room R (clock s) → local_seq (tbl (db s)) + R ≤ max_int64 →
  bookmark_ok node tp (tbl (db s)) → n ≤ max_int64 →
  (length (rows tp) < MaxManifestPage * fuel)%nat →
  ∃ s', syncPeer cfg fuel node addr s = (Ok true, s') ∧
    wf_store (tbl (db s')) ∧ covers (clock s') (tbl (db s')) ∧
    (∀ m, dominates (tbl (db s)) m → dominates (tbl (db s')) m) ∧
    (digest_of (tbl (db s)) = digest_of tp ∨
     dominates_all (tbl (db s')) tp ∧ bookmark_ok node tp (tbl (db s'))).
Proof.
  intros R Hsv Hdig Hnf Hws Hcov Hroom Hseq Hbok Hn Hfuel.
  pose proof (sv_wf _ _ _ _ Hsv) as Hw.
  unfold syncPeer, request. unfold mbind, ST_bind. destruct (Hdig (reqs s)) as [k ->].
  set (s0 := set_reqs (S (reqs s)) s).
  destruct (on_db Digest s0) as [r1 s1] eqn:E1. apply on_db_inv in E1 as (d1 & E1 & ->).
  apply Digest_inv in E1 as [Ht1 [[_ ?]| ->]]; [done|]. simpl.
  destruct (String.eqb_spec (digest_of (tbl (db s))) (digest_of tp)) as [Ed|Ed].
  - unfold now. simpl.
    match goal with |- context [on_db (SetPeerSeq node addr n ?t) ?x] =>
      destruct (on_db (SetPeerSeq node addr n t) x) as [r2 s2] eqn:E2 end.
    apply SetPeerSeq_inv in E2 as (Hc2 & _ & [(_ & ? & _)|[-> Ht2]]); [done|]. simpl in Hc2, Ht2.
    rewrite Ht1 in Ht2. exists s2. rewrite Ht2, Hc2. split_and!; try done; [by apply wf_set_peers|by left].
  - destruct (on_db (PeerSeq node) (set_db d1 s0)) as [r2 s2] eqn:E2.
    apply on_db_inv in E2 as (d2 & E2 & ->). unfold PeerSeq in E2.
    apply select_bind_inv in E2 as [(_ & ? & _)|(d3 & Ht3 & E2)]; [done|]. injection E2 as <- <-.
    simpl in Ht3. rewrite Ht1 in *. simpl in *.
    set (since := if n <? _ then 0 else _).
    assert (length (feed since tp) ≤ length (rows tp))%nat as Hlen.
    { unfold feed. rewrite (sort_on_perm Seq Z.le). apply length_filter. }
    assert (read_up_to since tp (tbl (db s))) as Hread.
    { assert (read_up_to 0 tp (tbl (db s))) as H0read.
      { intros m (p & r & Hr & ->)%elem_of_rows Hs. pose proof (wf_seq _ Hw _ _ Hr). simpl in Hs. lia. }
      unfold since. case_match; [done|]. destruct (peers (tbl (db s)) !! node) eqn:Er; [|done]. by apply Hbok. }
    assert (0 ≤ since ≤ max_int64) as Hs0.
    { unfold since. destruct (Z.ltb_spec n match peers (tbl (db s)) !! node with Some row => p_LastSeq row | None => 0 end) as [|Hle]; [done|].
      destruct (peers (tbl (db s)) !! node) eqn:Er; [|done]. apply Hbok in Er as [? _]. lia. }
    destruct (pull_serving node addr (ticks s) tp R fuel since since (set_db d3 s0)) as (s' & E & ? & ? & ? & ? & Hk);
      simpl; rewrite ?Ht3; try done; try lia.
    { eapply counter_room_le; [|done]. lia. }
    exists s'. simpl in Hk. rewrite Ht3 in Hk. split_and!; try done. by right.
Qed.

(** A pull from a peer that serves reaches the end and catches up.  On a database that
    works, against a peer that answers from tables of its own whose entries this node
    can take, and with room left in its counters, [syncPeer] returns without an error
    after one request per 2000 entries; unless the digests already agreed, the
    tree then holds something at least as late for every entry of the peer.  Nothing
    the tree held goes backwards, the store stays well formed and covered by the clock, and the
    bookmark kept for the peer is behind everything not yet read. *)
Theorem syncPeer_catches_up node addr tp n s fuel :
  let R := 2 * Z.of_nat (length (rows tp)) in
  serves addr (ticks s) tp R → (∀ i, ∃ entries, peer_Digest i addr = Ok (mkDigestResponse (digest_of tp) entries n)) →
  ¬ db_fault → wf_store (tbl (db s)) → covers (clock s) (tbl (db s)) →
  counter_room R (clock s) → local_seq (tbl (db s)) + R ≤ max_int64 →
  bookmark_ok node tp (tbl (db s)) → n ≤ max_int64 →
  (length (rows tp) < MaxManifestPage * fuel)%nat →
  ∃ s', syncPeer cfg fuel node addr s = (Ok true, s') ∧
    wf_store (tbl (db s')) ∧ covers (clock s') (tbl (db s')) ∧
    (∀ m, dominates (tbl (db s)) m → dominates (tbl (db s')) m) ∧
    (digest_of (tbl (db s)) = digest_of tp ∨
     dominates_all (tbl (db s')) tp ∧ bookmark_ok node tp (tbl (db s'))).
Proof. apply pull_catches_up. Qed.
End pull.
