(* ===== verification/Exchange.v ===== *)
(** * Nodes that pull from each other

    Where the entries of a tree come from after a pull, and when nodes that pull from each other — two, or any
    number around one — hold the same tree: anti-entropy as a whole. *)
From S2P Require Import Prelude GoStrings Clock Paths Crypto Entry Store StoreFacts Resolve Syncer SyncerFacts Transport Client AntiEntropy AntiFacts Pages Convergence.

(** The size of a page is 2000 as a unary number: never to be unfolded by conversion. *)
#[local] Arguments MaxManifestPage : simpl never.
#[local] Opaque MaxManifestPage.

Section trees.
Context `{DBFaults, Sha256}.
Implicit Types (t : tables) (m : Meta) (p : string).

(** The entry would be taken for a concurrent edit. *)
Definition conflicting t m : Prop :=
  let '(local, have) := entry_at t (Path m) in resolve local have m = decisionConflict.

(** No entry of the second tree is concurrent with one of the first. *)
Definition compatible t tp : Prop := ∀ m, m ∈ rows tp → ¬ conflicting t m.

(** Every entry of the last tree is one of the other two, feed positions apart. *)
Definition from t tp t' : Prop :=
  ∀ p m, tree t' !! p = Some m → tree t !! p = Some m ∨ tree tp !! p = Some m.

Lemma from_refl t tp : from t tp t.
Proof. by left. Qed.
Lemma from_trans t tp t1 t2 : from t tp t1 → from t1 tp t2 → from t tp t2.
Proof. intros H1 H2 p m [Hm|Hm]%H2; [by apply H1|by right]. Qed.
Lemma from_entries t tp t' : entries t' = entries t → from t tp t'.
Proof. intros E p m. unfold tree. rewrite E. by left. Qed.

Lemma tree_row t p m : tree t !! p = Some m ↔ ∃ r, entries t !! p = Some r ∧ m = with_Seq 0 (meta r).
Proof.
  unfold tree. rewrite lookup_fmap. destruct (entries t !! p) as [r|]; simpl; [|naive_solver].
  split; [intros [= <-]; eauto|by intros (r' & [= <-] & ->)].
Qed.

Lemma tree_rows t m : wf_tables t → m ∈ rows t → tree t !! Path m = Some (with_Seq 0 m).
Proof.
  intros Hw (p & r & Hr & ->)%elem_of_rows. rewrite (wf_key _ Hw _ _ Hr : Path (meta r) = p).
  apply tree_row. eauto.
Qed.

(** Whether an entry conflicts depends on its version, path and hashes only, and on the tree. *)
Lemma conflicting_ext t t' m : tree t !! Path m = tree t' !! Path m → conflicting t m → conflicting t' m.
Proof.
  intros E. unfold conflicting, entry_at. unfold tree in E. rewrite !lookup_fmap in E.
  destruct (entries t !! Path m) as [r|], (entries t' !! Path m) as [r'|]; simpl in E; try done.
  apply (inj Some) in E. assert (∀ x, resolve (with_Seq 0 (meta x)) true m = resolve (meta x) true m) as Hx by done.
  intros Hc. rewrite <- Hx in Hc |- *. by rewrite <- E.
Qed.

Lemma conflicting_later t m r :
  entries t !! Path m = Some r → conflicting t m → ver_lt (MVersion (meta r)) (MVersion m) ∧ sibling (meta r) m.
Proof.
  unfold conflicting, entry_at. intros ->. by intros (_ & ? & ?)%resolve_conflict.
Qed.

Lemma dominated_compatible t m : dominates t m → ¬ conflicting t m.
Proof.
  intros (r & Hr & Hv) [Hlt _]%(conflicting_later t m r); [|done].
  destruct Hv as [Hv|E]; [|rewrite E in Hlt]; [destruct (ver_lt_irrefl (MVersion m)); by trans (MVersion (meta r))|].
  by destruct (ver_lt_irrefl (MVersion (meta r))).
Qed.

(** Taking over entries of a tree leaves nothing of it concurrent. *)
Lemma compatible_from t tp t' : wf_tables tp → compatible t tp → from t tp t' → compatible t' tp.
Proof.
  intros Hw Hc Hf m Hm Hcon. pose proof (tree_rows tp m Hw Hm) as Et.
  destruct (entries t' !! Path m) as [r|] eqn:Er; [|by unfold conflicting, entry_at in Hcon; rewrite Er in Hcon].
  destruct (Hf (Path m) (with_Seq 0 (meta r))) as [E|E]; [by apply tree_row; eauto| |].
  - apply (Hc m Hm). eapply conflicting_ext; [|exact Hcon]. rewrite E. apply tree_row. eauto.
  - rewrite Et in E. apply (inj Some) in E. destruct (conflicting_later _ _ _ Er Hcon) as [Hlt _].
    assert (MVersion m = MVersion (meta r)) as Ev by exact (f_equal MVersion E).
    rewrite Ev in Hlt. by destruct (ver_lt_irrefl (MVersion (meta r))).
Qed.
End trees.

Section pulls.
Context `{DBFaults, Sha256, SystemTime, PeerClient, !PeerClientLaws} (cfg : Config).
Implicit Types (t : tables) (s : node) (m : Meta).

Lemma conflicting_grown s s' m : grown s s' → conflicting (tbl (db s')) m → conflicting (tbl (db s)) m.
Proof. intros G. unfold conflicting. by rewrite (grown_entry_at _ _ _ G). Qed.

(** What a turn puts into the batch: the entry, and a copy if it conflicts. *)
Lemma turn_sources addr m a s a' s' x :
  turn cfg addr m a s a' s' → x ∈ batch a' → x ∈ batch a ∨ x = m ∨ conflicting (tbl (db s)) m.
Proof.
  intros Ht Hx.
  assert (∀ local have a1 c1 c2, entry_at (tbl (db s)) (Path m) = (local, have) →
    copied cfg (resolve local have m) local a c1 a1 c2 → batch a1 = batch a ∨ conflicting (tbl (db s)) m) as Hcp.
  { intros local have a1 c1 c2 Hl [(_ & -> & _)|(Hd & _)]; [by left|right]. unfold conflicting. by rewrite Hl. }
  destruct Ht as [| | |local have c1 a1 s' _ _ _ Hl Hc _ _|local have c1 a1 s' _ _ _ Hl Hc _];
    rewrite ?advance_batch in Hx; simpl in Hx; auto.
  - destruct (Hcp _ _ _ _ _ Hl Hc) as [E|]; [rewrite E in Hx|]; auto.
  - destruct (Hcp _ _ _ _ _ Hl Hc) as [E|]; [rewrite E in Hx|auto].
    apply elem_of_app in Hx as [| ->%list_elem_of_singleton]; auto.
Qed.

Lemma turns_sources addr ms a s a' s' x :
  turns cfg addr ms a s a' s' → (∀ m, m ∈ ms → ¬ conflicting (tbl (db s)) m) →
  x ∈ batch a' → x ∈ batch a ∨ x ∈ ms.
Proof.
  induction 1 as [|m ms a1 s1 a2 s2 a3 s3 Ht _ IH]; intros Hc Hx; [by left|].
  destruct IH as [Hx2|Hx2]; [|done| |by right; right].
  - intros m' Hm' Hcon. apply (Hc m'); [by right|]. by eapply conflicting_grown, Hcon; eapply turn_grown.
  - destruct (turn_sources _ _ _ _ _ _ _ Ht Hx2) as [?|[->|Hcon]]; [by left|right; by left|].
    destruct (Hc m); [by left|done].
Qed.

Lemma applyRemote_from addr tp ms s res s' :
  wf_tables tp → wf_store (tbl (db s)) → compatible (tbl (db s)) tp → (∀ m, m ∈ ms → m ∈ rows tp) →
  applyRemote cfg addr ms s = (res, s') → from (tbl (db s)) tp (tbl (db s')).
Proof.
  intros Hwp Hw Hc Hms [(_ & _ & G)|(a & s1 & _ & Ht & _ & _ & Hend)]%applyRemote_inv; [| |done|done].
  { by apply from_entries, grown_entries. }
  pose proof (turns_grown _ _ _ _ _ _ _ Ht) as G.
  assert (from (tbl (db s)) tp (tbl (db s1))) as F1 by (by apply from_entries, grown_entries).
  destruct Hend as [[_ ->]|[_ (-> & _)]]; [done|]. eapply from_trans; [exact F1|].
  intros p m. rewrite tree_applied_lookup. destruct (last_for p (batch a)) as [x|] eqn:El; [|by left].
  intros [= <-]. right. apply last_for_Some in El as [Hx <-].
  destruct (turns_sources _ _ _ _ _ _ x Ht) as [Hx'|Hx']; [|done| |].
  - intros y Hy. by apply Hc, Hms.
  - by apply not_elem_of_nil in Hx'.
  - apply tree_rows; [done|]. by apply Hms.
Qed.

(** A pull from a peer whose entries are not concurrent with the tree's makes no copies. *)
Lemma pull_from node addr lo tp R fuel : ∀ cursor bookmark s res s',
  serves cfg addr lo tp R → wf_store (tbl (db s)) → compatible (tbl (db s)) tp → 0 ≤ cursor ≤ max_int64 →
  pull cfg fuel node addr cursor bookmark s = (res, s') → from (tbl (db s)) tp (tbl (db s')).
Proof.
  induction fuel as [|fuel IH]; intros cursor bookmark s res s' Hsv Hw Hc Hcur E.
  { injection E as <- <-. apply from_refl. }
  pose proof (sv_wf _ _ _ _ _ Hsv) as Hwp. cbn [pull] in E.
  apply bind_inv in E as (r & s1 & E1 & E). unfold request in E1. injection E1 as <- <-.
  rewrite (sv_manifest _ _ _ _ _ Hsv) in E by done.
  set (ms := m_Entries (manifest_of cursor tp)) in *.
  assert (match ms with [] => (res, s') = (Ok true, set_reqs (S (reqs s)) s) | _ :: _ => True end) as Hnil.
  { destruct ms; [|done]. by injection E as <- <-. }
  destruct (decide (ms = [])) as [Ems|Ems].
  { rewrite Ems in Hnil. injection Hnil as -> ->. apply from_refl. }
  assert (∀ (k1 k2 : ST Syncer.node bool), match ms with [] => k1 | _ :: _ => k2 end = k2) as Hk
    by (intros; by destruct ms).
  rewrite Hk in E. clear Hk Hnil. apply bind_inv in E as (r & s2 & E2 & E).
  assert (from (tbl (db s)) tp (tbl (db s2))) as F2.
  { eapply (applyRemote_from addr tp ms (set_reqs (S (reqs s)) s)); try done. intros m Hm. by apply page_elem in Hm as [? _]. }
  pose proof (applyRemote_wf cfg addr ms (set_reqs (S (reqs s)) s) Hw) as Hw2. rewrite E2 in Hw2. simpl in Hw2.
  destruct r as [pos|e]; [|by destruct E as [-> ->]].
  apply bind_inv in E as (r & s3 & E3 & E). injection E3 as <- <-.
  apply bind_inv in E as (r & s4 & E4 & E). apply SetPeerSeq_inv in E4 as (_ & _ & E4). simpl in E4.
  assert (entries (tbl (db s4)) = entries (tbl (db s2)) ∧ wf_store (tbl (db s4))) as [Ee4 Hw4].
  { destruct E4 as [(_ & _ & ->)|(_ & ->)]; [done|]. split; [done|]. by apply wf_set_peers. }
  assert (from (tbl (db s)) tp (tbl (db s4))) as F4 by (by eapply from_trans, from_entries).
  destruct r as [[]|e]; [|by destruct E as [-> ->]].
  destruct (negb _); [by injection E as <- <-|].
  eapply from_trans; [exact F4|]. eapply (IH _ _ _ _ _ Hsv Hw4); [|by apply page_head_range; [done|apply Hsv|]|exact E].
  by eapply compatible_from.
Qed.

(** ** Ready to pull *)

(** What [syncPeer_catches_up] asks for: a peer that serves these tables, a database that works, and room. *)
Record ready (node addr : string) (tp : tables) s (fuel : nat) : Prop := {
  rd_serves : serves cfg addr (ticks s) tp (2 * Z.of_nat (length (rows tp)));
  rd_digest : ∃ n, n ≤ max_int64 ∧ ∀ i, ∃ k, peer_Digest i addr = Ok (mkDigestResponse (digest_of tp) k n);
  rd_db : ¬ db_fault;
  rd_wf : wf_store (tbl (db s));
  rd_covers : covers (clock s) (tbl (db s));
  rd_counter : counter_room (2 * Z.of_nat (length (rows tp))) (clock s);
  rd_seq : local_seq (tbl (db s)) + 2 * Z.of_nat (length (rows tp)) ≤ max_int64;
  rd_bookmark : bookmark_ok node tp (tbl (db s));
  rd_fuel : (length (rows tp) < MaxManifestPage * fuel)%nat
}.

Lemma ready_pull node addr tp s fuel :
  ready node addr tp s fuel →
  ∃ s', syncPeer cfg fuel node addr s = (Ok true, s') ∧ wf_store (tbl (db s')) ∧ covers (clock s') (tbl (db s')) ∧
    (∀ m, dominates (tbl (db s)) m → dominates (tbl (db s')) m) ∧
    (digest_of (tbl (db s)) = digest_of tp ∨ dominates_all (tbl (db s')) tp).
Proof.
  intros [Hsv (n & Hn & Hdig) Hdb Hw Hcov Hc Hseq Hbm Hf].
  destruct (pull_catches_up cfg node addr tp n s fuel) as (s' & E & Hw' & Hc' & Hk & Hd); try done.
  exists s'. split_and!; [done..|]. destruct Hd as [?|[? _]]; auto.
Qed.

(** Where the tree after such a pull comes from; the digests tell beforehand when it stays as it is. *)
Lemma ready_from node addr tp s fuel res s' :
  ready node addr tp s fuel → syncPeer cfg fuel node addr s = (res, s') →
  (digest_of (tbl (db s)) = digest_of tp → entries (tbl (db s')) = entries (tbl (db s))) ∧
  (compatible (tbl (db s)) tp → from (tbl (db s)) tp (tbl (db s'))).
Proof.
  intros Hrd E. unfold syncPeer in E.
  apply bind_inv in E as (r & s1 & E1 & E). unfold request in E1. injection E1 as <- <-.
  destruct (rd_digest _ _ _ _ _ Hrd) as (n & Hn & Hdig). destruct (Hdig (reqs s)) as [k Ek]. rewrite Ek in E.
  apply bind_inv in E as (r & s2 & E2 & E). apply on_db_inv in E2 as (d2 & E2 & ->).
  apply Digest_inv in E2 as [Ht2 Hr]. simpl in Ht2. destruct Hr as [[-> _]| ->].
  { destruct E as [-> ->]. simpl. rewrite Ht2. split; [done|]. intros _. apply from_refl. }
  simpl in E. destruct (String.eqb_spec (digest_of (tbl (db s))) (digest_of tp)) as [Ed|Ed].
  - assert (entries (tbl (db s')) = entries (tbl (db s))) as Ee.
    { apply bind_inv in E as (r & s3 & E3 & E). injection E3 as <- <-.
      apply bind_inv in E as (r & s4 & E4 & E). apply SetPeerSeq_inv in E4 as (_ & _ & E4). simpl in E4.
      assert (entries (tbl (db s4)) = entries (tbl (db s))) as <-.
      { destruct E4 as [(_ & _ & ->)|(_ & ->)]; simpl; by rewrite Ht2. }
      destruct r; [by injection E as _ <-|by destruct E as [_ ->]]. }
    split; [done|]. intros _. by apply from_entries.
  - split; [done|]. intros Hc. apply bind_inv in E as (r & s3 & E3 & E).
    apply on_db_inv in E3 as (d3 & E3 & ->). unfold PeerSeq in E3.
    apply select_bind_inv in E3 as [(-> & _ & Ht3)|(d4 & Ht3 & E3)].
    { destruct E as [-> ->]. simpl. simpl in Ht3. rewrite Ht3, Ht2. apply from_refl. }
    injection E3 as <- <-. simpl in Ht3. rewrite Ht2 in Ht3. simpl in E.
    set (since := if n <? _ then 0 else _) in E.
    assert (0 ≤ since ≤ max_int64) as Hs0.
    { unfold since. destruct (Z.ltb_spec n match peers (tbl d2) !! node with Some row => p_LastSeq row | None => 0 end)
        as [|Hle]; [done|].
      assert (peers (tbl d2) = peers (tbl (db s))) as Ep by (by rewrite Ht2). rewrite Ep in *.
      destruct (peers (tbl (db s)) !! node) eqn:Er; [|done]. apply (rd_bookmark _ _ _ _ _ Hrd) in Er as [? _]. lia. }
    pose proof (pull_from node addr (ticks s) tp _ fuel since since (set_db d4 (set_db d2 (set_reqs (S (reqs s)) s))) res s'
      (rd_serves _ _ _ _ _ Hrd)) as Hp.
    simpl in Hp. rewrite Ht3 in Hp.
    apply Hp; [apply Hrd|done|done|done].
Qed.
End pulls.

(** ** Agreement *)

Section agreement.
Context `{DBFaults, Sha256}.
Implicit Types (t : tables) (m : Meta).

Lemma digest_of_entries t t' : entries t' = entries t → digest_of t' = digest_of t.
Proof. intros E. unfold digest_of, select_all, rows. by rewrite E. Qed.

(** Two entries that differ in the feed position only. *)
Lemma same_but_seq m m' :
  with_Seq 0 m = with_Seq 0 m' → Path m = Path m' ∧ MVersion m = MVersion m' ∧ digested m = digested m'.
Proof.
  intros E. split_and!; [exact (f_equal Path E)|exact (f_equal MVersion E)|].
  change (digested (with_Seq 0 m) = digested (with_Seq 0 m')). by rewrite E.
Qed.

Lemma tree_Some_row t p m :
  wf_tables t → tree t !! p = Some m → ∃ m', m' ∈ rows t ∧ with_Seq 0 m' = m ∧ Path m' = p.
Proof.
  intros Hw (r & Hr & ->)%tree_row. exists (meta r). split_and!; [by apply elem_of_rows; eauto|done|].
  by apply (wf_key _ Hw).
Qed.

(** Each entry of a tree made of two others is an entry of one of them. *)
Lemma from_rows t tp t' m :
  wf_tables t → wf_tables tp → wf_tables t' → from t tp t' → m ∈ rows t' →
  ∃ m', (m' ∈ rows t ∨ m' ∈ rows tp) ∧ with_Seq 0 m' = with_Seq 0 m.
Proof.
  intros Hw Hwp Hw' Hf Hm. pose proof (tree_rows t' m Hw' Hm) as E.
  destruct (Hf _ _ E) as [Em|Em]; apply tree_Some_row in Em as (m' & Hm' & Es & _); eauto.
Qed.

Lemma dominates_version t m m' : with_Seq 0 m = with_Seq 0 m' → dominates t m → dominates t m'.
Proof. intros (Ep & Ev & _)%same_but_seq. unfold dominates. by rewrite Ep, Ev. Qed.

Lemma rows_dominate t m : wf_tables t → m ∈ rows t → dominates t m.
Proof.
  intros Hw (p & r & Hr & ->)%elem_of_rows. exists r. split; [|by right]. by rewrite (wf_key _ Hw _ _ Hr : Path (meta r) = p).
Qed.

(** A tree made of one that is dominated by the other, and of the other: they dominate each other. *)
Lemma from_agree t tp t' :
  wf_tables t → wf_tables tp → wf_tables t' → same_writes t tp → dominates_all tp t →
  from t tp t' → dominates_all t' tp → digested_tree t' = digested_tree tp ∧ digest_of t' = digest_of tp.
Proof.
  intros Hw Hwp Hw' Hs Hd Hf Hd'. cut (digested_tree t' = digested_tree tp); [by intros E; auto using digest_of_tree|].
  apply dominance_same_tree; try done.
  - intros m1 m2 Hm1 Hm2 Ep Ev. destruct (from_rows _ _ _ _ Hw Hwp Hw' Hf Hm1) as (m & Hm & Em).
    apply same_but_seq in Em as (Ep' & Ev' & <-). destruct Hm as [Hm|Hm].
    + apply Hs; [done|done|congruence..].
    + f_equal. apply (NoDup_fmap_elem_inj Path (rows tp)); [by apply rows_NoDup|done..|congruence].
  - intros m Hm. destruct (from_rows _ _ _ _ Hw Hwp Hw' Hf Hm) as (m' & Hm' & Em).
    eapply dominates_version; [exact Em|]. destruct Hm' as [?|?]; [by apply Hd|by apply rows_dominate].
Qed.

(** Equal digests mean equal trees, as they do unless SHA-256 collides on the two texts. *)
Definition digests_tell t1 t2 : Prop := digest_of t1 = digest_of t2 → digested_tree t1 = digested_tree t2.

(** A pull from a peer that has caught up with this node, with nothing concurrent: the two agree. *)
Lemma pull_agrees `{SystemTime, PeerClient, !PeerClientLaws} cfg node addr tp (x : Syncer.node) fuel :
  ready cfg node addr tp x fuel → same_writes (tbl (db x)) tp →
  (digest_of (tbl (db x)) = digest_of tp ∨ compatible (tbl (db x)) tp ∧ dominates_all tp (tbl (db x))) →
  ∃ x', syncPeer cfg fuel node addr x = (Ok true, x') ∧ wf_store (tbl (db x')) ∧
    (∀ m, dominates (tbl (db x)) m → dominates (tbl (db x')) m) ∧ digest_of (tbl (db x')) = digest_of tp.
Proof.
  intros Hrd Hs Hd. destruct (ready_pull _ _ _ _ _ _ Hrd) as (x' & E & Hw' & _ & Hk & Hd').
  exists x'. split_and!; [done..|]. destruct (ready_from _ _ _ _ _ _ _ _ Hrd E) as [Hsame Hf].
  destruct (decide (digest_of (tbl (db x)) = digest_of tp)) as [Ed|Ed].
  { by rewrite (digest_of_entries (tbl (db x)) _ (Hsame Ed)). }
  destruct Hd as [?|[Hc Hd]], Hd' as [?|Hd']; [done..|].
  apply (from_agree (tbl (db x))); try done; [apply (rd_wf _ _ _ _ _ _ Hrd)|exact (sv_wf _ _ _ _ _ (rd_serves _ _ _ _ _ _ Hrd))|apply Hw'|by apply Hf].
Qed.

(** C5: Two nodes that pull from each other come to agree.  A pulls from B, B from A, and A from B again, each pull against a peer
    that serves the tables the other then has, with working databases and room, and nobody edits in between.
    Provided the versions of the two trees identify their writes, and the copies B made of its own losing
    edits are not concurrent with something A holds at their paths, A and B then report the same digest, and
    neither has lost anything it had.  So anti-entropy settles, conflicts included, after three pulls. *)
Theorem two_nodes_converge TA TB (P1 P2 P3 : PeerClient)
    (L1 : @PeerClientLaws _ P1) (L2 : @PeerClientLaws _ P2) (L3 : @PeerClientLaws _ P3)
    cfgA cfgB nameA nameB addrA addrB f1 f2 f3 a b r1 a1 r2 b1 :
  @ready _ _ TA P1 cfgA nameB addrB (tbl (db b)) a f1 → @syncPeer _ _ TA P1 cfgA f1 nameB addrB a = (r1, a1) →
  @ready _ _ TB P2 cfgB nameA addrA (tbl (db a1)) b f2 → @syncPeer _ _ TB P2 cfgB f2 nameA addrA b = (r2, b1) →
  @ready _ _ TA P3 cfgA nameB addrB (tbl (db b1)) a1 f3 →
  same_writes (tbl (db a1)) (tbl (db b1)) →
  (∀ m, m ∈ rows (tbl (db b1)) → tree (tbl (db b)) !! Path m ≠ Some (with_Seq 0 m) →
     tree (tbl (db a1)) !! Path m ≠ Some (with_Seq 0 m) → ¬ conflicting (tbl (db a1)) m) →
  ∃ a2, @syncPeer _ _ TA P3 cfgA f3 nameB addrB a1 = (Ok true, a2) ∧
    digest_of (tbl (db a2)) = digest_of (tbl (db b1)) ∧
    (∀ m, dominates (tbl (db a)) m → dominates (tbl (db a2)) m) ∧
    (∀ m, dominates (tbl (db b)) m → dominates (tbl (db b1)) m).
Proof.
  intros R1 E1 R2 E2 R3 Hs Hcopies.
  destruct (@ready_pull _ _ TA P1 L1 _ _ _ _ _ _ R1) as (a1' & E1' & Hw1 & _ & Hk1 & Hd1).
  rewrite E1 in E1'. injection E1' as -> <-.
  destruct (@ready_pull _ _ TB P2 L2 _ _ _ _ _ _ R2) as (b1' & E2' & Hw2 & _ & Hk2 & Hd2).
  rewrite E2 in E2'. injection E2' as -> <-.
  destruct (@ready_from _ _ TA P1 L1 _ _ _ _ _ _ _ _ R1 E1) as [Hsame1 _].
  destruct (@ready_from _ _ TB P2 L2 _ _ _ _ _ _ _ _ R2 E2) as [Hsame2 _].
  destruct (@pull_agrees TA P3 L3 cfgA nameB addrB (tbl (db b1)) a1 f3) as (a2 & E3 & _ & Hk3 & Ed); [done..| |].
  - destruct Hd1 as [Ed1|Hd1].
    { left. pose proof (digest_of_entries _ _ (Hsame1 Ed1)) as Ea. rewrite (digest_of_entries (tbl (db b)) (tbl (db b1)));
        [congruence|]. apply Hsame2. congruence. }
    destruct Hd2 as [Ed2|Hd2]; [left; by rewrite (digest_of_entries _ _ (Hsame2 Ed2))|right]. split; [|done].
    intros m Hm. destruct (decide (tree (tbl (db b)) !! Path m = Some (with_Seq 0 m))) as [Eb|Nb].
    { apply tree_Some_row in Eb as (m' & Hm' & Es & _); [|apply (@rd_wf _ _ TB P2 _ _ _ _ _ _ R2)].
      apply dominated_compatible. eapply dominates_version; [exact Es|]. by apply Hd1. }
    destruct (decide (tree (tbl (db a1)) !! Path m = Some (with_Seq 0 m))) as [Ea|Na]; [|by apply Hcopies].
    apply tree_Some_row in Ea as (m' & Hm' & Es & _); [|apply Hw1].
    apply dominated_compatible. eapply dominates_version; [exact Es|]. apply rows_dominate; [apply Hw1|done].
  - exists a2. split_and!; [done..| |exact Hk2]. intros m Hm. by apply Hk3, Hk1.
Qed.

(** ** Many nodes *)

Lemma told_dominates t tp : wf_tables tp → digests_tell t tp → digest_of t = digest_of tp → dominates_all t tp.
Proof.
  intros Hw Ht Ed m (p & r & Hr & ->)%elem_of_rows. pose proof (f_equal (.!! p) (Ht Ed)) as El.
  rewrite !digested_tree_lookup, Hr in El. destruct (entries t !! p) as [r'|] eqn:Er; [|done]. apply (inj Some) in El.
  exists r'. rewrite (wf_key _ Hw _ _ Hr : Path (meta r) = p). split; [done|].
  assert (MVersion (meta r') = MVersion (meta r)) as -> by exact (f_equal MVersion El). by right.
Qed.

(** A node pulls once from each of several peers, which serve these tables. *)
Inductive gathers (T : SystemTime) (cfg : Config) : list tables → Syncer.node → Syncer.node → Prop :=
  | gathers_nil h : gathers T cfg [] h h
  | gathers_cons P (L : @PeerClientLaws _ P) nd addr fuel tp tps h h1 h2 :
      @ready _ _ T P cfg nd addr tp h fuel → digests_tell (tbl (db h)) tp →
      @syncPeer _ _ T P cfg fuel nd addr h = (Ok true, h1) → gathers T cfg tps h1 h2 →
      gathers T cfg (tp :: tps) h h2.

Lemma gathers_dominates T cfg tps h h' : gathers T cfg tps h h' →
  (∀ m, dominates (tbl (db h)) m → dominates (tbl (db h')) m) ∧
  ∀ tp, tp ∈ tps → dominates_all (tbl (db h')) tp.
Proof.
  induction 1 as [|P L nd addr fuel tp tps h h1 h2 Hrd Ht E _ [Hk Hall]].
  { split; [done|]. intros tp Htp. by apply not_elem_of_nil in Htp. }
  destruct (@ready_pull _ _ T P L _ _ _ _ _ _ Hrd) as (h1' & E' & _ & _ & Hk1 & Hd). rewrite E in E'. injection E' as <-.
  split; [intros m Hm; by apply Hk, Hk1|]. intros tp' [->|?]%elem_of_cons; [|by apply Hall].
  intros m Hm. apply Hk. destruct Hd as [Ed|Hd]; [|by apply Hd].
  apply Hk1. exact (told_dominates _ _ (sv_wf _ _ _ _ _ (rd_serves _ _ _ _ _ _ Hrd)) Ht Ed m Hm).
Qed.

(** Any number of nodes agree after one of them has pulled from all, and all from it.  A node pulls once from each of its peers, in
    any order, each pull against a peer that serves its tables; nobody edits.  Then it has lost nothing, and every one of the
    peers that pulls from it, with nothing concurrent between the two, reports the digest it has, and has lost
    nothing either. *)
Theorem star_converges T cfg tps h h' :
  gathers T cfg tps h h' →
  (∀ m, dominates (tbl (db h)) m → dominates (tbl (db h')) m) ∧
  ∀ TX P (L : @PeerClientLaws _ P) cfgX nd addr fuel x,
    tbl (db x) ∈ tps → @ready _ _ TX P cfgX nd addr (tbl (db h')) x fuel →
    same_writes (tbl (db x)) (tbl (db h')) → compatible (tbl (db x)) (tbl (db h')) →
    ∃ x', @syncPeer _ _ TX P cfgX fuel nd addr x = (Ok true, x') ∧
      digest_of (tbl (db x')) = digest_of (tbl (db h')) ∧
      (∀ m, dominates (tbl (db x)) m → dominates (tbl (db x')) m).
Proof.
  intros [Hk Hall]%gathers_dominates. split; [done|]. intros TX P L cfgX nd addr fuel x Hx Hrd Hs Hc.
  destruct (@pull_agrees TX P L cfgX nd addr _ x fuel Hrd Hs) as (x' & E & _ & Hk' & Ed).
  - right. split; [done|]. by apply Hall.
  - by exists x'.
Qed.
End agreement.
