(* ===== verification/Delivery.v ===== *)
(** * From a file saved on one node to the disk of another

    The parts put together: a program saves or removes a file in the mount of one node, another node pulls from
    it, and renders. *)
From S2P Require Import Prelude GoStrings Clock Paths Crypto Entry Store StoreFacts Resolve Syncer SyncerFacts TreeFacts Fuse FuseFacts Disk DiskFacts Mirror MirrorFacts RenderFacts Transport Client AntiEntropy AntiFacts Pages Convergence Exchange.

(** The size of a page is 2000 as a unary number: never to be unfolded by conversion. *)
#[local] Arguments MaxManifestPage : simpl never.
#[local] Opaque MaxManifestPage.

(** ** An entry that is pulled *)

Section delivery.
Context `{DBFaults, Sha256}.
Implicit Types (t : tables) (m e : Meta) (p : string).

(** The tree holds nothing later at the path of an entry. *)
Definition not_later t e : Prop :=
  ∀ r, entries t !! Path e = Some r → ver_le (MVersion (meta r)) (MVersion e).

Lemma rows_entry t e : wf_tables t → e ∈ rows t → ∃ r, entries t !! Path e = Some r ∧ meta r = e.
Proof.
  intros Hw (p & r & Hr & ->)%elem_of_rows. exists r. split; [|done].
  by rewrite (wf_key _ Hw _ _ Hr : Path (meta r) = p).
Qed.

Lemma same_digested m1 m2 : digested m1 = digested m2 →
  Path m1 = Path m2 ∧ MKind m1 = MKind m2 ∧ Hash m1 = Hash m2 ∧ Mode m1 = Mode m2 ∧ UID m1 = UID m2 ∧
  GID m1 = GID m2 ∧ Deleted m1 = Deleted m2.
Proof. intros [= -> -> -> -> -> -> _ ->]. done. Qed.

(** After a pull the node holds the entry of the peer, if it held nothing later and nothing concurrent. *)
Lemma pull_delivers `{SystemTime, PeerClient, !PeerClientLaws} cfg nd addr tp (x : Syncer.node) fuel res x' e :
  ready cfg nd addr tp x fuel → compatible (tbl (db x)) tp → same_writes (tbl (db x)) tp →
  digests_tell (tbl (db x)) tp → e ∈ rows tp → not_later (tbl (db x)) e →
  syncPeer cfg fuel nd addr x = (res, x') →
  ∃ r, entries (tbl (db x')) !! Path e = Some r ∧ digested (meta r) = digested e.
Proof.
  intros Hrd Hc Hs Ht He Hnl E. pose proof (sv_wf _ _ _ _ _ (rd_serves _ _ _ _ _ _ Hrd)) as Hwp.
  destruct (ready_pull cfg nd addr tp x fuel Hrd) as (x1 & E1 & Hw' & _ & _ & Hd).
  rewrite E in E1. injection E1 as -> ->.
  destruct (ready_from cfg nd addr tp x fuel _ _ Hrd E) as [Hsame Hfrom].
  destruct (rows_entry _ _ Hwp He) as (re & Hre & Ere).
  destruct Hd as [Hd|Hd].
  - pose proof (f_equal (.!! Path e) (Ht Hd)) as El. rewrite !digested_tree_lookup, Hre in El.
    rewrite (Hsame Hd). destruct (entries (tbl (db x)) !! Path e) as [r|]; [|done].
    exists r. split; [done|]. apply (inj Some) in El. by rewrite El, Ere.
  - destruct (Hd e He) as (r & Hr & Hv). exists r. split; [done|].
    destruct (Hfrom Hc (Path e) (with_Seq 0 (meta r))) as [Em|Em]; [by apply tree_row; exists r|..];
      apply tree_row in Em as (r0 & Hr0 & Em).
    + assert (digested (meta r) = digested (meta r0)) as -> by exact (f_equal digested Em).
      assert (MVersion (meta r) = MVersion (meta r0)) as Ev by exact (f_equal MVersion Em). rewrite Ev in Hv.
      apply Hs; [apply elem_of_rows; by eauto|done| |by apply ver_le_antisym, Hv; apply Hnl].
      apply (wf_key _ (proj1 (rd_wf _ _ _ _ _ _ Hrd)) _ _ Hr0).
    + rewrite Hre in Hr0. injection Hr0 as <-. rewrite <- Ere. exact (f_equal digested Em).
Qed.
End delivery.

(** ** Saved here, on disk there *)

Section end_to_end.
Context `{DBFaults, Sha256, !Sha256Laws, OS} (Hos : ∀ n, os_fails n = None).
Context (TA TB : SystemTime) `{PeerClient, !PeerClientLaws}.

(** What a flush that is answered with success leaves in the tree. *)
Lemma Flush_entry cfg h s h' s' :
  wf_store (tbl (db s)) → h_dirty h = true → @Flush _ _ TA cfg h s = (Done h', s') →
  ∃ e, live_entry (tbl (db s')) (h_path h) e ∧ MKind e = KindFile ∧ Hash e = HashContent (h_buf h) ∧
    Mode e = SanitizeMode (h_mode h) ∧ UID e = h_uid h ∧ GID e = h_gid h.
Proof.
  intros Hw Hd E. unfold Flush in E. rewrite Hd in E. simpl in E. handler_step E r1 s1 E1 E2.
  apply call_inv in E1 as (r0 & E1 & ->). destruct r0 as [[]|e]; [|by destruct E2]. injection E2 as _ <-.
  destruct (edit_settled (cfg := cfg) (EPutFile (h_path h) (h_buf h) (h_mode h) (h_uid h) (h_gid h)) s s1 Hw E1)
    as (_ & _ & Hn).
  simpl in Hn. unfold holds_file, same_attrs in Hn. destruct (entry_at (tbl (db s1)) (h_path h)) as [e b] eqn:Ee.
  destruct Hn as (-> & ? & ? & ? & ? & ? & ?). by exists e.
Qed.

(** Puts the node a pull leaves under the mirror. *)
Definition with_node (s : node) (m : mirror) : mirror :=
  mkMirror s (mi_disk m) (canChown m) (warnedChown m) (inflight m).

(** C1: A file saved in the mount of one node arrives on the disk of another.  A program closes a file it has written in the
    mount of A; B, which holds nothing later and nothing concurrent, pulls from A and renders.  B is ready to pull (its
    bookmark for A is honest, A answers from its tables, B can take what they hold, its database works and there is room); its disk works,
    nothing of another type is in the way, the mirror can write the tree out ([coherent]), and no event at the path is pending.  Then pull and render
    return without an error, and on the disk of B there is a file at that path, whose content has the hash of what was
    saved, with the mode and, where B may set it, the owner. *)
Theorem saved_file_arrives cfgA cfgB h h' a a' nameA addr fuel m res b e :
  wf_store (tbl (db a)) → h_dirty h = true → @Flush _ _ TA cfgA h a = (Done h', a') →
  let ta := tbl (db a') in
  let tb := tbl (db (mi_node m)) in
  entry_at ta (h_path h) = (e, true) →
  @ready _ _ TB _ cfgB nameA addr ta (mi_node m) fuel → compatible tb ta → same_writes tb ta → digests_tell tb ta →
  not_later tb e → @syncPeer _ _ TB _ cfgB fuel nameA addr (mi_node m) = (res, b) →
  coherent (tbl (db b)) → wf_objs (objs (mi_disk m)) →
  (∀ e', live_entry (tbl (db b)) (Path e') e' → room_for (objs (mi_disk m)) e') → ¬ h_path h ∈ inflight m →
  ∃ m', res = Ok true ∧ render (with_node b m) = (Ok tt, m') ∧
    ∃ at_ time c, objs (mi_disk m') !! key_of (h_path h) = Some (File at_ time c) ∧
      HashContent c = HashContent (h_buf h) ∧ p_Mode at_ = SanitizeMode (h_mode h) ∧
      (canChown m = true → p_UID at_ = h_uid h ∧ p_GID at_ = h_gid h).
Proof.
  intros Hwa Hdirty Ef ta tb Hent Hrd Hc Hs Ht Hnl Es Hco Hwd Hroom Hfree.
  destruct (Flush_entry cfgA h a h' a' Hwa Hdirty Ef) as (e' & Hl & Hk & Hh & Hmo & Hu & Hg). fold ta in Hl.
  assert (e' = e) as -> by (destruct Hl as [Hl _]; rewrite Hent in Hl; congruence).
  pose proof (sv_wf _ _ _ _ _ (rd_serves _ _ _ _ _ _ Hrd)) as Hwp.
  pose proof (live_entry_path _ _ _ Hwp Hl) as Hp.
  assert (e ∈ rows ta) as Hin.
  { apply elem_of_rows. unfold entry_at in Hent. destruct (entries ta !! h_path h) as [r|] eqn:Er; [|done].
    injection Hent as <-. by exists (h_path h), r. }
  destruct (@pull_delivers _ _ TB _ _ cfgB nameA addr ta (mi_node m) fuel res b e Hrd Hc Hs Ht Hin Hnl Es)
    as (r & Hr & Ed).
  destruct (same_digested _ _ Ed) as (Epath & Ek & Eh & Em & Eu & Eg & Edel).
  destruct (@ready_pull _ _ TB _ _ cfgB nameA addr ta (mi_node m) fuel Hrd) as (b' & E' & Hwb & _).
  rewrite Es in E'. injection E' as -> <-.
  destruct (render_run Hos (rd_db _ _ _ _ _ _ Hrd) (with_node b m) (proj1 Hwb) Hco Hwd Hroom)
    as (m' & Em' & _ & Hshows & _).
  exists m'. split; [done|]. split; [done|].
  assert (live_entry (tbl (db b)) (Path (meta r)) (meta r)) as Hlr.
  { unfold live_entry, entry_at. rewrite Epath, Hr. split; [done|]. rewrite Edel. apply Hl. }
  destruct (Hshows _ Hlr) as (o & Ho & Hob); [by rewrite Epath, Hp|]. rewrite Epath, Hp in Ho.
  destruct o as [at_|at_ time c|]; cbn [object_shows] in Hob; [|..|done].
  - destruct Hob as [Hob _]. rewrite Ek, Hk in Hob. discriminate Hob.
  - exists at_, time, c. destruct Hob as (_ & Hc' & Hm' & Ho'). split; [done|].
    rewrite Hc', Hm', Eh, Em, Hh, Hmo. split_and!; [done..|]. intros Hcan. destruct (Ho' Hcan) as [-> ->].
    by rewrite Eu, Eg, Hu, Hg.
Qed.

(** What an unlink that is answered with success leaves in the tree. *)
Lemma Unlink_entry cfg dir name s s' :
  wf_store (tbl (db s)) → @Unlink _ TA cfg dir name s = (Done tt, s') →
  canonical (child dir name) ∧
  ∃ e, entry_at (tbl (db s')) (child dir name) = (e, true) ∧ Path e = child dir name ∧ Deleted e = true.
Proof.
  intros Hw E. unfold Unlink, remove in E. handler_step E r1 s1 E1 E2. apply get_live_inv in E1 as [Ho E1].
  destruct E1 as [(m & -> & Hm)|[-> _]]; [|by destruct E2].
  destruct (negb (MKind m =? KindFile)); [done|]. apply call_inv in E2 as (r0 & E2 & Er).
  destruct r0 as [[]|]; [|done]. pose proof (observable_tbl _ _ Ho) as Ht. rewrite <- Ht in Hw.
  assert (live (tbl (db s1)) (child dir name)) as Hlive by (rewrite Ht; by eapply live_entry_live).
  apply (run_edit_inv cfg (EDelete (child dir name))) in E2; [|apply Hw]. unfold edit_outcome, edit_refused in E2.
  simpl in E2. case_decide as Hc; [|by destruct E2 as [[?|[? _]] _]]. split; [done|].
  destruct E2 as [(? & _)|[(_ & _ & W%wrote_entry)|(? & _)]]; [done| |done].
  eexists. split; [exact W|]. done.
Qed.

(** C8: A file removed in the mount of one node leaves the disk of another.  A program unlinks a file in the mount of A; B, which holds
    nothing later and nothing concurrent, pulls from A and renders.  B is ready to pull, as in [saved_file_arrives], its disk works, the
    mirror can write the tree out, no event at the path is pending, and its name is no scratch name.  Then pull and render return without an error, and
    there is no file at that path on the disk of B. *)
Theorem removed_file_leaves cfgA cfgB dir name a a' nameA addr fuel m res b e :
  let p := child dir name in
  wf_store (tbl (db a)) → @Unlink _ TA cfgA dir name a = (Done tt, a') →
  let ta := tbl (db a') in
  let tb := tbl (db (mi_node m)) in
  entry_at ta p = (e, true) →
  @ready _ _ TB _ cfgB nameA addr ta (mi_node m) fuel → compatible tb ta → same_writes tb ta → digests_tell tb ta →
  not_later tb e → @syncPeer _ _ TB _ cfgB fuel nameA addr (mi_node m) = (res, b) →
  coherent (tbl (db b)) → wf_objs (objs (mi_disk m)) →
  (∀ e', live_entry (tbl (db b)) (Path e') e' → room_for (objs (mi_disk m)) e') → ¬ p ∈ inflight m →
  Str.has_prefix tmpPrefix (Pkg.Base p) = false →
  ∃ m', res = Ok true ∧ render (with_node b m) = (Ok tt, m') ∧
    ∀ at_ time c, objs (mi_disk m') !! key_of p ≠ Some (File at_ time c).
Proof.
  intros p Hwa Eu ta tb Hent Hrd Hc Hs Ht Hnl Es Hco Hwd Hroom Hfree Hbase.
  destruct (Unlink_entry cfgA dir name a a' Hwa Eu) as (Hcan & e' & He' & Hp & Hdel).
  fold p ta in Hcan, He', Hp. assert (e' = e) as -> by congruence.
  assert (e ∈ rows ta) as Hin.
  { apply elem_of_rows. unfold entry_at in Hent. destruct (entries ta !! p) as [r|] eqn:Er; [|done].
    injection Hent as <-. by exists p, r. }
  destruct (@pull_delivers _ _ TB _ _ cfgB nameA addr ta (mi_node m) fuel res b e Hrd Hc Hs Ht Hin Hnl Es)
    as (r & Hr & Ed).
  destruct (same_digested _ _ Ed) as (_ & _ & _ & _ & _ & _ & Edel).
  destruct (@ready_pull _ _ TB _ _ cfgB nameA addr ta (mi_node m) fuel Hrd) as (b' & E' & Hwb & _).
  rewrite Es in E'. injection E' as -> <-.
  destruct (render_run Hos (rd_db _ _ _ _ _ _ Hrd) (with_node b m) (proj1 Hwb) Hco Hwd Hroom)
    as (m' & Em' & _ & _ & Hgone).
  exists m'. split_and!; [done..|]. intros at_ time c. apply Hgone; [done|done| |done].
  unfold tombstone, entry_at. cbn [mi_node with_node]. rewrite Hp in Hr. rewrite Hr. split; [done|]. cbn [fst]. by rewrite Edel.
Qed.
End end_to_end.
