(* ===== verification/Wire.v ===== *)
(** * A pull over the wire

    The client of one node and the server of another, put together: what the client asks for
    reaches the handlers signed and comes back sealed, and is the content of
    the server's tables.  So a server is a peer that serves its feed, and a pull from it catches up. *)
From S2P Require Import Prelude GoStrings Clock Paths Crypto Aead Auth Entry Store StoreFacts Resolve Syncer SyncerFacts Transport Client AntiEntropy AntiFacts Pages Convergence.

(** The size of a page is 2000 as a unary number: never to be unfolded by conversion. *)
#[local] Arguments MaxManifestPage : simpl never.
#[local] Opaque MaxManifestPage.

(** Hexadecimal text is UTF-8. *)
Lemma hex_valid l : Utf8.ValidString (Hex.EncodeToString l) = true.
Proof.
  assert (∀ n, Utf8.within 0 127 (Hex.digit n) = true) as Hd.
  { intros n. unfold Hex.digit. repeat case_match; done. }
  induction l as [|b l IH]; [done|]. simpl. by rewrite !Hd.
Qed.

Section wire.
Context `{DBFaults, Sha256, !Sha256Laws, BlockCipher, !BlockCipherLaws, Random, !RandomLaws, Router, !RouterLaws}.
Context `{!Codec DigestResponse, !CodecLaws DigestResponse, !Codec ManifestResponse, !CodecLaws ManifestResponse}.
Context {StatusDoc : Type} `{!Codec StatusDoc}.

(** The two processes: the server with its state and its clock at each request of the client, and what the client reads
    of its random source and its clock. *)
Record link := mkLink {
  l_addr : string;
  l_keys : Keys;
  l_status : ST host StatusDoc;
  l_unrouted : string → response;
  l_host : nat → host;
  l_server_time : nat → Z;
  l_client_rand : nat → result bytes;
  l_client_time : nat → Z
}.

(** The network of the client: requests for the server's address reach its handlers. *)
Definition over (l : link) : Network := {|
  req_rand := l_client_rand l;
  req_time := l_client_time l;
  http_do i addr path auth :=
    if String.eqb addr (l_addr l)
    then (Handler (l_keys l) (l_status l) (l_unrouted l) path auth (l_server_time l i) (l_host l i)).1
    else Err ErrPeer
|}.

(** The link is up: the two hold the same key, their clocks are close, their random sources and the server's database work, and
    [tp] is what its tables hold. *)
Record connected (l : link) (c : Client) (tp : tables) : Prop := {
  ln_keys : c_keys c = l_keys l;
  ln_key : newGCM (Blob (l_keys l)) = Ok tt;
  ln_node : c_node c ≠ EmptyString ∧ Str.has_char colon (c_node c) = false;
  ln_body : 0 ≤ c_maxBody c < max_int64;
  ln_time : ∀ i, is_int64 (l_client_time l i) ∧ - MaxSkew ≤ l_server_time l i - l_client_time l i ≤ MaxSkew;
  ln_crand : ∀ i, ∃ b, l_client_rand l i = Ok b ∧ length b = 12%nat;
  ln_srand : ∀ i, ∃ b, rand_read (h_rands (l_host l i)) = Ok b;
  ln_db : ¬ db_fault;
  ln_wf : wf_store tp;
  ln_tbl : ∀ i, tbl (h_db (l_host l i)) = tp
}.

(** A document or content the limit on bodies has room for. *)
Definition fits (c : Client) (b : bytes) : Prop := Z.of_nat (length b) + 28 ≤ c_maxBody c.

(** The document of the digest. *)
Definition digest_doc (tp : tables) : DigestResponse :=
  mkDigestResponse (digest_of tp) (Z.of_nat (length (select_all tp)))
    (fold_left (λ head m, head `max` Seq m) (select_all tp) 0).

(** Everything the client will ask for can be encoded, and fits. *)
Record deliverable (c : Client) (tp : tables) : Prop := {
  dl_utf8 : ∀ m, m ∈ rows tp → Forall (λ s, Utf8.ValidString s = true) [Path m; Hash m; PrevHash m; Origin (MVersion m)];
  dl_digest : ∃ b, Marshal (digest_doc tp) = Ok b ∧ fits c b;
  dl_manifest : ∀ since, 0 ≤ since ≤ max_int64 → ∃ b, Marshal (manifest_of since tp) = Ok b ∧ fits c b;
  dl_blob : ∀ h row, blobs tp !! h = Some row → fits c (b_Data row)
}.

Section up.
Context (l : link) (c : Client) (tp : tables) (Hup : connected l c tp) (Hdl : deliverable c tp).
Abbreviation keys := (l_keys l).

(** A sealed answer. *)
Definition answers (body : bytes) (q : ST host response) : Prop :=
  ∀ i, ∃ payload, (q (l_host l i)).1 = Ok (mkResponse StatusOK payload) ∧
    open (Blob keys) payload = Ok body ∧ Z.of_nat (length payload) = Z.of_nat (length body) + 28.

Lemma sealedBytes_answers body i d :
  ∃ payload, (sealedBytes keys body (mkHost d (h_rands (l_host l i)))).1 = Ok (mkResponse StatusOK payload) ∧
    open (Blob keys) payload = Ok body ∧ Z.of_nat (length payload) = Z.of_nat (length body) + 28.
Proof.
  unfold sealedBytes, mbind, ST_bind, rand_nonce. cbn [h_rands].
  destruct (ln_srand _ _ _ Hup i) as [nonce En]. rewrite En. pose proof (rand_length _ _ En) as Hl.
  unfold seal. rewrite (ln_key _ _ _ Hup). unfold mbind, result_bind.
  exists (nonce ++ gcm_Seal (Blob keys) nonce body). split_and!; [done|by apply open_sealed, Hl; apply Hup|].
  rewrite length_app, gcm_Seal_length by done. lia.
Qed.

(** A handler that reads the database and seals what it made of it. *)
Lemma reader_answers {A} (q : ST DB A) (x : A) (k : result A → ST host response) body :
  (∀ d res d', tbl d = tp → q d = (res, d') → res = Ok x) → k (Ok x) = sealedBytes keys body →
  answers body (r ← attempt (on_reader q); k r).
Proof.
  intros Hq Hk i. unfold mbind, ST_bind, attempt, on_reader, zoom.
  destruct (q (h_db (l_host l i))) as [res d'] eqn:E. rewrite (Hq _ _ _ (ln_tbl _ _ _ Hup i) E), Hk.
  apply sealedBytes_answers.
Qed.

Lemma max_Seq_bound t n (ms : list Meta) :
  wf_tables t → Forall (λ m, m ∈ rows t) ms → n ≤ local_seq t →
  fold_left (λ head m, head `max` Seq m) ms n ≤ local_seq t.
Proof.
  intros Hw Hms. revert n. induction Hms as [|m ms Hm Hms IH]; intros n Hn; [done|]. simpl. apply IH.
  apply elem_of_rows in Hm as (p & r & Hr & ->). pose proof (wf_seq _ Hw _ _ Hr). simpl in *. lia.
Qed.

Lemma digest_doc_head : d_Head (digest_doc tp) ≤ local_seq tp.
Proof.
  apply max_Seq_bound; [apply (ln_wf _ _ _ Hup)| |apply (ln_wf _ _ _ Hup)].
  apply Forall_forall. intros m. unfold select_all. by rewrite elem_of_sort_on.
Qed.

Lemma getDigest_answers : ∃ b, Marshal (digest_doc tp) = Ok b ∧ fits c b ∧ answers b (getDigest keys).
Proof.
  destruct (dl_digest _ _ Hdl) as (b & Eb & Hb). exists b. split_and!; [done..|].
  apply (reader_answers _ (d_Digest (digest_doc tp), d_Entries (digest_doc tp), d_Head (digest_doc tp))).
  - intros d res d' Ht [_ [[_ ?]| ->]]%Digest_inv; [by destruct (ln_db _ _ _ Hup)|]. by rewrite Ht.
  - unfold sealed. change (mkDigestResponse _ _ _) with (digest_doc tp). by rewrite Eb.
Qed.

Lemma getManifest_answers since :
  0 ≤ since ≤ max_int64 →
  ∃ b, Marshal (manifest_of since tp) = Ok b ∧ fits c b ∧ answers b (getManifest keys (Dec.fmt_d since)).
Proof.
  intros Hs. destruct (dl_manifest _ _ Hdl since Hs) as (b & Eb & Hb). exists b. split_and!; [done..|].
  unfold getManifest. rewrite (proj1 parseSeq_spec) by done.
  apply (reader_answers _ (select_since since (MaxManifestPage + 1) tp)).
  - intros d res d' Ht [_ [[_ ?]| ->]]%select_inv; [by destruct (ln_db _ _ _ Hup)|]. by rewrite Ht.
  - unfold sealed. fold (manifest_of since tp). by rewrite Eb.
Qed.

Lemma getBlob_answers h row :
  plain_hash h → blobs tp !! h = Some row → answers (b_Data row) (getBlob keys h).
Proof.
  intros [Hl Hd] Hb. unfold getBlob. rewrite Hl, Hd. cbn [Z.eqb negb Pos.eqb].
  apply (reader_answers _ (b_Data row)); [|done].
  intros d res d' Ht [_ Hg]%GetBlob_inv; [|rewrite Ht; apply (ln_wf _ _ _ Hup)]. rewrite Ht in Hg.
  destruct Hg as [[_ ?]|[[_ ?]|(b & -> & E & _)]]; [by destruct (ln_db _ _ _ Hup)|congruence|].
  rewrite Hb in E. by injection E as <-.
Qed.

(** ** What the client gets *)

(** A request for a route that asks for a credential: signed, let in, answered and opened. *)
Lemma get_over i path body q :
  Handler keys (l_status l) (l_unrouted l) path = (λ auth now, authenticate keys path auth now q) →
  answers body q → fits c body → @get _ _ (over l) c i (l_addr l) path = Ok body.
Proof.
  intros Hr Hq Hf. unfold get. cbn [req_rand req_time http_do over].
  destruct (ln_crand _ _ _ Hup i) as (nonce & -> & Hl), (ln_time _ _ _ Hup i) as [Ht Hs], (ln_node _ _ _ Hup) as [Hn Hc].
  destruct (authorize (Ok nonce) (API (c_keys c)) "GET" path (c_node c) (l_client_time l i)) as [auth|] eqn:Ea; [|done].
  pose proof (verify_authorize nonce _ _ _ _ _ _ (l_server_time l i) Hl Hn Hc Ht Ea) as Hv.
  rewrite bool_decide_true in Hv by done. rewrite (ln_keys _ _ _ Hup) in *. unfold mbind at 1, result_bind at 1.
  rewrite String.eqb_refl, Hr. unfold authenticate. rewrite Hv.
  destruct (Hq i) as (payload & -> & Ho & Hlp). unfold mbind, result_bind. cbn [Status Body].
  unfold StatusOK, StatusNotFound. cbn [Z.eqb negb Pos.eqb].
  pose proof (ln_body _ _ _ Hup). unfold fits in Hf.
  rewrite wrap64_id by (unfold is_int64, min_int64, max_int64 in *; lia).
  rewrite take_ge by lia. rewrite Z.gtb_ltb, (proj2 (Z.ltb_ge _ _)) by lia. done.
Qed.

Lemma getJSON_over {A} `{!Codec A, !Texts A, !CodecLaws A} i path (v : A) b q :
  Handler keys (l_status l) (l_unrouted l) path = (λ auth now, authenticate keys path auth now q) →
  Forall (λ s, Utf8.ValidString s = true) (texts v) → Marshal v = Ok b →
  answers b q → fits c b → @getJSON _ _ (over l) c _ _ i (l_addr l) path = Ok v.
Proof.
  intros Hr Ht Hm Hq Hf. unfold getJSON, mbind, result_bind. rewrite (get_over i path b q) by done.
  by rewrite (codec_round v b).
Qed.

Lemma Digest_over i : @client_Digest _ _ (over l) _ c i (l_addr l) = Ok (digest_doc tp).
Proof.
  destruct getDigest_answers as (b & Em & Hf & Ha).
  apply (getJSON_over _ _ _ b (getDigest keys)); try done.
  - unfold Handler. by rewrite route_digest.
  - repeat constructor. apply hex_valid.
Qed.

Lemma Manifest_over i since :
  0 ≤ since ≤ max_int64 → @client_Manifest _ _ (over l) _ c i (l_addr l) since = Ok (manifest_of since tp).
Proof.
  intros Hs. destruct (getManifest_answers since Hs) as (b & Em & Hf & Ha).
  apply (getJSON_over _ _ _ b (getManifest keys (Dec.fmt_d since))); try done.
  - unfold Handler. by rewrite route_manifest.
  - apply Forall_forall. intros x (m & Hx & Hm)%list_elem_of_bind.
    apply page_elem in Hm as [Hm _]; [|apply (ln_wf _ _ _ Hup)].
    pose proof (dl_utf8 _ _ Hdl m Hm) as Hu. rewrite Forall_forall in Hu. by apply Hu.
Qed.

Lemma Blob_over i h row :
  plain_hash h → blobs tp !! h = Some row → @client_Blob _ _ (over l) c i (l_addr l) h = Ok (b_Data row).
Proof.
  intros Hh Hb. unfold client_Blob, mbind, result_bind.
  rewrite (get_over i (blob_path h) (b_Data row) (getBlob keys h)).
  - destruct (wf_blob _ (proj1 (ln_wf _ _ _ Hup)) _ _ Hb) as (_ & Eh & _). by rewrite Eh, String.eqb_refl.
  - unfold Handler. by rewrite route_blob.
  - by apply getBlob_answers.
  - by eapply dl_blob.
Qed.

(** The status document, when its computation returns it and leaves the random source alone. *)
Lemma Status_over `{!Texts StatusDoc, !CodecLaws StatusDoc} i doc b :
  (∀ j, ∃ d, l_status l (l_host l j) = (Ok doc, mkHost d (h_rands (l_host l j)))) →
  Forall (λ s, Utf8.ValidString s = true) (texts doc) → Marshal doc = Ok b → fits c b →
  @client_Status _ _ (over l) c StatusDoc _ i (l_addr l) = Ok doc.
Proof.
  intros Hst Ht Em Hf. apply (getJSON_over _ _ _ b (getStatus keys (l_status l))); try done.
  - unfold Handler. by rewrite route_status.
  - intros j. unfold getStatus, mbind, ST_bind, attempt. destruct (Hst j) as [d ->].
    unfold sealed. rewrite Em. apply sealedBytes_answers.
Qed.

(** ** The server is a peer that serves *)

(** What this node can take: every entry is valid and, from reading [from] of the clock on, not from the future, leaves room in the counters, and
    every content is within the limit on files. *)
Context `{SystemTime} (cfg : Config).
Record acceptable (from : nat) (n : Z) : Prop := {
  ac_head : local_seq tp ≤ max_int64;
  ac_valid : ∀ m, m ∈ rows tp → validate cfg m = Ok tt ∧ punctual from m ∧ counter_room n (HLC (MVersion m));
  ac_blob : ∀ h row, blobs tp !! h = Some row → Z.of_nat (length (b_Data row)) ≤ MaxFileSize cfg
}.

Lemma validate_hash m : validate cfg m = Ok tt → Hash m ≠ EmptyString → plain_hash (Hash m).
Proof.
  unfold validate, mbind, result_bind, plain_hash. intros Hv Hh. rewrite (proj2 (String.eqb_neq _ _) Hh) in Hv.
  revert Hv. repeat ((case_match; [|done]) || (case_match; [done|])). simpl in *.
  rewrite negb_false_iff in *. rewrite Z.eqb_eq in *. tauto.
Qed.

Lemma over_serves from n : acceptable from n → @serves _ _ (@client_peer _ _ (over l) _ _ c) cfg (l_addr l) from tp n.
Proof.
  intros [Hh Hv Hb]. split; [apply (ln_wf _ _ _ Hup)|done|intros i since; apply Manifest_over|done|].
  intros m Hm Hn i. unfold needs_blob in Hn. rewrite !andb_true_iff, !negb_true_iff, String.eqb_neq, Z.eqb_eq in Hn.
  destruct Hn as [[Hk Hd] Hne]. destruct (Hv m Hm) as (Hval & _).
  apply elem_of_rows in Hm as (p & r & Hr & ->).
  destruct (proj2 (ln_wf _ _ _ Hup) p r Hr Hd Hk Hne) as [row Hrow].
  exists (b_Data row). split; [|by eapply Hb]. apply Blob_over; [by apply validate_hash|done].
Qed.
End up.

(** C4: A pull over the wire catches up.  A client and a server with the same key, clocks within [MaxSkew], working
    random sources and databases, and a limit on bodies that has room for what the server sends; a node that can take the entries and
    contents of the server, with room in its counters, and whose bookmark for the server is honest ([bookmark_ok]): [syncPeer] with this
    client against the handlers of this server — signed requests, sealed answers, paged manifests — returns without
    an error after one page per 2000 entries, and unless the digests agreed already the node then holds
    something at least as late for every entry of the server's tables, loses nothing it had, and keeps a
    truthful bookmark. *)
Theorem syncPeer_over_the_wire l c tp `{!SystemTime} cfg node s fuel :
  let R := 2 * Z.of_nat (length (rows tp)) in
  connected l c tp → deliverable c tp → acceptable tp cfg (ticks s) R →
  wf_store (tbl (db s)) → covers (clock s) (tbl (db s)) →
  counter_room R (clock s) → local_seq (tbl (db s)) + R ≤ max_int64 →
  bookmark_ok node tp (tbl (db s)) → (length (rows tp) < MaxManifestPage * fuel)%nat →
  ∃ s', @syncPeer _ _ _ (@client_peer _ _ (over l) _ _ c) cfg fuel node (l_addr l) s = (Ok true, s') ∧
    wf_store (tbl (db s')) ∧ (∀ m, dominates (tbl (db s)) m → dominates (tbl (db s')) m) ∧
    (digest_of (tbl (db s)) = digest_of tp ∨
     dominates_all (tbl (db s')) tp ∧ bookmark_ok node tp (tbl (db s'))).
Proof.
  intros R Hup Hdl Hac Hws Hcov Hroom Hseq Hbok Hfuel.
  destruct (@pull_catches_up _ _ _ (@client_peer _ _ (over l) _ _ c) _ cfg node (l_addr l) tp
    (d_Head (digest_doc tp)) s fuel) as (s' & E & Hw' & _ & Hk & Hd); try done.
  - by eapply over_serves.
  - intros i. eexists. by apply (Digest_over l c tp).
  - apply (ln_db _ _ _ Hup).
  - etrans; [by eapply digest_doc_head|apply Hac].
  - by exists s'.
Qed.
End wire.
