(* ===== verification/Service.v ===== *)
(** * The service: pulls, events, timers, the janitor (internal/syncer/antientropy.go)

    A pull as a machine whose steps are the atomic actions of syncPeer, and the service as a
    transition system in which local edits, events, timers, the janitor and any number of
    pulls interleave at those actions. *)
From S2P Require Import Prelude GoStrings Clock Paths Crypto Entry Store StoreFacts Resolve Syncer SyncerFacts Transport Cluster Client AntiEntropy AntiFacts.

(** ** The janitor *)
Section janitor.
Context `{DBFaults, Sha256, SystemTime} (cfg : Config).
Implicit Types (t : tables) (s : node).

Definition horizon s : Z := wrap64 (time_now (ticks s) - TombstoneTTL cfg).

(** The tables after each of the ways the janitor ends. *)
Lemma collect_inv s res s' :
  collect cfg s = (res, s') → res = Ok tt ∧
  (clock s', subs_next s', subs s', announced s') = (clock s, subs_next s, subs s, announced s) ∧
  let kept := without_tombstones (horizon s) (tbl (db s)) in
  ((db_fault ∧ (tbl (db s') = tbl (db s) ∨ tbl (db s') = kept)) ∨
   tbl (db s') = without_orphans kept).
Proof.
  unfold collect. intros (r & s1 & [= <- <-] & Hk)%bind_inv.
  apply bind_inv in Hk as (r & s2 & (r2 & E2 & ->)%attempt_inv & Hk).
  apply on_db_inv in E2 as (d2 & E2 & ->).
  apply GCTombstones_inv in E2 as [(-> & Hf & Ht)|(-> & Ht)]; simpl in Ht.
  { injection Hk as <- <-. simpl. split_and!; auto. }
  apply bind_inv in Hk as (r & s3 & (r3 & E3 & ->)%attempt_inv & Hk).
  injection Hk as <- <-. apply on_db_inv in E3 as (d3 & E3 & ->).
  apply GCBlobs_inv in E3 as [(-> & Hf & Ht3)|(-> & Ht3)]; simpl in *; rewrite Ht in Ht3;
    split_and!; auto.
Qed.

Lemma collect_wf : preserves (λ s, wf_store (tbl (db s))) (collect cfg).
Proof.
  intros s Hw. destruct (collect cfg s) as [res s'] eqn:E. simpl.
  apply collect_inv in E as (_ & _ & [(_ & [->| ->])| ->]); [done|..].
  - by apply wf_without_tombstones.
  - by apply wf_without_orphans, wf_without_tombstones.
Qed.

(** C18: The janitor removes what it is meant to and nothing else.  On a database that works
    an entry goes exactly when it is a tombstone with a recorded time of deletion
    before the horizon, and a content goes exactly when no remaining entry names it;
    live entries, recent tombstones and everything they name stay, the feed and its
    positions are untouched, and nobody is notified. *)
Theorem collect_spec s res s' :
  ¬ db_fault → collect cfg s = (res, s') →
  res = Ok tt ∧ subs s' = subs s ∧ announced s' = announced s ∧
  local_seq (tbl (db s')) = local_seq (tbl (db s)) ∧
  (∀ p r, entries (tbl (db s')) !! p = Some r ↔
     entries (tbl (db s)) !! p = Some r ∧
     ¬ (r_Deleted r = true ∧ 0 < r_DeletedAt r < horizon s)) ∧
  (∀ h b, blobs (tbl (db s')) !! h = Some b ↔
     blobs (tbl (db s)) !! h = Some b ∧ h ≠ EmptyString ∧
     ∃ p r, entries (tbl (db s')) !! p = Some r ∧ r_Hash r = h).
Proof.
  intros Hf (-> & [= _ _ Hs Ha] & [(? & _)|Ht])%collect_inv; [done|].
  split_and!; [done..|by rewrite Ht| |].
  - intros p r. rewrite Ht. simpl. rewrite map_lookup_filter_Some. simpl. unfold expired.
    destruct (r_Deleted r); simpl; [|naive_solver].
    destruct (Z.ltb_spec 0 (r_DeletedAt r)), (Z.ltb_spec (r_DeletedAt r) (horizon s)); simpl;
      naive_solver lia.
  - intros h b. rewrite Ht. simpl. rewrite map_lookup_filter_Some. simpl. rewrite referenced_spec. tauto.
Qed.

(** However the janitor is interrupted — at either statement — no live entry and no
    content a live entry names is lost, and the store stays well formed. *)
Theorem collect_keeps_live s res s' p r :
  wf_store (tbl (db s)) → collect cfg s = (res, s') →
  entries (tbl (db s)) !! p = Some r → r_Deleted r = false →
  entries (tbl (db s')) !! p = Some r ∧
  (r_Hash r ≠ EmptyString → blobs (tbl (db s')) !! r_Hash r = blobs (tbl (db s)) !! r_Hash r) ∧
  wf_store (tbl (db s')).
Proof.
  intros Hw E Hr Hd.
  assert (entries (without_tombstones (horizon s) (tbl (db s))) !! p = Some r) as Hk.
  { simpl. apply map_lookup_filter_Some. split; [done|]. simpl. unfold expired. by rewrite Hd. }
  assert (wf_store (tbl (db s'))) as Hw'.
  { pose proof (collect_wf s Hw) as Hc. by rewrite E in Hc. }
  apply collect_inv in E as (_ & _ & [(_ & [Ht|Ht])|Ht]); rewrite Ht in *; [done..|].
  split_and!; [exact Hk| |done]. intros Hne. simpl.
  destruct (blobs (tbl (db s)) !! r_Hash r) as [b|] eqn:Eb.
  - apply map_lookup_filter_Some. split; [done|]. simpl. apply referenced_spec. eauto.
  - apply map_lookup_filter_None. by left.
Qed.
End janitor.

(** ** A pull, step by step *)

Inductive pull_state :=
  | PStart
  | PDigest (remote : DigestResponse)
  | PAgree (remote : DigestResponse)
  | PSince (remote : DigestResponse)
  | PFetch (cursor bookmark : Z)
  | PApply (page : ManifestResponse) (bookmark : Z)
  | PRecord (page : ManifestResponse) (bookmark : Z)
  | PDone (r : result unit)
  | PLogged.

Section pulls.
Context `{DBFaults, Sha256, SystemTime, PeerClient} (cfg : Config).
Implicit Types (s : node) (ps : pull_state).

(** One action: a request, one call of the store, or a page applied under the mutex. *)
Definition step_to {A} (q : ST node A) (k : A → pull_state) : ST node pull_state :=
  r ← attempt q;
  mret (match r with Ok a => k a | Err e => PDone (Err e) end).

Definition pstep (nd addr : string) (ps : pull_state) : ST node pull_state :=
  match ps with
  | PStart => step_to (request (λ i, peer_Digest i addr)) PDigest
  | PDigest remote =>
      step_to (on_db Digest) (λ '(local, _, _),
        if String.eqb local (d_Digest remote) then PAgree remote else PSince remote)
  | PAgree remote =>
      step_to (seenAt ← now; on_db (SetPeerSeq nd addr (d_Head remote) seenAt)) (λ _, PDone (Ok tt))
  | PSince remote =>
      step_to (on_db (PeerSeq nd)) (λ since,
        let since := if d_Head remote <? since then 0 else since in PFetch since since)
  | PFetch cursor bookmark =>
      step_to (request (λ i, peer_Manifest i addr cursor)) (λ page,
        match m_Entries page with [] => PDone (Ok tt) | _ => PApply page bookmark end)
  | PApply page bookmark =>
      step_to (applyRemote cfg addr (m_Entries page)) (λ safe, PRecord page (Z.max bookmark safe))
  | PRecord page bookmark =>
      step_to (seenAt ← now; on_db (SetPeerSeq nd addr bookmark seenAt)) (λ _,
        if negb (m_More page) then PDone (Ok tt) else PFetch (m_Head page) bookmark)
  | PDone r => mret (PDone r)
  | PLogged => mret PLogged
  end.

(** [k] steps of a pull that nothing interleaves with. *)
Fixpoint psteps (k : nat) (nd addr : string) (ps : pull_state) : ST node pull_state :=
  match k with
  | O => mret ps
  | S k' => ps' ← pstep nd addr ps; psteps k' nd addr ps'
  end.

Lemma step_to_run {A} (q : ST node A) (k : A → pull_state) s :
  step_to q k s = (Ok (match (q s).1 with Ok a => k a | Err e => PDone (Err e) end), (q s).2).
Proof. unfold step_to, attempt, mbind, ST_bind. by destruct (q s). Qed.

(** The next step of a run, by what its action did. *)
Lemma psteps_step {A} k nd addr ps (q : ST node A) (f : A → pull_state) s r s1 :
  pstep nd addr ps = step_to q f → q s = (r, s1) →
  psteps (S k) nd addr ps s =
    psteps k nd addr (match r with Ok a => f a | Err e => PDone (Err e) end) s1.
Proof.
  intros E Eq. cbn [psteps]. rewrite E. unfold mbind, ST_bind. by rewrite step_to_run, Eq.
Qed.

Lemma now_then {A} (f : Z → ST node A) s r s1 :
  f (time_now (ticks s)) (set_ticks (S (ticks s)) s) = (r, s1) → (seenAt ← now; f seenAt) s = (r, s1).
Proof. done. Qed.

(** The outcome of syncPeer as the machine reports it. *)
Definition outcome (r : result bool) : result unit :=
  match r with Ok _ => Ok tt | Err e => Err e end.

(** Some number of steps leads from one state to the other. *)
Definition leads nd addr ps s ps' s' : Prop := ∃ k, psteps k nd addr ps s = (Ok ps', s').

Lemma leads_refl nd addr ps s : leads nd addr ps s ps s.
Proof. by exists 0%nat. Qed.

Lemma leads_step {A} nd addr ps (q : ST node A) (f : A → pull_state) s r s1 ps' s' :
  pstep nd addr ps = step_to q f → q s = (r, s1) →
  leads nd addr (match r with Ok a => f a | Err e => PDone (Err e) end) s1 ps' s' →
  leads nd addr ps s ps' s'.
Proof. intros E Eq [k Hk]. exists (S k). by rewrite (psteps_step _ _ _ _ _ _ _ _ _ E Eq). Qed.

Lemma pull_leads nd addr fuel : ∀ cursor bookmark s res s',
  pull cfg fuel nd addr cursor bookmark s = (res, s') → res ≠ Ok false →
  leads nd addr (PFetch cursor bookmark) s (PDone (outcome res)) s'.
Proof.
  induction fuel as [|fuel IH]; intros cursor bookmark s res s' E Hres.
  { by injection E as <- <-. }
  cbn [pull] in E. apply bind_inv in E as (r & s1 & E1 & E).
  eapply leads_step; [reflexivity|exact E1|].
  destruct r as [page|e]; [|destruct E as [-> ->]; apply leads_refl].
  assert (m_Entries page = [] ∨ m_Entries page ≠ []) as [Em|Em] by (destruct (m_Entries page); auto).
  { rewrite Em in *. injection E as <- <-. apply leads_refl. }
  assert (∀ B (k1 k2 : B), match m_Entries page with [] => k1 | _ :: _ => k2 end = k2) as Hm
    by (intros; by destruct (m_Entries page)).
  rewrite Hm in *. apply bind_inv in E as (r & s2 & E2 & E).
  eapply leads_step; [reflexivity|exact E2|].
  destruct r as [safe|e]; [|destruct E as [-> ->]; apply leads_refl].
  apply bind_inv in E as (r & s3 & [= <- <-] & E). apply bind_inv in E as (r & s4 & E4 & E).
  eapply leads_step; [reflexivity|by apply now_then|].
  destruct r as [[]|e]; [|destruct E as [-> ->]; apply leads_refl].
  destruct (m_More page); simpl in *; [by apply IH|injection E as <- <-; apply leads_refl].
Qed.

(** The whole pull. *)
Lemma syncPeer_leads fuel nd addr s res s' :
  syncPeer cfg fuel nd addr s = (res, s') → res ≠ Ok false →
  leads nd addr PStart s (PDone (outcome res)) s'.
Proof.
  intros E Hres. unfold syncPeer in E. apply bind_inv in E as (r & s1 & E1 & E).
  eapply leads_step; [reflexivity|exact E1|].
  destruct r as [remote|e]; [|destruct E as [-> ->]; apply leads_refl].
  apply bind_inv in E as (r & s2 & E2 & E).
  eapply leads_step; [reflexivity|exact E2|].
  destruct r as [[[local n] head]|e]; [|destruct E as [-> ->]; apply leads_refl].
  destruct (String.eqb local (d_Digest remote)).
  - apply bind_inv in E as (r & s3 & [= <- <-] & E). apply bind_inv in E as (r & s4 & E4 & E).
    eapply leads_step; [reflexivity|by apply now_then|].
    destruct r as [[]|e]; [injection E as <- <-|destruct E as [-> ->]]; apply leads_refl.
  - apply bind_inv in E as (r & s3 & E3 & E).
    eapply leads_step; [reflexivity|exact E3|].
    destruct r as [since|e]; [|destruct E as [-> ->]; apply leads_refl].
    by eapply pull_leads.
Qed.

(** C19: [syncPeer] is the machine: whenever it returns, its steps taken one after the other
    from the start end in the same state with the same outcome.  So whatever holds of all
    interleavings of the machine's steps holds of the code. *)
Theorem syncPeer_refines fuel nd addr s res s' :
  syncPeer cfg fuel nd addr s = (res, s') → res ≠ Ok false →
  leads nd addr PStart s (PDone (outcome res)) s'.
Proof. apply syncPeer_leads. Qed.

(** Every step keeps the store well formed. *)
Lemma pstep_wf `{!PeerClientLaws} nd addr ps s :
  wf_store (tbl (db s)) → wf_store (tbl (db (pstep nd addr ps s).2)).
Proof.
  intros Hw.
  assert (∀ A (q : ST node A) f, preserves (λ s, wf_store (tbl (db s))) q →
    wf_store (tbl (db (step_to q f s).2))) as Hstep.
  { intros A q f Hq. rewrite step_to_run. by apply Hq. }
  assert (∀ seq, preserves (λ s, wf_store (tbl (db s)))
    (seenAt ← now; on_db (SetPeerSeq nd addr seq seenAt))) as Hset.
  { intros seq s0 Hw0. destruct ((seenAt ← now; on_db (SetPeerSeq nd addr seq seenAt)) s0) as [r s1] eqn:E.
    simpl. apply bind_inv in E as (r0 & s2 & [= <- <-] & E).
    apply SetPeerSeq_inv in E as (_ & _ & [(_ & _ & ->)|[_ ->]]); [done|]. by apply wf_set_peers. }
  destruct ps; simpl; try (apply Hstep); try apply Hset; try done.
  - apply keeps_tables. intros s0 r s1 E. apply on_db_inv in E as (d' & E & ->).
    apply Digest_inv in E as [Ht _]. exact Ht.
  - apply keeps_tables. intros s0 r s1 E. apply on_db_inv in E as (d' & E & ->).
    unfold PeerSeq in E. apply select_bind_inv in E as [(_ & _ & Ht)|(d1 & Ht & [= _ <-])]; exact Ht.
  - by apply applyRemote_wf.
Qed.
End pulls.

(** ** The service as a transition system *)

(** The goroutine of one pull. *)
Record goroutine := mkGo { g_node : string; g_addr : string; g_state : pull_state }.

(** The service: the node, the peers with a pull in flight ([syncing]), the goroutines, and
    the outcome of the last pull ([status]). *)
Record service := mkService {
  sv_node : node;
  syncing : gset string;
  pulls : list goroutine;
  lastSync : Z;
  lastErr : option error
}.

Definition set_node (s : node) (x : service) : service :=
  mkService s (syncing x) (pulls x) (lastSync x) (lastErr x).
Definition set_pulls (l : list goroutine) (x : service) : service :=
  mkService (sv_node x) (syncing x) l (lastSync x) (lastErr x).

Section service.
Context `{DBFaults, Sha256, SystemTime, PeerClient} (cfg : Config).

Definition start_service (d : DB) : service := mkService (New d) ∅ [] 0 None.

Definition triggerSync (nd addr : string) (x : service) : service :=
  if String.eqb nd EmptyString || String.eqb addr EmptyString || String.eqb nd (Node cfg) then x
  else if bool_decide (nd ∈ syncing x) then x
  else mkService (sv_node x) ({[nd]} ∪ syncing x) (pulls x ++ [mkGo nd addr PStart])
         (lastSync x) (lastErr x).

Definition handle_event (e : Event) (x : service) : service :=
  match ev_Kind e with
  | EventJoin | EventHint => triggerSync (ev_Node e) (ev_Addr e) x
  | EventLeave => x
  end.

Definition syncAll (members : list Member) (x : service) : service :=
  if negb (HasPeers cfg) then x
  else fold_left (λ x m,
    if mb_Self m || String.eqb (mb_Addr m) EmptyString then x
    else triggerSync (mb_Node m) (mb_Addr m) x) members x.

(** recordSync, with the error to record; a failure after the context was cancelled is
    recorded as none. *)
Definition recordSync (err : option error) (x : service) : service :=
  let '(_, s') := now (sv_node x) in
  mkService s' (syncing x) (pulls x) (time_now (ticks (sv_node x))) err.

Definition SyncState (x : service) : Z * option error := (lastSync x, lastErr x).

Definition reported (r : result unit) (cancelled : bool) : option error :=
  match r with Err e => if cancelled then None else Some e | Ok _ => None end.

(** Everything that can happen, one atomic action at a time. *)
Inductive step : service → service → Prop :=
  | step_edit e x : step x (set_node (run_edit cfg e (sv_node x)).2 x)
  | step_subscribe x : step x (set_node (Subscribe (sv_node x)).2 x)
  | step_unsubscribe id x : step x (set_node (unsubscribe id (sv_node x)).2 x)
  | step_receive id x : step x (set_node (receive id (sv_node x)).2 x)
  | step_event e x : step x (handle_event e x)
  | step_sync_tick members x : step x (syncAll members x)
  | step_janitor_tick x : step x (set_node (collect cfg (sv_node x)).2 x)
  | step_pull l1 g l2 ps' s' x :
      pulls x = l1 ++ g :: l2 → pstep cfg (g_node g) (g_addr g) (g_state g) (sv_node x) = (Ok ps', s') →
      step x (set_node s' (set_pulls (l1 ++ mkGo (g_node g) (g_addr g) ps' :: l2) x))
  | step_record l1 g l2 r cancelled x :
      pulls x = l1 ++ g :: l2 → g_state g = PDone r →
      step x (set_pulls (l1 ++ mkGo (g_node g) (g_addr g) PLogged :: l2)
                (recordSync (reported r cancelled) x))
  | step_exit l1 g l2 x :
      pulls x = l1 ++ g :: l2 → g_state g = PLogged →
      step x (mkService (sv_node x) (syncing x ∖ {[g_node g]}) (l1 ++ l2) (lastSync x) (lastErr x)).

(** The store is well formed; a peer is marked as syncing exactly while its one pull runs;
    and the node never pulls from itself. *)
Record service_ok (x : service) : Prop := {
  ok_store : wf_store (tbl (db (sv_node x)));
  ok_once : NoDup (g_node <$> pulls x);
  ok_syncing : ∀ nd, nd ∈ syncing x ↔ nd ∈ g_node <$> pulls x;
  ok_foreign : ∀ g, g ∈ pulls x → g_node g ≠ Node cfg ∧ g_addr g ≠ EmptyString
}.

Lemma service_ok_start d : wf_store (tbl d) → service_ok (start_service d).
Proof.
  intros Hw. split; simpl; [done|constructor| |].
  - intros nd. split; [set_solver|by intros ?%not_elem_of_nil].
  - by intros g ?%not_elem_of_nil.
Qed.

Lemma service_ok_node s' x :
  wf_store (tbl (db s')) → service_ok x → service_ok (set_node s' x).
Proof. intros Hw []. by split. Qed.

Lemma triggerSync_ok nd addr x : service_ok x → service_ok (triggerSync nd addr x).
Proof.
  intros [Hw Ho Hs Hf]. unfold triggerSync.
  destruct (String.eqb_spec nd EmptyString), (String.eqb_spec addr EmptyString),
    (String.eqb_spec nd (Node cfg)); simpl; try by split.
  case_bool_decide as Hin; [by split|]. rewrite Hs in Hin. split; simpl; [done| | |].
  - rewrite fmap_app. apply NoDup_app. split; [done|]. split; [|apply NoDup_singleton].
    intros y Hy Hy'. apply list_elem_of_singleton in Hy' as ->. done.
  - intros y. rewrite elem_of_union, elem_of_singleton, Hs, fmap_app, elem_of_app. simpl.
    rewrite list_elem_of_singleton. tauto.
  - intros g [Hg| ->%list_elem_of_singleton]%elem_of_app; [by apply Hf|done].
Qed.

Lemma handle_event_ok e x : service_ok x → service_ok (handle_event e x).
Proof. unfold handle_event. destruct (ev_Kind e); auto using triggerSync_ok. Qed.

Lemma syncAll_ok ms x : service_ok x → service_ok (syncAll ms x).
Proof.
  unfold syncAll. destruct (HasPeers cfg); [simpl|done].
  revert x. induction ms as [|m ms IH]; intros x Hx; [done|]. simpl. apply IH.
  case_match; auto using triggerSync_ok.
Qed.

(** Replacing a goroutine's state changes none of its names. *)
Lemma service_ok_state l1 g l2 ps' x :
  pulls x = l1 ++ g :: l2 → service_ok x →
  service_ok (set_pulls (l1 ++ mkGo (g_node g) (g_addr g) ps' :: l2) x).
Proof.
  intros E [Hw Ho Hs Hf]. rewrite E in *.
  assert (g_node <$> l1 ++ mkGo (g_node g) (g_addr g) ps' :: l2 = g_node <$> l1 ++ g :: l2) as En
    by (by rewrite !fmap_app, !fmap_cons).
  split; simpl; rewrite ?En; [done..|].
  intros g' [Hg|[->|Hg]%elem_of_cons]%elem_of_app; [apply Hf; set_solver| |apply Hf; set_solver].
  simpl. apply Hf. set_solver.
Qed.

Lemma step_ok `{!PeerClientLaws, !Sha256Laws} x y : step x y → service_ok x → service_ok y.
Proof.
  intros Hst Hx. pose proof (ok_store _ Hx) as Hw. destruct Hst as [e x|x|id x|id x|e x|ms x|x
    |l1 g l2 ps' s' x E Ep|l1 g l2 r c x E Eg|l1 g l2 x E Eg].
  - apply service_ok_node; [|done]. eapply edit_outcome_wf; [done|].
    apply run_edit_inv; [apply Hw|apply surjective_pairing].
  - by apply service_ok_node.
  - by apply service_ok_node.
  - by apply service_ok_node.
  - by apply handle_event_ok.
  - by apply syncAll_ok.
  - apply service_ok_node; [|done]. by apply collect_wf.
  - apply service_ok_node; [|by apply service_ok_state].
    pose proof (pstep_wf cfg (g_node g) (g_addr g) (g_state g) (sv_node x) Hw) as Hp. by rewrite Ep in Hp.
  - apply service_ok_state; [done|]. destruct Hx. by split.
  - destruct Hx as [_ Ho Hs Hf]. rewrite E in *. rewrite fmap_app, fmap_cons in Ho.
    apply NoDup_app in Ho as (Hn1 & Hd & [Hng Hn2]%NoDup_cons). split; simpl; [done| | |].
    + rewrite fmap_app. apply NoDup_app. split_and!; [done| |done]. intros y Hy Hy'. apply (Hd y Hy). by right.
    + intros y. rewrite elem_of_difference, elem_of_singleton, Hs, !fmap_app, fmap_cons, !elem_of_app, elem_of_cons.
      split; [naive_solver|]. intros [Hy|Hy]; (split; [by auto|]); intros ->; [|done].
      apply (Hd _ Hy). by left.
    + intros g' [Hg|Hg]%elem_of_app; apply Hf; set_solver.
Qed.

(** C10: In every state the service can reach — local edits, events, timers, the janitor and
    any number of pulls interleaved at every request and every call of the store, whatever
    the peers answer and whatever the database fails at — the store is well formed: rows
    under their paths, feed positions distinct and below the counter, contents under their hashes,
    every live file's content present; and there is at most one pull per peer, marked as
    in flight exactly while it runs, and none against the node itself. *)
Theorem service_invariant `{!PeerClientLaws, !Sha256Laws} d x :
  wf_store (tbl d) → rtc step (start_service d) x → service_ok x.
Proof.
  intros Hw Hr. assert (service_ok (start_service d)) as Hok by by apply service_ok_start.
  revert Hok. induction Hr as [|x y z Hst _ IH]; [done|]. intros Hx. by apply IH, (step_ok x).
Qed.
End service.

(** ** From a commit on one node to a pull on another *)
Section gossip.
Context `{DBFaults, Sha256, SystemTime, PeerClient} (cfg : Config).
Context {Q : Type} `{!BroadcastQueue Q, !Codec hint, !CodecLaws hint}.
Implicit Types (a b : Cluster Q) (x : service).

(** A hint starts a pull.  When a node announces its feed position, the payload it queues is
    ignored if it comes back to that node, and where it arrives at another node whose
    events are drained, the service there has a pull of the announcing node's address in flight
    afterwards — a new one, unless one was running already. *)
Theorem Announce_starts_pull a b x seq payload :
  Marshal (mkHint (cc_Node (c_cfg a)) (cc_APIAddr (c_cfg a)) seq) = Ok payload →
  Utf8.ValidString (cc_Node (c_cfg a)) = true → Utf8.ValidString (cc_APIAddr (c_cfg a)) = true →
  cc_Node (c_cfg a) ≠ EmptyString → cc_APIAddr (c_cfg a) ≠ EmptyString →
  Node cfg = cc_Node (c_cfg b) → cc_Node (c_cfg a) ≠ Node cfg →
  c_closed a = false → c_closed b = false → c_events b = [] →
  c_queue (Announce seq a) = QueueBroadcast payload (c_queue a) ∧
  NotifyMsg payload a = Some a ∧
  ∃ b' e, NotifyMsg payload b = Some b' ∧ receive_event b' = (Some e, b) ∧
    cc_Node (c_cfg a) ∈ syncing (handle_event cfg e x) ∧
    (cc_Node (c_cfg a) ∉ syncing x →
     pulls (handle_event cfg e x) = pulls x ++ [mkGo (cc_Node (c_cfg a)) (cc_APIAddr (c_cfg a)) PStart]) ∧
    (cc_Node (c_cfg a) ∈ syncing x → handle_event cfg e x = x).
Proof.
  intros Hm Hu1 Hu2 Hn Ha Hself Hne Hoa Hob Hb.
  assert (Forall (λ s, Utf8.ValidString s = true) (texts (mkHint (cc_Node (c_cfg a)) (cc_APIAddr (c_cfg a)) seq)))
    as Hu by (by repeat constructor).
  split_and!.
  - unfold Announce. simpl. by rewrite Hm.
  - rewrite (NotifyMsg_hint _ _ _ Hu Hm Hoa). simpl. by rewrite String.eqb_refl, orb_true_r.
  - rewrite (NotifyMsg_hint _ _ _ Hu Hm Hob), <- Hself, Hb. simpl.
    rewrite (proj2 (String.eqb_neq _ _) Hn), (proj2 (String.eqb_neq _ _) Hne). simpl.
    do 2 eexists. split; [done|]. split.
    { unfold receive_event, set_events. simpl. rewrite <- Hb. by destruct b. }
    unfold handle_event, triggerSync. simpl.
    rewrite (proj2 (String.eqb_neq _ _) Hn), (proj2 (String.eqb_neq _ _) Ha), (proj2 (String.eqb_neq _ _) Hne). simpl.
    bool_case (cc_Node (c_cfg a) ∈ syncing x) as Hin; [done|]. split_and!; [|done|done]. simpl. set_solver.
Qed.
End gossip.
