(* ===== verification/Status.v ===== *)
(** * The status document and the inspection commands (transport/status.go, cmd/dcfs/status.go)

    What a node reports about itself, assembled from the store, the syncer and the cluster on every
    request, and what the commands print of it.  Lines that go through a tabwriter are rows of cells; how wide it pads
    them is not modelled. *)
From S2P Require Import Prelude GoStrings Clock Paths Crypto Aead Auth Entry Store StoreFacts Transport Cluster Client Resolve Syncer SyncerFacts AntiEntropy TreeFacts Wire Service.
From Stdlib Require Import Ascii.

(** ** The document *)

Record StatusMember := mkStatusMember {
  sm_Node : string; sm_Addr : string; sm_Alive : bool; sm_Self : bool; sm_LastSeq : Z
}.

(** [sd_LastSync] is 0 for the zero time, and errors are kept as values. *)
Record StatusDocument := mkStatusDocument {
  sd_Node : string; sd_Addr : string; sd_StartedAt : Z;
  sd_Digest : string; sd_Entries : Z; sd_Tombstones : Z; sd_Blobs : Z; sd_BlobBytes : Z; sd_Head : Z;
  sd_Conflicts : list string; sd_Members : list StatusMember;
  sd_MirrorDir : string; sd_MountPoint : string;
  sd_LastSync : Z; sd_LastError : option error
}.

(** The strings encoding/json writes. *)
#[export] Instance status_texts : Texts StatusDocument := λ d,
  [sd_Node d; sd_Addr d; sd_Digest d; sd_MirrorDir d; sd_MountPoint d] ++ sd_Conflicts d ++
  (sd_Members d ≫= λ m, [sm_Node m; sm_Addr m]).

Record statusInputs := mkStatusInputs {
  si_node : string; si_addr : string; si_started : Z; si_mirrorDir : string; si_mountPoint : string
}.

Section status.
Context `{DBFaults, Sha256}.

Definition on_syncer {A} (q : ST node A) : ST service A := zoom sv_node set_node q.

(** The map the loop over the bookmarks builds. *)
Definition seqOf (bookmarks : list peerRow) : gmap string Z :=
  foldl (λ m p, <[p_Node p := p_LastSeq p]> m) ∅ bookmarks.

(** [buildStatus]; [members] is what the cluster reports at that moment. *)
Definition buildStatus (inp : statusInputs) (members : list Member) : ST service StatusDocument :=
  stats ← on_syncer (on_db Stats);
  d ← on_syncer (on_db Digest);
  conflicts ← on_syncer Conflicts;
  bookmarks ← on_syncer (on_db Peers);
  let seqs := seqOf bookmarks in
  let ms := (λ m, mkStatusMember (mb_Node m) (mb_Addr m) true (mb_Self m) (default 0 (seqs !! mb_Node m))) <$> members in
  '(sync, err) ← gets SyncState;
  mret (mkStatusDocument (si_node inp) (si_addr inp) (si_started inp)
    d.1.1 (st_Entries stats) (st_Tombstones stats) (st_Blobs stats) (st_BlobBytes stats) (st_Head stats)
    conflicts ms (si_mirrorDir inp) (si_mountPoint inp) sync err).

(** The server is given [buildStatus] over the store it shares with the syncer. *)
Definition host_status (inp : statusInputs) (members : list Member) (x : service) : ST host StatusDocument := λ h,
  let '(r, x') := buildStatus inp members (set_node (set_db (h_db h) (sv_node x)) x) in
  (r, mkHost (db (sv_node x')) (h_rands h)).
End status.

(** ** Reaching a node *)

(** serve.go: the room a response needs beyond one file. *)
Definition manifestOverhead : Z := 16 * 2 ^ 20.

(** runServe: the client for peers. *)
Definition serve_client (keys : Keys) (node : string) (maxFileSize : Z) : Client :=
  mkClient keys node (wrap64 (maxFileSize + manifestOverhead)).

(** It has room for every content the limit on files allows. *)
Lemma serve_client_fits keys node maxFileSize b :
  0 ≤ maxFileSize ≤ max_int64 - manifestOverhead → Z.of_nat (length b) ≤ maxFileSize →
  fits (serve_client keys node maxFileSize) b.
Proof.
  intros Hm Hb. unfold fits, serve_client. cbn [c_maxBody].
  rewrite wrap64_id; unfold is_int64, min_int64, manifestOverhead in *; lia.
Qed.

Definition fetchStatus `{Sha256, BlockCipher, Network, !Codec StatusDocument} (secret node : string) (i : nat) (addr : string) :
    result StatusDocument :=
  keys ← DeriveKeys secret;
  client_Status (mkClient keys node manifestOverhead) i addr.

(** ** The commands *)

(** [short]. *)
Definition short (digest : string) : string :=
  if Str.len digest <=? 16 then digest else String.substring 0 16 digest.

(** *** humanBytes *)

(** The loop: the divisor and the exponent for what is left of the count. *)
Fixpoint unit_loop (fuel : nat) (v div exp : Z) : option (Z * Z) :=
  match fuel with
  | O => None
  | S fuel' => if 1024 <=? v then unit_loop fuel' (v ÷ 1024) (wrap64 (div * 1024)) (exp + 1) else Some (div, exp)
  end.

(** float64(n) for an integer that is not negative: 53 significant bits, to nearest, ties to even. *)
Definition round_even (q r half : Z) : Z :=
  if (half <? r) || ((half =? r) && Z.odd q) then q + 1 else q.
Definition float64 (n : Z) : Z :=
  if n <? 2 ^ 53 then n
  else let ulp := 2 ^ (Z.log2 n - 52) in round_even (n / ulp) (n mod ulp) (ulp / 2) * ulp.

(** The digits of "%.1f" of [f / div], for [div] a power of two greater than one: the quotient of the floats is
    exact, and is rounded to tenths, ties to even. *)
Definition tenths (f div : Z) : Z := round_even (10 * f / div) (10 * f mod div) (div / 2).

(** [None] is the panic of an index out of range, or a loop that has not ended. *)
Definition humanBytes (n : Z) : option string :=
  if n <? 1024 then Some (Dec.fmt_d n +:+ " B")
  else
    '(div, exp) ← unit_loop 8 (n ÷ 1024) 1024 0;
    c ← String.get (Z.to_nat exp) "KMGTPE";
    let t := tenths (float64 n) div in
    Some (Dec.fmt_d (t / 10) +:+ "." +:+ Dec.fmt_d (t mod 10) +:+ " " +:+ String c "iB").

(** *** What is printed *)

(** An output line: cells of a tabwriter, or text; and the exit status. *)
Inductive line := Cells (l : list string) | Text (s : string).

Definition runPeers (st : result StatusDocument) : list line * Z :=
  match st with
  | Err _ => ([], 1)
  | Ok st =>
      match sd_Members st with
      | [] => ([Text "no members; this node has not reached any peer"], 0)
      | ms =>
          (Cells ["NODE"; "API ADDRESS"; "ROLE"; "READ TO"]%string ::
           ((λ m, Cells [sm_Node m;
               if String.eqb (sm_Addr m) EmptyString then "(not advertised)"%string else sm_Addr m;
               if sm_Self m then "self"%string else "peer"%string;
               if sm_Self m then "-"%string else Dec.fmt_d (sm_LastSeq m)]) <$> ms), 0)
      end
  end.

Definition runConflicts (st : result StatusDocument) : list line * Z :=
  match st with
  | Err _ => ([], 1)
  | Ok st => match sd_Conflicts st with [] => ([Text "no conflicts"], 0) | ps => (Text <$> ps, 1) end
  end.

(** The text of a time.Duration truncated to seconds and of an error are arguments. *)
Definition runStatus (since : Z → string) (error_text : error → string) (st : result StatusDocument) : list line * Z :=
  match st with
  | Err _ => ([], 1)
  | Ok st =>
      let row k v := Cells [k; v] in
      ([row "node" (sd_Node st); row "uptime" (since (sd_StartedAt st)); row "digest" (short (sd_Digest st));
        row "entries" (Dec.fmt_d (sd_Entries st) +:+ " (" +:+ Dec.fmt_d (sd_Tombstones st) +:+ " tombstones)");
        row "content" (Dec.fmt_d (sd_Blobs st) +:+ " blobs, " +:+ default "" (humanBytes (sd_BlobBytes st)));
        row "feed head" (Dec.fmt_d (sd_Head st))]%string ++
       (if String.eqb (sd_MirrorDir st) EmptyString then [] else [row "mirror" (sd_MirrorDir st)])%string ++
       (if String.eqb (sd_MountPoint st) EmptyString then [] else [row "mount" (sd_MountPoint st)])%string ++
       [row "last sync" (if (sd_LastSync st =? 0)%Z then "never" else since (sd_LastSync st) +:+ " ago")]%string ++
       match sd_LastError st with Some e => [row "last error" (error_text e)]%string | None => [] end ++
       [row "members" (Dec.fmt_d (Z.of_nat (length (sd_Members st))));
        row "conflicts" (Dec.fmt_d (Z.of_nat (length (sd_Conflicts st))))]%string ++
       match sd_Conflicts st with
       | [] => []
       | ps => Text "" :: Text "conflict copies await a decision:" :: ((λ p, Text ("  " +:+ p)) <$> ps)
       end%string, 0)
  end.
(** ** Sizes are readable *)

Lemma round_even_near q r d : 0 < d → Z.even d = true → 0 ≤ r < d → 2 * Z.abs (round_even q r (d / 2) * d - (q * d + r)) ≤ d.
Proof.
  intros Hd [h ->]%Z.even_spec Hr. replace (2 * h / 2) with h by (rewrite Z.mul_comm, Z.div_mul; lia). unfold round_even.
  destruct (Z.ltb_spec h r); simpl; [nia|]. destruct (Z.eqb_spec h r); simpl; [destruct (Z.odd q); nia|nia].
Qed.

Lemma round_even_range q r half : q ≤ round_even q r half ≤ q + 1.
Proof. unfold round_even. case_match; lia. Qed.

(** The unit found is the largest that fits, for any fuel the size cannot outrun. *)
Lemma unit_loop_spec n fuel : ∀ e, is_int64 n → 0 ≤ e → 1024 ^ (e + 1) ≤ n < 1024 ^ (e + 1 + Z.of_nat fuel) →
  ∃ k, e ≤ k ∧ unit_loop fuel (n / 1024 ^ (e + 1)) (1024 ^ (e + 1)) e = Some (1024 ^ (k + 1), k) ∧
    1024 ^ (k + 1) ≤ n < 1024 ^ (k + 2).
Proof.
  induction fuel as [|fuel IH]; intros e Hn He Hr; [rewrite Z.add_0_r in Hr; lia|]. cbn [unit_loop].
  assert (0 < 1024 ^ (e + 1)) as Hp by (apply Z.pow_pos_nonneg; lia).
  assert (1024 ^ (e + 2) = 1024 ^ (e + 1) * 1024) as E2.
  { replace (e + 2) with (Z.succ (e + 1)) by lia. rewrite Z.pow_succ_r by lia. lia. }
  destruct (Z.leb_spec 1024 (n / 1024 ^ (e + 1))) as [Hv|Hv].
  - assert (1024 ^ (e + 1) * 1024 ≤ n) as Hle.
    { etrans; [|apply (Z.mul_div_le n (1024 ^ (e + 1))); lia]. apply Z.mul_le_mono_nonneg_l; lia. }
    rewrite wrap64_id by (unfold is_int64, min_int64 in *; lia). rewrite Z.quot_div_nonneg by lia.
    rewrite Z.div_div by lia. rewrite <- E2.
    destruct (IH (e + 1)) as (k & Hk & E & Hkn); [done|lia| |].
    + replace (e + 1 + 1) with (e + 2) by lia. rewrite E2 at 1. split; [lia|].
      replace (e + 2 + Z.of_nat fuel) with (e + 1 + Z.of_nat (S fuel)) by lia. apply Hr.
    + exists k. replace (e + 1 + 1) with (e + 2) in E by lia. split_and!; [lia|exact E|apply Hkn..].
  - exists e. split_and!; [lia|done|apply Hr|]. rewrite E2.
    pose proof (Z.mul_succ_div_gt n (1024 ^ (e + 1)) Hp). nia.
Qed.

(** A float of an integer is near it, and on the same side of every power of two. *)
Lemma float64_near n : 0 < n ≤ max_int64 →
  Z.abs (float64 n - n) ≤ 512 ∧ 2 ^ Z.log2 n ≤ float64 n ≤ 2 ^ (Z.log2 n + 1).
Proof.
  intros Hn. pose proof (Z.log2_spec n ltac:(lia)) as [Hl Hu]. unfold float64.
  rewrite <- Z.add_1_r in Hu. destruct (Z.ltb_spec n (2 ^ 53)) as [|Hbig]; [lia|].
  set (L := Z.log2 n) in *.
  assert (53 ≤ L ≤ 62) as HL.
  { split; [apply (Z.log2_le_mono (2 ^ 53)) in Hbig; rewrite Z.log2_pow2 in Hbig; lia|].
    assert (Z.log2 n ≤ Z.log2 max_int64) as Hm by (apply Z.log2_le_mono; lia). exact Hm. }
  set (u := 2 ^ (L - 52)). assert (0 < u) as Hu0 by (apply Z.pow_pos_nonneg; lia).
  assert (Z.even u = true) as Hev.
  { unfold u. replace (L - 52) with (Z.succ (L - 53)) by lia. rewrite Z.pow_succ_r by lia. by rewrite Z.even_mul. }
  assert (u ≤ 1024) as Hu1.
  { change 1024 with (2 ^ 10). apply Z.pow_le_mono_r; lia. }
  assert (2 ^ L = 2 ^ 52 * u) as EL by (unfold u; rewrite <- Z.pow_add_r by lia; f_equal; lia).
  assert (2 ^ (L + 1) = 2 ^ 53 * u) as EL1 by (unfold u; rewrite <- Z.pow_add_r by lia; f_equal; lia).
  pose proof (Z.mod_pos_bound n u Hu0) as Hm. pose proof (Z.div_mod n u ltac:(lia)) as Hdm.
  pose proof (round_even_near (n / u) (n mod u) u Hu0 Hev Hm) as Hnear.
  pose proof (round_even_range (n / u) (n mod u) (u / 2)) as Hrange.
  assert (2 ^ 52 ≤ n / u < 2 ^ 53) as Hq by (split; [apply Z.div_le_lower_bound|apply Z.div_lt_upper_bound]; lia).
  split; [lia|]. rewrite EL, EL1. split; apply Z.mul_le_mono_nonneg_r; lia.
Qed.

(** C40: [humanBytes] never panics and its loop ends, for every int64.  Below 1024 it prints the count; otherwise a number with one
    decimal and the largest of the units K, M, G, T, P, E that fits: the number is from 1.0 to 1024.0 and within
    half a tenth of the size in that unit, the rounding of the float (at most 512 bytes) apart. *)
Theorem humanBytes_spec n : is_int64 n →
  if n <? 1024 then humanBytes n = Some (Dec.fmt_d n +:+ " B")
  else ∃ k c t, String.get (Z.to_nat k) "KMGTPE" = Some c ∧ 0 ≤ k ∧ 1024 ^ (k + 1) ≤ n < 1024 ^ (k + 2) ∧
    humanBytes n = Some (Dec.fmt_d (t / 10) +:+ "." +:+ Dec.fmt_d (t mod 10) +:+ " " +:+ String c "iB") ∧
    10 ≤ t ≤ 10240 ∧ 2 * Z.abs (t * 1024 ^ (k + 1) - 10 * n) ≤ 1024 ^ (k + 1) + 10240.
Proof.
  intros Hn. unfold humanBytes. destruct (Z.ltb_spec n 1024) as [|Hge]; [done|].
  destruct (unit_loop_spec n 8 0) as (k & Hk & E & Hl & Hu); [done|done| |].
  { unfold is_int64, max_int64 in Hn. change (1024 ^ (0 + 1)) with 1024. change (1024 ^ (0 + 1 + Z.of_nat 8)) with (2 ^ 90). lia. }
  change (1024 ^ (0 + 1)) with 1024 in E. rewrite Z.quot_div_nonneg, E by lia.
  assert (∀ j, 0 ≤ j → 1024 ^ j = 2 ^ (10 * j)) as E2 by (intros; by rewrite Z.pow_mul_r by lia).
  destruct (float64_near n ltac:(unfold is_int64 in Hn; lia)) as [Hnear [Hf1 Hf2]].
  assert (1024 ^ (k + 1) ≤ float64 n ≤ 1024 * 1024 ^ (k + 1)) as Hf.
  { split.
    - etrans; [|exact Hf1]. rewrite E2 in Hl |- * by lia. apply Z.pow_le_mono_r; [lia|]. by apply Z.log2_le_pow2; [lia|].
    - etrans; [exact Hf2|]. replace (1024 * 1024 ^ (k + 1)) with (1024 ^ (k + 2))
        by (replace (k + 2) with (Z.succ (k + 1)) by lia; rewrite Z.pow_succ_r by lia; done).
      rewrite E2 in Hu |- * by lia. apply Z.pow_le_mono_r; [lia|]. apply Z.log2_lt_pow2 in Hu; lia. }
  assert (k < 6) as Hk6.
  { assert (1024 ^ (k + 1) < 1024 ^ 7) as Hlt.
    { eapply Z.le_lt_trans; [exact Hl|]. unfold is_int64, max_int64 in Hn. change (1024 ^ 7) with (2 ^ 70). lia. }
    apply Z.pow_lt_mono_r_iff in Hlt; lia. }
  assert (∃ c, String.get (Z.to_nat k) "KMGTPE" = Some c) as [c Ec].
  { assert (k = 0 ∨ k = 1 ∨ k = 2 ∨ k = 3 ∨ k = 4 ∨ k = 5) as Hc by lia. destruct_or! Hc; subst k; by eexists. }
  set (D := 1024 ^ (k + 1)) in *. assert (0 < D) as HD by (apply Z.pow_pos_nonneg; lia).
  assert (Z.even D = true) as Hev.
  { unfold D. rewrite Z.pow_add_r, Z.even_mul by lia. by rewrite orb_true_r. }
  pose proof (round_even_near (10 * float64 n / D) (10 * float64 n mod D) D HD Hev (Z.mod_pos_bound _ _ HD)) as Ht.
  rewrite (Z.mul_comm (_ / D) D), <- Z.div_mod in Ht by lia. fold (tenths (float64 n) D) in Ht.
  exists k, c, (tenths (float64 n) D). split_and!; try done; [|nia..]. unfold mbind, option_bind. by rewrite Ec.
Qed.
(** ** What a node reports *)

Section facts.
Context `{DBFaults, Sha256}.
Implicit Types (t : tables) (x : service).

(** A read of the database through the service. *)
Definition reads_as {A} (q : ST node A) (f : tables → A) : Prop :=
  ∀ s res s', q s = (res, s') → observable s' = observable s ∧
    ((res = Err ErrDB ∧ db_fault) ∨ res = Ok (f (tbl (db s)))).

Lemma on_db_reads {A} (q : ST DB A) (f : tables → A) :
  (∀ d res d', q d = (res, d') → tbl d' = tbl d ∧ ((res = Err ErrDB ∧ db_fault) ∨ res = Ok (f (tbl d)))) →
  reads_as (on_db q) f.
Proof.
  intros Hq s res s' (d' & E & ->)%on_db_inv. apply Hq in E as [Ht Hr]. rewrite (on_db_quiet _ _ Ht). done.
Qed.

Definition stats_of t : StatsRow :=
  mkStats (Z.of_nat (size (entries t))) (Z.of_nat (size (filter (λ kr, r_Deleted kr.2 = true) (entries t))))
    (Z.of_nat (size (blobs t))) (foldr (λ r a, b_Size r + a) 0 (map_to_list (blobs t)).*2) (local_seq t).

Lemma Stats_reads : reads_as (on_db Stats) stats_of.
Proof.
  apply on_db_reads. unfold Stats, Head. intros d res d' E.
  do 5 (apply select_bind_inv in E as [(-> & ? & ?)|(? & ?Ht & E)]; [split; [congruence|by left]|]).
  injection E as <- <-. split; [congruence|]. right. unfold stats_of. congruence.
Qed.

Lemma Digest_reads_as : reads_as (on_db Digest) (λ t, (digest_of t, Z.of_nat (length (select_all t)),
  fold_left (λ head m, head `max` Seq m) (select_all t) 0)).
Proof. apply on_db_reads. intros d res d' E. by apply Digest_inv in E. Qed.
Lemma Peers_reads : reads_as (on_db Peers) (λ t, sort_on p_Node Str.le (map_to_list (peers t)).*2).
Proof. apply on_db_reads. intros d res d' E. by apply select_inv in E. Qed.
Lemma Conflicts_reads :
  reads_as Conflicts (λ t, Path <$> filter (λ m, IsConflictName (Path m) = true) (select_live t)).
Proof.
  intros s res s' E. unfold Conflicts, mbind, ST_bind in E. destruct (on_db Store.Live s) as [r s1] eqn:El.
  apply Live_inv in El as [Ho [[-> Hf]| ->]]; injection E as <- <-; auto.
Qed.

(** One read inside a handler of the service. *)
Lemma on_syncer_bind {A B} (q : ST node A) f (k : A → ST service B) x s res x' :
  reads_as q f → observable s = observable (sv_node x) → (a ← on_syncer q; k a) (set_node s x) = (res, x') →
  ∃ s1, observable s1 = observable (sv_node x) ∧
    ((res = Err ErrDB ∧ db_fault ∧ x' = set_node s1 x) ∨ k (f (tbl (db (sv_node x)))) (set_node s1 x) = (res, x')).
Proof.
  intros Hq Hs. unfold mbind, ST_bind, on_syncer, zoom. cbn [sv_node set_node]. destruct (q s) as [r s1] eqn:E.
  apply Hq in E as [Ho Hr]. rewrite (observable_tbl _ _ Hs) in Hr.
  destruct Hr as [[-> Hf]| ->]; intros Hk; exists s1; (split; [by rewrite Ho|]); [left|by right].
  by injection Hk as <- <-.
Qed.

(** The table of peers is keyed by the node. *)
Definition peers_keyed t : Prop := ∀ n row, peers t !! n = Some row → p_Node row = n.

Lemma seqOf_snoc l p : seqOf (l ++ [p]) = <[p_Node p := p_LastSeq p]> (seqOf l).
Proof. unfold seqOf. by rewrite foldl_app. Qed.

Lemma seqOf_out l n : ¬ n ∈ p_Node <$> l → seqOf l !! n = None.
Proof.
  induction l as [|p l IH] using rev_ind; [done|]. rewrite seqOf_snoc, fmap_app, elem_of_app. intros Hn.
  rewrite lookup_insert_ne; [apply IH; tauto|]. intros <-. apply Hn. right. by left.
Qed.
Lemma seqOf_in l p : NoDup (p_Node <$> l) → p ∈ l → seqOf l !! p_Node p = Some (p_LastSeq p).
Proof.
  induction l as [|q l IH] using rev_ind; [by intros _ ?%not_elem_of_nil|].
  rewrite seqOf_snoc, fmap_app, elem_of_app. intros (Hnd & Hq & _)%NoDup_app [Hp| ->%list_elem_of_singleton].
  - rewrite lookup_insert_ne; [by apply IH|]. intros E. apply (Hq (p_Node p)); [by apply list_elem_of_fmap_2|].
    rewrite <- E. by left.
  - by rewrite lookup_insert_eq.
Qed.

(** The map of the bookmarks is the table of peers. *)
Lemma seqOf_peers t n :
  peers_keyed t →
  default 0 (seqOf (sort_on p_Node Str.le (map_to_list (peers t)).*2) !! n) =
  match peers t !! n with Some row => p_LastSeq row | None => 0 end.
Proof.
  intros Hk. set (l := sort_on p_Node Str.le (map_to_list (peers t)).*2).
  assert (∀ row, row ∈ l ↔ peers t !! p_Node row = Some row) as Hl.
  { intros row. unfold l. rewrite elem_of_sort_on, list_elem_of_fmap. split.
    - intros ([n' r] & -> & Hr%elem_of_map_to_list). simpl. by rewrite (Hk _ _ Hr).
    - intros Hr. exists (p_Node row, row). split; [done|]. by apply elem_of_map_to_list. }
  assert (NoDup (p_Node <$> l)) as Hnd.
  { unfold l. rewrite (sort_on_perm p_Node Str.le), <- list_fmap_compose.
    replace ((p_Node ∘ snd) <$> map_to_list (peers t)) with (map_to_list (peers t)).*1; [apply NoDup_fst_map_to_list|].
    apply list_fmap_ext. intros i [n' r] Hr%list_elem_of_lookup_2%elem_of_map_to_list. simpl. by rewrite (Hk _ _ Hr). }
  destruct (peers t !! n) as [row|] eqn:E.
  - pose proof (Hk _ _ E) as En. rewrite <- En, seqOf_in; [done..|]. apply Hl. congruence.
  - rewrite seqOf_out; [done|]. intros (row & -> & Hr)%list_elem_of_fmap. apply Hl in Hr. congruence.
Qed.

(** What the document says of a tree. *)
Record documents t (ms : list Member) (inp : statusInputs) x (doc : StatusDocument) : Prop := {
  do_digest : sd_Digest doc = digest_of t;
  do_head : sd_Head doc = local_seq t;
  do_counts : sd_Entries doc = Z.of_nat (size (entries t)) ∧ sd_Blobs doc = Z.of_nat (size (blobs t)) ∧
    sd_Tombstones doc = Z.of_nat (size (filter (λ kr, r_Deleted kr.2 = true) (entries t)));
  do_conflicts : ∀ p, p ∈ sd_Conflicts doc ↔ IsConflictName p = true ∧ ∃ e, live_entry t p e;
  do_members : sd_Members doc = (λ m, mkStatusMember (mb_Node m) (mb_Addr m) true (mb_Self m)
    (match peers t !! mb_Node m with Some row => p_LastSeq row | None => 0 end)) <$> ms;
  do_sync : (sd_LastSync doc, sd_LastError doc) = SyncState x;
  do_self : sd_Node doc = si_node inp ∧ sd_Addr doc = si_addr inp
}.

Definition document_of t (inp : statusInputs) (ms : list Member) x : StatusDocument :=
  let seqs := seqOf (sort_on p_Node Str.le (map_to_list (peers t)).*2) in
  mkStatusDocument (si_node inp) (si_addr inp) (si_started inp) (digest_of t)
    (st_Entries (stats_of t)) (st_Tombstones (stats_of t)) (st_Blobs (stats_of t)) (st_BlobBytes (stats_of t)) (local_seq t)
    (Path <$> filter (λ m, IsConflictName (Path m) = true) (select_live t))
    ((λ m, mkStatusMember (mb_Node m) (mb_Addr m) true (mb_Self m) (default 0 (seqs !! mb_Node m))) <$> ms)
    (si_mirrorDir inp) (si_mountPoint inp) (lastSync x) (lastErr x).

Lemma document_documents t inp ms x :
  wf_tables t → peers_keyed t → documents t ms inp x (document_of t inp ms x).
Proof.
  intros Hw Hk. split; try done.
  - intros p. cbn [sd_Conflicts document_of]. rewrite list_elem_of_fmap. split.
    + intros (e & -> & [Hc He]%list_elem_of_filter). split; [done|]. exists e. by apply elem_of_live.
    + intros [Hc (e & He)]. exists e. pose proof (live_entry_path _ _ _ Hw He) as Hp. split; [done|].
      apply list_elem_of_filter. rewrite Hp. split; [done|]. apply elem_of_live; [done|]. by rewrite Hp.
  - apply list_fmap_ext. intros i m _. f_equal. by apply seqOf_peers.
Qed.

Lemma buildStatus_run inp ms x res x' :
  buildStatus inp ms x = (res, x') →
  ∃ s1, x' = set_node s1 x ∧ observable s1 = observable (sv_node x) ∧
    ((res = Err ErrDB ∧ db_fault) ∨ res = Ok (document_of (tbl (db (sv_node x))) inp ms x)).
Proof.
  intros E. unfold buildStatus in E. replace x with (set_node (sv_node x) x) in E at 1 by by destruct x.
  apply (on_syncer_bind _ _ _ _ _ _ _ Stats_reads eq_refl) in E as (s1 & O1 & [(-> & Hf & ->)|E]); [by eauto 10|].
  apply (on_syncer_bind _ _ _ _ _ _ _ Digest_reads_as O1) in E as (s2 & O2 & [(-> & Hf & ->)|E]); [by eauto 10|].
  apply (on_syncer_bind _ _ _ _ _ _ _ Conflicts_reads O2) in E as (s3 & O3 & [(-> & Hf & ->)|E]); [by eauto 10|].
  apply (on_syncer_bind _ _ _ _ _ _ _ Peers_reads O3) in E as (s4 & O4 & [(-> & Hf & ->)|E]); [by eauto 10|].
  unfold mbind, ST_bind, gets, mret, ST_ret in E. cbn [SyncState set_node lastSync lastErr] in E. injection E as <- <-.
  exists s4. split_and!; [done|done|]. by right.
Qed.

(** The status document is what the node holds.  Assembling it changes nothing; it fails only if the database does; and
    otherwise its digest and its head are those other nodes compare, its counts are those of the tables, its
    conflicts are exactly the live paths that are names of conflict copies, every member is listed with how far
    its feed has been read, and the last pull is reported as it ended. *)
Theorem buildStatus_spec inp ms x res x' :
  let t := tbl (db (sv_node x)) in
  wf_tables t → peers_keyed t → buildStatus inp ms x = (res, x') →
  ∃ s1, x' = set_node s1 x ∧ observable s1 = observable (sv_node x) ∧
    ((res = Err ErrDB ∧ db_fault) ∨ ∃ doc, res = Ok doc ∧ documents t ms inp x doc).
Proof.
  intros t Hw Hk (s1 & Es & Ho & [Hf| ->])%buildStatus_run; exists s1; (split_and!; [done..|]); [by left|right].
  eexists. split; [done|]. by apply document_documents.
Qed.

(** ** The served document *)

Lemma host_status_run inp ms x h res h' :
  host_status inp ms x h = (res, h') →
  tbl (h_db h') = tbl (h_db h) ∧ h_rands h' = h_rands h ∧
  ((res = Err ErrDB ∧ db_fault) ∨ res = Ok (document_of (tbl (h_db h)) inp ms x)).
Proof.
  unfold host_status. destruct (buildStatus _ _ _) as [r x'] eqn:E. intros [= <- <-].
  apply buildStatus_run in E as (s1 & -> & Ho & Hr). apply observable_tbl in Ho. done.
Qed.

Section served.
Context `{BlockCipher, !BlockCipherLaws, Random, !RandomLaws, Router, !RouterLaws}.
Context `{!Codec DigestResponse, !CodecLaws DigestResponse, !Codec ManifestResponse, !CodecLaws ManifestResponse}.
Context `{!Codec StatusDocument, !CodecLaws StatusDocument}.

(** The API of a running node is read-only: whatever is requested, signed or not, at whatever time, and
    whatever fails while it is served, the tables of the node are the same afterwards. *)
Theorem api_read_only keys inp ms x unrouted uri header now h r h' :
  Handler keys (host_status inp ms x) unrouted uri header now h = (r, h') → tbl (h_db h') = tbl (h_db h).
Proof. apply Handler_read_only. by intros g q g' (? & _)%host_status_run. Qed.

(** C38: What the inspection commands show is what the node holds.  With the cluster's secret, over a link that is up,
    fetching the status gives a document that says of the serving node's tables what [documents] lists; and
    the command that lists conflicts exits with 0 exactly when no live path of that node is
    the name of a conflict copy. *)
Theorem fetchStatus_spec l secret node tp inp ms x i b :
  DeriveKeys secret = Ok (l_keys l) → connected l (mkClient (l_keys l) node manifestOverhead) tp →
  l_status l = host_status inp ms x → peers_keyed tp →
  Forall (λ s, Utf8.ValidString s = true) (texts (document_of tp inp ms x)) →
  Marshal (document_of tp inp ms x) = Ok b → Z.of_nat (length b) + 28 ≤ manifestOverhead →
  let st := @fetchStatus _ _ (over l) _ secret node i (l_addr l) in
  (∃ doc, st = Ok doc ∧ documents tp ms inp x doc) ∧
  ((runConflicts st).2 = 0 ↔ ∀ p e, live_entry tp p e → IsConflictName p = false).
Proof.
  intros Hs Hup Hst Hk Ht Em Hf st. pose proof (ln_wf _ _ _ Hup) as [Hw _].
  assert (st = Ok (document_of tp inp ms x)) as ->.
  { unfold st, fetchStatus. rewrite Hs. unfold mbind, result_bind.
    apply (Status_over l _ tp Hup i _ b); [|done..]. intros j. rewrite Hst.
    destruct (host_status inp ms x (l_host l j)) as [r h'] eqn:E.
    apply host_status_run in E as (_ & Hr & Ho). rewrite (ln_tbl _ _ _ Hup j) in Ho.
    destruct Ho as [[_ ?]| ->]; [by destruct (ln_db _ _ _ Hup)|]. exists (h_db h'). by rewrite <- Hr; destruct h'. }
  pose proof (document_documents tp inp ms x Hw Hk) as Hd. split; [by eexists|].
  pose proof (do_conflicts _ _ _ _ _ Hd) as Hc. unfold runConflicts.
  destruct (sd_Conflicts (document_of tp inp ms x)) as [|p ps]; simpl; split; try done.
  - intros _ p e He. destruct (IsConflictName p) eqn:E; [|done].
    exfalso. apply (not_elem_of_nil p), Hc. eauto.
  - intros Hno. destruct (proj1 (Hc p)) as [E (e & He)]; [by left|]. by rewrite (Hno p e He) in E.
Qed.
End served.
End facts.
Definition shows_bytes (n : Z) (s : string) : bool := match humanBytes n with Some x => String.eqb x s | None => false end.
Example human_samples :
  shows_bytes 1023 "1023 B" && shows_bytes 1024 "1.0 KiB" && shows_bytes 1536 "1.5 KiB" && shows_bytes 1048575 "1024.0 KiB" &&
  shows_bytes (5 * 2 ^ 20 + 2 ^ 19) "5.5 MiB" && shows_bytes (2 ^ 63 - 1) "8.0 EiB" = true.
Proof. vm_compute. reflexivity. Qed.
