(* ===== verification/Advance.v ===== *)
(** * What every step keeps: the feed of a node and what its tree has settled

    Whatever a node does — edits, pages of other nodes, the janitor while no tombstone is due — its feed
    only grows at the end, its tree never goes back behind what it dominated, and its clock stays above its tree. *)
From S2P Require Import Prelude GoStrings Clock Paths Crypto Entry Store StoreFacts Resolve Syncer SyncerFacts Transport Client AntiEntropy AntiFacts Pages Convergence Exchange Service.

(** The size of a page is 2000 as a unary number: never to be unfolded by conversion. *)
#[local] Arguments MaxManifestPage : simpl never.
#[local] Opaque MaxManifestPage.

(** ** The feed over time *)
Section feeds.
Implicit Types (t : tables) (m : Meta) (ms : list Meta).

(** An earlier state of a node's tables: whatever stands at a position that was already given out has stood there since. *)
Definition older t0 t : Prop :=
  local_seq t0 ≤ local_seq t ∧ ∀ m, m ∈ rows t → Seq m ≤ local_seq t0 → m ∈ rows t0.

#[export] Instance older_preorder : PreOrder older.
Proof.
  split; [by intros t|]. intros t1 t2 t3 [L12 R12] [L23 R23]. split; [lia|].
  intros m Hm Hs. apply R12; [apply R23; [done|lia]|done].
Qed.

Lemma older_rows t t' : local_seq t ≤ local_seq t' → (∀ m, m ∈ rows t' → m ∈ rows t) → older t t'.
Proof. intros Hl Hr. split; [done|]. by auto. Qed.

Lemma older_entries t t' : entries t' = entries t → local_seq t' = local_seq t → older t t'.
Proof. intros He Hl. apply older_rows; [lia|]. intros m. unfold rows. by rewrite He. Qed.

(** Storing a batch gives it positions behind all there were. *)
Lemma older_applied ms t : older t (applied ms t).
Proof.
  induction ms as [|m ms IH] using rev_ind; [done|]. rewrite applied_snoc. etrans; [exact IH|].
  split; [simpl; lia|]. intros x (p & r & Hr & ->)%elem_of_rows Hs. simpl in Hr.
  rewrite lookup_insert in Hr. case_decide; [|by apply elem_of_rows; eauto].
  apply (inj Some) in Hr as <-. simpl in Hs. lia.
Qed.
End feeds.

#[export] Hint Resolve older_entries : core.

Section advances.
Context `{DBFaults, Sha256, !Sha256Laws, SystemTime} (cfg : Config).
Implicit Types (t : tables) (s : node) (m : Meta) (ms : list Meta).

(** The node has moved on. *)
Record advances s s' : Prop := {
  adv_older : older (tbl (db s)) (tbl (db s'));
  adv_keeps : ∀ m, dominates (tbl (db s)) m → dominates (tbl (db s')) m;
  adv_covers : covers (clock s') (tbl (db s'))
}.

Lemma advances_same s s' :
  covers (clock s) (tbl (db s)) → ts_le (clock s) (clock s') →
  entries (tbl (db s')) = entries (tbl (db s)) → local_seq (tbl (db s')) = local_seq (tbl (db s)) → advances s s'.
Proof.
  intros Hc Hle He Hl. split; [by apply older_entries|intros m; by apply dominates_ext|].
  intros p r. rewrite He. intros Hr. by eapply ts_le_trans; [apply (Hc p)|].
Qed.

Lemma advances_quiet s s' :
  covers (clock s) (tbl (db s)) → clock s' = clock s → tbl (db s') = tbl (db s) → advances s s'.
Proof. intros Hc E Et. apply advances_same; [done|right; done|by rewrite Et..]. Qed.

(** ** Local edits *)

Lemma counter_room_uint32 n c : 0 < n → counter_room n c → is_uint32 (Counter c) ∧ Counter c < max_uint32.
Proof. unfold counter_room, is_uint32. lia. Qed.

Lemma wrote_advances oc m s s' :
  covers (clock s) (tbl (db s)) → counter_room 1 (clock s) → wrote cfg oc m s s' → advances s s'.
Proof.
  intros Hc [Hu Hlt]%counter_room_uint32 W; [|done].
  pose proof (wrote_clock_after _ _ _ _ _ Hu Hlt W) as Ha.
  destruct (stored_entries oc (tbl (db s))) as (He & _ & Hs). split; [| |by eapply wrote_covers].
  - rewrite (wrote_tables _ _ _ _ _ W). etrans; [by apply older_entries|]. apply older_applied.
  - intros x Hx. rewrite (wrote_tables _ _ _ _ _ W).
    apply (dominates_later [] m (clock s)); [by apply covers_stored| |by eapply dominates_ext].
    by rewrite (wrote_version _ _ _ _ _ W).
Qed.

Lemma run_edit_advances e s res s' :
  wf_store (tbl (db s)) → covers (clock s) (tbl (db s)) → counter_room 1 (clock s) →
  run_edit cfg e s = (res, s') → advances s s' ∧ peers (tbl (db s')) = peers (tbl (db s)).
Proof.
  intros Hw Hc Hr E. apply run_edit_inv in E; [|apply Hw]. unfold edit_outcome in E.
  assert (observable s' = observable s → advances s s' ∧ peers (tbl (db s')) = peers (tbl (db s))) as Hq.
  { intros [= Et Ec _ _ _]. split; [by apply advances_quiet|by rewrite Et]. }
  destruct (edit_refused cfg e _); [by apply Hq, E|].
  destruct (stored_entries (edit_content e) (tbl (db s))) as (_ & Hp & _).
  destruct E as [(_ & _ & ?)|[(_ & _ & W)|(_ & _ & A)]]; [by apply Hq|..].
  - split; [by eapply wrote_advances|]. by rewrite (wrote_tables _ _ _ _ _ W), (proj2 (applied_other _ _)).
  - split; [|by destruct (aborted_tables _ _ _ A) as [->| ->]].
    apply advances_same; [done| |apply A..].
    destruct (aborted_clock _ _ _ A) as [->|[n ->]]; [by right|]. left. by apply (Now_room 1).
Qed.
End advances.

Section pages.
Context `{DBFaults, Sha256, !Sha256Laws, SystemTime, PeerClient, !PeerClientLaws} (cfg : Config).
Implicit Types (t : tables) (s : node) (m : Meta) (ms : list Meta).

(** ** Pages *)

(** The clock never goes back, wherever the page stops. *)
Lemma applyRemote_clock addr ms s res s' :
  wf_tables (tbl (db s)) → page_room ms (clock s) → applyRemote cfg addr ms s = (res, s') → ts_le (clock s) (clock s').
Proof.
  intros Hw [Hc Hms] (r & s1 & E & Hk)%bind_inv.
  destruct (apply_entries_turns cfg addr ms start s r s1 E) as [(-> & _ & _ & ms1 & m & ms2 & a1 & s2 & -> & Ht & Ho)|(a & -> & Ht)].
  - destruct Hk as [-> ->]. rewrite length_app in *. simpl in *. apply Forall_app in Hms as [Hms1 [Hm _]%Forall_cons].
    replace (2 * Z.of_nat (length ms1 + S (length ms2))) with
      (2 * Z.of_nat (length ms2) + 2 + 2 * Z.of_nat (length ms1)) in * by lia.
    destruct (turns_clock cfg addr ms1 start s a1 s2 (2 * Z.of_nat (length ms2) + 2) Ht ltac:(lia) Hc Hms1) as [Hc2 Hle]. eapply ts_le_trans; [exact Hle|]. left.
    destruct (observed_clock 1 m (clock s2) (clock s1)) as (? & _); [lia| | |done|done];
      [eapply counter_room_le; [|exact Hc2]|eapply counter_room_le; [|exact Hm]]; lia.
  - assert (ts_le (clock s) (clock s1)) as Hle by (by apply (turns_clock cfg addr ms start s a s1 0 Ht)).
    destruct (batch a) as [|b bs]; [by injection Hk as <- <-|].
    apply bind_inv in Hk as (r & s2 & Ec & Hk).
    assert (s2 = s') as -> by (destruct r; [by injection Hk|by destruct Hk]).
    pose proof (turns_grown _ _ _ _ _ _ _ Ht) as G.
    assert (clock s' = clock s1) as ->; [|done].
    unfold commit in Ec. apply bind_inv in Ec as (r1 & s3 & (d & _ & ->)%on_db_inv & Ec).
    destruct r1; [|by destruct Ec as [_ ->]]. unfold notify, Announce, modify, mbind, ST_bind in Ec.
    destruct (HasPeers cfg); by injection Ec as _ <-.
Qed.

Lemma applyRemote_older addr ms s res s' :
  wf_store (tbl (db s)) → applyRemote cfg addr ms s = (res, s') → older (tbl (db s)) (tbl (db s')).
Proof.
  intros Hw E. destruct (applyRemote_inv cfg addr ms s res s' Hw E) as [(_ & _ & G)|(a & s1 & _ & Ht & _ & _ & Hend)].
  { apply older_entries; apply G. }
  pose proof (turns_grown _ _ _ _ _ _ _ Ht) as G.
  assert (older (tbl (db s)) (tbl (db s1))) as Ho by (apply older_entries; apply G).
  destruct Hend as [[_ ->]|[_ (-> & _)]]; [done|]. etrans; [exact Ho|apply older_applied].
Qed.

Lemma applyRemote_advances addr ms s res s' :
  wf_store (tbl (db s)) → covers (clock s) (tbl (db s)) → ordered_page ms → page_room ms (clock s) →
  applyRemote cfg addr ms s = (res, s') → advances s s' ∧ peers (tbl (db s')) = peers (tbl (db s)).
Proof.
  intros Hw Hcov Hord Hroom E. pose proof (applyRemote_clock _ _ _ _ _ (proj1 Hw) Hroom E) as Hle.
  destruct (applyRemote_inv cfg addr ms s res s' Hw E) as [(_ & _ & G)|(a & s1 & -> & Ht & _ & _ & Hend)].
  - split; [apply advances_same; [done..|apply (grown_entries _ _ G)|apply (grown_seq _ _ G)]|apply (grown_peers _ _ G)].
  - destruct (applyRemote_done cfg addr ms s (safe a) s' 0) as [Hpd _]; [done..|apply Hroom|apply Hroom|done|].
    split; [|apply (pd_peers _ _ _ _ _ _ Hpd)].
    split; [|apply (pd_kept _ _ _ _ _ _ Hpd)|apply (pd_covers _ _ _ _ _ _ Hpd)].
    by eapply applyRemote_older.
Qed.

(** ** The janitor *)

(** No tombstone of the first tables is missing in the second. *)
Definition keeps_tombstones t t' : Prop := ∀ p, is_Some (entries t !! p) → is_Some (entries t' !! p).

Lemma kept_tombstones b t : keeps_tombstones t (without_tombstones b t) → entries (without_tombstones b t) = entries t.
Proof.
  intros Hk. apply map_eq. intros p. destruct (entries t !! p) as [r|] eqn:Er.
  - destruct (Hk p) as [r' Hr']; [by eauto|]. rewrite Hr'. simpl in Hr'.
    apply map_lookup_filter_Some in Hr' as [Hr' _]. congruence.
  - simpl. apply map_lookup_filter_None. by left.
Qed.

Lemma collect_advances s res s' :
  covers (clock s) (tbl (db s)) → collect cfg s = (res, s') → keeps_tombstones (tbl (db s)) (tbl (db s')) →
  advances s s' ∧ peers (tbl (db s')) = peers (tbl (db s)).
Proof.
  intros Hc (_ & Eo & E)%collect_inv Hk. injection Eo as Ec _ _ _.
  assert (entries (tbl (db s')) = entries (tbl (db s)) ∧ local_seq (tbl (db s')) = local_seq (tbl (db s)) ∧
    peers (tbl (db s')) = peers (tbl (db s))) as (He & Hs & Hp).
  { destruct E as [[_ [->|Et]]|Et]; [done|rewrite Et in *..]; (split; [|done]); by apply (kept_tombstones (horizon cfg s)). }
  split; [|done]. apply advances_same; [done|by right|done..].
Qed.

(** ** Pulls *)

(** An action of a pull that is not a page leaves the entries alone. *)
Lemma pstep_older nd addr ps s :
  wf_store (tbl (db s)) → older (tbl (db s)) (tbl (db (pstep cfg nd addr ps s).2)).
Proof.
  intros Hw.
  assert (∀ A (q : ST node A) f, (∀ r s', q s = (r, s') → older (tbl (db s)) (tbl (db s'))) →
    older (tbl (db s)) (tbl (db (step_to q f s).2))) as Hstep.
  { intros A q f Hq. rewrite step_to_run. simpl. destruct (q s) as [r s'] eqn:E. by eapply Hq. }
  assert (∀ seq r s', (seenAt ← now; on_db (SetPeerSeq nd addr seq seenAt)) s = (r, s') → older (tbl (db s)) (tbl (db s'))) as Hset.
  { intros seq r s' (r0 & s2 & [= <- <-] & E)%bind_inv. apply SetPeerSeq_inv in E as (_ & _ & E). simpl in E.
    apply older_entries; by destruct E as [(_ & _ & ->)|[_ ->]]. }
  destruct ps; cbn [pstep]; try (apply Hstep; intros r' s'); try apply Hset; try done.
  - by intros [= _ <-].
  - intros (d' & E & ->)%on_db_inv. apply Digest_inv in E as [Ht _]. simpl. by rewrite Ht.
  - intros (d' & E & ->)%on_db_inv. unfold PeerSeq in E. simpl.
    apply select_bind_inv in E as [(_ & _ & Ht)|(d1 & Ht & [= _ <-])]; by rewrite Ht.
  - by intros [= _ <-].
  - by apply applyRemote_older.
Qed.

(** A pull writes no bookmark but the one of the node it is named for. *)
Lemma pstep_others nd addr ps s nd' :
  wf_store (tbl (db s)) → nd' ≠ nd →
  peers (tbl (db (pstep cfg nd addr ps s).2)) !! nd' = peers (tbl (db s)) !! nd'.
Proof.
  intros Hw Hne.
  assert (∀ A (q : ST node A) f, (∀ r s', q s = (r, s') → peers (tbl (db s')) !! nd' = peers (tbl (db s)) !! nd') →
    peers (tbl (db (step_to q f s).2)) !! nd' = peers (tbl (db s)) !! nd') as Hstep.
  { intros A q f Hq. rewrite step_to_run. simpl. destruct (q s) as [r s'] eqn:E. by eapply Hq. }
  assert (∀ seq r s', (seenAt ← now; on_db (SetPeerSeq nd addr seq seenAt)) s = (r, s') →
    peers (tbl (db s')) !! nd' = peers (tbl (db s)) !! nd') as Hset.
  { intros seq r s' (r0 & s2 & [= <- <-] & E)%bind_inv. apply SetPeerSeq_inv in E as (_ & _ & E). simpl in E.
    destruct E as [(_ & _ & ->)|[_ ->]]; [done|]. simpl. by rewrite lookup_insert_ne. }
  destruct ps; cbn [pstep]; try (apply Hstep; intros r' s'); try apply Hset; try done.
  - by intros [= _ <-].
  - intros (d' & E & ->)%on_db_inv. apply Digest_inv in E as [Ht _]. simpl. by rewrite Ht.
  - intros (d' & E & ->)%on_db_inv. unfold PeerSeq in E. simpl.
    apply select_bind_inv in E as [(_ & _ & Ht)|(d1 & Ht & [= _ <-])]; by rewrite Ht.
  - by intros [= _ <-].
  - intros E. destruct (applyRemote_inv cfg addr _ s r' s' Hw E) as [(_ & _ & G)|(a & s1 & _ & Ht & _ & _ & Hend)].
    { by rewrite (grown_peers _ _ G). }
    pose proof (grown_peers _ _ (turns_grown _ _ _ _ _ _ _ Ht)) as <-.
    destruct Hend as [[_ ->]|[_ (-> & _)]]; [done|]. by rewrite (proj2 (applied_other _ _)).
Qed.

Lemma psteps_keep (R : tables → tables → Prop) `{!PreOrder R} k nd addr :
  (∀ ps s, wf_store (tbl (db s)) → R (tbl (db s)) (tbl (db (pstep cfg nd addr ps s).2))) →
  ∀ ps s r s', wf_store (tbl (db s)) → psteps cfg k nd addr ps s = (r, s') → R (tbl (db s)) (tbl (db s')).
Proof.
  intros HR. induction k as [|k IH]; intros ps s r s' Hw E; [by injection E as _ <-|].
  cbn [psteps] in E. apply bind_inv in E as (r1 & s1 & E1 & E).
  pose proof (HR ps s Hw) as Ho. pose proof (pstep_wf cfg nd addr ps s Hw) as Hw1. rewrite E1 in Ho, Hw1.
  destruct r1 as [ps1|e]; [|by destruct E as [_ ->]]. etrans; [exact Ho|]. by eapply IH.
Qed.

(** A pull as a whole. *)
Lemma syncPeer_keeps fuel nd addr s s' :
  wf_store (tbl (db s)) → syncPeer cfg fuel nd addr s = (Ok true, s') →
  older (tbl (db s)) (tbl (db s')) ∧ ∀ nd', nd' ≠ nd → peers (tbl (db s')) !! nd' = peers (tbl (db s)) !! nd'.
Proof.
  intros Hw E. destruct (syncPeer_leads cfg fuel nd addr s (Ok true) s' E) as [k Hk]; [done|]. split.
  - eapply (psteps_keep older); [by intros; apply pstep_older|done..].
  - intros nd' Hne. symmetry. unshelve eapply (psteps_keep (λ t t', peers t !! nd' = peers t' !! nd')); [..|exact Hw|exact Hk].
    + split; [by intros t|]. intros t1 t2 t3. apply eq_trans.
    + intros ps s0 Hw0. symmetry. by apply pstep_others.
Qed.
End pages.
