(* ===== verification/Bookmarks.v ===== *)
(** * What a bookmark stands for, at every step of a pull

    A bookmark kept for a peer, the cursor of a pull in flight and the head of a digest just compared all
    say that the peer's feed is settled up to there: each of its entries malformed, so refused for good, or dominated.  Every
    action of a pull keeps that, unless it refuses an entry for the time being or defers one on a page with more to come, whatever else
    the node and the peer do in between. *)
From S2P Require Import Prelude GoStrings Clock Paths Crypto Entry Store StoreFacts Resolve Syncer SyncerFacts Transport Client Wire AntiEntropy AntiFacts Pages Convergence Exchange Service Advance.

(** The size of a page is 2000 as a unary number: never to be unfolded by conversion. *)
#[local] Arguments MaxManifestPage : simpl never.
#[local] Opaque MaxManifestPage.

Section heard.
Context `{DBFaults, Sha256, SystemTime} (cfg : Config).
Implicit Types (t tp : tables) (s : node) (m : Meta) (pos : Z).

(** A position of the peer's feed up to which everything is settled. *)
Definition heard pos tp t : Prop :=
  0 ≤ pos ≤ local_seq tp ∧ ∀ m, m ∈ rows tp → Seq m ≤ pos → settled cfg t m.

Lemma heard_older pos tp tp' t : older tp tp' → heard pos tp t → heard pos tp' t.
Proof. intros [Hl Hr] [Hp Hs]. split; [lia|]. intros m Hm Hle. apply Hs; [apply Hr; [done|lia]|done]. Qed.

Lemma heard_keeps pos tp t t' : (∀ m, dominates t m → dominates t' m) → heard pos tp t → heard pos tp t'.
Proof. intros Hk [Hp Hs]. split; [done|]. intros m Hm Hle. eapply settled_mono; [by apply Hk|by apply Hs]. Qed.

Lemma heard_le pos pos' tp t : 0 ≤ pos' ≤ pos → heard pos tp t → heard pos' tp t.
Proof. intros Hle [Hp Hs]. split; [lia|]. intros m Hm Hm'. apply Hs; [done|lia]. Qed.

Lemma heard_zero tp t : wf_tables tp → heard 0 tp t.
Proof.
  intros Hw. split; [pose proof (wf_local _ Hw); lia|].
  intros m (p & r & Hr & ->)%elem_of_rows Hs. pose proof (wf_seq _ Hw _ _ Hr). simpl in Hs. lia.
Qed.

Lemma heard_max p1 p2 tp t : heard p1 tp t → heard p2 tp t → heard (Z.max p1 p2) tp t.
Proof. intros Hp1 Hp2. by destruct (Z.max_spec p1 p2) as [[_ ->]|[_ ->]]. Qed.

(** What has been heard is dominated if there is nothing to refuse. *)
Lemma heard_read pos tp t :
  (∀ m, m ∈ rows tp → validate cfg m = Ok tt) → heard pos tp t → read_up_to pos tp t.
Proof.
  intros Hv [_ Hs] m Hm Hle. destruct (Hs m Hm Hle) as [[e E]|?]; [|done].
  by rewrite (Hv m Hm) in E.
Qed.

(** ** Answers *)

Lemma digest_doc_range tp : wf_tables tp → 0 ≤ d_Head (digest_doc tp) ≤ local_seq tp.
Proof.
  intros Hw. unfold digest_doc. cbn [d_Head].
  assert (Forall (λ m, Seq m ≤ local_seq tp) (select_all tp)) as Hall.
  { rewrite Forall_forall. intros m Hm. unfold select_all in Hm. apply elem_of_sort_on in Hm.
    apply elem_of_rows in Hm as (p & r & Hr & ->). pose proof (wf_seq _ Hw _ _ Hr). simpl. lia. }
  pose proof (wf_local _ Hw) as Hl0.
  cut (∀ h, 0 ≤ h ≤ local_seq tp → 0 ≤ fold_left (λ h m, h `max` Seq m) (select_all tp) h ≤ local_seq tp); [intros Hc; by apply Hc|].
  induction Hall as [|m ms Hm _ IH]; intros h Hh; [done|]. simpl. apply IH. lia.
Qed.

Lemma manifest_head since tp : wf_tables tp → 0 ≤ since → 0 ≤ m_Head (manifest_of since tp).
Proof.
  intros Hw Hs. pose proof (page_elem since tp) as Hin. unfold manifest_of, page_of in *. cbn [m_Head m_Entries] in *.
  destruct (last _) as [m|] eqn:E; [|done]. apply last_Some_elem_of in E.
  apply Hin in E as [(p & r & Hr & ->)%elem_of_rows _]; [|done]. pose proof (wf_seq _ Hw _ _ Hr). simpl. lia.
Qed.

(** ** In flight *)

Context (U : tables → Prop).

(** The tables of the peer at some time before, at which no digest of these tables misleads. *)
Definition snapshot tp t0 : Prop := older t0 tp ∧ wf_tables t0 ∧ U t0.

(** What the state of a pull says of the peer's feed and the own tree. *)
Definition flight (ps : pull_state) tp t : Prop :=
  match ps with
  | PDigest remote => ∃ t0, snapshot tp t0 ∧ remote = digest_doc t0
  | PAgree remote => heard (d_Head remote) tp t
  | PFetch cursor bookmark => heard cursor tp t ∧ heard bookmark tp t
  | PApply page bookmark => heard bookmark tp t ∧
      ∃ t0 cursor, snapshot tp t0 ∧ page = manifest_of cursor t0 ∧ heard cursor tp t
  | PRecord page bookmark => heard bookmark tp t ∧ 0 ≤ m_Head page ∧ (m_More page = true → m_Head page ≤ bookmark)
  | PStart | PSince _ | PDone _ | PLogged => True
  end.

Lemma snapshot_older tp tp' t0 : older tp tp' → snapshot tp t0 → snapshot tp' t0.
Proof. intros Ho (? & ? & ?). split_and!; [by etrans|done..]. Qed.

(** The peer may move on, and so may the node. *)
Lemma flight_older ps tp tp' t : older tp tp' → flight ps tp t → flight ps tp' t.
Proof.
  intros Ho. pose proof (heard_older) as Hh. destruct ps; simpl; try done; try naive_solver.
  - intros (t0 & Hs & E). exists t0. split; [by eapply snapshot_older|done].
  - intros (Hb & t0 & c & Hs & E & Hc). split; [by eapply heard_older|].
    exists t0, c. split_and!; [by eapply snapshot_older|done|by eapply heard_older].
Qed.

Lemma flight_keeps ps tp t t' : (∀ m, dominates t m → dominates t' m) → flight ps tp t → flight ps tp t'.
Proof.
  intros Hk. destruct ps; simpl; try done; pose proof (heard_keeps) as Hh; try naive_solver.
Qed.
End heard.

Arguments heard : simpl never.

Section pulls.
Context `{DBFaults, Sha256, !Sha256Laws, SystemTime, PeerClient, !PeerClientLaws} (cfg : Config).
Context (U : tables → Prop) (tells : ∀ t1 t2, wf_tables t1 → wf_tables t2 → U t1 → U t2 → digests_tell t1 t2).
Implicit Types (t tp : tables) (s : node) (m : Meta) (pos : Z).

(** The peer at the address answers from these tables when it answers at all. *)
Record truthful (addr : string) tp : Prop := {
  tr_digest : ∀ i r, peer_Digest i addr = Ok r → r = digest_doc tp;
  tr_manifest : ∀ i since page, peer_Manifest i addr since = Ok page → page = manifest_of since tp
}.

(** Equal digests: the whole feed of the snapshot is dominated. *)
Lemma heard_told tp t0 t :
  snapshot U tp t0 → wf_tables t → U t → digest_of t = digest_of t0 → heard cfg (d_Head (digest_doc t0)) tp t.
Proof.
  intros ([Hl Hr] & Hw & Hu) Hwt Ht E. pose proof (digest_doc_range t0 Hw) as Hd. split; [lia|].
  intros m Hm Hle. right. apply (told_dominates t t0 Hw); [by apply tells|done|]. apply Hr; [done|lia].
Qed.

(** A page applied: the position it returns has been heard. *)
Lemma heard_page addr tp t0 cursor s pos s' :
  snapshot U tp t0 → heard cfg cursor tp (tbl (db s)) → wf_store (tbl (db s)) → covers (clock s) (tbl (db s)) →
  let ms := m_Entries (manifest_of cursor t0) in
  page_room ms (clock s) → applyRemote cfg addr ms s = (Ok pos, s') →
  (∀ m, m ∈ ms → ¬ early (ticks s) (ticks s') m) → heard cfg pos tp (tbl (db s')).
Proof.
  intros ([Hl Hr] & Hw & _) [Hc Hcur] Hws Hcov ms [Hroom Hms] E Htime.
  pose proof (page_ordered cursor t0 Hw) as Hord.
  destruct (applyRemote_done cfg addr ms s pos s' 0) as [Hpd _]; try done.
  destruct (pd_pos _ _ _ _ _ _ Hpd) as [Ep|(x & Hx & Ep)].
  { subst pos. split; [lia|]. intros m Hm Hle. eapply settled_mono; [apply (pd_kept _ _ _ _ _ _ Hpd)|].
    apply Hcur; [done|lia]. }
  pose proof Hx as [Hx0 _]%page_elem; [|done]. apply elem_of_rows in Hx0 as (p & r & Er & Ex).
  pose proof (wf_seq _ Hw _ _ Er) as Hsx. assert (0 < Seq x ≤ local_seq t0) as Hpos by (by rewrite Ex).
  split; [lia|]. intros m Hm Hle. destruct (page_below cursor t0 m x) as [Hmc|Hin]; [done|apply Hr; [done|lia]|done|lia|..].
  - eapply settled_mono; [apply (pd_kept _ _ _ _ _ _ Hpd)|]. by apply Hcur.
  - destruct (pd_settled _ _ _ _ _ _ Hpd m Hin Hle) as [?|He]; [done|]. by destruct (Htime m Hin).
Qed.

(** Nothing of a page was deferred, unless it is the last of the pull. *)
Definition undeferred (ps : pull_state) : Prop :=
  match ps with PRecord page bookmark => m_More page = true → m_Head page ≤ bookmark | _ => True end.

(** None of the page that is applied is refused for being too far ahead of the system clock. *)
Definition timely (ps : pull_state) s s' : Prop :=
  match ps with PApply page _ => ∀ m, m ∈ m_Entries page → ¬ early (ticks s) (ticks s') m | _ => True end.

(** The counters have room for what the pull applies next. *)
Definition pull_room (ps : pull_state) (c : Timestamp) : Prop :=
  match ps with PApply page _ => page_room (m_Entries page) c | _ => True end.

(** The bookmarks kept for the peer. *)
Definition marks (nd : string) tp t : Prop :=
  ∀ row, peers t !! nd = Some row → heard cfg (p_LastSeq row) tp t.

(** What an action of a pull of [nd] does to the table of peers. *)
Definition marked (nd : string) tp s s' : Prop :=
  peers (tbl (db s')) = peers (tbl (db s)) ∨
  ∃ row, peers (tbl (db s')) = <[nd := row]> (peers (tbl (db s))) ∧ heard cfg (p_LastSeq row) tp (tbl (db s')).

(** Recording a position that has been heard. *)
Lemma record_marked nd addr tp pos s res s' :
  covers (clock s) (tbl (db s)) → heard cfg pos tp (tbl (db s)) →
  (seenAt ← now; on_db (SetPeerSeq nd addr pos seenAt)) s = (res, s') →
  advances s s' ∧ marked nd tp s s' ∧ heard cfg pos tp (tbl (db s')).
Proof.
  intros Hc Hh (r & s1 & [= <- <-] & E)%bind_inv. apply SetPeerSeq_inv in E as (Ec & _ & E). simpl in Ec, E.
  assert (advances s s') as Ha.
  { apply advances_same; [done|by right|..]; by destruct E as [(_ & _ & ->)|(_ & ->)]. }
  assert (heard cfg pos tp (tbl (db s'))) as Hh' by (eapply heard_keeps; [apply Ha|done]).
  split_and!; [done| |done]. destruct E as [(_ & _ & Et)|(_ & Et)]; [left; by rewrite Et|right].
  exists (mkPeerRow nd addr pos (time_now (ticks s))). split; [by rewrite Et|done].
Qed.

(** After an action: the node has moved on, a bookmark it wrote and the state it left say what they stand for. *)
Definition kept_up (nd : string) tp s (ps' : pull_state) s' : Prop :=
  advances s s' ∧ marked nd tp s s' ∧ flight cfg U ps' tp (tbl (db s')).

Lemma quiet_kept nd tp s ps' s' :
  covers (clock s) (tbl (db s)) → clock s' = clock s → tbl (db s') = tbl (db s) →
  flight cfg U ps' tp (tbl (db s)) → kept_up nd tp s ps' s'.
Proof. intros Hc Ec Et Hf. split; [by apply advances_quiet|]. unfold marked. rewrite Et. auto. Qed.

(** Comparing digests. *)
Lemma compare_kept nd addr remote tp s :
  U (tbl (db s)) → wf_tables (tbl (db s)) → covers (clock s) (tbl (db s)) → flight cfg U (PDigest remote) tp (tbl (db s)) →
  ∃ ps' s', pstep cfg nd addr (PDigest remote) s = (Ok ps', s') ∧ kept_up nd tp s ps' s'.
Proof.
  intros Hu Hw Hc (t0 & Hs & ->). cbn [pstep]. rewrite step_to_run. do 2 eexists. split; [done|].
  destruct (on_db Digest s) as [r1 s1] eqn:E1. apply on_db_inv in E1 as (d1 & E1 & ->).
  apply Digest_inv in E1 as [Et Hr]. apply quiet_kept; [done..|].
  destruct Hr as [[-> _]| ->]; [done|]. cbn [fst].
  destruct (String.eqb_spec (digest_of (tbl (db s))) (d_Digest (digest_doc t0))) as [Ed|Ed]; [|done]. by apply heard_told.
Qed.

(** Reading the bookmark. *)
Lemma since_kept nd addr remote tp s :
  wf_tables tp → covers (clock s) (tbl (db s)) → marks nd tp (tbl (db s)) →
  ∃ ps' s', pstep cfg nd addr (PSince remote) s = (Ok ps', s') ∧ kept_up nd tp s ps' s'.
Proof.
  intros Hwp Hc Hm. cbn [pstep]. rewrite step_to_run. do 2 eexists. split; [done|].
  destruct (on_db (PeerSeq nd) s) as [r1 s1] eqn:E1. apply on_db_inv in E1 as (d1 & E1 & ->).
  unfold PeerSeq in E1. apply select_bind_inv in E1 as [(-> & _ & Et)|(d2 & Et & E1)]; [by apply quiet_kept|].
  injection E1 as <- <-. apply quiet_kept; [done..|]. cbn [fst].
  set (since := match peers (tbl (db s)) !! nd with Some row => p_LastSeq row | None => 0 end).
  assert (heard cfg since tp (tbl (db s))) as Hs.
  { unfold since. destruct (peers (tbl (db s)) !! nd) eqn:Ep; [by apply Hm|by apply heard_zero]. }
  destruct (d_Head remote <? since); [|done]. split; by apply heard_zero.
Qed.

(** Asking for a page. *)
Lemma fetch_kept nd addr cursor bookmark tp s :
  truthful addr tp → wf_tables tp → U tp → covers (clock s) (tbl (db s)) → flight cfg U (PFetch cursor bookmark) tp (tbl (db s)) →
  ∃ ps' s', pstep cfg nd addr (PFetch cursor bookmark) s = (Ok ps', s') ∧ kept_up nd tp s ps' s'.
Proof.
  intros Htr Hwp Hup Hc [Hfc Hfb]. cbn [pstep]. rewrite step_to_run. do 2 eexists. split; [done|].
  unfold request. apply quiet_kept; [done..|]. cbn [fst].
  destruct (peer_Manifest (reqs s) addr cursor) as [page|e] eqn:Er; [|done].
  apply (tr_manifest _ _ Htr) in Er as ->. destruct (m_Entries (manifest_of cursor tp)); [done|].
  split; [done|]. exists tp, cursor. split_and!; [by split|done..].
Qed.

(** Applying a page. *)
Lemma apply_kept nd addr page bookmark tp s ps' s' :
  wf_store (tbl (db s)) → covers (clock s) (tbl (db s)) → page_room (m_Entries page) (clock s) →
  flight cfg U (PApply page bookmark) tp (tbl (db s)) →
  pstep cfg nd addr (PApply page bookmark) s = (Ok ps', s') → undeferred ps' → timely (PApply page bookmark) s s' → kept_up nd tp s ps' s'.
Proof.
  intros Hw Hc Hroom (Hfb & t0 & cursor & Hs & Epage & Hfc) E Hd Htime. pose proof Hs as (_ & Hw0 & _).
  cbn [pstep] in E. rewrite step_to_run in E. injection E as <- <-.
  destruct (applyRemote cfg addr (m_Entries page) s) as [r1 s1] eqn:E1. subst page.
  destruct (applyRemote_advances cfg addr _ s r1 s1 Hw Hc (page_ordered cursor t0 Hw0) Hroom E1) as [Ha Hp].
  split; [done|]. split; [by left|]. destruct r1 as [pos|e]; [|done]. simpl in Hd |- *.
  split_and!; [|by apply manifest_head; [|apply Hfc]|done].
  apply heard_max; [eapply heard_keeps; [apply Ha|done]|]. by eapply heard_page.
Qed.

(** One action of a pull, against a peer that moves on as it likes between the actions. *)
Lemma pstep_kept nd addr ps tp s ps' s' :
  truthful addr tp → wf_tables tp → U tp → U (tbl (db s)) → wf_store (tbl (db s)) → covers (clock s) (tbl (db s)) →
  pull_room ps (clock s) → marks nd tp (tbl (db s)) → flight cfg U ps tp (tbl (db s)) →
  pstep cfg nd addr ps s = (Ok ps', s') → undeferred ps' → timely ps s s' → kept_up nd tp s ps' s'.
Proof.
  intros Htr Hwp Hup Hu Hw Hc Hroom Hm Hf E Hd Htime.
  assert (∀ ps1 s1, pstep cfg nd addr ps s = (Ok ps1, s1) ∧ kept_up nd tp s ps1 s1 → kept_up nd tp s ps' s') as Hsame.
  { intros ps1 s1 [E1 Hk]. rewrite E in E1. by injection E1 as -> ->. }
  destruct ps as [|remote|remote|remote|cursor bookmark|page bookmark|page bookmark|r|].
  - cbn [pstep] in E. rewrite step_to_run in E. unfold request in E. injection E as <- <-. apply quiet_kept; [done..|].
    destruct (peer_Digest (reqs s) addr) as [remote|e] eqn:Er; [|done].
    apply (tr_digest _ _ Htr) in Er as ->. by exists tp.
  - destruct (compare_kept nd addr remote tp s) as (? & ? & ?); [done|apply Hw|done..|by eapply Hsame].
  - cbn [pstep] in E. rewrite step_to_run in E.
    destruct ((seenAt ← now; on_db (SetPeerSeq nd addr (d_Head remote) seenAt)) s) as [r1 s1] eqn:E1. injection E as <- <-.
    destruct (record_marked nd addr tp _ _ _ _ Hc Hf E1) as (Ha & Hmk & _). split_and!; [done..|by destruct r1].
  - destruct (since_kept nd addr remote tp s) as (? & ? & ?); [done..|by eapply Hsame].
  - destruct (fetch_kept nd addr cursor bookmark tp s) as (? & ? & ?); [done..|by eapply Hsame].
  - by eapply apply_kept.
  - destruct Hf as (Hfb & Hh0 & Hmore). cbn [pstep] in E. rewrite step_to_run in E.
    destruct ((seenAt ← now; on_db (SetPeerSeq nd addr bookmark seenAt)) s) as [r1 s1] eqn:E1. injection E as <- <-.
    destruct (record_marked nd addr tp _ _ _ _ Hc Hfb E1) as (Ha & Hmk & Hfb').
    split_and!; [done..|]. destruct r1 as [[]|e]; [|done]. cbn [fst]. destruct (m_More page); [|done].
    split; [|done]. eapply heard_le; [|done]. split; [done|by apply Hmore].
  - injection E as <- <-. by apply quiet_kept.
  - injection E as <- <-. by apply quiet_kept.
Qed.
End pulls.
