(* ===== verification/Fleet.v ===== *)
(** * A fleet of nodes

    Any number of nodes, each a service as in Service.v, that edit, gossip and pull from each other at the same
    time.  A request is answered from the tables its peer has at that moment, or fails.  Every step
    keeps [fleet_ok]: the stores are sound, and each bookmark and each pull in flight says no more than its node has settled. *)
From S2P Require Import Prelude GoStrings Clock Paths Crypto Entry Store StoreFacts Resolve Syncer SyncerFacts Transport Client Wire AntiEntropy AntiFacts Pages Convergence Exchange Cluster Service Advance Bookmarks.

(** The size of a page is 2000 as a unary number: never to be unfolded by conversion. *)
#[local] Arguments MaxManifestPage : simpl never.
#[local] Opaque MaxManifestPage.

(** The tables of a service. *)
Notation "'tables_of' x" := (tbl (db (sv_node x))) (at level 10, x at level 9).

(** ** One service among others *)
Section one.
Context `{DBFaults, Sha256, !Sha256Laws, SystemTime, PeerClient, !PeerClientLaws} (cfg : Config).
Context (U : tables → Prop) (tells : ∀ t1 t2, wf_tables t1 → wf_tables t2 → U t1 → U t2 → digests_tell t1 t2).
Implicit Types (x y : service) (nd : string) (tp : tables) (g : goroutine).

(** What the service knows of a peer with these tables: its bookmark and its pulls say what they stand for. *)
Definition knows nd tp x : Prop :=
  marks cfg nd tp (tables_of x) ∧
  ∀ g, g ∈ pulls x → g_node g = nd → flight cfg U (g_state g) tp (tables_of x).

Lemma knows_older nd tp tp' x : older tp tp' → knows nd tp x → knows nd tp' x.
Proof.
  intros Ho [Hm Hf]. split.
  - intros row Hr. by eapply heard_older, Hm.
  - intros g Hg Hn. by eapply flight_older, Hf.
Qed.

(** A step keeps what is known if its pulls are the old ones, or say what they stand for. *)
Lemma knows_step nd tp x y :
  advances (sv_node x) (sv_node y) →
  (∀ row, peers (tables_of y) !! nd = Some row → peers (tables_of x) !! nd = Some row ∨ heard cfg (p_LastSeq row) tp (tables_of y)) →
  (∀ g, g ∈ pulls y → g_node g = nd → g ∈ pulls x ∨ flight cfg U (g_state g) tp (tables_of y)) →
  knows nd tp x → knows nd tp y.
Proof.
  intros Ha Hp Hg [Hm Hf]. split.
  - intros row Hr. destruct (Hp row Hr) as [Hr'|?]; [|done]. eapply heard_keeps; [apply Ha|by apply Hm].
  - intros g Hg1 Hn. destruct (Hg g Hg1 Hn) as [Hg'|?]; [|done]. eapply flight_keeps; [apply Ha|by apply Hf].
Qed.

Lemma knows_set_node nd tp s' x :
  advances (sv_node x) s' → peers (tbl (db s')) = peers (tables_of x) → knows nd tp x → knows nd tp (set_node s' x).
Proof. intros Ha Hp. apply knows_step; [done|simpl; rewrite Hp; by left|by left]. Qed.

(** Gossip and timers start pulls and change nothing else. *)
Definition more_pulls x y : Prop := sv_node y = sv_node x ∧ ∀ g, g ∈ pulls y → g ∈ pulls x ∨ g_state g = PStart.

Lemma triggerSync_more nd addr x : more_pulls x (triggerSync cfg nd addr x).
Proof.
  unfold triggerSync. repeat case_match; (split; [done|]); try by left. simpl.
  intros g [Hg| ->%list_elem_of_singleton]%elem_of_app; [by left|by right].
Qed.

Lemma more_pulls_trans x y z : more_pulls x y → more_pulls y z → more_pulls x z.
Proof. intros [E1 G1] [E2 G2]. split; [congruence|]. intros g [Hg|?]%G2; [by apply G1|by right]. Qed.

Lemma handle_event_more e x : more_pulls x (handle_event cfg e x).
Proof. unfold handle_event. destruct (ev_Kind e); auto using triggerSync_more. by split; [|left]. Qed.

Lemma syncAll_more ms x : more_pulls x (syncAll cfg ms x).
Proof.
  unfold syncAll. destruct (HasPeers cfg); simpl; [|by split; [|left]]. revert x.
  induction ms as [|m ms IH]; intros x; simpl; [by split; [|left]|].
  eapply more_pulls_trans; [|apply IH]. case_match; [by split; [|left]|apply triggerSync_more].
Qed.

Lemma knows_more nd tp x y : covers (clock (sv_node x)) (tables_of x) → more_pulls x y → knows nd tp x → knows nd tp y.
Proof.
  intros Hc [En Hg]. apply knows_step; rewrite ?En; [by apply advances_quiet|by left|].
  intros g [Hx|Es]%Hg _; [by left|right]. by rewrite Es.
Qed.

(** ** What the run of a fleet must not meet *)

(** Counters that are exhausted; a page applied that has an entry too far ahead of the system clock at the time; tombstones
    that are collected; and a deferral on a page with more to come: what each of them does is in Clock.v, Hazards.v and
    FleetHazards.v.  A pull that is no longer there as it was is the one that has stepped. *)
Record calm x y : Prop := {
  calm_clock : counter_room 1 (clock (sv_node x));
  calm_room : ∀ g, g ∈ pulls x → pull_room (g_state g) (clock (sv_node x));
  calm_time : ∀ g, g ∈ pulls x → ¬ g ∈ pulls y → timely (g_state g) (sv_node x) (sv_node y);
  calm_tombstones : keeps_tombstones (tables_of x) (tables_of y);
  calm_pages : ∀ g, g ∈ pulls y → undeferred (g_state g)
}.

(** A pull that has applied its page is no longer there as it was. *)
Lemma moved_on page bookmark l1 g l2 ps' s' x :
  service_ok cfg x → pulls x = l1 ++ g :: l2 → g_state g = PApply page bookmark →
  pstep cfg (g_node g) (g_addr g) (PApply page bookmark) (sv_node x) = (Ok ps', s') →
  ¬ g ∈ l1 ++ mkGo (g_node g) (g_addr g) ps' :: l2.
Proof.
  intros Hok E Eg Ep Hg. pose proof (ok_once _ _ Hok) as Hnd. rewrite E, fmap_app, fmap_cons in Hnd.
  apply NoDup_app in Hnd as (_ & Hl1 & [Hl2 _]%NoDup_cons).
  apply elem_of_app in Hg as [Hg|[Hg|Hg]%elem_of_cons].
  - apply (Hl1 (g_node g)); [by apply list_elem_of_fmap_2|by left].
  - apply (f_equal g_state) in Hg. rewrite Eg in Hg. cbn [pstep g_state] in Ep, Hg. rewrite step_to_run in Ep.
    injection Ep as Ep _. rewrite <- Hg in Ep. by destruct (applyRemote _ _ _ _).1.
  - by apply Hl2, list_elem_of_fmap_2.
Qed.

(** One step of a service whose peers answer truthfully: the service moves on, and still knows what it says. *)
Lemma service_step (known : string → tables → Prop) x y :
  step cfg x y → calm x y → service_ok cfg x → covers (clock (sv_node x)) (tables_of x) → U (tables_of x) →
  (∀ g, g ∈ pulls x → ∃ tp, known (g_node g) tp ∧ truthful (g_addr g) tp ∧ wf_tables tp ∧ U tp) →
  (∀ nd t1 t2, known nd t1 → known nd t2 → t1 = t2) → (∀ nd tp, known nd tp → knows nd tp x) →
  advances (sv_node x) (sv_node y) ∧ ∀ nd tp, known nd tp → knows nd tp y.
Proof.
  intros Hst Hcalm Hok Hc Hu Htr Hfun Hk. pose proof (ok_store _ _ Hok) as Hw.
  assert (∀ s', advances (sv_node x) s' ∧ peers (tbl (db s')) = peers (tables_of x) →
    advances (sv_node x) (sv_node (set_node s' x)) ∧ ∀ nd tp, known nd tp → knows nd tp (set_node s' x)) as Hnode.
  { intros s' [Ha Hp]. split; [done|]. intros nd tp Hn. by apply knows_set_node, Hk. }
  assert (∀ s', clock s' = clock (sv_node x) → tbl (db s') = tables_of x → advances (sv_node x) s') as Hq
    by (intros s' Ec Et; by apply advances_quiet).
  destruct Hst as [e x|x|id x|id x|e x|ms x|x|l1 g l2 ps' s' x E Ep|l1 g l2 r c x E Eg|l1 g l2 x E Eg].
  - apply Hnode. eapply (run_edit_advances cfg e); [done..|apply Hcalm|apply surjective_pairing].
  - apply Hnode. split; [by apply Hq|done].
  - apply Hnode. split; [by apply Hq|done].
  - apply Hnode. split; [by apply Hq|done].
  - pose proof (handle_event_more e x) as Hm. split; [by rewrite (proj1 Hm); apply Hq|].
    intros nd tp Hn. by eapply knows_more, Hk.
  - pose proof (syncAll_more ms x) as Hm. split; [by rewrite (proj1 Hm); apply Hq|].
    intros nd tp Hn. by eapply knows_more, Hk.
  - apply Hnode. eapply (collect_advances cfg); [done|apply surjective_pairing|apply Hcalm].
  - assert (g ∈ pulls x) as Hg by (rewrite E; set_solver).
    destruct (Htr g Hg) as (tp & Hn & Ht & Hwp & Hup). destruct (Hk _ _ Hn) as [Hm Hf].
    destruct (pstep_kept cfg U tells (g_node g) (g_addr g) (g_state g) tp (sv_node x) ps' s')
      as (Ha & Hmk & Hf'); try done; [by apply (calm_room _ _ Hcalm)|by apply Hf| | |].
    { apply (calm_pages _ _ Hcalm (mkGo (g_node g) (g_addr g) ps')). simpl. set_solver. }
    { unfold timely. destruct (g_state g) as [| | | | |page bookmark| | |] eqn:Eg; try done.
      pose proof (calm_time _ _ Hcalm g Hg) as Ht'. rewrite Eg in Ht'. apply Ht'.
      by eapply (moved_on page bookmark l1 g l2 ps' s' x). }
    split; [done|]. intros nd tp' Hn'. apply (knows_step nd tp' x); [done|..|by apply Hk].
    + intros row Hr. simpl in Hr |- *. destruct Hmk as [Ep'|(row' & Ep' & Hh)]; rewrite Ep' in Hr; [by left|].
      destruct (decide (nd = g_node g)) as [->|Hne]; [|rewrite lookup_insert_ne in Hr by done; by left].
      rewrite lookup_insert_eq in Hr. apply (inj Some) in Hr as <-. right. by rewrite (Hfun _ _ _ Hn' Hn).
    + simpl. intros g' [Hg'|[->|Hg']%elem_of_cons]%elem_of_app Eg; [left; rewrite E; set_solver| |left; rewrite E; set_solver].
      right. simpl in Eg. subst nd. by rewrite (Hfun _ _ _ Hn' Hn).
  - split; [by apply Hq|]. intros nd tp Hn. apply (knows_step nd tp x); [by apply Hq|by left| |by apply Hk].
    simpl. intros g' [Hg'|[->|Hg']%elem_of_cons]%elem_of_app _; [left; rewrite E; set_solver|by right|left; rewrite E; set_solver].
  - split; [by apply Hq|]. intros nd tp Hn. apply (knows_step nd tp x); [by apply Hq|by left| |by apply Hk].
    simpl. intros g' Hg' _. left. rewrite E. set_solver.
Qed.
End one.

(** ** The steps of a service as a function *)
Section perform.
Context `{DBFaults, Sha256, SystemTime, PeerClient} (cfg : Config).
Implicit Types (x y : service).

(** What happens next; a pull by its place among the pulls. *)
Inductive service_act :=
  | AEdit (e : edit) | ASubscribe | AUnsubscribe (id : Z) | AReceive (id : Z)
  | AEvent (e : Event) | ASyncTick (members : list Member) | AJanitorTick
  | APull (n : nat) | ARecord (n : nat) (cancelled : bool) | AExit (n : nat).

(** The pull at a place, and those before and after it. *)
Definition pull_at (n : nat) x : option (list goroutine * goroutine * list goroutine) :=
  g ← pulls x !! n; Some (take n (pulls x), g, drop (S n) (pulls x)).

Definition perform (a : service_act) x : option service :=
  match a with
  | AEdit e => Some (set_node (run_edit cfg e (sv_node x)).2 x)
  | ASubscribe => Some (set_node (Subscribe (sv_node x)).2 x)
  | AUnsubscribe id => Some (set_node (unsubscribe id (sv_node x)).2 x)
  | AReceive id => Some (set_node (receive id (sv_node x)).2 x)
  | AEvent e => Some (handle_event cfg e x)
  | ASyncTick members => Some (syncAll cfg members x)
  | AJanitorTick => Some (set_node (collect cfg (sv_node x)).2 x)
  | APull n =>
      '(l1, g, l2) ← pull_at n x;
      match pstep cfg (g_node g) (g_addr g) (g_state g) (sv_node x) with
      | (Ok ps', s') => Some (set_node s' (set_pulls (l1 ++ mkGo (g_node g) (g_addr g) ps' :: l2) x))
      | (Err _, _) => None
      end
  | ARecord n cancelled =>
      '(l1, g, l2) ← pull_at n x;
      match g_state g with
      | PDone r => Some (set_pulls (l1 ++ mkGo (g_node g) (g_addr g) PLogged :: l2) (recordSync (reported r cancelled) x))
      | _ => None
      end
  | AExit n =>
      '(l1, g, l2) ← pull_at n x;
      match g_state g with
      | PLogged => Some (mkService (sv_node x) (syncing x ∖ {[g_node g]}) (l1 ++ l2) (lastSync x) (lastErr x))
      | _ => None
      end
  end.

Lemma pull_at_Some n x l1 g l2 : pull_at n x = Some (l1, g, l2) ↔ pulls x = l1 ++ g :: l2 ∧ n = length l1.
Proof.
  unfold pull_at. split.
  - destruct (pulls x !! n) as [g'|] eqn:E; [|done]. cbn [mbind option_bind]. intros Eq.
    apply (inj Some) in Eq. injection Eq as <- <- <-.
    split; [by rewrite take_drop_middle|]. apply lookup_lt_Some in E. rewrite length_take. lia.
  - intros [-> ->]. rewrite list_lookup_middle by done. cbn [mbind option_bind].
    assert (drop (S (length l1)) (l1 ++ g :: l2) = l2) as -> by (clear; by induction l1).
    by rewrite take_app_length.
Qed.

(** The step relation is the function: what it may do next is what some action does. *)
Lemma perform_step x y : step cfg x y ↔ ∃ a, perform a x = Some y.
Proof.
  split.
  - intros [e|a|id|id|e|ms|a|l1 g l2 ps' s' a E Ep|l1 g l2 r c a E Eg|l1 g l2 a E Eg].
    + by exists (AEdit e).
    + by exists ASubscribe.
    + by exists (AUnsubscribe id).
    + by exists (AReceive id).
    + by exists (AEvent e).
    + by exists (ASyncTick ms).
    + by exists AJanitorTick.
    + exists (APull (length l1)). cbn [perform]. rewrite (proj2 (pull_at_Some _ _ l1 g l2)) by done. cbn [mbind option_bind]. by rewrite Ep.
    + exists (ARecord (length l1) c). cbn [perform]. rewrite (proj2 (pull_at_Some _ _ l1 g l2)) by done. cbn [mbind option_bind]. by rewrite Eg.
    + exists (AExit (length l1)). cbn [perform]. rewrite (proj2 (pull_at_Some _ _ l1 g l2)) by done. cbn [mbind option_bind]. by rewrite Eg.
  - intros [a E]. destruct a as [e| |id|id|e|ms| |n|n c|n]; cbn [perform] in E; try (apply (inj Some) in E as <-; by constructor);
      destruct (pull_at n x) as [[[l1 g] l2]|] eqn:Ea; cbn [mbind option_bind] in E; try done; apply pull_at_Some in Ea as [Ea _].
    + destruct (pstep cfg (g_node g) (g_addr g) (g_state g) (sv_node x)) as [[ps'|e] s'] eqn:Ep; [|done].
      apply (inj Some) in E as <-. by eapply step_pull.
    + destruct (g_state g) eqn:Eg; try done. apply (inj Some) in E as <-. by eapply step_record.
    + destruct (g_state g) eqn:Eg; try done. apply (inj Some) in E as <-. by eapply step_exit.
Qed.
End perform.

(** ** The fleet *)

(** What a node runs with: its configuration, its disk and its clock. *)
Record site := mkSite { st_cfg : Config; st_faults : DBFaults; st_time : SystemTime }.

(** The nodes by name. *)
Notation "'fleet'" := (gmap string service).

Section fleet.
Context `{Sha256, !Sha256Laws} (sites : string → site) (who : string → string).
Context (U : tables → Prop) (tells : ∀ t1 t2, wf_tables t1 → wf_tables t2 → U t1 → U t2 → digests_tell t1 t2).
Context (named : ∀ i, Node (st_cfg (sites i)) = i).
Implicit Types (F : fleet) (x y : service) (i j : string).

(** The answer to request [k] of a node: it may be lost; otherwise the node at the address answers from the tables it has. *)
Definition answer {A} (lost : nat → bool) F (k : nat) (addr : string) (f : tables → result A) : result A :=
  if lost k then Err ErrPeer else match F !! who addr with Some y => f (tables_of y) | None => Err ErrPeer end.

Definition network (lost : nat → bool) F : PeerClient := {|
  peer_Digest := λ k addr, answer lost F k addr (λ t, Ok (digest_doc t));
  peer_Manifest := λ k addr since, answer lost F k addr (λ t, Ok (manifest_of since t));
  peer_Blob := λ k addr hash, answer lost F k addr (λ t,
    match blobs t !! hash with
    | Some b => if String.eqb (HashContent (b_Data b)) hash then Ok (b_Data b) else Err ErrPeer
    | None => Err ErrPeerNotFound
    end) |}.

#[export] Instance network_laws lost F : @PeerClientLaws _ (network lost F).
Proof.
  intros k addr hash content. cbn [network peer_Blob]. unfold answer. destruct (lost k); [done|].
  destruct (F !! who addr) as [y|]; [|done]. destruct (blobs (tables_of y) !! hash) as [b|]; [|done].
  destruct (String.eqb_spec (HashContent (b_Data b)) hash); [|done]. by intros [= <-].
Qed.

Lemma network_truthful lost F addr y : F !! who addr = Some y → @truthful _ (network lost F) addr (tables_of y).
Proof.
  intros E. split; cbn [network peer_Digest peer_Manifest]; unfold answer; rewrite E; intros; case_match; by simplify_eq.
Qed.

(** The pulls of a service go to the addresses of the nodes they are named for. *)
Definition addressed F x : Prop := ∀ g, g ∈ pulls x → who (g_addr g) = g_node g ∧ is_Some (F !! g_node g).

(** The steps of node [i] while the others are as they are. *)
Definition site_step (lost : nat → bool) F i : service → service → Prop :=
  @step (st_faults (sites i)) _ (st_time (sites i)) (network lost F) (st_cfg (sites i)).

(** One step of one node. *)
Inductive calm_step F : fleet → Prop :=
  | fleet_at lost i x y :
      F !! i = Some x → site_step lost F i x y → @calm (st_time (sites i)) x y → addressed F y → U (tables_of y) → calm_step F (<[i := y]> F).

(** A node before its first pull: a sound store below its clock, nothing known of anybody. *)
Record fresh x : Prop := {
  fr_store : wf_store (tables_of x);
  fr_covers : covers (clock (sv_node x)) (tables_of x);
  fr_digest : U (tables_of x);
  fr_pulls : pulls x = [];
  fr_syncing : syncing x = ∅;
  fr_peers : peers (tables_of x) = ∅
}.

(** Another node as its tables, for a node that is not that one. *)
Definition other F i nd tp : Prop := nd ≠ i ∧ ∃ y, F !! nd = Some y ∧ tp = tables_of y.

Record node_ok F i x : Prop := {
  no_service : service_ok (st_cfg (sites i)) x;
  no_covers : covers (clock (sv_node x)) (tables_of x);
  no_digest : U (tables_of x);
  no_addressed : addressed F x;
  no_knows : ∀ nd tp, other F i nd tp → knows (st_cfg (sites i)) U nd tp x
}.

Definition fleet_ok F : Prop := ∀ i x, F !! i = Some x → node_ok F i x.

Lemma fresh_ok F : (∀ i x, F !! i = Some x → fresh x) → fleet_ok F.
Proof.
  intros HF i x Hx. destruct (HF _ _ Hx) as [Hw Hc Hu Hp Hs Hb]. split; try done.
  - split; [done|rewrite Hp; constructor|intros nd; rewrite Hs, Hp; set_solver|].
    intros g. rewrite Hp. by intros ?%not_elem_of_nil.
  - intros g Hg. rewrite Hp in Hg. by apply not_elem_of_nil in Hg.
  - intros nd tp _. split; [intros row; by rewrite Hb, lookup_empty|]. intros g Hg. rewrite Hp in Hg. by apply not_elem_of_nil in Hg.
Qed.

Lemma other_fun F i nd t1 t2 : other F i nd t1 → other F i nd t2 → t1 = t2.
Proof. intros (_ & y1 & E1 & ->) (_ & y2 & E2 & ->). congruence. Qed.

(** The node that steps. *)
Lemma site_step_ok lost F i x y :
  fleet_ok F → F !! i = Some x → site_step lost F i x y → @calm (st_time (sites i)) x y → addressed F y → U (tables_of y) →
  advances (sv_node x) (sv_node y) ∧ node_ok F i y.
Proof.
  intros HF Hx Hst Hcalm Had Hu. pose proof (HF _ _ Hx) as [Hok Hc Hux Hax Hk].
  assert (service_ok (st_cfg (sites i)) y) as Hoky by exact (@step_ok (st_faults (sites i)) _ (st_time (sites i)) (network lost F) (st_cfg (sites i)) _ _ x y Hst Hok).
  edestruct (@service_step (st_faults (sites i)) _ _ (st_time (sites i)) (network lost F) _ (st_cfg (sites i)) U tells (other F i) x y)
    as [Ha Hk']; try done.
  - intros g Hg. destruct (Hax g Hg) as [Ew [z Hz]]. exists (tables_of z). split_and!.
    + split; [|by eauto]. destruct (ok_foreign _ _ Hok g Hg) as [Hne _]. by rewrite named in Hne.
    + apply network_truthful. by rewrite Ew.
    + apply (ok_store _ _ (no_service _ _ _ (HF _ _ Hz))).
    + apply (no_digest _ _ _ (HF _ _ Hz)).
  - apply other_fun.
  - split; [done|]. split; try done. apply Ha.
Qed.

Lemma calm_step_ok F F' : calm_step F F' → fleet_ok F → fleet_ok F'.
Proof.
  intros [lost i x y Hx Hst Hcalm Had Hu] HF. destruct (site_step_ok lost F i x y) as [Ha Hy]; try done.
  assert (∀ z, addressed F z → addressed (<[i := y]> F) z) as Hadd.
  { intros z Hz g Hg. destruct (Hz g Hg) as [? Hn]. split; [done|]. rewrite lookup_insert. by case_decide. }
  intros k z Hz. rewrite lookup_insert in Hz. case_decide as Ek; [subst k; apply (inj Some) in Hz as <-|].
  - destruct Hy as [? ? ? ? Hk]. split; auto. intros nd tp (Hne & w & Hw & ->). apply Hk. split; [done|].
    rewrite lookup_insert_ne in Hw by done. eauto.
  - destruct (HF _ _ Hz) as [? ? ? ? Hk]. split; auto. intros nd tp (Hne & w & Hw & ->).
    rewrite lookup_insert in Hw. case_decide as En; [subst nd; apply (inj Some) in Hw as <-|].
    + eapply knows_older; [apply Ha|]. apply Hk. split; [done|]. eauto.
    + apply Hk. split; [done|]. eauto.
Qed.

Lemma fleet_run_ok F0 F : (∀ i x, F0 !! i = Some x → fresh x) → rtc calm_step F0 F → fleet_ok F.
Proof.
  intros Hf Hr. apply fresh_ok in Hf. induction Hr as [F|F0 F1 F2 Hst _ IH]; [done|]. by eapply IH, calm_step_ok.
Qed.

(** Node [i] can take everything these tables hold — nothing is malformed, too large, or too far ahead of its system clock from now
    on — and its counters have room for it. *)
Record takes i x tp : Prop := {
  tk_entry : ∀ m, m ∈ rows tp → @validate (st_cfg (sites i)) m = Ok tt ∧ @punctual (st_time (sites i)) (ticks (sv_node x)) m ∧
    counter_room (2 * Z.of_nat (length (rows tp))) (HLC (MVersion m));
  tk_size : ∀ h b, blobs tp !! h = Some b → Z.of_nat (length (b_Data b)) ≤ MaxFileSize (st_cfg (sites i));
  tk_clock : counter_room (2 * Z.of_nat (length (rows tp))) (clock (sv_node x));
  tk_seq : local_seq (tables_of x) + 2 * Z.of_nat (length (rows tp)) ≤ max_int64;
  tk_head : local_seq tp ≤ max_int64
}.

(** Against a peer that answers from its tables, with nothing lost any more, a node that is sound is ready to pull. *)
Lemma knows_ready F i x j y addr fuel :
  wf_store (tables_of x) → covers (clock (sv_node x)) (tables_of x) → wf_store (tables_of y) →
  knows (st_cfg (sites i)) U j (tables_of y) x → F !! who addr = Some y → takes i x (tables_of y) →
  (length (rows (tables_of y)) < MaxManifestPage * fuel)%nat →
  @ready (λ _, false) _ (st_time (sites i)) (network (λ _, false) F) (st_cfg (sites i)) j addr (tables_of y) (sv_node x) fuel.
Proof.
  intros Hw Hc Hwy [Hm _] Ew [Hent Hsize Hclk Hseq Hhead] Hfuel.
  assert (∀ {A} k (f : tables → result A), answer (λ _, false) F k addr f = f (tables_of y)) as Hans.
  { intros A k f. unfold answer. by rewrite Ew. }
  split; try done.
  - split; try done; [apply Hwy|intros k since _; cbn [network peer_Manifest]; by rewrite Hans|].
    intros m Hin Hnb k. cbn [network peer_Blob]. rewrite Hans.
    apply elem_of_rows in Hin as (p & r & Hr & ->). unfold needs_blob in Hnb. simpl in Hnb.
    apply andb_true_iff in Hnb as [[Hkind%Z.eqb_eq Hdel%negb_true_iff]%andb_true_iff Hne%negb_true_iff%String.eqb_neq].
    destruct (proj2 Hwy p r Hr Hdel Hkind Hne) as [b Hb]. simpl. rewrite Hb.
    destruct (wf_blob _ (proj1 Hwy) _ _ Hb) as (_ & -> & _). rewrite String.eqb_refl. by eauto.
  - exists (d_Head (digest_doc (tables_of y))). split; [pose proof (digest_doc_range _ (proj1 Hwy)); lia|].
    intros k. eexists. cbn [network peer_Digest]. by rewrite Hans.
  - by intros [n Hn].
  - intros row Hrow. pose proof (Hm row Hrow) as Hh. split; [apply Hh|]. eapply heard_read; [|exact Hh].
    intros m Hm'. by destruct (Hent m Hm') as (? & ? & _).
Qed.

Lemma fleet_ready F i x j y addr fuel :
  fleet_ok F → F !! i = Some x → F !! j = Some y → i ≠ j → who addr = j → takes i x (tables_of y) →
  (length (rows (tables_of y)) < MaxManifestPage * fuel)%nat →
  @ready (λ _, false) _ (st_time (sites i)) (network (λ _, false) F) (st_cfg (sites i)) j addr (tables_of y) (sv_node x) fuel.
Proof.
  intros HF Hx Hy Hij Ew Ht Hfuel. destruct (HF _ _ Hx) as [Hok Hc _ _ Hk].
  apply knows_ready; try done; [apply Hok|apply (no_service _ _ _ (HF _ _ Hy))|apply Hk; split; [done|by eauto]|by rewrite Ew].
Qed.

Lemma fleet_tells F i x j y : fleet_ok F → F !! i = Some x → F !! j = Some y → digests_tell (tables_of x) (tables_of y).
Proof.
  intros HF Hx Hy. apply tells; [apply (no_service _ _ _ (HF _ _ Hx))|apply (no_service _ _ _ (HF _ _ Hy))|..];
    [apply (no_digest _ _ _ (HF _ _ Hx))|apply (no_digest _ _ _ (HF _ _ Hy))].
Qed.

(** One pull catches up, from any state of this kind. *)
Lemma ok_catches_up F i x j y addr fuel :
  fleet_ok F → F !! i = Some x → F !! j = Some y → i ≠ j → who addr = j → takes i x (tables_of y) →
  (length (rows (tables_of y)) < MaxManifestPage * fuel)%nat →
  ∃ s', @syncPeer (λ _, false) _ (st_time (sites i)) (network (λ _, false) F) (st_cfg (sites i)) fuel j addr (sv_node x) = (Ok true, s') ∧
    dominates_all (tbl (db s')) (tables_of y) ∧ (∀ m, dominates (tables_of x) m → dominates (tbl (db s')) m) ∧
    wf_store (tbl (db s')).
Proof.
  intros HF Hx Hy Hij Ew Ht Hfuel.
  destruct (ready_pull _ _ _ _ _ _ (fleet_ready F i x j y addr fuel HF Hx Hy Hij Ew Ht Hfuel)) as (s' & E & Hw & _ & Hk & Hd).
  exists s'. split_and!; try done. destruct Hd as [Ed|?]; [|done]. intros m Hm. apply Hk. revert m Hm.
  apply told_dominates; [apply (no_service _ _ _ (HF _ _ Hy))|by apply (fleet_tells F i x j y)|done].
Qed.

(** One node pulls from others in turn, each of which serves what it holds. *)
Inductive collects F h : list string → service → service → Prop :=
  | collects_nil x : collects F h [] x x
  | collects_cons j js y addr fuel x s1 x' :
      j ≠ h → ¬ j ∈ js → F !! j = Some y → who addr = j → takes h x (tables_of y) →
      (length (rows (tables_of y)) < MaxManifestPage * fuel)%nat → digests_tell (tables_of x) (tables_of y) →
      @syncPeer (λ _, false) _ (st_time (sites h)) (network (λ _, false) F) (st_cfg (sites h)) fuel j addr (sv_node x) = (Ok true, s1) →
      collects F h js (set_node s1 x) x' → collects F h (j :: js) x x'.

(** A sound node, and what it knows of some others. *)
Definition informed F h (js : list string) x : Prop :=
  wf_store (tables_of x) ∧ covers (clock (sv_node x)) (tables_of x) ∧
  ∀ nd tp, nd ∈ js → other F h nd tp → knows (st_cfg (sites h)) U nd tp x.

(** Pulling from one of them, it catches up with that one and forgets nothing of the rest. *)
Lemma informed_pull F h j js y addr fuel x s1 :
  fleet_ok F → informed F h (j :: js) x → j ≠ h → ¬ j ∈ js → F !! j = Some y → who addr = j → takes h x (tables_of y) →
  (length (rows (tables_of y)) < MaxManifestPage * fuel)%nat → digests_tell (tables_of x) (tables_of y) →
  @syncPeer (λ _, false) _ (st_time (sites h)) (network (λ _, false) F) (st_cfg (sites h)) fuel j addr (sv_node x) = (Ok true, s1) →
  advances (sv_node x) s1 ∧ dominates_all (tbl (db s1)) (tables_of y) ∧ informed F h js (set_node s1 x).
Proof.
  intros HF (Hw & Hc & Hk) Hj Hjs Hy Ew Ht Hfuel Htell E.
  pose proof (ok_store _ _ (no_service _ _ _ (HF _ _ Hy))) as Hwy.
  assert (other F h j (tables_of y)) as Ho by (split; [done|by eauto]).
  assert (F !! who addr = Some y) as Ea by by rewrite Ew.
  assert (j ∈ j :: js) as Hin by by left.
  pose proof (knows_ready F h x j y addr fuel Hw Hc Hwy (Hk _ _ Hin Ho) Ea Ht Hfuel) as R.
  destruct (ready_pull _ _ _ _ _ _ R) as (s1' & E' & Hw1 & Hc1 & Hk1 & Hd). rewrite E in E'. injection E' as <-.
  destruct (@syncPeer_keeps (λ _, false) _ (st_time (sites h)) (network (λ _, false) F) (network_laws _ _) _ _ _ _ _ _ Hw E) as [Hold Hp].
  assert (advances (sv_node x) s1) as Ha by by split.
  split_and!; [done| |split; [done|split; [done|]]].
  - destruct Hd as [Ed|?]; [|done]. intros m Hm. apply Hk1. revert m Hm. by apply told_dominates; [apply Hwy|..].
  - intros nd tp Hnd Hn. apply (knows_step _ U nd tp x); [done| |by left|apply Hk; [by right|done]].
    intros row Hr. left. simpl in Hr. rewrite Hp in Hr; [done|]. by intros ->.
Qed.

Lemma collects_informed F h js x x' :
  fleet_ok F → collects F h js x x' → informed F h js x →
  (older (tables_of x) (tables_of x') ∧ ∀ m, dominates (tables_of x) m → dominates (tables_of x') m) ∧ wf_store (tables_of x') ∧
  ∀ j y, j ∈ js → F !! j = Some y → dominates_all (tables_of x') (tables_of y).
Proof.
  intros HF Hcol. induction Hcol as [x|j js y addr fuel x s1 x' Hj Hjs Hy Ew Ht Hfuel Htell E _ IH]; intros Hi.
  { split_and!; [done|done|apply Hi|]. intros j y Hin. by apply not_elem_of_nil in Hin. }
  destruct (informed_pull F h j js y addr fuel x s1) as (Ha & Hd & Hi1); try done.
  destruct (IH Hi1) as ([Ho Hk] & Hw' & Hall). split_and!; [etrans; [apply Ha|exact Ho]| |done|].
  - intros m Hm. by apply Hk, Ha.
  - intros j' y' [->|Hin]%elem_of_cons Hy'; [|by eapply Hall].
    rewrite Hy in Hy'. apply (inj Some) in Hy' as <-. intros m Hm. by apply Hk, Hd.
Qed.

(** One round around a node brings agreement, from any state of this kind. *)
Lemma ok_agrees F h x js x' :
  fleet_ok F → F !! h = Some x → collects F h js x x' →
  (∀ m, dominates (tables_of x) m → dominates (tables_of x') m) ∧
  ∀ j y addr fuel, j ∈ js → F !! j = Some y → j ≠ h → who addr = h → takes j y (tables_of x') →
    (length (rows (tables_of x')) < MaxManifestPage * fuel)%nat →
    same_writes (tables_of y) (tables_of x') → compatible (tables_of y) (tables_of x') →
    ∃ s', @syncPeer (λ _, false) _ (st_time (sites j)) (network (λ _, false) (<[h := x']> F)) (st_cfg (sites j)) fuel h addr (sv_node y) = (Ok true, s') ∧
      digest_of (tbl (db s')) = digest_of (tables_of x') ∧ (∀ m, dominates (tables_of y) m → dominates (tbl (db s')) m).
Proof.
  intros HF Hx Hcol. destruct (HF _ _ Hx) as [Hok Hc _ _ Hk].
  destruct (collects_informed F h js x x' HF Hcol) as ([Ho Hkx] & Hw' & Hall).
  { split; [apply Hok|split; [done|]]. intros nd tp _. apply Hk. }
  split; [done|]. intros j y addr fuel Hj Hy Hne Ew Ht Hfuel Hs Hcp. destruct (HF _ _ Hy) as [Hoky Hcy _ _ Hky].
  assert (@ready (λ _, false) _ (st_time (sites j)) (network (λ _, false) (<[h := x']> F)) (st_cfg (sites j)) h addr
    (tables_of x') (sv_node y) fuel) as R.
  { apply (knows_ready _ j y h x'); try done; [apply Hoky| |by rewrite Ew, lookup_insert_eq].
    eapply knows_older; [exact Ho|]. apply Hky. split; [done|by eauto]. }
  destruct (pull_agrees _ _ _ _ _ _ R Hs) as (s' & E & _ & Hk' & Ed); [|by exists s'].
  right. split; [done|]. by eapply Hall.
Qed.
End fleet.
