(* ===== verification/PullEnds.v ===== *)
(** * Every pull ends

    The loop of syncPeer has no bound of its own, and a peer that answers with anything can keep it going
    ([pull_never_ends]).  Against a peer that answers from its tables, or not at all, it ends from whatever state
    it is in, and the peer can be pulled from again. *)
From S2P Require Import Prelude GoStrings Clock Paths Crypto Entry Store StoreFacts Resolve Syncer SyncerFacts Transport Client Wire AntiEntropy AntiFacts Pages Convergence Exchange Cluster Service Advance Bookmarks Fleet.

(** The size of a page is 2000 as a unary number: never to be unfolded by conversion. *)
#[local] Arguments MaxManifestPage : simpl never.
#[local] Opaque MaxManifestPage.

Section ends.
Context `{DBFaults, Sha256, SystemTime, PeerClient} (cfg : Config) (nd addr : string).
Implicit Types (s : node) (ps : pull_state) (tp : tables).

(** The pull can be stepped until it is done. *)
Definition ends ps s : Prop := ∃ r s', leads cfg nd addr ps s (PDone r) s'.

Lemma ends_done r s : ends (PDone r) s.
Proof. exists r, s. apply leads_refl. Qed.

(** One action, after which it ends whatever came out. *)
Lemma ends_step {A} ps (q : ST node A) (f : A → pull_state) s :
  pstep cfg nd addr ps = step_to q f → (∀ a s1, q s = (Ok a, s1) → ends (f a) s1) → ends ps s.
Proof.
  intros Ep Hf. destruct (q s) as [[a|e] s1] eqn:Eq.
  - destruct (Hf a s1 eq_refl) as (r & s' & Hl). exists r, s'. by eapply leads_step.
  - exists (Err e), s1. eapply leads_step; [done|exact Eq|]. apply leads_refl.
Qed.

(** From a page on, if it ends from the request for the next. *)
Lemma ends_page page bookmark s :
  (∀ b s1, m_More page = true → ends (PFetch (m_Head page) b) s1) → ends (PApply page bookmark) s ∧ ends (PRecord page bookmark) s.
Proof.
  intros Hn. assert (∀ b s1, ends (PRecord page b) s1) as Hr.
  { intros b s1. eapply ends_step; [reflexivity|]. intros [] s2 _. destruct (m_More page); simpl; [by apply Hn|apply ends_done]. }
  split; [|apply Hr]. eapply ends_step; [reflexivity|]. intros safe s1 _. apply Hr.
Qed.

(** Each page with more to come leaves less of the feed. *)
Lemma ends_fetch tp k : truthful addr tp → wf_tables tp →
  ∀ cursor bookmark s, (length (feed cursor tp) < k)%nat → ends (PFetch cursor bookmark) s.
Proof.
  intros Htr Hw. induction k as [|k IH]; intros cursor bookmark s Hk; [lia|].
  eapply ends_step; [reflexivity|]. intros page s1 Ep. unfold request in Ep. injection Ep as Ep _.
  apply (tr_manifest _ _ Htr) in Ep. cbv beta. destruct (m_Entries page) as [|m ms] eqn:Em; [apply ends_done|].
  apply ends_page. intros b s2 Hm. apply IH. subst page.
  destruct (manifest_of_more cursor tp Hw Hm) as (E & _ & _). rewrite E, Em, length_app in Hk. cbn [length] in Hk. lia.
Qed.

Lemma pull_state_ends tp ps s : truthful addr tp → wf_tables tp → ps ≠ PLogged → ends ps s.
Proof.
  intros Htr Hw Hps. assert (∀ cursor b s1, ends (PFetch cursor b) s1) as Hf.
  { intros cursor b s1. eapply (ends_fetch tp); [done..|apply Nat.lt_succ_diag_r]. }
  assert (∀ remote s1, ends (PSince remote) s1) as Hs.
  { intros remote s1. eapply ends_step; [reflexivity|]. intros since s2 _. apply Hf. }
  assert (∀ remote s1, ends (PAgree remote) s1) as Ha.
  { intros remote s1. eapply ends_step; [reflexivity|]. intros [] s2 _. apply ends_done. }
  assert (∀ remote s1, ends (PDigest remote) s1) as Hd.
  { intros remote s1. eapply ends_step; [reflexivity|]. intros [[local n] h] s2 _. by destruct (String.eqb local (d_Digest remote)). }
  destruct ps as [|remote|remote|remote|cursor bookmark|page bookmark|page bookmark|r|]; auto using ends_done; try done.
  - eapply ends_step; [reflexivity|]. intros remote s1 _. apply Hd.
  - by apply ends_page.
  - by apply ends_page.
Qed.

(** The steps of a pull are steps of the service. *)
Lemma leads_steps x l1 g l2 ps' s' :
  g_node g = nd → g_addr g = addr → pulls x = l1 ++ g :: l2 → leads cfg nd addr (g_state g) (sv_node x) ps' s' →
  rtc (step cfg) x (set_node s' (set_pulls (l1 ++ mkGo nd addr ps' :: l2) x)).
Proof.
  intros Hn Ha E [k Hk]. revert x g Hn Ha E Hk.
  induction k as [|k IH]; intros x g Hn Ha E Hk; cbn [psteps] in Hk.
  { injection Hk as <- <-. subst nd addr. destruct x as [s sy ps ls le], g as [gn ga gs]. simpl in *. by rewrite E. }
  unfold mbind, ST_bind in Hk. destruct (pstep cfg nd addr (g_state g) (sv_node x)) as [[ps1|e] s1] eqn:Ep; [|done].
  eapply rtc_l.
  - eapply (step_pull cfg l1 g l2 ps1 s1); [exact E|]. by rewrite Hn, Ha.
  - by eapply (IH (set_node s1 (set_pulls (l1 ++ mkGo (g_node g) (g_addr g) ps1 :: l2) x)) (mkGo (g_node g) (g_addr g) ps1)).
Qed.
End ends.

Section service.
Context `{DBFaults, Sha256, SystemTime, PeerClient} (cfg : Config).

(** A pull whose peer answers truthfully or not at all ends, and the mark of the peer is taken back. *)
Lemma service_pull_ends x l1 g l2 tp :
  pulls x = l1 ++ g :: l2 → truthful (g_addr g) tp → wf_tables tp →
  ∃ y, rtc (step cfg) x y ∧ pulls y = l1 ++ l2 ∧ syncing y = syncing x ∖ {[g_node g]}.
Proof.
  intros E Htr Hw.
  assert (∀ x1, pulls x1 = l1 ++ mkGo (g_node g) (g_addr g) PLogged :: l2 → syncing x1 = syncing x →
    ∃ y, step cfg x1 y ∧ pulls y = l1 ++ l2 ∧ syncing y = syncing x ∖ {[g_node g]}) as Hexit.
  { intros x1 E1 Es. eexists. split; [by eapply (step_exit cfg l1 (mkGo (g_node g) (g_addr g) PLogged) l2)|]. simpl. by rewrite Es. }
  assert (g_state g = PLogged ∨ g_state g ≠ PLogged) as [El|Hne] by (destruct (g_state g); auto).
  { destruct (Hexit x) as (y & Hy & ?); [by destruct g; simpl in *; subst|done|]. exists y. split; [by apply rtc_once|done]. }
  destruct (pull_state_ends cfg (g_node g) (g_addr g) tp (g_state g) (sv_node x) Htr Hw Hne) as (r & s' & Hl).
  pose proof (leads_steps cfg (g_node g) (g_addr g) x l1 g l2 _ _ eq_refl eq_refl E Hl) as Hr.
  set (x1 := set_node s' (set_pulls (l1 ++ mkGo (g_node g) (g_addr g) (PDone r) :: l2) x)) in *.
  destruct (Hexit (set_pulls (l1 ++ mkGo (g_node g) (g_addr g) PLogged :: l2) (recordSync (reported r false) x1))) as (y & Hy & ?); [done..|].
  exists y. split; [|done]. eapply rtc_r; [eapply rtc_r; [exact Hr|]|exact Hy].
  by eapply (step_record cfg l1 (mkGo (g_node g) (g_addr g) (PDone r)) l2 r false).
Qed.
(** A peer that is not marked is pulled from when it is named. *)
Lemma triggerSync_starts nd addr x : nd ≠ EmptyString → addr ≠ EmptyString → nd ≠ Node cfg → ¬ nd ∈ syncing x →
  pulls (triggerSync cfg nd addr x) = pulls x ++ [mkGo nd addr PStart].
Proof.
  intros Hn Ha Hs Hout. unfold triggerSync.
  by rewrite (proj2 (String.eqb_neq _ _) Hn), (proj2 (String.eqb_neq _ _) Ha), (proj2 (String.eqb_neq _ _) Hs), (bool_decide_false _ Hout).
Qed.
End service.
