(* ===== verification/Restarts.v ===== *)
(** * Restarts

    A node that restarts has its database and a clock at zero.  If the system clock is by then past the reading the
    clock had, nobody can tell: the first thing a clock does with a later time is to take it.  So a fleet
    whose nodes restart is, clocks apart, a fleet whose nodes only ever stop and go on. *)
From S2P Require Import Prelude GoStrings Clock Paths Crypto Entry Store StoreFacts Resolve Syncer SyncerFacts Transport Client Wire AntiEntropy AntiFacts Pages Convergence Exchange Cluster Service Advance Bookmarks Fleet.

Create HintDb alike discriminated.

(** ** Nodes that differ in the clock only *)
Section alike.
Context `{DBFaults, Sha256, SystemTime}.
Implicit Types (s v : node) (c : Timestamp).

(** The system clock is past the reading from now on. *)
Definition behind_time c s : Prop := ∀ n, (ticks s ≤ n)%nat → Wall c < time_now n.

(** Equal, but for clocks that no coming time will ask. *)
Definition alike s v : Prop :=
  v = set_clock (clock v) s ∧
  (clock s = clock v ∨
   behind_time (clock s) s ∧ behind_time (clock v) v ∧ Counter (clock s) = 0 ∧ Counter (clock v) = 0).

Lemma alike_refl s : alike s s.
Proof. split; [by destruct s|by left]. Qed.

(** The same results, and states that are alike, from states that are alike. *)
Definition same {A} (m1 m2 : ST node A) : Prop :=
  ∀ s v, alike s v → (m1 s).1 = (m2 v).1 ∧ alike (m1 s).2 (m2 v).2.

Lemma same_ret {A} (a : A) : same (mret a) (mret a).
Proof. by intros s v. Qed.
Lemma same_throw {A} e : same (throw e : ST node A) (throw e).
Proof. by intros s v. Qed.
Lemma same_lift {A} (r : result A) : same (lift r) (lift r).
Proof. by intros s v. Qed.

Lemma same_bind {A B} (m1 m2 : ST node A) (k1 k2 : A → ST node B) :
  same m1 m2 → (∀ a, same (k1 a) (k2 a)) → same (m1 ≫= k1) (m2 ≫= k2).
Proof.
  intros Hm Hk s v Hsv. destruct (Hm s v Hsv) as [E Ha]. unfold mbind, ST_bind.
  destruct (m1 s) as [r1 s1], (m2 v) as [r2 v1]. simpl in *. subst r2. destruct r1; [by apply Hk|done].
Qed.

Lemma same_attempt {A} (m1 m2 : ST node A) : same m1 m2 → same (attempt m1) (attempt m2).
Proof.
  intros Hm s v Hsv. destruct (Hm s v Hsv) as [E Ha]. unfold attempt.
  destruct (m1 s) as [r1 s1], (m2 v) as [r2 v1]. simpl in *. by subst r2.
Qed.

Lemma alike_other s v : alike s v → v = set_clock (clock v) s.
Proof. by intros []. Qed.

Lemma alike_ticks s v : alike s v → ticks v = ticks s.
Proof. intros Hsv. by rewrite (alike_other _ _ Hsv). Qed.

(** Anything that leaves the clock, and the times already read, where they are. *)
Lemma alike_step f s v :
  (∀ s0 c, f (set_clock c s0) = set_clock c (f s0)) → (∀ s0, clock (f s0) = clock s0) → (∀ s0, (ticks s0 ≤ ticks (f s0))%nat) →
  alike s v → alike (f s) (f v).
Proof.
  intros Hf Hc Ht [E Hclk]. split; [by rewrite Hc, <- Hf, <- E|]. rewrite !Hc.
  destruct Hclk as [?|(Hs & Hv & ? & ?)]; [by left|right]. split_and!; try done;
    intros n Hn; [apply Hs|apply Hv]; etrans; by eauto.
Qed.

Lemma same_modify f :
  (∀ s0 c, f (set_clock c s0) = set_clock c (f s0)) → (∀ s0, clock (f s0) = clock s0) → (∀ s0, ticks (f s0) = ticks s0) →
  same (modify f) (modify f).
Proof. intros Hf Hc Ht s v Hsv. split; [done|]. apply alike_step; auto. intros s0. by rewrite Ht. Qed.

Lemma same_gets {A} (f : node → A) : (∀ s0 c, f (set_clock c s0) = f s0) → same (gets f) (gets f).
Proof. intros Hf s v Hsv. split; [|done]. simpl. by rewrite (alike_other _ _ Hsv), Hf. Qed.

Lemma same_on_db {A} (q : ST DB A) : same (on_db q) (on_db q).
Proof.
  intros s v Hsv. pose proof (alike_other _ _ Hsv) as E. assert (db v = db s) as Ed by by rewrite E.
  unfold on_db, zoom. rewrite Ed. destruct (q (db s)) as [r d]. split; [done|]. by apply (alike_step (set_db d)).
Qed.

Lemma same_request {A} (ask1 ask2 : nat → result A) : (∀ i, ask1 i = ask2 i) → same (request ask1) (request ask2).
Proof.
  intros Ha s v Hsv. pose proof (alike_other _ _ Hsv) as E. assert (reqs v = reqs s) as Er by by rewrite E.
  unfold request. split; [simpl; by rewrite Er|]. simpl. rewrite Er. by apply (alike_step (set_reqs (S (reqs s)))).
Qed.

Lemma alike_tick s v : alike s v → ticks v = ticks s ∧ alike (set_ticks (S (ticks s)) s) (set_ticks (S (ticks s)) v).
Proof.
  intros Hsv. pose proof (alike_other _ _ Hsv) as E. assert (ticks v = ticks s) as Et by by rewrite E. split; [done|].
  destruct Hsv as [_ Hclk]. split; [rewrite E at 1; by destruct s|]. destruct Hclk as [?|(Hs & Hv & ? & ?)]; [by left|right].
  split_and!; try done; intros n Hn; simpl in Hn; [apply Hs; lia|apply Hv; lia].
Qed.

Lemma same_now : same now now.
Proof. intros s v Hsv. destruct (alike_tick _ _ Hsv) as [Et Ha]. unfold now. rewrite Et. done. Qed.

(** A later time makes clocks equal. *)
Lemma Now_later p c c' : Wall c < p → Wall c' < p → Now p c = Now p c'.
Proof. intros Hc Hc'. unfold Now. rewrite !Z.gtb_ltb. by rewrite (proj2 (Z.ltb_lt _ _) Hc), (proj2 (Z.ltb_lt _ _) Hc'). Qed.

Lemma Observe_later p remote c c' :
  Wall c < p → Wall c' < p →
  (Observe p remote c).1 = (Observe p remote c').1 ∧
  ((Observe p remote c).2 = (Observe p remote c').2 ∨ (Observe p remote c).2 = c ∧ (Observe p remote c').2 = c').
Proof.
  intros Hc Hc'. unfold Observe. destruct (wrap64 (Wall remote - p) >? MaxClockDrift); [by auto|]. cbv zeta.
  rewrite (Z.max_l p (Wall c)), (Z.max_l p (Wall c')) by lia.
  assert (∀ c0, Wall c0 < p → (Z.max p (Wall remote) =? Wall c0) = false) as Hne by (intros; apply Z.eqb_neq; lia).
  rewrite !(Hne c), !(Hne c') by done. simpl. auto.
Qed.

Lemma same_clock (f : Z → Timestamp → result Timestamp * Timestamp) :
  (∀ p c c', Wall c < p → Wall c' < p →
     (f p c).1 = (f p c').1 ∧ ((f p c).2 = (f p c').2 ∨ (f p c).2 = c ∧ (f p c').2 = c')) →
  same (p ← now; zoom clock set_clock (f p)) (p ← now; zoom clock set_clock (f p)).
Proof.
  intros Hf s v Hsv. destruct (alike_tick _ _ Hsv) as [Et [E Hclk]]. pose proof Hsv as [_ Hclk0].
  unfold mbind, ST_bind, now, zoom. rewrite Et. set (p := time_now (ticks s)).
  change (clock (set_ticks (S (ticks s)) s)) with (clock s) in *. change (clock (set_ticks (S (ticks s)) v)) with (clock v) in *.
  assert ((f p (clock s)).1 = (f p (clock v)).1 ∧ ((f p (clock s)).2 = (f p (clock v)).2 ∨ (f p (clock s)).2 = clock s ∧ (f p (clock v)).2 = clock v))
    as [E1 E2].
  { destruct Hclk0 as [->|(Hs & Hv & _ & _)]; [by auto|]. apply Hf; [apply Hs; lia|apply Hv; lia]. }
  destruct (f p (clock s)) as [r c] eqn:Es, (f p (clock v)) as [r' c'] eqn:Ev. simpl in E1, E2 |- *. split; [done|].
  split; [simpl; rewrite E; by destruct s|]. simpl. destruct E2 as [->|[-> ->]]; [by left|]. exact Hclk.
Qed.

Lemma same_clock_observe r : same (clock_observe r) (clock_observe r).
Proof. apply (same_clock (λ p, Observe p r)). intros p c c'. apply Observe_later. Qed.

Lemma same_clock_now : same clock_now clock_now.
Proof.
  intros s v Hsv. pose proof (same_clock (λ p c, (Ok (Now p c), Now p c))) as Hf.
  destruct (Hf (λ p c c' Hc Hc', conj (f_equal Ok (Now_later p c c' Hc Hc')) (or_introl (Now_later p c c' Hc Hc'))) s v Hsv) as [E Ha].
  exact (conj E Ha).
Qed.
End alike.

#[export] Hint Resolve same_ret same_throw same_lift same_bind same_attempt same_on_db same_request same_now
  same_clock_observe same_clock_now : alike.

(** Follows the structure of two programs that are the same text. *)
Ltac same_tac :=
  repeat first [ progress intros | solve [auto 2 with alike] | apply same_bind | case_match ].

(** ** Every operation of the syncer *)
Section operations.
Context `{DBFaults, Sha256, SystemTime} (cfg : Config).

Lemma same_lookup p : same (lookup p) (lookup p).
Proof. unfold lookup. same_tac. Qed.

Lemma same_notify : same notify notify.
Proof. by apply same_modify. Qed.
Lemma same_Announce seq : same (Syncer.Announce seq) (Syncer.Announce seq).
Proof. by apply same_modify. Qed.
Hint Resolve same_lookup same_notify same_Announce : alike.

Lemma same_commit ms : same (commit cfg ms) (commit cfg ms).
Proof. unfold commit. same_tac. Qed.
Hint Resolve same_commit : alike.

Lemma same_run_edit e : same (run_edit cfg e) (run_edit cfg e).
Proof. destruct e; simpl; [unfold PutFile|unfold PutDir|unfold SetAttr|unfold Delete]; same_tac. Qed.

Lemma same_Subscribe : same Subscribe Subscribe.
Proof.
  unfold Subscribe. apply same_bind; [by apply same_gets|]. intros id. apply same_bind; [by apply same_modify|].
  intros _. apply same_ret.
Qed.
Lemma same_unsubscribe id : same (unsubscribe id) (unsubscribe id).
Proof. by apply same_modify. Qed.
Lemma same_receive id : same (receive id) (receive id).
Proof.
  unfold receive. apply same_bind; [by apply same_gets|]. intros m. apply same_bind; [by apply same_modify|].
  intros _. apply same_ret.
Qed.

Lemma same_collect : same (collect cfg) (collect cfg).
Proof. unfold collect. same_tac. Qed.
End operations.

#[export] Hint Resolve same_lookup same_commit same_run_edit same_Subscribe same_unsubscribe same_receive same_collect : alike.

(** Pulls, against two peers that give the same answers. *)
Section pulls.
Context `{DBFaults, Sha256, SystemTime} (P1 P2 : PeerClient) (cfg : Config).

Definition same_answers : Prop :=
  (∀ i addr, @peer_Digest P1 i addr = @peer_Digest P2 i addr) ∧
  (∀ i addr since, @peer_Manifest P1 i addr since = @peer_Manifest P2 i addr since) ∧
  (∀ i addr hash, @peer_Blob P1 i addr hash = @peer_Blob P2 i addr hash).

Context (Hans : same_answers).

Lemma same_ensureBlob addr hash : same (@ensureBlob _ _ P1 cfg addr hash) (@ensureBlob _ _ P2 cfg addr hash).
Proof.
  unfold ensureBlob. apply same_bind; [auto with alike|]. intros [|]; [auto with alike|].
  apply same_bind; [apply same_request; intros i; apply Hans|]. same_tac.
Qed.

Lemma same_conflictCopy local : same (conflictCopy cfg local) (conflictCopy cfg local).
Proof. unfold conflictCopy. same_tac. Qed.
Hint Resolve same_ensureBlob same_conflictCopy : alike.

Lemma same_apply_entry addr m a : same (@apply_entry _ _ _ P1 cfg addr m a) (@apply_entry _ _ _ P2 cfg addr m a).
Proof. unfold apply_entry. same_tac. Qed.
Hint Resolve same_apply_entry : alike.

Lemma same_apply_entries addr ms : ∀ a, same (@apply_entries _ _ _ P1 cfg addr ms a) (@apply_entries _ _ _ P2 cfg addr ms a).
Proof. induction ms as [|m ms IH]; intros a; simpl; same_tac. Qed.
Hint Resolve same_apply_entries : alike.

Lemma same_applyRemote addr ms : same (@applyRemote _ _ _ P1 cfg addr ms) (@applyRemote _ _ _ P2 cfg addr ms).
Proof. unfold applyRemote. same_tac. Qed.
Hint Resolve same_applyRemote : alike.

Lemma same_pull fuel nd addr : ∀ cursor bookmark,
  same (@pull _ _ _ P1 cfg fuel nd addr cursor bookmark) (@pull _ _ _ P2 cfg fuel nd addr cursor bookmark).
Proof.
  induction fuel as [|fuel IH]; intros cursor bookmark; simpl; [auto with alike|].
  apply same_bind; [apply same_request; intros i; apply Hans|]. same_tac.
Qed.
Hint Resolve same_pull : alike.

Lemma same_syncPeer fuel nd addr : same (@syncPeer _ _ _ P1 cfg fuel nd addr) (@syncPeer _ _ _ P2 cfg fuel nd addr).
Proof. unfold syncPeer. apply same_bind; [apply same_request; intros i; apply Hans|]. same_tac. Qed.

Lemma same_step_to {A} (q1 q2 : ST node A) k : same q1 q2 → same (step_to q1 k) (step_to q2 k).
Proof. intros Hq. unfold step_to. apply same_bind; [by apply same_attempt|]. intros r. apply same_ret. Qed.

Lemma same_pstep nd addr ps : same (@pstep _ _ _ P1 cfg nd addr ps) (@pstep _ _ _ P2 cfg nd addr ps).
Proof.
  destruct ps; cbn [pstep]; try apply same_step_to; try apply same_ret; same_tac; apply same_request; intros i; apply Hans.
Qed.
End pulls.

(** ** Services *)
Section services.
Context `{DBFaults, Sha256, SystemTime} (P1 P2 : PeerClient) (Hans : same_answers P1 P2) (cfg : Config).
Implicit Types (x y v w : service).

(** The same service over nodes that are alike. *)
Definition alike_service x v : Prop := v = set_node (sv_node v) x ∧ alike (sv_node x) (sv_node v).

Lemma alike_service_refl x : alike_service x x.
Proof. split; [by destruct x|apply alike_refl]. Qed.

Lemma alike_tables x v : alike_service x v → tables_of v = tables_of x.
Proof. intros [_ Ha]. by rewrite (alike_other _ _ Ha). Qed.

Lemma alike_pulls x v : alike_service x v → pulls v = pulls x.
Proof. intros [E _]. by rewrite E. Qed.

(** A step of the node, taken by both. *)
Lemma alike_node {A} (m1 m2 : ST node A) x v :
  same m1 m2 → alike_service x v → alike_service (set_node (m1 (sv_node x)).2 x) (set_node (m2 (sv_node v)).2 v).
Proof. intros Hm [E Ha]. split; [by rewrite E|]. simpl. by apply Hm. Qed.

Lemma triggerSync_node nd addr s x : triggerSync cfg nd addr (set_node s x) = set_node s (triggerSync cfg nd addr x).
Proof. unfold triggerSync. cbn [set_node syncing sv_node pulls lastSync lastErr]. by repeat case_match. Qed.

Lemma handle_event_node e s x : handle_event cfg e (set_node s x) = set_node s (handle_event cfg e x).
Proof. unfold handle_event. destruct (ev_Kind e); by rewrite ?triggerSync_node. Qed.

Lemma syncAll_node ms s x : syncAll cfg ms (set_node s x) = set_node s (syncAll cfg ms x).
Proof.
  unfold syncAll. destruct (HasPeers cfg); simpl; [|done]. revert x.
  induction ms as [|m ms IH]; intros x; simpl; [done|]. rewrite <- IH. f_equal.
  case_match; [done|apply triggerSync_node].
Qed.

(** What leaves the node alone. *)
Lemma alike_quiet (f : service → service) x v :
  (∀ s x, f (set_node s x) = set_node s (f x)) → (∀ x, sv_node (f x) = sv_node x) → alike_service x v → alike_service (f x) (f v).
Proof. intros Hf Hn [E Ha]. split; [by rewrite Hn, <- Hf, <- E|by rewrite !Hn]. Qed.

Lemma pull_at_node n s x : pull_at n (set_node s x) = pull_at n x.
Proof. done. Qed.

(** Every action one service can take, the other can, and they stay alike. *)
Lemma perform_alike a x v y : @perform _ _ _ P1 cfg a x = Some y → alike_service x v →
  ∃ w, @perform _ _ _ P2 cfg a v = Some w ∧ alike_service y w.
Proof.
  intros E Hxv. pose proof (alike_pulls _ _ Hxv) as Ep.
  assert (∀ n, pull_at n v = pull_at n x) as Eat by (intros n; unfold pull_at; by rewrite Ep).
  destruct a as [e| |id|id|e|ms| |n|n c|n]; cbn [perform] in E |- *;
    try (apply (inj Some) in E as <-; eexists; (split; [reflexivity|])).
  - apply alike_node; auto with alike.
  - apply alike_node; auto with alike.
  - apply alike_node; auto with alike.
  - apply alike_node; auto with alike.
  - apply alike_quiet; [apply handle_event_node|intros z; apply (handle_event_more cfg)|done].
  - apply alike_quiet; [apply syncAll_node|intros z; apply (syncAll_more cfg)|done].
  - apply alike_node; auto with alike.
  - rewrite Eat. destruct (pull_at n x) as [[[l1 g] l2]|]; cbn [mbind option_bind] in *; [|done].
    destruct (same_pstep P1 P2 cfg Hans (g_node g) (g_addr g) (g_state g) (sv_node x) (sv_node v) (proj2 Hxv)) as [Er Ha].
    destruct (@pstep _ _ _ P1 cfg (g_node g) (g_addr g) (g_state g) (sv_node x)) as [r1 s1],
      (@pstep _ _ _ P2 cfg (g_node g) (g_addr g) (g_state g) (sv_node v)) as [r2 s2]. cbn [fst snd] in Er, Ha. subst r2.
    destruct r1 as [ps|e]; [|done]. apply (inj Some) in E as <-. eexists. split; [done|]. split; [|done].
    rewrite (proj1 Hxv). done.
  - rewrite Eat. destruct (pull_at n x) as [[[l1 g] l2]|]; cbn [mbind option_bind] in *; [|done].
    destruct (g_state g); try done. apply (inj Some) in E as <-. eexists. split; [done|].
    destruct (alike_tick _ _ (proj2 Hxv)) as [Et Ha]. unfold recordSync, now. split; [|rewrite <- Et in Ha at 2; exact Ha].
    destruct Hxv as [Ev _]. destruct v, x. injection Ev as -> -> -> ->. cbn in Et |- *. by rewrite Et.
  - rewrite Eat. destruct (pull_at n x) as [[[l1 g] l2]|]; cbn [mbind option_bind] in *; [|done].
    destruct (g_state g); try done. apply (inj Some) in E as <-. eexists. split; [done|].
    split; [|apply Hxv]. rewrite (proj1 Hxv). done.
Qed.
End services.
