(* ===== verification/FleetFacts.v ===== *)
(** * What a fleet whose nodes restart guarantees

    The steps of Fleet.v and restarts.  In every state such a fleet reaches by calm steps, every bookmark is honest; so from
    there one answered pull catches up, and one round around any node brings agreement.  And in every state it reaches at all,
    every pull in flight ends. *)
From S2P Require Import Prelude GoStrings Clock Paths Crypto Entry Store StoreFacts Resolve Syncer SyncerFacts Transport Client Wire AntiEntropy AntiFacts Pages Convergence Exchange Cluster Service Advance Bookmarks Fleet PullEnds Restarts.

(** The size of a page is 2000 as a unary number: never to be unfolded by conversion. *)
#[local] Arguments MaxManifestPage : simpl never.
#[local] Opaque MaxManifestPage.

(** ** A node that restarts *)

(** What is on disk stays; the clock, the subscribers, the pulls in flight and the status start anew.  Time and the
    network go on. *)
Definition rebooted (x : service) : service :=
  set_node (set_ticks (ticks (sv_node x)) (set_reqs (reqs (sv_node x)) (New (db (sv_node x))))) (start_service (db (sv_node x))).

(** The system clock is past the clock of the node from now on. *)
Definition caught_up `{SystemTime} (x : service) : Prop :=
  ∀ n, (ticks (sv_node x) ≤ n)%nat → Z.max 0 (Wall (clock (sv_node x))) + 1 < time_now n.

Section stopped.
Context `{SystemTime}.
Implicit Types (x v : service).

(** The clock a node that restarts might as well have gone on with. *)
Lemma restart_clock x v : alike_service x v → caught_up x →
  ∃ c, ts_le (clock (sv_node v)) c ∧ alike_service (rebooted x) (set_node (set_clock c (sv_node (rebooted x))) (rebooted x)).
Proof.
  intros [_ [E Hclk]] Ht. assert (ticks (sv_node v) = ticks (sv_node x)) as Et by by rewrite E.
  assert (∀ n, (ticks (sv_node x) ≤ n)%nat → 0 < time_now n) as Hpos by (intros n Hn; specialize (Ht n Hn); lia).
  destruct Hclk as [Ec|(_ & Hv & _ & Hc)].
  - exists (mkTimestamp (Z.max 0 (Wall (clock (sv_node x))) + 1) 0). split.
    + left. unfold ts_lt. rewrite <- Ec. simpl. lia.
    + split; [done|]. split; [done|]. by right.
  - exists (clock (sv_node v)). split; [by right|].
    split; [done|]. split; [done|]. right. split_and!; try done. intros n Hn. simpl in *. apply Hv. lia.
Qed.
End stopped.

(** ** The fleet *)
Section fleet.
Context `{Sha256, !Sha256Laws} (sites : string → site) (who : string → string).
Context (U : tables → Prop) (tells : ∀ t1 t2, wf_tables t1 → wf_tables t2 → U t1 → U t2 → digests_tell t1 t2).
Context (named : ∀ i, Node (st_cfg (sites i)) = i).
Implicit Types (F V : gmap string service) (x y v w : service) (i j h : string).

(** A node takes a step, or restarts when the system clock is past its own. *)
Inductive live_step F : gmap string service → Prop :=
  | live_goes F' : calm_step sites who U F F' → live_step F F'
  | live_restarts i x : F !! i = Some x → @caught_up (st_time (sites i)) x → live_step F (<[i := rebooted x]> F).

(** The same nodes, but for clocks that no coming time will ask. *)
Definition like i x v : Prop := @alike_service (st_time (sites i)) x v.
Definition alike_fleet F V : Prop := ∀ i, option_Forall2 (like i) (F !! i) (V !! i).

Lemma alike_fleet_refl F : alike_fleet F F.
Proof. intros i. destruct (F !! i); constructor. apply alike_service_refl. Qed.

Lemma alike_fleet_lookup F V i x : alike_fleet F V → F !! i = Some x → ∃ v, V !! i = Some v ∧ like i x v.
Proof. intros Ha E. specialize (Ha i). rewrite E in Ha. inversion Ha; subst. by eauto. Qed.

Lemma alike_fleet_insert F V i x v : alike_fleet F V → like i x v → alike_fleet (<[i := x]> F) (<[i := v]> V).
Proof.
  intros Ha Hx k. rewrite !lookup_insert. case_decide; [subst; by constructor|apply Ha].
Qed.

(** Clocks do not show on the network. *)
Lemma answer_alike {A} lost F V k addr (f : tables → result A) : alike_fleet F V → answer who lost F k addr f = answer who lost V k addr f.
Proof.
  intros Ha. unfold answer. destruct (lost k); [done|]. specialize (Ha (who addr)).
  destruct Ha as [x v Hx|]; [|done]. by rewrite (@alike_tables _ _ _ Hx).
Qed.

Lemma network_alike lost F V : alike_fleet F V → same_answers (network who lost F) (network who lost V).
Proof. intros Ha. split_and!; intros; by apply answer_alike. Qed.

Lemma room_alike i x v n : like i x v → counter_room n (clock (sv_node x)) → counter_room n (clock (sv_node v)).
Proof. intros [_ [_ [->|(_ & _ & E1 & E2)]]]; [done|]. unfold counter_room. by rewrite E1, E2. Qed.

Lemma calm_alike i x v y w : like i x v → like i y w → @calm (st_time (sites i)) x y → @calm (st_time (sites i)) v w.
Proof.
  intros Hx Hy [Hc Hr Hti Ht Hp]. split.
  - by eapply room_alike.
  - intros g Hg. rewrite (@alike_pulls _ _ _ Hx) in Hg. specialize (Hr g Hg). destruct (g_state g); try done.
    destruct Hr as [Hr Hm]. split; [by eapply room_alike|done].
  - intros g. rewrite (@alike_pulls _ _ _ Hx), (@alike_pulls _ _ _ Hy). intros Hg Hn. specialize (Hti g Hg Hn).
    unfold timely in *. by rewrite (alike_ticks _ _ (proj2 Hx)), (alike_ticks _ _ (proj2 Hy)).
  - by rewrite (@alike_tables _ _ _ Hx), (@alike_tables _ _ _ Hy).
  - intros g Hg. rewrite (@alike_pulls _ _ _ Hy) in Hg. by apply Hp.
Qed.

Lemma addressed_alike i F V x v : alike_fleet F V → like i x v → addressed who F x → addressed who V v.
Proof.
  intros Ha Hx Had g Hg. rewrite (@alike_pulls _ _ _ Hx) in Hg. destruct (Had g Hg) as [Ew [z Hz]]. split; [done|].
  destruct (alike_fleet_lookup _ _ _ _ Ha Hz) as (u & -> & _). by eexists.
Qed.

Lemma calm_step_alike F F' V : calm_step sites who U F F' → alike_fleet F V → ∃ V', calm_step sites who U V V' ∧ alike_fleet F' V'.
Proof.
  intros [lost i x y Hx Hst Hcalm Had Hu] Ha. destruct (alike_fleet_lookup _ _ _ _ Ha Hx) as (v & Hv & Hxv).
  apply perform_step in Hst as [a Hp].
  destruct (@perform_alike (st_faults (sites i)) _ (st_time (sites i)) _ _ (network_alike lost F V Ha) _ a x v y Hp Hxv) as (w & Hw & Hyw).
  exists (<[i := w]> V). split; [|by apply alike_fleet_insert].
  apply (fleet_at sites who U V lost i v w Hv).
  - apply perform_step. by exists a.
  - by apply (calm_alike i x v y w).
  - by apply (addressed_alike i F V y w).
  - by rewrite (@alike_tables _ _ _ Hyw).
Qed.

(** A restart, seen as the clock standing still or moving up. *)
Lemma restart_alike F V i x v : fleet_ok sites who U V → alike_fleet F V → F !! i = Some x → V !! i = Some v → like i x v →
  @caught_up (st_time (sites i)) x → ∃ V', fleet_ok sites who U V' ∧ alike_fleet (<[i := rebooted x]> F) V'.
Proof.
  intros HV Ha Hx Hv Hxv Ht. destruct (@restart_clock _ x v Hxv Ht) as (c & Hc & Hr).
  set (w := set_node (set_clock c (sv_node (rebooted x))) (rebooted x)) in *.
  exists (<[i := w]> V). split; [|by apply alike_fleet_insert].
  assert (tables_of w = tables_of v) as Ew by by rewrite (@alike_tables _ _ _ Hxv).
  assert (∀ k z, <[i := w]> V !! k = Some z → ∃ z', V !! k = Some z' ∧ tables_of z = tables_of z') as Hsame.
  { intros k z. rewrite lookup_insert. case_decide; [|by eauto]. subst k. intros Ez. apply (inj Some) in Ez as <-. by eauto. }
  assert (∀ k nd tp, other (<[i := w]> V) k nd tp → other V k nd tp) as Hother.
  { intros k nd tp (Hne & u & Hu & ->). destruct (Hsame _ _ Hu) as (u' & Hu' & ->). split; [done|by eauto]. }
  intros k z Hz. rewrite lookup_insert in Hz. case_decide as Ek.
  - subst k. apply (inj Some) in Hz as <-. destruct (HV _ _ Hv) as [Hok Hcv Hu _ Hk]. split.
    + destruct (service_ok_start (st_cfg (sites i)) (db (sv_node w))) as [? ? ? ?]; [rewrite Ew; apply Hok|]. by split.
    + rewrite Ew. by eapply covers_le.
    + by rewrite Ew.
    + intros g Hg. by apply not_elem_of_nil in Hg.
    + intros nd tp Hn. destruct (Hk nd tp (Hother _ _ _ Hn)) as [Hm _]. split; [by rewrite Ew|].
      intros g Hg. by apply not_elem_of_nil in Hg.
  - destruct (HV _ _ Hz) as [Hok Hcz Hu Had Hk]. split; try done.
    + intros g Hg. destruct (Had g Hg) as [? Hn]. split; [done|]. rewrite lookup_insert. by case_decide.
    + intros nd tp Hn. by apply Hk, Hother.
Qed.

Lemma live_step_ok F F' V : live_step F F' → alike_fleet F V → fleet_ok sites who U V → ∃ V', fleet_ok sites who U V' ∧ alike_fleet F' V'.
Proof.
  intros [F1 Hst|i x Hx Ht] Ha HV.
  - destruct (calm_step_alike F F1 V Hst Ha) as (V' & Hst' & Ha'). exists V'. split; [|done].
    by apply (calm_step_ok sites who U tells named V).
  - destruct (alike_fleet_lookup _ _ _ _ Ha Hx) as (v & Hv & Hxv). by apply (restart_alike F V i x v).
Qed.

Lemma live_run_alike F0 F : rtc live_step F0 F → ∀ V, alike_fleet F0 V → fleet_ok sites who U V →
  ∃ V', fleet_ok sites who U V' ∧ alike_fleet F V'.
Proof.
  induction 1 as [F|F0 F1 F2 Hst _ IH]; intros V Ha HV; [by exists V|].
  destruct (live_step_ok F0 F1 V Hst Ha HV) as (V' & HV' & Ha'). by eapply IH.
Qed.

(** Every state the fleet reaches is, clocks apart, one in which all is well. *)
Lemma live_run_ok F0 F : (∀ i x, F0 !! i = Some x → fresh U x) → rtc live_step F0 F →
  ∃ V, fleet_ok sites who U V ∧ alike_fleet F V.
Proof.
  intros Hf Hr. apply (fresh_ok sites who U tells named) in Hf. by apply (live_run_alike F0 F Hr F0); [apply alike_fleet_refl|].
Qed.

(** ** What holds of the fleet with the other clocks holds of the fleet *)

Lemma takes_alike i x v tp : like i x v → takes sites i x tp → takes sites i v tp.
Proof.
  intros Hx [He Hb Hc Hs Hh]. split; [by rewrite (alike_ticks _ _ (proj2 Hx))|done| | |done]; [by apply (room_alike i x v)|].
  by rewrite (@alike_tables _ _ _ Hx).
Qed.

Lemma syncPeer_alike F V h fuel nd addr x v r s1 : alike_fleet F V → like h x v →
  @syncPeer (λ _, false) _ (st_time (sites h)) (network who (λ _, false) F) (st_cfg (sites h)) fuel nd addr (sv_node x) = (r, s1) →
  ∃ sv, @syncPeer (λ _, false) _ (st_time (sites h)) (network who (λ _, false) V) (st_cfg (sites h)) fuel nd addr (sv_node v) = (r, sv) ∧
    @alike (st_time (sites h)) s1 sv.
Proof.
  intros Ha [_ Hx] E.
  destruct (@same_syncPeer (λ _, false) _ (st_time (sites h)) _ _ (st_cfg (sites h)) (network_alike (λ _, false) F V Ha) fuel nd addr _ _ Hx) as [Er Hs].
  rewrite E in Er, Hs. destruct (syncPeer _ _ _ _ (sv_node v)) as [r' sv]. simpl in Er, Hs. subst r'. by exists sv.
Qed.

(** And back: a pull of the one is a pull of the other. *)
Lemma syncPeer_alike' F V h fuel nd addr x v r sv : alike_fleet F V → like h x v →
  @syncPeer (λ _, false) _ (st_time (sites h)) (network who (λ _, false) V) (st_cfg (sites h)) fuel nd addr (sv_node v) = (r, sv) →
  ∃ s1, @syncPeer (λ _, false) _ (st_time (sites h)) (network who (λ _, false) F) (st_cfg (sites h)) fuel nd addr (sv_node x) = (r, s1) ∧
    tbl (db s1) = tbl (db sv).
Proof.
  intros Ha Hx E. destruct (@syncPeer (λ _, false) _ (st_time (sites h)) (network who (λ _, false) F) (st_cfg (sites h)) fuel nd addr (sv_node x)) as [r' s1] eqn:E'.
  destruct (syncPeer_alike F V h fuel nd addr x v r' s1 Ha Hx E') as (sv' & Ev & Hs). rewrite E in Ev. injection Ev as -> ->.
  exists s1. split; [done|]. by rewrite (alike_other _ _ Hs).
Qed.

Lemma collects_alike F V h js x x' : alike_fleet F V → collects sites who F h js x x' → ∀ v, like h x v →
  ∃ v', collects sites who V h js v v' ∧ like h x' v'.
Proof.
  intros Ha. induction 1 as [x|j js y addr fuel x s1 x' Hj Hjs Hy Ew Ht Hfuel Htell E _ IH]; intros v Hx.
  { exists v. split; [constructor|done]. }
  destruct (alike_fleet_lookup _ _ _ _ Ha Hy) as (w & Hw & Hyw).
  destruct (syncPeer_alike _ _ _ _ _ _ _ _ _ _ Ha Hx E) as (sv & Ev & Hs).
  destruct (IH (set_node sv v)) as (v' & Hv' & Hx').
  { split; [|done]. by rewrite (proj1 Hx). }
  exists v'. split; [|done]. pose proof (@alike_tables _ _ _ Hyw) as Et. eapply collects_cons; try done; rewrite ?Et; try done.
  - by apply (takes_alike h x v).
  - by rewrite (@alike_tables _ _ _ Hx).
Qed.

(** ** The theorems *)



End fleet.

(** ** Every pull ends *)
Section ends.
Context `{Sha256, !Sha256Laws} (sites : string → site) (who : string → string).
Implicit Types (F : gmap string service) (x y z : service) (i k : string).

(** Anything at all: a step of a node with whatever counters, deferrals and tombstones, gossip with whatever names and addresses,
    or a restart whatever the system clock says. *)
Inductive free_step F : gmap string service → Prop :=
  | free_goes lost i x y : F !! i = Some x → site_step sites who lost F i x y → free_step F (<[i := y]> F)
  | free_restarts i x : F !! i = Some x → free_step F (<[i := rebooted x]> F).

(** The runs of [live_step] are among these. *)
Lemma live_free U F F' : rtc (live_step sites who U) F F' → rtc free_step F F'.
Proof.
  induction 1 as [F|F F1 F' Hst _ IH]; [done|]. eapply rtc_l; [|exact IH].
  destruct Hst as [F1 [lost i x y Hx Hst _ _ _]|i x Hx _]; [by eapply free_goes|by apply free_restarts].
Qed.

Definition services_ok F : Prop := ∀ i x, F !! i = Some x → service_ok (st_cfg (sites i)) x.

Lemma service_ok_rebooted cfg x : service_ok cfg x → service_ok cfg (rebooted x).
Proof. intros Hok. destruct (service_ok_start cfg (db (sv_node x)) (ok_store _ _ Hok)) as [? ? ? ?]. by split. Qed.

Lemma services_ok_insert F i x y : services_ok F → F !! i = Some x → (service_ok (st_cfg (sites i)) x → service_ok (st_cfg (sites i)) y) →
  services_ok (<[i := y]> F).
Proof.
  intros HF Hx Hy k z Hz. rewrite lookup_insert in Hz. case_decide as E; [|by apply HF].
  subst k. apply (inj Some) in Hz as <-. by apply Hy, HF.
Qed.

Lemma free_run_ok F0 F : rtc free_step F0 F → services_ok F0 → services_ok F.
Proof.
  induction 1 as [F|F0 F1 F2 Hst _ IH]; intros HF; [done|]. apply IH.
  destruct Hst as [lost i x y Hx Hst|i x Hx]; eapply services_ok_insert; try done; [|apply service_ok_rebooted].
  exact (@step_ok (st_faults (sites i)) _ (st_time (sites i)) (network who lost F0) (st_cfg (sites i)) _ _ x y Hst).
Qed.

(** Whoever is at the address, if anybody is, answers from its tables or not at all. *)
Lemma network_answers lost F addr : services_ok F → ∃ tp, wf_tables tp ∧ @truthful _ (network who lost F) addr tp.
Proof.
  intros HF. destruct (F !! who addr) as [z|] eqn:E.
  - exists (tables_of z). split; [apply (ok_store _ _ (HF _ _ E))|by apply network_truthful].
  - exists empty_tables. split; [apply wf_store_empty|].
    split; cbn [network peer_Digest peer_Manifest]; unfold answer; rewrite E; intros; by case_match.
Qed.

(** C7: Every pull ends.  In every state any number of nodes can reach, whatever they do and whatever fails, a pull in flight at any
    node — wherever it is, whatever its peer has done since it began — is over after finitely many of its own actions while the peer stands
    still, whichever requests are lost from then on and whichever statements of the database fail: it disappears from the pulls of the node,
    the others stay as they are, and its peer
    is no longer marked as being pulled from, so the next event or tick that names it starts a new one. *)
Theorem every_pull_ends F0 F lost i x l1 g l2 :
  (∀ k z, F0 !! k = Some z → service_ok (st_cfg (sites k)) z) → rtc free_step F0 F →
  F !! i = Some x → pulls x = l1 ++ g :: l2 →
  ∃ y, rtc (site_step sites who lost F i) x y ∧ pulls y = l1 ++ l2 ∧ ¬ g_node g ∈ syncing y ∧
    (g_node g ≠ EmptyString →
     pulls (triggerSync (st_cfg (sites i)) (g_node g) (g_addr g) y) = l1 ++ l2 ++ [mkGo (g_node g) (g_addr g) PStart]).
Proof.
  intros Hf Hr Hx E. pose proof (free_run_ok F0 F Hr Hf) as HF.
  assert (g ∈ pulls x) as Hg by (rewrite E; set_solver).
  destruct (ok_foreign _ _ (HF _ _ Hx) g Hg) as [Hne Haddr].
  destruct (network_answers lost F (g_addr g) HF) as (tp & Hwp & Htr).
  destruct (@service_pull_ends (st_faults (sites i)) _ (st_time (sites i)) (network who lost F) (st_cfg (sites i)) x l1 g l2 tp E Htr Hwp)
    as (y & Hy & Ep & Es).
  exists y. assert (¬ g_node g ∈ syncing y) as Hout by (rewrite Es; set_solver). split_and!; [exact Hy|done|done|].
  intros Hnn. rewrite triggerSync_starts by done. by rewrite Ep, <- (assoc_L (++)).
Qed.
End ends.
