(* ===== verification/Serve.v ===== *)
(** * The process (cmd/dcfs/main.go and serve.go, Serve of transport/server.go)

    The flags, what runServe makes of them, the order in which it acquires and releases what a
    node is made of, and the group of goroutines it waits for.  Parsing the command line is
    urfave/cli's: what the user gave is an argument.  The host decides which call fails. *)
From S2P Require Import Prelude GoStrings Paths Crypto Entry Auth Transport Client Cluster Syncer Wire Status.

(** ** Flags *)

Inductive setting :=
  | FString (v : string)
  | FInt (v : Z)
  | FDuration (ns : Z)
  | FStrings (v : list string).

(** A flag, the environment variable it is read from and its default. *)
Record Flag := mkFlag { fl_Name : string; fl_Env : string; fl_Value : setting }.

Definition Second : Z := 10 ^ 9.
Definition Millisecond : Z := 10 ^ 6.
Definition Hour : Z := 3600 * Second.

Definition defaultNodeName (hostname : result string) : string :=
  match hostname with
  | Ok name => if String.eqb name EmptyString then "dcfs-node" else name
  | Err _ => "dcfs-node"
  end.

Definition globalFlags (hostname : result string) : list Flag :=
  [ mkFlag "secret" "DCFS_CLUSTER_SECRET" (FString "");
    mkFlag "node" "DCFS_NODE" (FString (defaultNodeName hostname));
    mkFlag "api-addr" "DCFS_API_ADDR" (FString "127.0.0.1:7947");
    mkFlag "log-level" "DCFS_LOG_LEVEL" (FString "info") ].

Definition serveFlags : list Flag :=
  [ mkFlag "db" "DCFS_DB" (FString "/var/lib/dcfs/dcfs.db");
    mkFlag "mirror" "DCFS_MIRROR_DIR" (FString "/etc/cluster");
    mkFlag "mount" "DCFS_MOUNT_POINT" (FString "");
    mkFlag "bind" "DCFS_BIND_ADDR" (FString "0.0.0.0");
    mkFlag "gossip-port" "DCFS_GOSSIP_PORT" (FInt 7946);
    mkFlag "advertise" "DCFS_ADVERTISE_ADDR" (FString "");
    mkFlag "advertise-gossip-port" "DCFS_ADVERTISE_GOSSIP_PORT" (FInt 0);
    mkFlag "advertise-api" "DCFS_ADVERTISE_API" (FString "");
    mkFlag "join" "DCFS_JOIN" (FStrings []);
    mkFlag "max-file-size" "DCFS_MAX_FILE_SIZE" (FInt (2 ^ 20));
    mkFlag "tombstone-ttl" "DCFS_TOMBSTONE_TTL" (FDuration (7 * 24 * Hour));
    mkFlag "sync-interval" "DCFS_SYNC_INTERVAL" (FDuration (30 * Second));
    mkFlag "scan-interval" "DCFS_SCAN_INTERVAL" (FDuration (60 * Second));
    mkFlag "janitor-interval" "DCFS_JANITOR_INTERVAL" (FDuration Hour);
    mkFlag "settle" "DCFS_SETTLE" (FDuration (300 * Millisecond)) ].

Inductive Action := RunServe | RunStatus | RunPeers | RunConflicts.

(** The subcommands: a name, the flags besides the global ones, what is run. *)
Definition command : list (string * list Flag * Action) :=
  [ ("serve", serveFlags, RunServe); ("status", [], RunStatus); ("peers", [], RunPeers);
    ("conflicts", [], RunConflicts) ]%string.

(** The process's exit code: main. *)
Definition exit_code (r : result unit) : Z := match r with Ok _ => 0 | Err _ => 1 end.

(** cli.Command: what it answers for the name of a flag, and whether the flag was given on the command
    line or in its environment variable. *)
Class Cli := {
  cmd_String : string → string;
  cmd_Int : string → Z;
  cmd_Duration : string → Z;
  cmd_StringSlice : string → list string;
  cmd_IsSet : string → bool
}.

(** A flag that was not given has its default. *)
Class CliLaws `{Cli} (flags : list Flag) : Prop := {
  cli_default f : f ∈ flags → cmd_IsSet (fl_Name f) = false →
    match fl_Value f with
    | FString v => cmd_String (fl_Name f) = v
    | FInt v => cmd_Int (fl_Name f) = v
    | FDuration v => cmd_Duration (fl_Name f) = v
    | FStrings v => cmd_StringSlice (fl_Name f) = v
    end
}.

(** The flags [dcfs serve] understands. *)
Definition all_flags (hostname : result string) : list Flag := globalFlags hostname ++ serveFlags.

(** ** What a node is configured with *)

(** cluster.Config. *)
Record JoinConfig := mkJoinConfig {
  jn_Node : string; jn_BindAddr : string; jn_BindPort : Z; jn_AdvertiseAddr : string;
  jn_AdvertisePort : Z; jn_APIAddr : string; jn_Join : list string
}.
Definition cluster_config (j : JoinConfig) : ClusterConfig := mkClusterConfig (jn_Node j) (jn_APIAddr j).

Record Wiring := mkWiring {
  w_keys : Keys;
  w_db : string;
  w_client : Client;
  w_join : JoinConfig;
  w_syncer : Config;
  w_SyncInterval : Z;
  w_JanitorInterval : Z;
  w_mirror : string;
  w_ScanInterval : Z;
  w_Settle : Z;
  w_mount : string;
  w_api : string;
  w_status : statusInputs
}.

Definition or_else (v other : string) : string := if String.eqb v EmptyString then other else v.

Section wiring.
Context `{Sha256, Cli}.

(** [started] is time.Now() at the start. *)
Definition wiring (started : Z) : result Wiring :=
  keys ← DeriveKeys (cmd_String "secret");
  let node := cmd_String "node" in
  let apiAddr := cmd_String "api-addr" in
  let advertiseAPI := or_else (cmd_String "advertise-api") apiAddr in
  let maxFileSize := cmd_Int "max-file-size" in
  let gossipPort := cmd_Int "gossip-port" in
  let bind := cmd_String "bind" in
  let advertiseAddr := cmd_String "advertise" in
  let advertiseAddr :=
    if String.eqb advertiseAddr EmptyString && negb (String.eqb bind "0.0.0.0") then bind else advertiseAddr in
  let advertiseGossipPort := cmd_Int "advertise-gossip-port" in
  let advertiseGossipPort := if advertiseGossipPort =? 0 then gossipPort else advertiseGossipPort in
  let mirrorDir := cmd_String "mirror" in
  let mountPoint := cmd_String "mount" in
  mret (mkWiring keys (cmd_String "db") (serve_client keys node maxFileSize)
    (mkJoinConfig node bind gossipPort advertiseAddr advertiseGossipPort advertiseAPI (cmd_StringSlice "join"))
    (mkConfig node maxFileSize (cmd_Duration "tombstone-ttl") true)
    (cmd_Duration "sync-interval") (cmd_Duration "janitor-interval")
    mirrorDir (cmd_Duration "scan-interval") (cmd_Duration "settle") mountPoint apiAddr
    (mkStatusInputs node advertiseAPI started mirrorDir mountPoint)).
End wiring.

(** ** Starting and stopping *)

Inductive part := GApi | GSync | GMirror | GMount.
#[export] Instance part_eq_dec : EqDecision part.
Proof. solve_decision. Defined.

(** What runServe does to the world. *)
Inductive deed :=
  | MkdirDb (dir : string) | OpenStore (path : string) | JoinCluster (j : JoinConfig) | Spawn (g : part)
  | OpenMirror (dir : string) | MkdirMount (dir : string) | Mount (dir : string)
  | Wait | LeaveCluster
  | CloseStore | CloseMirror | Unmount (dir : string).

(** How a goroutine of the group ends: nil, an error that is context.Canceled, or another. *)
Inductive ending := Fine | Canceled | Failed (e : error).

(** Which deeds fail, and with what the group ends. *)
Class Host := { on_host : deed → result unit; group_ends : list part → ending }.

(** The deeds that were done, and those deferred, the last first. *)
Record process := mkProcess { deeds : list deed; deferred : list deed }.

Definition spawned (l : list deed) : list part :=
  omap (λ d, match d with Spawn g => Some g | _ => None end) l.

Section serve.
Context `{Sha256, Cli, Host}.

Definition record (d : deed) : ST process unit :=
  modify (λ p, mkProcess (deeds p ++ [d]) (deferred p)).
Definition do_deed (d : deed) : ST process unit :=
  match on_host d with Ok _ => record d | Err e => throw e end.
Definition defer (d : deed) : ST process unit :=
  modify (λ p, mkProcess (deeds p) (d :: deferred p)).
Definition when (b : bool) (q : ST process unit) : ST process unit := if b then q else mret tt.

Definition mountTree (mountPoint : string) : ST process unit :=
  _ ← do_deed (MkdirMount mountPoint);
  do_deed (Mount mountPoint).

(** group.Wait: blocks until every goroutine of the group has returned. *)
Definition group_wait : ST process ending :=
  gs ← gets (spawned ∘ deeds);
  _ ← record Wait;
  mret (group_ends gs).

(** Up to the waiting: what is acquired, and the goroutines started. *)
Definition serve_up (w : Wiring) : ST process unit :=
  _ ← do_deed (MkdirDb (Pkg.Dir (w_db w)));
  _ ← do_deed (OpenStore (w_db w));
  _ ← defer CloseStore;
  _ ← do_deed (JoinCluster (w_join w));
  _ ← record (Spawn GApi);
  _ ← record (Spawn GSync);
  _ ← when (negb (String.eqb (w_mirror w) EmptyString)) (
    _ ← do_deed (OpenMirror (w_mirror w));
    _ ← defer CloseMirror;
    record (Spawn GMirror));
  when (negb (String.eqb (w_mount w) EmptyString)) (
    _ ← mountTree (w_mount w);
    _ ← defer (Unmount (w_mount w));
    record (Spawn GMount)).

(** The waiting and the leaving, whose error is only logged. *)
Definition serve_down : ST process unit :=
  ending ← group_wait;
  _ ← record LeaveCluster;
  match ending with Failed e => throw e | _ => mret tt end.

Definition serve_body (w : Wiring) : ST process unit :=
  _ ← serve_up w;
  serve_down.

(** What runServe returns, and everything it did; what was deferred runs last. *)
Definition runServe (started : Z) : result unit * list deed :=
  match wiring started with
  | Err e => (Err e, [])
  | Ok w =>
      let '(r, p) := serve_body w (mkProcess [] []) in
      (r, deeds p ++ deferred p)
  end.
End serve.

(** ** The group of goroutines *)

(** golang.org/x/sync/errgroup and the context it derives: the goroutines that have not returned, whether the context is
    done, the error kept; what a signal and the return of a goroutine do. *)
Class ErrGroup := {
  group : Type;
  group_of : list part → group;
  running : group → list part;
  cancelled : group → bool;
  first_error : group → ending;
  group_signal : group → group;
  group_end : part → ending → group → group
}.

(** What its documentation says: the first call to return a non-nil error cancels the context, and Wait returns that
    error. *)
Class ErrGroupLaws `{ErrGroup} : Prop := {
  eg_start gs : running (group_of gs) = gs ∧ cancelled (group_of gs) = false ∧ first_error (group_of gs) = Fine;
  eg_signal x : running (group_signal x) = running x ∧ cancelled (group_signal x) = true ∧
    first_error (group_signal x) = first_error x;
  eg_end g e x : running (group_end g e x) = filter (g ≠.) (running x) ∧
    cancelled (group_end g e x) = match e with Fine => cancelled x | _ => true end ∧
    first_error (group_end g e x) = match first_error x with Fine => e | f => f end
}.

(** Where a goroutine of the group waits: Server.Serve in its select or in Shutdown, Service.Run in its select, Mirror.Run in its
    first scan, its first render or its select, and the one that waits for the mount. *)
Inductive place := ApiSelect | ApiShutdown | SyncSelect | MirrorScan | MirrorRender | MirrorSelect | MountWait.

(** What it goes on with: a branch of its select, or the return of the call it is in. *)
Inductive happening :=
  | HDone                          (* <-ctx.Done() *)
  | HListened (e : ending)         (* <-errc: what ListenAndServe returned, nil for ErrServerClosed *)
  | HShutdown (e : ending)         (* srv.Shutdown returned *)
  | HEvent (ok : bool) | HSyncTick | HJanitorTick
  | HScanned (e : ending) | HRendered (e : ending)
  | HChanged | HBatch (ok : bool) | HScanTick.

Inductive next := GoesOn (at_ : place) | Returns (e : ending).

(** Server.Serve, from its select on. *)
Definition api_next (at_ : place) (h : happening) : option next :=
  match at_, h with
  | ApiSelect, HListened e => Some (Returns e)
  | ApiSelect, HDone => Some (GoesOn ApiShutdown)
  | ApiShutdown, HShutdown e => Some (Returns e)
  | _, _ => None
  end.

(** Service.Run; what the branches do to the node is [Service.step]. *)
Definition sync_next (at_ : place) (h : happening) : option next :=
  match at_, h with
  | SyncSelect, HDone => Some (Returns Fine)
  | SyncSelect, (HEvent _ | HSyncTick | HJanitorTick) => Some (GoesOn SyncSelect)
  | _, _ => None
  end.

(** Mirror.Run; what the branches do is [Watch.act]. *)
Definition mirror_next (at_ : place) (h : happening) : option next :=
  match at_, h with
  | MirrorScan, HScanned Fine => Some (GoesOn MirrorRender)
  | MirrorScan, HScanned e => Some (Returns e)
  | MirrorRender, HRendered Fine => Some (GoesOn MirrorSelect)
  | MirrorRender, HRendered e => Some (Returns e)
  | MirrorSelect, HDone => Some (Returns Fine)
  | MirrorSelect, (HChanged | HBatch _ | HScanTick) => Some (GoesOn MirrorSelect)
  | _, _ => None
  end.

(** The function literal that waits for the mount. *)
Definition mount_next (at_ : place) (h : happening) : option next :=
  match at_, h with MountWait, HDone => Some (Returns Fine) | _, _ => None end.

Definition part_next (g : part) : place → happening → option next :=
  match g with GApi => api_next | GSync => sync_next | GMirror => mirror_next | GMount => mount_next end.
Definition part_start (g : part) : place :=
  match g with GApi => ApiSelect | GSync => SyncSelect | GMirror => MirrorScan | GMount => MountWait end.

(** What can happen: the channel of the context is readable once it is done, and ListenAndServe returns ErrServerClosed only after
    Shutdown. *)
Definition can_happen (done : bool) (at_ : place) (h : happening) : bool :=
  match h, at_ with
  | HDone, _ => done
  | HListened Fine, ApiSelect => false
  | _, _ => true
  end.

Section group.
Context `{ErrGroup}.

(** The group, and where each of its goroutines is. *)
Record team := mkTeam { tm_group : group; tm_at : part → place }.

Inductive group_event := Signal | Step (g : part) (h : happening).

Definition start_team (gs : list part) : team := mkTeam (group_of gs) part_start.
Definition moved (g : part) (at_ : place) (t : team) : team :=
  mkTeam (tm_group t) (λ g', if decide (g' = g) then at_ else tm_at t g').
Definition ended (g : part) (e : ending) (t : team) : team := mkTeam (group_end g e (tm_group t)) (tm_at t).

Definition group_step (ev : group_event) (t : team) : option team :=
  match ev with
  | Signal => Some (mkTeam (group_signal (tm_group t)) (tm_at t))
  | Step g h =>
      if bool_decide (g ∈ running (tm_group t)) && can_happen (cancelled (tm_group t)) (tm_at t g) h then
        nx ← part_next g (tm_at t g) h;
        Some (match nx with GoesOn at_ => moved g at_ t | Returns e => ended g e t end)
      else None
  end.
Fixpoint group_run (evs : list group_event) (t : team) : option team :=
  match evs with
  | [] => Some t
  | ev :: evs' => t' ← group_step ev t; group_run evs' t'
  end.
End group.

(** ** What the flags come to *)

(** The parts of a node fit together, whatever the flags: the cluster, the syncer, the credentials of
    the client and the status document use one node name; the API address gossiped is the one the status reports; the client has
    room for every file the limit admits; gossip advertises what it was told, or the address and port it is bound to, the wildcard
    apart.  A secret that is too short is refused before anything else is done; and the defaults are intervals a
    ticker accepts. *)
Theorem wiring_agrees `{Sha256, !Sha256Laws, Cli} hostname started :
  CliLaws (all_flags hostname) →
  let secret := cmd_String "secret" in
  match wiring started with
  | Err e => Str.len secret < MinSecretLen ∧ e = ErrWeakSecret
  | Ok w =>
      MinSecretLen ≤ Str.len secret ∧
      jn_Node (w_join w) = Node (w_syncer w) ∧ c_node (w_client w) = Node (w_syncer w) ∧
      si_node (w_status w) = Node (w_syncer w) ∧ si_addr (w_status w) = jn_APIAddr (w_join w) ∧
      (jn_APIAddr (w_join w) = cmd_String "advertise-api" ∨ jn_APIAddr (w_join w) = w_api w) ∧
      (jn_AdvertiseAddr (w_join w) ≠ EmptyString → jn_AdvertiseAddr (w_join w) ≠ cmd_String "advertise" →
        jn_AdvertiseAddr (w_join w) = jn_BindAddr (w_join w) ∧ jn_BindAddr (w_join w) ≠ "0.0.0.0"%string) ∧
      (cmd_Int "advertise-gossip-port" = 0 → jn_AdvertisePort (w_join w) = jn_BindPort (w_join w)) ∧
      (∀ b, 0 ≤ MaxFileSize (w_syncer w) ≤ max_int64 - manifestOverhead →
        Z.of_nat (length b) ≤ MaxFileSize (w_syncer w) → fits (w_client w) b) ∧
      (cmd_IsSet "sync-interval" = false → 0 < w_SyncInterval w) ∧
      (cmd_IsSet "janitor-interval" = false → 0 < w_JanitorInterval w) ∧
      (cmd_IsSet "scan-interval" = false → 0 < w_ScanInterval w)
  end.
Proof.
  intros Hcli secret. unfold wiring. fold secret.
  destruct (DeriveKeys_spec secret) as [[Hs ->]|(Hs & keys & -> & _)]; [done|]. cbn [mbind result_bind].
  unfold mret, result_ret. cbn [w_join w_syncer w_client w_status w_SyncInterval w_JanitorInterval w_ScanInterval w_api
    jn_Node jn_APIAddr jn_AdvertiseAddr jn_BindAddr jn_AdvertisePort jn_BindPort Node si_node si_addr MaxFileSize].
  split_and!; try done.
  - unfold or_else. destruct (String.eqb _ _); [by right|by left].
  - destruct (String.eqb_spec (cmd_String "advertise") EmptyString) as [->|]; simpl; [|done].
    destruct (String.eqb_spec (cmd_String "bind") "0.0.0.0"); done.
  - by intros ->.
  - intros b Hm Hb. by apply serve_client_fits.
  - intros Hg. pose proof (cli_default (mkFlag "sync-interval" "DCFS_SYNC_INTERVAL" (FDuration (30 * Second)))) as Hd.
    simpl in Hd. rewrite Hd; [done|set_solver|done].
  - intros Hg. pose proof (cli_default (mkFlag "janitor-interval" "DCFS_JANITOR_INTERVAL" (FDuration Hour))) as Hd.
    simpl in Hd. rewrite Hd; [done|set_solver|done].
  - intros Hg. pose proof (cli_default (mkFlag "scan-interval" "DCFS_SCAN_INTERVAL" (FDuration (60 * Second)))) as Hd.
    simpl in Hd. rewrite Hd; [done|set_solver|done].
Qed.

(** Without flags the address gossiped for the API is a loopback address, which a peer on another
    machine takes for its own. *)
Lemma default_api_is_loopback `{Sha256, Cli} hostname started w :
  CliLaws (all_flags hostname) → cmd_IsSet "api-addr" = false → cmd_IsSet "advertise-api" = false →
  wiring started = Ok w → jn_APIAddr (w_join w) = "127.0.0.1:7947"%string.
Proof.
  intros Hcli Hapi Hadv E. pose proof (cli_default (mkFlag "api-addr" "DCFS_API_ADDR" (FString "127.0.0.1:7947"))) as Ha.
  pose proof (cli_default (mkFlag "advertise-api" "DCFS_ADVERTISE_API" (FString ""))) as Hb. simpl in Ha, Hb.
  unfold wiring in E. destruct (DeriveKeys _); [|done]. injection E as <-. simpl.
  rewrite Hb; [|set_solver|done]. apply Ha; [set_solver|done].
Qed.

(** ** Starting and stopping *)

(** What releases what was acquired. *)
Definition release (d : deed) : option deed :=
  match d with
  | OpenStore _ => Some CloseStore
  | OpenMirror _ => Some CloseMirror
  | Mount p => Some (Unmount p)
  | _ => None
  end.

(** A deed of the start: an acquisition, a directory made, a goroutine. *)
Definition starting (d : deed) : bool :=
  match d with Wait | LeaveCluster | CloseStore | CloseMirror | Unmount _ => false | _ => true end.

Section order.
Context `{Sha256, Cli, Host}.

(** What is deferred releases what was acquired, the last first. *)
Record in_order (p : process) : Prop := {
  io_deferred : deferred p = omap release (reverse (deeds p));
  io_starting : Forall (λ d, starting d = true) (deeds p);
  io_done : Forall (λ d, on_host d = Ok tt ∨ ∃ g, d = Spawn g) (deeds p)
}.

Definition orderly (q : ST process unit) : Prop := ∀ p, in_order p → in_order (q p).2.

Lemma orderly_bind q k : orderly q → orderly k → orderly (_ ← q; k).
Proof.
  intros Hq Hk p Hp. unfold mbind, ST_bind. specialize (Hq p Hp). destruct (q p) as [[[]|e] p1]; simpl in *; [by apply Hk|done].
Qed.
Lemma orderly_ret : orderly (mret tt).
Proof. by intros p. Qed.
Lemma orderly_when b q : orderly q → orderly (when b q).
Proof. intros Hq. destruct b; [exact Hq|apply orderly_ret]. Qed.

Lemma in_order_snoc p d : in_order p → starting d = true → (on_host d = Ok tt ∨ ∃ g, d = Spawn g) →
  in_order (mkProcess (deeds p ++ [d]) (match release d with Some x => x :: deferred p | None => deferred p end)).
Proof.
  intros [Hd Hs Ho] Hst Hok. split; simpl; [|by apply Forall_app_2; [|by constructor]..].
  rewrite reverse_snoc, Hd. simpl. by destruct (release d).
Qed.

Lemma orderly_deed d : starting d = true → release d = None → orderly (do_deed d).
Proof.
  intros Hs Hr p Hp. unfold do_deed, record, modify. destruct (on_host d) as [[]|e] eqn:E; [|done]. simpl.
  pose proof (in_order_snoc p d Hp Hs (or_introl E)) as Hi. by rewrite Hr in Hi.
Qed.
Lemma orderly_spawn g : orderly (record (Spawn g)).
Proof. intros p Hp. apply (in_order_snoc p (Spawn g) Hp eq_refl). right. by exists g. Qed.

(** What is acquired and at once deferred. *)
Lemma orderly_acquire d x k : release d = Some x → orderly k → orderly (_ ← do_deed d; _ ← defer x; k).
Proof.
  intros Hr Hk p Hp. unfold do_deed, record, modify, defer, mbind, ST_bind.
  destruct (on_host d) as [[]|e] eqn:E; [|done]. simpl. apply Hk.
  pose proof (in_order_snoc p d Hp) as Hi. rewrite Hr in Hi. apply Hi; [by destruct d|by left].
Qed.

Lemma orderly_mount q k : orderly k →
  orderly (_ ← mountTree q; _ ← defer (Unmount q); k).
Proof.
  intros Hk p Hp. pose proof (orderly_bind _ _ (orderly_deed (MkdirMount q) eq_refl eq_refl)
    (orderly_acquire (Mount q) (Unmount q) k eq_refl Hk) p Hp) as Ho. revert Ho.
  unfold mountTree, mbind, ST_bind. by destruct (do_deed (MkdirMount q) p) as [[]?].
Qed.

Lemma serve_up_orderly w : orderly (serve_up w).
Proof.
  unfold serve_up. apply orderly_bind; [by apply orderly_deed|]. apply orderly_acquire; [done|].
  apply orderly_bind; [by apply orderly_deed|]. do 2 (apply orderly_bind; [apply orderly_spawn|]).
  apply orderly_bind; apply orderly_when.
  - apply orderly_acquire; [done|apply orderly_spawn].
  - apply orderly_mount, orderly_spawn.
Qed.

Definition group_result (e : ending) : result unit := match e with Failed e => Err e | _ => Ok tt end.

(** C36: A node is taken down in the opposite order of how it was put up, whatever fails.  Everything runServe does is a
    part that starts the node, then possibly the waiting and the leaving, then the releases: the store, the
    mirror and the mount are each released exactly if they were acquired, the last acquired first, and no earlier than every
    goroutine has ended and the cluster has been left, if the node got as far as waiting.  A node that does not get there
    reports the failure; one that does reports what the group of goroutines ended with, a cancelled
    context being no failure. *)
Theorem runServe_order started :
  let '(r, all) := runServe started in
  ∃ up down, all = up ++ down ++ omap release (reverse up) ∧
    Forall (λ d, starting d = true ∧ (on_host d = Ok tt ∨ ∃ g, d = Spawn g)) up ∧
    (down = [] ∧ (∃ e, r = Err e) ∨
     down = [Wait; LeaveCluster] ∧ r = group_result (group_ends (spawned up))).
Proof.
  unfold runServe. destruct (wiring started) as [w|e]; [|by exists [], []; eauto 10].
  pose proof (serve_up_orderly w (mkProcess [] [])) as Hi. unfold serve_body, mbind, ST_bind.
  destruct (serve_up w (mkProcess [] [])) as [r p]. destruct Hi as [Hd Hs Ho]; [by split|]. simpl in Hd, Hs, Ho.
  assert (Forall (λ d, starting d = true ∧ (on_host d = Ok tt ∨ ∃ g, d = Spawn g)) (deeds p)) as Hup.
  { apply Forall_forall. intros d Hd'. rewrite Forall_forall in Hs, Ho. auto. }
  destruct r as [[]|e].
  - unfold serve_down, group_wait, mbind, ST_bind, gets, record, modify, compose. cbn [deeds deferred].
    assert (∀ r : result unit, r = group_result (group_ends (spawned (deeds p))) → ∃ up down,
      ((deeds p ++ [Wait]) ++ [LeaveCluster]) ++ deferred p = up ++ down ++ omap release (reverse up) ∧
      Forall (λ d, starting d = true ∧ (on_host d = Ok tt ∨ ∃ g, d = Spawn g)) up ∧
      (down = [] ∧ (∃ e, r = Err e) ∨ down = [Wait; LeaveCluster] ∧ r = group_result (group_ends (spawned up)))) as Hall.
    { intros r Hr. exists (deeds p), [Wait; LeaveCluster]. rewrite Hd, <- !app_assoc. auto. }
    destruct (group_ends (spawned (deeds p))) eqn:Eg; by apply Hall.
  - exists (deeds p), []. rewrite Hd. eauto 10.
Qed.

(** When the mirrored directory cannot be opened, the node stops with its goroutines running and without leaving
    the cluster: the peers are left to notice. *)
Theorem failed_mirror_abandons started w e :
  wiring started = Ok w → w_mirror w ≠ EmptyString →
  on_host (MkdirDb (Pkg.Dir (w_db w))) = Ok tt → on_host (OpenStore (w_db w)) = Ok tt →
  on_host (JoinCluster (w_join w)) = Ok tt → on_host (OpenMirror (w_mirror w)) = Err e →
  runServe started = (Err e, [MkdirDb (Pkg.Dir (w_db w)); OpenStore (w_db w); JoinCluster (w_join w);
    Spawn GApi; Spawn GSync; CloseStore]).
Proof.
  intros Ew Hm Hmk Hop Hjn Hmi. unfold runServe. rewrite Ew. unfold serve_body, serve_up, do_deed, mbind, ST_bind.
  rewrite Hmk. simpl. rewrite Hop. simpl. rewrite Hjn. simpl. rewrite (proj2 (String.eqb_neq _ _) Hm). simpl.
  unfold mbind, ST_bind. by rewrite Hmi.
Qed.
End order.

(** ** The group *)

Section groups.
Context `{ErrGroup, !ErrGroupLaws}.
Implicit Types (t : team) (evs : list group_event) (gs : list part) (g : part) (h : happening).

Lemma group_run_app evs1 evs2 t : group_run (evs1 ++ evs2) t = t' ← group_run evs1 t; group_run evs2 t'.
Proof.
  revert t. induction evs1 as [|ev evs1 IH]; intros t; [done|]. simpl. unfold mbind, option_bind in *.
  destruct (group_step ev t); [apply IH|done].
Qed.

Lemma filter_other g gs : g ∉ gs → filter (g ≠.) gs = gs.
Proof.
  induction gs as [|g' gs IH]; [done|]. rewrite not_elem_of_cons. intros [Hne Hg].
  rewrite filter_cons_True by done. by rewrite IH.
Qed.

(** *** The way out *)

(** Whose place it is. *)
Definition whose (at_ : place) : part :=
  match at_ with
  | ApiSelect | ApiShutdown => GApi | SyncSelect => GSync | MirrorScan | MirrorRender | MirrorSelect => GMirror | MountWait => GMount
  end.

(** How a goroutine returns from there once the context is done. *)
Definition way_out (at_ : place) : list happening :=
  match at_ with
  | ApiSelect => [HDone; HShutdown Fine]
  | ApiShutdown => [HShutdown Fine]
  | MirrorScan => [HScanned Fine; HRendered Fine; HDone]
  | MirrorRender => [HRendered Fine; HDone]
  | SyncSelect | MirrorSelect | MountWait => [HDone]
  end.

(** These steps end the goroutine without an error. *)
Definition goes_out g (l : list happening) t : Prop :=
  ∃ t', group_run (Step g <$> l) t = Some t' ∧ tm_group t' = group_end g Fine (tm_group t) ∧ ∀ g', g' ≠ g → tm_at t' g' = tm_at t g'.

Lemma step_next g h t at_ nx :
  tm_at t g = at_ → g ∈ running (tm_group t) → cancelled (tm_group t) = true → can_happen true at_ h = true → part_next g at_ h = Some nx →
  group_step (Step g h) t = Some (match nx with GoesOn at_ => moved g at_ t | Returns e => ended g e t end).
Proof. intros <- Hg Hc Hh Hn. simpl. by rewrite bool_decide_true, Hc, Hh, Hn. Qed.

Lemma out_returns g h t at_ :
  tm_at t g = at_ → g ∈ running (tm_group t) → cancelled (tm_group t) = true → can_happen true at_ h = true →
  part_next g at_ h = Some (Returns Fine) → goes_out g [h] t.
Proof.
  intros Ea Hg Hc Hh Hn. exists (ended g Fine t). cbn [fmap list_fmap group_run].
  by rewrite (step_next g h t at_ (Returns Fine)).
Qed.

Lemma out_goes g h l t at_ at' :
  tm_at t g = at_ → g ∈ running (tm_group t) → cancelled (tm_group t) = true → can_happen true at_ h = true →
  part_next g at_ h = Some (GoesOn at') → goes_out g l (moved g at' t) → goes_out g (h :: l) t.
Proof.
  intros Ea Hg Hc Hh Hn (t' & E & Et & Ha). exists t'. cbn [fmap list_fmap group_run].
  rewrite (step_next g h t at_ (GoesOn at')) by done. split_and!; [exact E|exact Et|].
  intros g' Hg'. rewrite Ha by done. simpl. by rewrite decide_False.
Qed.

(** It is a way out of every place. *)
Lemma part_leaves g t : g ∈ running (tm_group t) → cancelled (tm_group t) = true → whose (tm_at t g) = g →
  goes_out g (way_out (tm_at t g)) t.
Proof.
  intros Hg Hc Hw. destruct (tm_at t g) eqn:Ea; simpl in Hw; subst g; simpl;
    repeat first [ by eapply out_returns | eapply out_goes; [(exact Ea || reflexivity)|done|done|reflexivity|reflexivity|] ].
Qed.

(** All of them leave, one after the other. *)
Definition leave_all t gs : list group_event := gs ≫= λ g, Step g <$> way_out (tm_at t g).

Lemma leave_all_same t t' gs : (∀ g, g ∈ gs → tm_at t' g = tm_at t g) → leave_all t' gs = leave_all t gs.
Proof.
  intros Hs. unfold leave_all. induction gs as [|g gs IH]; [done|]. simpl. rewrite Hs by (by left). f_equal. apply IH.
  intros g' Hg'. apply Hs. by right.
Qed.

Lemma leave_all_length t gs : (length (leave_all t gs) ≤ 3 * length gs)%nat.
Proof.
  induction gs as [|g gs IH]; [done|].
  change (leave_all t (g :: gs)) with ((Step g <$> way_out (tm_at t g)) ++ leave_all t gs).
  rewrite length_app, length_fmap. assert (length (way_out (tm_at t g)) ≤ 3)%nat by (destruct (tm_at t g); simpl; lia).
  cbn [length]. lia.
Qed.

Lemma team_drains t : cancelled (tm_group t) = true → NoDup (running (tm_group t)) → (∀ g, whose (tm_at t g) = g) →
  ∃ t', group_run (leave_all t (running (tm_group t))) t = Some t' ∧ running (tm_group t') = [] ∧
    first_error (tm_group t') = first_error (tm_group t).
Proof.
  remember (running (tm_group t)) as gs eqn:Eg. intros Hc Hnd Hw.
  assert (∀ g, g ∈ gs → whose (tm_at t g) = g) as Hw' by auto. clear Hw.
  revert t Eg Hc Hw'. induction gs as [|g gs IH]; intros t Eg Hc Hw; [by exists t|].
  apply NoDup_cons in Hnd as [Hg Hnd]. destruct (part_leaves g t) as (t1 & E1 & Et & Ea);
    [rewrite <- Eg; by left|done|apply Hw; by left|].
  destruct (eg_end g Fine (tm_group t)) as (Er & Ec & Ef).
  assert (∀ g', g' ∈ gs → tm_at t1 g' = tm_at t g') as Hsame by (intros g' Hg'; apply Ea; by intros ->).
  destruct (IH Hnd t1) as (t' & E & Er' & Ef').
  - by rewrite Et, Er, <- Eg, filter_cons_False, filter_other by (intros ?; done).
  - by rewrite Et, Ec.
  - intros g' Hg'. rewrite Hsame by done. apply Hw. by right.
  - exists t'. unfold leave_all. cbn [mbind list_bind]. fold (leave_all t gs). rewrite group_run_app, E1. cbn [mbind option_bind].
    rewrite <- (leave_all_same t t1) by done. split_and!; [exact E|done|]. rewrite Ef', Et, Ef. by destruct (first_error (tm_group t)).
Qed.

(** *** What a run can come to *)

Record team_inv gs evs t : Prop := {
  ti_at : ∀ g, whose (tm_at t g) = g;
  ti_shutdown : tm_at t GApi = ApiShutdown → cancelled (tm_group t) = true;
  ti_running : cancelled (tm_group t) = false → running (tm_group t) = gs;
  ti_nodup : NoDup (running (tm_group t));
  ti_signal : cancelled (tm_group t) = true → first_error (tm_group t) = Fine → Signal ∈ evs;
  ti_first : first_error (tm_group t) ≠ Fine → cancelled (tm_group t) = true
}.

(** A goroutine goes on in a place of its own; before the context is done it does not shut down, and returns only with an error. *)
Lemma part_next_at g at_ h at' : whose at_ = g → part_next g at_ h = Some (GoesOn at') →
  whose at' = g ∧ (at' = ApiShutdown → h = HDone).
Proof. intros <-. destruct at_, h as [|[]|[]| | | |[]|[]| | |]; simpl; by intros [= <-]. Qed.

Lemma part_early g at_ h e : whose at_ = g → at_ ≠ ApiShutdown → can_happen false at_ h = true →
  part_next g at_ h = Some (Returns e) → e ≠ Fine.
Proof. intros <- Hs. destruct at_, h as [|[]|[]| | | |[]|[]| | |]; simpl; try done; by intros _ [= <-]. Qed.

Lemma team_inv_moved gs evs t g at_ h :
  team_inv gs evs t → whose at_ = g → (at_ = ApiShutdown → cancelled (tm_group t) = true) → team_inv gs (evs ++ [Step g h]) (moved g at_ t).
Proof.
  intros [Ha Hs Hr Hn Hsig Hf] Hw Hd. split; simpl; try done.
  - intros g'. by case_decide; [subst|].
  - by case_decide.
  - intros. apply elem_of_app. left. by apply Hsig.
Qed.

Lemma team_inv_ended gs evs t g e h :
  team_inv gs evs t → (cancelled (tm_group t) = false → e ≠ Fine) → team_inv gs (evs ++ [Step g h]) (ended g e t).
Proof.
  intros [Ha Hs Hr Hn Hsig Hf] He. destruct (eg_end g e (tm_group t)) as (Er & Ec & Ef).
  split; cbn [ended tm_group tm_at]; rewrite ?Er, ?Ec, ?Ef; [done|..].
  - intros Hx. rewrite (Hs Hx). by destruct e.
  - intros Hc. destruct e; [|done..]. by destruct (He Hc).
  - by apply NoDup_filter.
  - destruct (first_error (tm_group t)); [|done..]. intros Hc ->. apply elem_of_app. left. by apply Hsig.
  - destruct (first_error (tm_group t)); [by destruct e|destruct e; auto..].
Qed.

Lemma team_inv_step gs evs t ev t' : group_step ev t = Some t' → team_inv gs evs t → team_inv gs (evs ++ [ev]) t'.
Proof.
  intros E Hi. destruct ev as [|g h].
  - injection E as <-. destruct Hi as [Ha Hs Hr Hn Hsig Hf], (eg_signal (tm_group t)) as (Er & Ec & Ef).
    split; cbn [tm_group tm_at]; rewrite ?Er, ?Ec, ?Ef; try done. intros _ _. apply elem_of_app. right. by left.
  - cbn [group_step] in E. destruct (bool_decide _ && can_happen _ _ h) eqn:Eg; [|done]. apply andb_true_iff in Eg as [_ Hc].
    destruct (part_next g (tm_at t g) h) as [[at_|e]|] eqn:En; [..|done]; injection E as <-.
    + destruct (part_next_at _ _ _ _ (ti_at _ _ _ Hi g) En) as [Hw Hd]. apply team_inv_moved; [done..|].
      intros ->. by rewrite (Hd eq_refl) in Hc.
    + apply team_inv_ended; [done|]. intros Hcan. rewrite Hcan in Hc. eapply part_early; [apply (ti_at _ _ _ Hi)| |done..].
      intros Hsh. pose proof (ti_at _ _ _ Hi g) as Hw. rewrite Hsh in Hw. simpl in Hw. subst g.
      rewrite (ti_shutdown _ _ _ Hi Hsh) in Hcan. done.
Qed.

Lemma team_run_inv gs evs t : NoDup gs → group_run evs (start_team gs) = Some t → team_inv gs evs t.
Proof.
  intros Hnd. revert t. induction evs as [|ev evs IH] using rev_ind; intros t E.
  { injection E as <-. destruct (eg_start gs) as (Er & Ec & Ef).
    split; cbn [start_team tm_group tm_at]; rewrite ?Er, ?Ec, ?Ef; try done. by intros []. }
  rewrite group_run_app in E. unfold mbind, option_bind in E.
  destruct (group_run evs (start_team gs)) as [u|]; [|done]. simpl in E. unfold mbind, option_bind in E.
  destruct (group_step ev u) as [u'|] eqn:Es; [|done]. injection E as <-. eapply team_inv_step; [exact Es|by apply IH].
Qed.

End groups.
