(* ===== verification/Hazards.v ===== *)
(** * What pulls do not guarantee

    Runs of the model, against particular peers, in which the code does less than its
    comments say.  Every statement here is about the definitions of the other files,
    evaluated on concrete inputs, except the last, which holds for every amount of fuel. *)
From S2P Require Import Prelude GoStrings Clock Paths Crypto Entry Store StoreFacts Resolve Syncer SyncerFacts Transport Client AntiEntropy AntiFacts.

Import Demo.

(** ** Peers *)

(** A live file, and a directory, as the peer "p" serves them. *)
Definition peer_file (p : string) (content : bytes) (prev : string) (wall seq : Z) : Meta :=
  mkMeta p KindFile (HashContent content) prev (Z.of_nat (length content)) 420 0 0
    (mkVersion (mkTimestamp wall 0) "p") false 0 seq.
Definition peer_dir (p : string) (wall seq : Z) : Meta :=
  mkMeta p KindDir "" "" 0 493 0 0 (mkVersion (mkTimestamp wall 0) "p") false 0 seq.

(** Serves one page per position of [pages], and the contents in [contents] from the
    request [available] on. *)
Definition scripted (pages : list (Z * ManifestResponse)) (contents : list bytes) (available : nat) :
    PeerClient :=
  {| peer_Digest := λ _ _, Ok (mkDigestResponse "other" 0 100);
     peer_Manifest := λ _ _ since,
       Ok (match filter (λ x, x.1 = since) pages with
           | (_, page) :: _ => page
           | [] => mkManifestResponse [] since false
           end);
     peer_Blob := λ i _ hash,
       if (i <? available)%nat then Err ErrPeer
       else match filter (λ c, HashContent c = hash) contents with
            | c :: _ => Ok c
            | [] => Err ErrPeerNotFound
            end |}.

Lemma scripted_laws pages contents available : @PeerClientLaws _ (scripted pages contents available).
Proof.
  intros i addr hash content. simpl. destruct (i <? available)%nat; [done|].
  destruct (filter _ contents) as [|c l] eqn:E; [done|]. intros [= <-].
  assert (c ∈ filter (λ c, HashContent c = hash) contents) as Hc by (rewrite E; by left).
  apply list_elem_of_filter in Hc as [Hc _]. exact Hc.
Qed.

Definition bookmark_of (nd : string) (s : node) : option Z := p_LastSeq <$> peers (tbl (db s)) !! nd.

(** ** A deferral on one page is forgotten on the next *)

Definition two_pages : list (Z * ManifestResponse) :=
  [(0, mkManifestResponse [peer_file "a.conf" hello "" 500 1] 1 true);
   (1, mkManifestResponse [peer_dir "conf.d" 600 2] 2 false)].

(** A deferred entry can be lost.  The comment of applyRemote says the bookmark stays
    behind a deferral so the next pass reads it again; but the flag lives for one page: when the content of
    an entry of the first page cannot be had and the second page is clean, the bookmark
    passes the entry, and the next pull, with the content available again, never asks for it. *)
Theorem deferral_forgotten :
  let H := scripted two_pages [hello] 4 in
  let '(r1, s1) := syncPeer cfg 3 "p" "addr" boot in
  let '(r2, s2) := syncPeer cfg 3 "p" "addr" s1 in
  r1 = Ok true ∧ bookmark_of "p" s1 = Some 2 ∧
  peer_Blob (reqs s1) "addr" (HashContent hello) = Ok hello ∧
  r2 = Ok true ∧ entries (tbl (db s2)) !! "a.conf"%string = None ∧
  is_Some (entries (tbl (db s2)) !! "conf.d"%string).
Proof. vm_compute. split_and!; first [reflexivity | eexists; reflexivity]. Qed.

(** ** An entry from the future is never looked at again *)

(** An hour passes after the tenth reading of the clock. *)
Definition hour_later : SystemTime := λ n, if (n <? 10)%nat then 1000 else 3600 * 10 ^ 9.

(** An entry refused for its timestamp is refused for good.  The comment of applyRemote
    says a rejected entry will never become acceptable, which holds of a malformed path; but
    one that is ten minutes ahead is acceptable ten minutes later, and the bookmark has
    passed it: an hour later the pull does not ask for it. *)
Theorem drift_forgotten :
  let H := scripted [(0, mkManifestResponse [peer_dir "conf.d" (600 * 10 ^ 9) 1] 1 false)] [] 0 in
  let HT := hour_later in
  let '(r1, s1) := @syncPeer _ _ HT H cfg 3 "p" "addr" boot in
  let s1 := set_ticks 20 s1 in
  let '(r2, s2) := @syncPeer _ _ HT H cfg 3 "p" "addr" s1 in
  r1 = Ok true ∧ bookmark_of "p" s1 = Some 1 ∧
  r2 = Ok true ∧ entries (tbl (db s2)) !! "conf.d"%string = None ∧
  (@applyRemote _ _ HT H cfg "addr" [peer_dir "conf.d" (600 * 10 ^ 9) 1] s1).1 = Ok 1 ∧
  is_Some (entries (tbl (db (@applyRemote _ _ HT H cfg "addr" [peer_dir "conf.d" (600 * 10 ^ 9) 1] s1).2))
    !! "conf.d"%string).
Proof. vm_compute. split_and!; first [reflexivity | eexists; reflexivity]. Qed.

(** ** Retrying a deferred conflict overwrites the copy *)

Definition other : bytes := of_string "other".
Definition edited : bytes := of_string "edited".
Definition copy_path : string := ConflictName "app.conf" "n1" 1000.

(** A conflict copy can be overwritten while it is being resolved.  The copy is
    stored even when the winning entry is deferred for want of its content, so the next pull
    meets the same conflict and stores the copy again — over the edit an operator has
    made to the copy in the meantime, whose content no entry names any more. *)
Theorem conflict_copy_overwritten :
  let H := scripted [(0, mkManifestResponse [peer_file "app.conf" other "" 5000 1] 1 false)] [] 0 in
  let s0 := run [write1] in
  let '(r1, s1) := syncPeer cfg 3 "p" "addr" s0 in
  let '(r2, s2) := PutFile cfg copy_path edited 420 0 0 s1 in
  let '(r3, s3) := syncPeer cfg 3 "p" "addr" s2 in
  r1 = Ok true ∧ r2 = Ok tt ∧ r3 = Ok true ∧
  Hash (entry_at (tbl (db s2)) copy_path).1 = HashContent edited ∧
  Hash (entry_at (tbl (db s3)) copy_path).1 = HashContent hello ∧
  referenced (tbl (db s3)) (HashContent edited) = false.
Proof. vm_compute. repeat split. Qed.

(** A conflict copy can be lost in the page that makes it.  What a page resolves against is the store, not what the page is
    about to store; so when an entry of the same page is at the conflict name — here the tombstone of the copy another node made of the
    same losing version, and deleted — it is taken for news, and stored after the copy and over it, although the copy is later.  The
    losing content is then nowhere: neither at its path nor at the conflict name. *)
Theorem copy_lost_in_page :
  let tombstone := mkMeta copy_path KindFile "" "" 0 420 0 0 (mkVersion (mkTimestamp 1500 0) "n2") true 1500 2 in
  let H := scripted [(0, mkManifestResponse [peer_file "app.conf" other "" 5000 1; tombstone] 2 false)] [other] 0 in
  let s0 := run [write1] in
  let '(r1, s1) := syncPeer cfg 3 "p" "addr" s0 in
  Hash (entry_at (tbl (db s0)) "app.conf").1 = HashContent hello ∧
  resolve (entry_at (tbl (db s0)) "app.conf").1 true (peer_file "app.conf" other "" 5000 1) = decisionConflict ∧
  r1 = Ok true ∧ bookmark_of "p" s1 = Some 2 ∧
  Hash (entry_at (tbl (db s1)) "app.conf").1 = HashContent other ∧
  Deleted (entry_at (tbl (db s1)) copy_path).1 = true ∧
  referenced (tbl (db s1)) (HashContent hello) = false.
Proof. vm_compute. repeat split. Qed.

(** ** The origin of an entry ends up in a path *)

Definition hostile (wall seq : Z) (origin : string) (content : bytes) : Meta :=
  mkMeta "app.conf" KindFile (HashContent content) "" (Z.of_nat (length content)) 420 0 0
    (mkVersion (mkTimestamp wall 0) origin) false 0 seq.

(** A path that [SanitizePath] refuses can enter the store.  [validate] asks of an origin
    only that it is not empty, and the conflict copy's path is built from the losing version's origin:
    a peer that serves an entry of origin "/../../x" and then a concurrent one plants an
    entry whose path climbs out of the tree, which every other node will refuse. *)
Theorem conflict_path_unsanitized :
  let first := hostile 5000 1 "/../../../x" hello in
  let second := hostile 6000 2 "p" other in
  let H := scripted [(0, mkManifestResponse [first] 1 false); (1, mkManifestResponse [second] 2 false)]
             [hello; other] 0 in
  let p := "app.conf.conflict./../../../x.5000"%string in
  let '(r1, s1) := syncPeer cfg 3 "p" "addr" boot in
  let '(r2, s2) := syncPeer cfg 3 "p" "addr" s1 in
  validate cfg first = Ok tt ∧ validate cfg second = Ok tt ∧ r1 = Ok true ∧ r2 = Ok true ∧
  (entry_at (tbl (db s2)) p).2 = true ∧ SanitizePath p = Err ErrBadPath ∧
  validate cfg (entry_at (tbl (db s2)) p).1 = Err ErrBadPath.
Proof. vm_compute. repeat split. Qed.

(** ** Modes of peers are stored as they come *)

(** The mode a peer sends is not sanitized.  The comments of [SanitizeMode] and of
    Meta.Mode say type bits are never taken from the wire, but a pull stores the mode
    as it came: an entry with the bits of a character device is stored with them. *)
Theorem peer_mode_unsanitized :
  let m := mkMeta "conf.d" KindDir "" "" 0 (Z.lor 438 (Z.shiftl 1 21)) 0 0
             (mkVersion (mkTimestamp 500 0) "p") false 0 1 in
  let H := scripted [(0, mkManifestResponse [m] 1 false)] [] 0 in
  let '(r, s) := syncPeer cfg 3 "p" "addr" boot in
  let stored := (entry_at (tbl (db s)) "conf.d").1 in
  r = Ok true ∧ Mode stored = Mode m ∧ SanitizeMode (Mode stored) = 438 ∧
  Z.land (Mode stored) ModeType ≠ 0.
Proof. vm_compute. repeat split; discriminate. Qed.

(** ** A peer can keep a pull going for ever *)

(** Every page: one entry with a bad path, and more to come. *)
Definition treadmill : PeerClient :=
  {| peer_Digest := λ _ _, Ok (mkDigestResponse "other" 0 100);
     peer_Manifest := λ _ _ _, Ok (mkManifestResponse [peer_dir "../x" 500 1] 0 true);
     peer_Blob := λ _ _ _, Err ErrPeer |}.

Lemma treadmill_pull fuel cursor bookmark s :
  ∃ s', @pull _ _ _ treadmill cfg fuel "p" "addr" cursor bookmark s = (Ok false, s').
Proof.
  revert cursor bookmark s. induction fuel as [|fuel IH]; intros cursor bookmark s; [by eexists|].
  cbn [pull]. unfold request, mbind, ST_bind. cbn [treadmill peer_Manifest m_Entries m_Head m_More].
  set (s1 := set_reqs (S (reqs s)) s).
  assert (@applyRemote _ _ _ treadmill cfg "addr" [peer_dir "../x" 500 1] s1 = (Ok 1, s1)) as ->.
  { unfold applyRemote, apply_entries, apply_entry.
    assert (validate cfg (peer_dir "../x" 500 1) = Err ErrBadPath) as -> by (vm_compute; reflexivity).
    reflexivity. }
  unfold now, on_db, zoom, SetPeerSeq, exec. cbn [db_fails faults negb]. apply IH.
Qed.

(** A peer can hold a pull for ever.  Nothing in the loop over the pages asks that the
    position advances: against a peer that always claims there is more and never moves,
    no number of requests is enough, and as the pull stays in flight no other pull of
    that peer starts. *)
Theorem pull_never_ends fuel s :
  ∃ s', @syncPeer _ _ _ treadmill cfg fuel "p" "addr" s = (Ok false, s').
Proof.
  unfold syncPeer, request, mbind, ST_bind. cbn [treadmill peer_Digest d_Digest d_Head].
  set (s1 := set_reqs (S (reqs s)) s).
  destruct (on_db Digest s1) as [r1 s2] eqn:E1. apply on_db_inv in E1 as (d1 & E1 & ->).
  apply Digest_inv in E1 as [_ [[_ Hf]| ->]]; [by destruct (no_fault Hf)|].
  destruct (String.eqb_spec (digest_of (tbl (db s1))) "other") as [E|_].
  { pose proof (len_HashContent (of_string (digest_text (select_all (tbl (db s1)))))) as Hl.
    unfold digest_of in E. rewrite E in Hl. discriminate Hl. }
  destruct (on_db (PeerSeq "p") (set_db d1 s1)) as [r2 s3] eqn:E2.
  apply on_db_inv in E2 as (d2 & E2 & ->). unfold PeerSeq in E2.
  apply select_bind_inv in E2 as [(_ & Hf & _)|(d3 & _ & E2)]; [by destruct (no_fault Hf)|].
  injection E2 as <- <-. apply treadmill_pull.
Qed.
