(* ===== verification/MirrorRuns.v ===== *)
(** * Runs of the mirror

    The theorems of the mirror applied to a small tree and directory, and runs in which the mirror does
    less than its comments promise. *)
From S2P Require Import Prelude GoStrings Clock Paths Crypto Entry Store StoreFacts Resolve Syncer SyncerFacts TreeFacts Disk DiskFacts Mirror MirrorFacts RenderFacts ScanFacts Watch WatchFacts.

Section runs.
Import Demo.

(** A system that works: umask 022, everything owned by root, a second clock ahead of the node's. *)
#[local] Instance linux : OS := {|
  os_fails _ := None; os_time n := 2000 + Z.of_nat n; os_dirtime _ _ := 0;
  os_new _ mode := mkPerms (Z.ldiff mode 18) 0 0; os_short _ := 0%nat |}.
#[local] Instance watches_work : Watcher := λ _, false.

Definition mirror_of (s : node) (f : gmap (list string) obj) : mirror := mkMirror s (mkDisk f 0) true false ∅.

Lemma os_works n : os_fails n = None.
Proof. reflexivity. Qed.

(** The tree holds app.conf; the directory is empty, or holds what somebody wrote there. *)
Definition m0 : mirror := mirror_of (run [write1]) ∅.
Definition local_file : obj := File (mkPerms 384 7 7) 5000 (of_string "new").
Definition m_new : mirror := mirror_of (run [write1]) {[ ["new.conf"%string] := local_file ]}.
Definition m1 : mirror := (render m0).2.

Lemma sound_run es : sound (run es).
Proof.
  unfold run. assert (sound boot) as Hb.
  { split; [apply wf_boot|]. intros p r E. change ((∅ : gmap string entryRow) !! p = Some r) in E. by rewrite lookup_empty in E. }
  revert Hb. generalize boot. induction es as [|e es IH]; intros s Hs; [done|]. simpl. apply IH.
  eapply edit_sound; [exact Hs|]. apply surjective_pairing.
Qed.

Definition app : Meta := default zero_meta (head (select_live (tbl (db (run [write1]))))).

Lemma only_app e : live_entry (tbl (db (run [write1]))) (Path e) e → e = app.
Proof.
  intros He. apply elem_of_live in He; [|apply wf_run].
  assert (select_live (tbl (db (run [write1]))) = [app]) as El by (vm_compute; reflexivity).
  rewrite El in He. by apply list_elem_of_singleton in He.
Qed.

Lemma app_live : live_entry (tbl (db (run [write1]))) (Path app) app.
Proof.
  apply elem_of_live; [apply wf_run|].
  assert (select_live (tbl (db (run [write1]))) = [app]) as -> by (vm_compute; reflexivity). by left.
Qed.

Lemma app_fields : Path app = "app.conf"%string ∧ MKind app = KindFile ∧ Mode app = 420 ∧ UID app = 0 ∧ GID app = 0.
Proof. vm_compute. repeat split. Qed.

Lemma app_ok : entry_ok app.
Proof.
  destruct app_fields as (Ep & Ek & Em & Eu & Eg). split; rewrite ?Ep, ?Ek, ?Em, ?Eu, ?Eg; [..|right; split; [done|]];
    try (apply (bool_decide_unpack _); vm_compute; exact I); by compute.
Qed.

Lemma app_coherent : coherent (tbl (db (run [write1]))).
Proof.
  split.
  - intros e ->%only_app. apply app_ok.
  - intros e ->%only_app _.
    assert ((if blobs (tbl (db (run [write1]))) !! Hash app is Some _ then true else false) = true) as Hb by (vm_compute; reflexivity).
    revert Hb. generalize (blobs (tbl (db (run [write1]))) !! Hash app). intros [b|] Hb; [by exists b|discriminate].
  - intros e e' ->%only_app ->%only_app. done.
Qed.

(** A tree of files at the top has no directories to know. *)
Lemma top_known_closed t :
  bool_decide (map_Forall (λ p _, length (key_of p) = 1%nat) (entries t)) = true → known_closed t.
Proof.
  intros Ht%bool_decide_eq_true p q Hk Hq [r Er]. unfold known, entry_at in Hk.
  destruct (entries t !! p) as [row|] eqn:E; [|done]. pose proof (Ht p row E) as Hl. simpl in Hl.
  destruct (canonical_key q Hq) as (Hne & _ & _). rewrite Er, length_app in Hl.
  destruct (key_of q) as [|x [|y k]] eqn:Ek, r as [|z r]; simpl in Hl; try lia; [done|].
  rewrite app_nil_r, <- Ek in Er. unfold known. replace q with p; [unfold entry_at; by rewrite E|].
  destruct (decide (p = "."%string)) as [->|Hp]; [by rewrite Ek in Er|].
  rewrite <- (path_key p), Er by done. by apply canonical_path_key.
Qed.

Lemma room_empty e : room_for ∅ e.
Proof.
  split.
  - intros. left. apply lookup_empty.
  - intros. left. apply lookup_empty.
  - intros. split; left; apply lookup_empty.
Qed.

Lemma render_touches_witness :
  (render m0).1 = Ok tt ∧ observable (mi_node m1) = observable (run [write1]).
Proof.
  split; [by vm_compute|].
  refine (proj1 (render_touches m0 (Ok tt) m1 _ _ _ _)).
  - apply wf_run.
  - apply sound_run.
  - apply wf_objs_empty.
  - vm_compute. reflexivity.
Defined.

(** The file is there, with its content and its mode; nothing else is. *)
Lemma render_projects_witness : ∃ m', render m0 = (Ok tt, m') ∧ shows true (objs (mi_disk m')) app.
Proof.
  destruct (render_projects os_works no_fault m0 (proj1 (wf_run [write1])) app_coherent wf_objs_empty)
    as (m' & E & _ & Hs & _).
  - intros e _. apply room_empty.
  - exists m'. split; [exact E|]. apply (Hs app app_live). apply not_elem_of_empty.
Defined.

Lemma render_then_scan_witness : ∃ m2 m3,
  render m0 = (Ok tt, m2) ∧ scan cfg m2 = (Ok tt, m3) ∧ observable (mi_node m3) = observable (run [write1]).
Proof.
  refine (render_then_scan cfg m0 os_works _ _ _ _ _ _ _ _ _).
  - apply wf_run.
  - apply sound_run.
  - apply app_coherent.
  - apply top_known_closed. by vm_compute.
  - apply room. by_compute.
  - done.
  - apply wf_objs_empty.
  - intros e _. apply room_empty.
  - intros k o E. change ((∅ : gmap (list string) obj) !! k = Some o) in E. by rewrite lookup_empty in E.
Defined.

(** A directory that holds app.conf as the tree does, with a time stamp from the future. *)
Definition as_in_tree : obj := File (mkPerms 420 0 0) (10 ^ 18) hello.
Definition m_same : mirror := mirror_of (run [write1]) {[ ["app.conf"%string] := as_in_tree ]}.

Lemma single_file p o k o' : ({[ [p] := o ]} : gmap (list string) obj) !! k = Some o' → k = [p] ∧ o' = o.
Proof. intros [-> ->]%lookup_singleton_Some. done. Qed.

Lemma wf_single p o : name_ok p → wf_objs {[ [p] := o ]}.
Proof.
  intros Hp. apply wf_objs_insert; [apply wf_objs_empty|done|by apply Forall_singleton| |].
  - intros [|x [|y a]] [|z b] E; done.
  - intros a. by rewrite lookup_empty.
Qed.

Lemma scan_in_step_witness : ∃ m', scan cfg m_same = (Ok tt, m') ∧ observable (mi_node m') = observable (run [write1]).
Proof.
  destruct (scan_in_step cfg m_same) as (m' & E & Ho & _).
  - apply wf_run.
  - apply room. by_compute.
  - apply wf_single. apply (bool_decide_unpack _). vm_compute. exact I.
  - intros k o [-> ->]%single_file _. right. exists app. destruct app_fields as (Ep & Ek & Em & Eu & Eg).
    split; [pose proof app_live as Hl; by rewrite Ep in Hl|]. split; [|by rewrite Em].
    unfold object_shows, as_in_tree. rewrite Ek, Em. unfold owner_shown. rewrite Eu, Eg.
    split; [reflexivity|]. split; [vm_compute; reflexivity|]. split; [reflexivity|]. intros _. split; reflexivity.
  - exists m'. split; [exact E|exact Ho].
Defined.

(** A file the tree does not know, in the directory while the tree holds app.conf. *)
Lemma new_visible : visible ["new.conf"%string] local_file.
Proof.
  split_and!; [by vm_compute|done|]. apply (bool_decide_unpack _). vm_compute. exact I.
Qed.

Lemma scan_adopts_only_witness : let out := scan cfg m_new in
  out.1 = Ok tt ∧ live (tbl (db (mi_node out.2))) "app.conf".
Proof.
  intros out.
  destruct (scan_adopts_only cfg m_new out.1 out.2 no_fault (wf_run [write1]))
    as (Hr & _ & _ & _ & _ & Hl & _).
  - apply wf_single. apply (bool_decide_unpack _). vm_compute. exact I.
  - apply surjective_pairing.
  - split; [exact Hr|]. apply Hl. pose proof app_live as Ha. destruct app_fields as [Ep _]. rewrite Ep in Ha.
    by eapply live_entry_live.
Defined.


(** The user has deleted app.conf, and the event has settled. *)
Definition gone : event := mkEvent "app.conf" true.

Lemma app_canonical : canonical "app.conf".
Proof. apply (bool_decide_unpack _). vm_compute. exact I. Qed.

Lemma apply_event_spec_witness : ∃ m', apply_event cfg gone m0 = (Ok tt, m') ∧ ¬ live (tbl (db (mi_node m'))) "app.conf".
Proof.
  destruct (apply_event_spec cfg gone m0 os_works) as (m' & E & _ & _ & He).
  - apply room. by_compute.
  - apply wf_run.
  - apply wf_objs_empty.
  - apply app_canonical.
  - intros. left. apply lookup_empty.
  - exists m'. split; [exact E|]. unfold event_effect in He.
    change (objs (mi_disk m0)) with (∅ : gmap (list string) obj) in He. rewrite lookup_empty in He. exact He.
Defined.

(** ** The watcher *)

Definition idle (m : mirror) : running := mkRunning m {["."%string]} ∅ false None [] None.
Definition rm_event : raw := mkRaw "/etc/cluster/app.conf" false true false.
Definition write_event : raw := mkRaw "/etc/cluster/app.conf" false false false.

(** The user deletes app.conf, the watcher sees it, and the tree is rendered before the event
    has settled. *)
Definition deleted_and_rendered : list action := [AChanged; ATick; AFire ["app.conf"%string]; AChanged; ASend; AReceive; AApply].
Definition seen : running := (on_raw "/etc/cluster" rm_event (idle m0)).2.

Lemma claim_protects_witness : ∃ y, Watch.run cfg "/etc/cluster" deleted_and_rendered seen = Some y ∧
  protected "app.conf" y.
Proof.
  destruct (Watch.run cfg "/etc/cluster" deleted_and_rendered seen) as [y|] eqn:E; [|by vm_compute in E].
  exists y. split; [reflexivity|].
  refine (claim_protects cfg "/etc/cluster" "app.conf" app_canonical _ deleted_and_rendered seen y E _ _).
  - by vm_compute.
  - repeat (apply Forall_cons; split; [exact I|]). apply Forall_nil_2.
  - split.
    + apply (sound_run [write1]).
    + apply wf_objs_empty.
    + apply (bool_decide_unpack _). vm_compute. exact I.
    + intros b t c Ef. change ((∅ : gmap (list string) obj) !! key_of "app.conf" = Some (File b t c)) in Ef.
      by rewrite lookup_empty in Ef.
Defined.
End runs.
