(* ===== verification/MirrorHazards.v ===== *)
(** * What the mirror does not guarantee

    Runs of the mirror, the watcher and a pull, evaluated on concrete inputs, in which the code does less
    than its comments say. *)
From S2P Require Import Prelude GoStrings Clock Paths Crypto Entry Store StoreFacts Resolve Syncer SyncerFacts Transport Client AntiEntropy AntiFacts Hazards Disk Mirror Watch MirrorRuns.

Import Demo.
#[local] Existing Instances linux watches_work.

Definition dir : string := "/etc/cluster".

Definition hash_at (p : string) (x : running) : option (bool * string) :=
  (λ r, (r_Deleted r, r_Hash r)) <$> entries (tbl (db (mi_node (r_mirror x)))) !! p.
Definition version_at (p : string) (x : running) : option Version :=
  (λ r, MVersion (meta r)) <$> entries (tbl (db (mi_node (r_mirror x)))) !! p.
Definition disk_at (p : string) (x : running) : option bytes :=
  match objs (mi_disk (r_mirror x)) !! key_of p with Some (File _ _ c) => Some c | _ => None end.

(** ** A peer's edit is reverted *)

(** The directory has been rendered at time 2000; a peer's edit of app.conf dated 1500 is pulled. *)
Definition rendered : running := idle m1.
Definition hello2 : bytes := of_string "hello2".
Definition edited : node :=
  let H := scripted [(0, mkManifestResponse [peer_file "app.conf" hello2 (HashContent hello) 1500 1] 1 false)] [hello2] 0 in
  (syncPeer cfg 3 "p" "addr" (run [write1])).2.

(** A render can revert an edit.  The mirror decides that a file is newer than the tree when its mtime is later than
    the version's clock, and equality, says the comment, means that the tree's version produced the file.
    But the mtime is the time of the render: an edit a peer has made before that time and that is pulled after it
    looks older than the old content on disk.  When the rescan timer fires before the change
    is rendered, the scan promotes the old content with a fresh version, and every node takes it for the newest
    edit. *)
Theorem stale_render_reverts :
  match Watch.run cfg dir [ANode edited] rendered, Watch.run cfg dir [ANode edited; ATick] rendered with
  | Some x, Some y =>
      hash_at "app.conf" x = Some (false, HashContent hello2) ∧ hash_at "app.conf" y = Some (false, HashContent hello) ∧
      match version_at "app.conf" x, version_at "app.conf" y with
      | Some v, Some w => After w v = true
      | _, _ => False
      end
  | _, _ => False
  end.
Proof. vm_compute. repeat split. Qed.

(** ** A deletion is lost while another event of the path is applied *)

Definition no_files : gmap (list string) obj := ∅.
Definition batch_of (removed : bool) : list event := [mkEvent "app.conf" removed].

(** Releasing the claims of a batch can release a claim that a later event has made.  A file is touched and
    the event is being applied; its user deletes it, and the watcher claims the path again; the batch is
    done with, and its claims — this one too — are released.  A render now writes the file back,
    and when the deletion has settled there is a file again, so it is taken for a replacement: the deletion is
    lost, which is what the claims are there to prevent. *)
Theorem deletion_lost :
  match Watch.run cfg dir
    [ARaw write_event; AFire ["app.conf"%string]; ASend; AReceive; AApply;
     AUser no_files; ARaw rm_event; ARelease (batch_of false);
     AChanged; AFire ["app.conf"%string]; ASend; AReceive; AApply; ARelease (batch_of true)] rendered
  with
  | Some x => hash_at "app.conf" x = Some (false, HashContent hello) ∧ disk_at "app.conf" x = Some hello ∧
              r_pending x = ∅ ∧ inflight (r_mirror x) = ∅
  | None => False
  end.
Proof. vm_compute. repeat split. Qed.

(** ** Entries that are never written out *)

Definition after_render (es : list edit) (f : gmap (list string) obj) (p : string) : bool * option obj :=
  let out := render (mirror_of (Demo.run es) f) in (is_Ok out.1, objs (mi_disk out.2) !! [p]).
Definition a_dir : gmap (list string) obj := {[ ["app.conf"%string] := Dir (mkPerms 493 0 0) ]}.
Definition a_file : gmap (list string) obj := {[ ["app.conf"%string] := File (mkPerms 420 0 0) 1 hello2 ]}.

(** Some entries never reach the disk, and a render returns without an error all the same.  A setuid file is accepted
    by the tree — [SanitizeMode] keeps the bit — but os.Root takes no such mode; a
    file stays away where there is a directory on disk; and where the tree has a directory and the disk a file, MkdirAll's ErrExist is taken for success
    and the file is given the directory's mode. *)
Theorem never_rendered :
  after_render [EPutFile "su" hello (Z.lor 493 ModeSetuid) 0 0] ∅ "su" = (true, None) ∧
  after_render [write1] a_dir "app.conf" = (true, Some (Dir (mkPerms 493 0 0))) ∧
  after_render [mkdir] a_file "app.conf" = (true, Some (File (mkPerms 493 0 0) 1 hello2)).
Proof. vm_compute. repeat split. Qed.

(** ** Failures taken for answers *)

(** The first statement fails. *)
Definition first_fails : DBFaults := λ n, Nat.eqb n 0.
Definition deleted_node : node :=
  let s := run [write1; EDelete "app.conf"] in set_db (mkDB (tbl (db s)) 0) s.

(** A read of the tree that fails is taken for a path the tree does not know: the scan adopts a
    file the cluster has deleted, and it is live again. *)
Theorem read_error_resurrects :
  let m := mirror_of deleted_node {[ ["app.conf"%string] := File (mkPerms 420 0 0) 0 hello ]} in
  hash_at "app.conf" (idle m) = Some (true, "") ∧
  hash_at "app.conf" (idle (@scan _ _ _ linux cfg m).2) = Some (true, "") ∧
  hash_at "app.conf" (idle (@scan first_fails _ _ linux cfg m).2) = Some (false, HashContent hello).
Proof. vm_compute. repeat split. Qed.

(** The first system call fails. *)
Definition stat_fails : OS := {|
  os_fails n := if Nat.eqb n 0 then Some ErrOS else None; os_time n := 2000; os_dirtime _ _ := 0;
  os_new _ mode := mkPerms mode 0 0; os_short _ := 0%nat |}.

(** Any failure to look at the path of a removal event is taken for its absence: the file is there,
    and it is deleted from the cluster. *)
Theorem stat_error_deletes :
  let m := mirror_of (run [write1]) {[ ["app.conf"%string] := as_in_tree ]} in
  hash_at "app.conf" (idle (@apply_event _ _ _ linux cfg gone m).2) = Some (false, HashContent hello) ∧
  hash_at "app.conf" (idle (@apply_event _ _ _ stat_fails cfg gone m).2) = Some (true, "") ∧
  disk_at "app.conf" (idle (@apply_event _ _ _ stat_fails cfg gone m).2) = Some hello.
Proof. vm_compute. repeat split. Qed.

(** A scan does not ask for claims: a file that is being written, which the watcher leaves alone until it has
    settled, is promoted half-written when the timer fires. *)
Theorem scan_promotes_unsettled :
  match Watch.run cfg dir [ANode (run []); ARaw write_event;
    AUser {[ ["app.conf"%string] := File (mkPerms 420 0 0) 3000 (of_string "he") ]}; ATick] (idle m0) with
  | Some x => "app.conf"%string ∈ inflight (r_mirror x) ∧
              hash_at "app.conf" x = Some (false, HashContent (of_string "he"))
  | None => False
  end.
Proof. vm_compute. split; [|reflexivity]. apply (bool_decide_unpack _). vm_compute. exact I. Qed.
