(* ===== verification/Witnesses.v ===== *)
(** * Concrete instances of the theorems

    For each theorem with hypotheses of the store, the transport, the pulls and the service: an
    input on which the hypotheses hold, and the theorem applied there. *)
From S2P Require Import Prelude GoStrings Clock Paths Crypto Aead Auth Entry Store StoreFacts Transport Cluster Client Resolve Syncer SyncerFacts AntiEntropy AntiFacts Pages Convergence Service Hazards.
From Stdlib Require Import Ascii.

Import Demo.

(** ** The store *)

Definition dir_a : Meta := peer_dir "a" 100 0.
Definition dir_b : Meta := peer_dir "b" 200 0.
Definition db0 : DB := mkDB empty_tables 0.

Lemma Apply_feed_witness :
  let out := Apply [dir_a; dir_b; dir_a] db0 in
  ∃ head, out.1 = Ok head ∧ head = 3 ∧ wf_tables (tbl out.2).
Proof.
  intros out. exists 3. split; [vm_compute; reflexivity|].
  assert (Apply [dir_a; dir_b; dir_a] db0 = (Ok 3, out.2)) as H1 by (vm_compute; reflexivity).
  assert (length (rows (tbl out.2)) ≤ 10)%nat as H2 by (vm_compute; lia).
  destruct (Apply_feed [dir_a; dir_b; dir_a] db0 3 out.2 10 wf_empty H1 H2) as (Hh & _ & _ & Hw).
  split; [exact Hh|exact Hw].
Defined.

Lemma Apply_atomic_witness :
  let out := @Apply (λ n, Nat.eqb n 2) [dir_a; dir_b] db0 in
  out.1 = Err ErrDB ∧ tbl out.2 = empty_tables.
Proof.
  intros out. split; [vm_compute; reflexivity|].
  refine (@Apply_atomic (λ n, Nat.eqb n 2) [dir_a; dir_b] db0 ErrDB out.2 _).
  vm_compute. reflexivity.
Defined.

Lemma Digest_agreement_witness :
  let t1 := applied [dir_a; dir_b] empty_tables in
  let t2 := applied [dir_b; dir_a; dir_b] empty_tables in
  digest_of t1 = digest_of t2 ∧ select_all t1 ≠ select_all t2.
Proof.
  intros t1 t2.
  assert (Forall no_nul (select_all t1)) as H1 by (vm_compute; repeat constructor).
  assert (Forall no_nul (select_all t2)) as H2 by (vm_compute; repeat constructor).
  assert (digest_text (select_all t1) = digest_text (select_all t2)) as H3 by (vm_compute; reflexivity).
  assert (digested_tree t1 = digested_tree t2) as H4 by (vm_compute; reflexivity).
  split; [|vm_compute; discriminate].
  refine (proj2 (Digest_agreement t1 t2 (wf_applied _ _ wf_empty) (wf_applied _ _ wf_empty) H1 H2 _) H4).
  intros _. exact (f_equal of_string H3).
Defined.

(** ** The transport *)

(** A router that knows the digest only, and documents encoded as nothing. *)
#[local] Instance toy_router : Router := λ uri, if String.eqb uri digest_path then Some Rdigest else None.
#[local] Instance toy_codec A : Codec A := {| Marshal := λ _, Ok []; Unmarshal := λ _, Err ErrParse |}.
#[local] Instance toy_random : Random := λ _, Ok (replicate 12 Byte.x07).
#[local] Existing Instances aes aes_laws.
Definition toy_keys : Keys := mkKeys [] (of_string "api") (replicate 32 Byte.x42).
Definition toy_handler : string → string → Z → ST host response :=
  Handler toy_keys (mret tt) (λ _, mkResponse 404 []).
Definition toy_host : host := mkHost db0 0.

Lemma Handler_read_only_witness :
  tbl (h_db (toy_handler digest_path "" 0 toy_host).2) = empty_tables.
Proof.
  refine (Handler_read_only toy_keys (mret tt) (λ _, mkResponse 404 []) digest_path "" 0 toy_host
    (toy_handler digest_path "" 0 toy_host).1 (toy_handler digest_path "" 0 toy_host).2 _ _).
  - intros h r h' E. injection E as _ <-. reflexivity.
  - apply surjective_pairing.
Defined.

Lemma Handler_unauthorized_witness :
  let out := toy_handler digest_path "DCFS1 n1:0:aa:bb" 0 toy_host in
  out.1 = Ok (http_Error "unauthorized" StatusUnauthorized) ∧ out.2 = toy_host.
Proof.
  intros out. split; [vm_compute; reflexivity|].
  refine (proj1 (Handler_unauthorized toy_keys (mret tt) (λ _, mkResponse 404 []) digest_path
    "DCFS1 n1:0:aa:bb" 0 toy_host (http_Error "unauthorized" StatusUnauthorized) out.2 _ _)).
  - intros [nd Hc]. apply verify_Ok in Hc. vm_compute in Hc. discriminate Hc.
  - vm_compute. reflexivity.
Defined.

(** A network in which every request is answered with the same sealed content. *)
#[local] Instance toy_network : Network :=
  {| req_rand := λ _, Ok (replicate 12 Byte.x09); req_time := λ _, 5;
     http_do := λ _ _ _ _, match seal (Ok (replicate 12 Byte.x07)) (Blob toy_keys) hello with
                           | Ok b => Ok (mkResponse 200 b)
                           | Err e => Err e
                           end |}.

Lemma client_Blob_verified_witness :
  let c := mkClient toy_keys "n1" 1000 in
  client_Blob c 0 "addr" (HashContent hello) = Ok hello ∧ HashContent hello = HashContent hello.
Proof.
  intros c.
  assert (client_Blob c 0 "addr" (HashContent hello) = Ok hello) as H1 by (vm_compute; reflexivity).
  split; [exact H1|].
  refine (proj1 (client_Blob_verified c 0 "addr" (HashContent hello) hello _ H1)).
  vm_compute. split; [discriminate|reflexivity].
Defined.

Lemma walk_feed_witness :
  let t := applied [dir_a; dir_b] empty_tables in
  walk 1 1 t = Some (feed 1 t) ∧ Path <$> feed 1 t = ["b"%string].
Proof.
  intros t. split; [|vm_compute; reflexivity].
  refine (proj1 (walk_feed t 1 1 (wf_applied _ _ wf_empty) _)).
  assert (length (feed 1 t) = 1%nat) as -> by (vm_compute; reflexivity).
  unfold MaxManifestPage. lia.
Defined.

(** ** Pulls *)

(** A clock that stands still, and a peer that serves these tables. *)
Definition flat_time : SystemTime := λ _, 2000.

Definition serving (tp : tables) : PeerClient :=
  {| peer_Digest := λ _ _, Ok (mkDigestResponse (digest_of tp) 0 (local_seq tp));
     peer_Manifest := λ _ _ since, Ok (manifest_of since tp);
     peer_Blob := λ _ _ hash,
       match blobs tp !! hash with
       | Some b => if String.eqb (HashContent (b_Data b)) hash then Ok (b_Data b) else Err ErrPeer
       | None => Err ErrPeerNotFound
       end |}.

Lemma serving_laws tp : @PeerClientLaws _ (serving tp).
Proof.
  intros i addr hash content. cbn [serving peer_Blob]. destruct (blobs tp !! hash) as [b|]; [|done].
  destruct (String.eqb_spec (HashContent (b_Data b)) hash); [|done]. by intros [= <-].
Qed.

(** The peer: a node that has written one file. *)
Definition tp : tables := tbl (db (run [write1])).
Definition file1 : Meta := hd zero_meta (rows tp).

Lemma rows_tp : rows tp = [file1].
Proof. vm_compute. reflexivity. Qed.

Lemma serves_tp : @serves _ flat_time (serving tp) cfg "addr" 0 tp 100.
Proof.
  assert (validate cfg file1 = Ok tt) as Hv by (vm_compute; reflexivity).
  assert (Wall (HLC (MVersion file1)) = 1000 ∧ Counter (HLC (MVersion file1)) = 0) as [Hw Hc]
    by (vm_compute; split; reflexivity).
  assert (@peer_Blob (serving tp) 0 "addr" (Hash file1) = Ok hello) as Hb by (vm_compute; reflexivity).
  split.
  - apply (proj1 (wf_run [write1])).
  - vm_compute; discriminate.
  - intros i since _. reflexivity.
  - intros m Hm. rewrite rows_tp in Hm. apply list_elem_of_singleton in Hm as ->.
    split_and!; [done| |unfold counter_room; rewrite Hc; by_compute].
    intros n _ Hd. unfold drifted in Hd. rewrite Hw in Hd. vm_compute in Hd. discriminate Hd.
  - intros m Hm _ i. rewrite rows_tp in Hm. apply list_elem_of_singleton in Hm as ->.
    exists hello. split; [exact Hb|by_compute].
Qed.

Lemma covers_boot : covers (clock boot) (tbl (db boot)).
Proof. intros p r Hr. simpl in Hr. by rewrite lookup_empty in Hr. Qed.

Lemma syncPeer_catches_up_witness :
  ∃ s', @syncPeer _ _ flat_time (serving tp) cfg 1 "p" "addr" boot = (Ok true, s') ∧
    (digest_of (tbl (db boot)) = digest_of tp ∨
     dominates_all (tbl (db s')) tp ∧ bookmark_ok "p" tp (tbl (db s'))).
Proof.
  assert (counter_room (2 * Z.of_nat (length (rows tp))) (clock boot)) as H1 by (vm_compute; split; discriminate).
  assert (local_seq (tbl (db boot)) + 2 * Z.of_nat (length (rows tp)) ≤ max_int64) as H2
    by (vm_compute; discriminate).
  assert (bookmark_ok "p" tp (tbl (db boot))) as H3.
  { intros row Hrow. simpl in Hrow. rewrite lookup_empty in Hrow. discriminate Hrow. }
  assert (length (rows tp) < MaxManifestPage * 1)%nat as H4 by (rewrite rows_tp; unfold MaxManifestPage; simpl; lia).
  assert (local_seq tp ≤ max_int64) as H6 by (vm_compute; discriminate).
  assert (@serves _ flat_time (serving tp) cfg "addr" 0 tp (2 * Z.of_nat (length (rows tp)))) as H5.
  { destruct serves_tp as [S1 S0 S2 S3 S4]. split; [exact S1|exact S0|exact S2| |exact S4].
    intros m Hm. destruct (S3 m Hm) as (V1 & V2 & V3). split; [exact V1|]. split; [exact V2|].
    refine (counter_room_le 100 _ _ _ V3). rewrite rows_tp. simpl. lia. }
  destruct (@syncPeer_catches_up _ _ flat_time (serving tp) (serving_laws tp) cfg "p" "addr" tp (local_seq tp) boot 1
    H5 (λ i, ex_intro _ 0 eq_refl) no_fault wf_boot covers_boot H1 H2 H3 H6 H4) as (s' & E & _ & _ & _ & Hd).
  exact (ex_intro _ s' (conj E Hd)).
Defined.

Lemma mutual_dominance_agrees_witness :
  let t1 := applied [dir_a; dir_b] empty_tables in
  let t2 := applied [dir_b; dir_a] empty_tables in
  digest_of t1 = digest_of t2 ∧ rows t1 ≠ rows t2.
Proof.
  intros t1 t2. split; [|vm_compute; discriminate].
  assert (rows t1 = [with_Seq 1 dir_a; with_Seq 2 dir_b] ∨ rows t1 = [with_Seq 2 dir_b; with_Seq 1 dir_a]) as R1
    by (vm_compute; first [left; reflexivity|right; reflexivity]).
  assert (rows t2 = [with_Seq 2 dir_a; with_Seq 1 dir_b] ∨ rows t2 = [with_Seq 1 dir_b; with_Seq 2 dir_a]) as R2
    by (vm_compute; first [left; reflexivity|right; reflexivity]).
  assert (∀ m, m ∈ rows t1 → m = with_Seq 1 dir_a ∨ m = with_Seq 2 dir_b) as M1
    by (intros m; destruct R1 as [-> | ->]; set_solver).
  assert (∀ m, m ∈ rows t2 → m = with_Seq 2 dir_a ∨ m = with_Seq 1 dir_b) as M2
    by (intros m; destruct R2 as [-> | ->]; set_solver).
  assert (same_writes t1 t2) as H1.
  { intros m1 m2 H1%M1 H2%M2 Hp _. destruct H1 as [-> | ->], H2 as [-> | ->];
      first [discriminate Hp|reflexivity]. }
  assert (dominates_all t1 t2) as H2.
  { intros m [-> | ->]%M2; (eexists; split; [vm_compute; reflexivity|right; vm_compute; reflexivity]). }
  assert (dominates_all t2 t1) as H3.
  { intros m [-> | ->]%M1; (eexists; split; [vm_compute; reflexivity|right; vm_compute; reflexivity]). }
  exact (proj2 (mutual_dominance_agrees t1 t2 (wf_applied _ _ wf_empty) (wf_applied _ _ wf_empty) H1 H2 H3)).
Defined.

(** A page of two entries, the second of which is malformed. *)
Definition page2 : list Meta := [peer_dir "conf.d" 1500 1; peer_dir "../x" 1500 2].

Lemma applyRemote_bookmark_safe_witness :
  ∃ s', @applyRemote _ _ flat_time (serving tp) cfg "addr" page2 boot = (Ok 2, s') ∧
    (∀ m, m ∈ page2 → Seq m ≤ 2 → settled cfg (tbl (db s')) m ∨ @early flat_time (ticks boot) (ticks s') m).
Proof.
  set (out := @applyRemote _ _ flat_time (serving tp) cfg "addr" page2 boot).
  assert (out = (Ok 2, out.2)) as H1 by (vm_compute; reflexivity).
  assert (ordered_page page2) as H2.
  { split; [|split].
    - repeat constructor.
    - apply (bool_decide_unpack _). vm_compute. exact I.
    - repeat constructor. }
  assert (counter_room (2 * Z.of_nat (length page2)) (clock boot)) as H3 by (vm_compute; split; discriminate).
  assert (Forall (λ m, counter_room (2 * Z.of_nat (length page2)) (HLC (MVersion m))) page2) as H4
    by (repeat constructor; vm_compute; discriminate).
  destruct (@applyRemote_bookmark_safe _ _ flat_time (serving tp) (serving_laws tp) cfg "addr" page2 boot 2 out.2
    wf_boot covers_boot H2 H3 H4 H1) as (Hs & _).
  exists out.2. exact (conj H1 Hs).
Defined.

(** The node that wrote "hello" receives a concurrent "other", behind a directory. *)
Definition rival : Meta := peer_file "app.conf" other "" 1500 2.
Definition before : list Meta := [peer_dir "conf.d" 1500 1].
Definition rival_peer : PeerClient := scripted [] [other] 0.

Lemma conflict_keeps_both_witness :
  let s0 := run [write1] in
  let s' := (@applyRemote _ _ flat_time rival_peer cfg "addr" (before ++ [rival]) s0).2 in
  ∃ copy : Meta, entry_at (tbl (db s')) (ConflictName "app.conf" "n1" 1000) = (copy, true) ∧
    Hash copy = HashContent hello.
Proof.
  intros s0 s'.
  set (local := (entry_at (tbl (db s0)) "app.conf").1).
  assert (page_room (before ++ [rival]) (clock s0)) as H1.
  { split; [vm_compute; split; discriminate|]. repeat (apply Forall_cons; split); [vm_compute; split; discriminate..|apply Forall_nil; exact I]. }
  assert (entry_at (tbl (db s0)) (Path rival) = (local, true)) as H3 by (vm_compute; reflexivity).
  assert (ts_le (HLC (MVersion local)) (clock s0)) as H4 by (right; vm_compute; reflexivity).
  assert (resolve local true rival = decisionConflict) as H5 by (vm_compute; reflexivity).
  assert (validate cfg rival = Ok tt) as H6 by (vm_compute; reflexivity).
  assert (@punctual flat_time (ticks s0) rival) as H7 by (intros n _ Hd; vm_compute in Hd; discriminate Hd).
  assert (@applyRemote _ _ flat_time rival_peer cfg "addr" (before ++ [rival]) s0 = (Ok 2, s')) as H8
    by (vm_compute; reflexivity).
  assert (Origin (MVersion local) = "n1"%string ∧ Wall (HLC (MVersion local)) = 1000 ∧
          Hash local = HashContent hello) as (E1 & E2 & E3) by (vm_compute; repeat split).
  assert (∀ m, m ∈ before ++ [] → ¬ writes_at (tbl (db s0)) m (ConflictName (Path rival) (Origin (MVersion local)) (Wall (HLC (MVersion local)))) ∧
    ¬ writes_at (tbl (db s0)) m (Path rival)) as H9.
  { intros m Hm. assert (m = peer_dir "conf.d" 1500 1) as -> by (apply list_elem_of_singleton; exact Hm).
    rewrite E1, E2. assert (∃ x, entry_at (tbl (db s0)) "conf.d" = (x, false)) as [x Ex] by (eexists; vm_compute; reflexivity).
    split; (intros [Hp|(l & Hl & _)]; [vm_compute in Hp; discriminate Hp|
      change (entry_at (tbl (db s0)) "conf.d" = (l, true)) in Hl; rewrite Ex in Hl; discriminate Hl]). }
  destruct (@conflict_keeps_both _ _ flat_time rival_peer (scripted_laws [] [other] 0) cfg "addr" before rival [] local s0 2 s'
    (wf_run [write1]) H1 H3 H4 H5 H6 H7 H9 H8) as (copy & Hc & Hh & _).
  rewrite E1, E2 in Hc. rewrite E3 in Hh. exact (ex_intro _ copy (conj Hc Hh)).
Defined.

(** ** The janitor and the service *)

(** A deletion, and a clock an hour past the time to live of its tombstone. *)
Definition deleted : node := run [write1; EDelete "app.conf"].
Definition late : SystemTime := λ _, 10 ^ 9.

Lemma collect_spec_witness :
  let s' := (@collect _ late cfg deleted).2 in
  (@collect _ late cfg deleted).1 = Ok tt ∧
  (∀ p r, entries (tbl (db s')) !! p = Some r ↔
     entries (tbl (db deleted)) !! p = Some r ∧
     ¬ (r_Deleted r = true ∧ 0 < r_DeletedAt r < @horizon late cfg deleted)) ∧
  entries (tbl (db s')) = ∅ ∧ blobs (tbl (db s')) = ∅.
Proof.
  intros s'.
  assert (@collect _ late cfg deleted = (Ok tt, s')) as H1 by (vm_compute; reflexivity).
  destruct (@collect_spec _ late cfg deleted (Ok tt) s' no_fault H1) as (_ & _ & _ & _ & He & _).
  split; [vm_compute; reflexivity|]. split; [exact He|]. split; vm_compute; reflexivity.
Defined.

Lemma collect_keeps_live_witness :
  let s0 := run [write1; EPutDir "d" 493 0 0; EDelete "d"] in
  let s' := (@collect _ late cfg s0).2 in
  ∃ r, entries (tbl (db s')) !! "app.conf"%string = Some r ∧ entries (tbl (db s')) !! "d"%string = None.
Proof.
  intros s0 s'.
  destruct (entries (tbl (db s0)) !! "app.conf"%string) as [r|] eqn:E; [|vm_compute in E; discriminate E].
  assert (r_Deleted r = false) as Hd.
  { vm_compute in E. injection E as <-. reflexivity. }
  assert (@collect _ late cfg s0 = (Ok tt, s')) as H1 by (vm_compute; reflexivity).
  exists r. split; [|vm_compute; reflexivity].
  exact (proj1 (@collect_keeps_live _ _ late cfg s0 (Ok tt) s' "app.conf" r (wf_run _) H1 E Hd)).
Defined.

Lemma syncPeer_refines_witness :
  let H := scripted two_pages [hello] 0 in
  ∃ s', syncPeer cfg 3 "p" "addr" boot = (Ok true, s') ∧
    leads cfg "p" "addr" PStart boot (PDone (Ok tt)) s'.
Proof.
  intros H. set (s' := (syncPeer cfg 3 "p" "addr" boot).2).
  assert (syncPeer cfg 3 "p" "addr" boot = (Ok true, s')) as H1 by (vm_compute; reflexivity).
  exists s'. split; [exact H1|].
  refine (syncPeer_refines cfg 3 "p" "addr" boot (Ok true) s' H1 _). discriminate.
Defined.

(** Two joins of one peer start one pull. *)
Lemma service_invariant_witness :
  let H := scripted two_pages [hello] 0 in
  let join := mkEvent EventJoin "p" "addr" 0 in
  let x := handle_event cfg join (handle_event cfg join (start_service db0)) in
  service_ok cfg x ∧ g_node <$> pulls x = ["p"%string].
Proof.
  intros H join x. split; [|vm_compute; reflexivity].
  refine (@service_invariant _ _ _ H cfg (scripted_laws two_pages [hello] 0) sha256_fips_laws db0 x wf_store_empty _).
  refine (rtc_l _ _ _ _ _ (rtc_l _ _ _ _ _ (rtc_refl _ _))); apply step_event.
Defined.

(** ** Gossip *)

(** A codec that holds to its law: the fields on lines of their own. *)
Definition line_end : ascii := "010"%char.
Definition plain (h : hint) : Prop :=
  Str.has_char line_end (hi_Node h) = false ∧ Str.has_char line_end (hi_Addr h) = false ∧ is_int64 (hi_Seq h).
#[local] Instance plain_dec h : Decision (plain h).
Proof. unfold plain, is_int64. apply _. Defined.
#[local] Instance hint_codec : Codec hint := {|
  Marshal h := if decide (plain h)
    then Ok (of_string (Str.join line_end [hi_Node h; hi_Addr h; Dec.fmt_d (hi_Seq h)])) else Err ErrParse;
  Unmarshal b := match Str.split line_end (String.string_of_list_byte b) with
    | [n; a; z] => q ← Dec.ParseInt z; Ok (mkHint n a q)
    | _ => Err ErrParse
    end |}.
#[local] Instance hint_codec_laws : CodecLaws hint.
Proof.
  intros [n a q] b _. unfold Marshal, Unmarshal, hint_codec. case_decide as Hp; [|done]. intros Hb.
  assert (b = of_string (Str.join line_end [n; a; Dec.fmt_d q])) as -> by (injection Hb as <-; reflexivity).
  destruct Hp as (Hn & Ha & Hq). unfold of_string. rewrite String.string_of_list_byte_of_string, Str.split_join.
  - cbn [hi_Node hi_Addr hi_Seq]. by rewrite Dec.ParseInt_fmt_d.
  - done.
  - repeat constructor; [done..|]. by apply Dec.fmt_d_chars.
Qed.
#[local] Instance meta_codec : Codec nodeMeta := {|
  Marshal m := Ok (of_string (nm_API m)); Unmarshal b := Ok (mkNodeMeta (String.string_of_list_byte b)) |}.
#[local] Instance meta_codec_laws : CodecLaws nodeMeta.
Proof. intros [a] b _ [= <-]. simpl. unfold of_string. by rewrite String.string_of_list_byte_of_string. Qed.

(** A queue that sends everything at once. *)
#[local] Instance plain_queue : BroadcastQueue (list bytes) :=
  {| QueueBroadcast b q := q ++ [b]; GetBroadcasts _ _ q := (q, []) |}.
Definition member (name addr : string) : Cluster (list bytes) :=
  mkCluster (mkClusterConfig name addr) [] false [] 0.

Lemma event_channel_witness :
  let e := mkEvent EventHint "n2" "addr" 7 in
  ∃ got c', channel_run [OpEmit e; OpReceive; OpReceive] ([], member "n1" "") = Some (got, c') ∧
    got ++ c_events c' = [e].
Proof.
  intros e. destruct (event_channel [OpEmit e; OpReceive; OpReceive] (member "n1" "")) as (got & c' & E & _ & _ & _ & H1);
    [done|done|].
  exists got, c'. split; [exact E|]. apply H1. vm_compute. lia.
Defined.

Lemma NodeMeta_apiAddrOf_witness :
  apiAddrOf (mkMlNode "n1" (NodeMeta 512 (member "n1" "10.0.0.1:7947"))) = "10.0.0.1:7947"%string.
Proof.
  refine (NodeMeta_apiAddrOf 512 (member "n1" "10.0.0.1:7947") "n1" (of_string "10.0.0.1:7947") _ _ _).
  - reflexivity.
  - reflexivity.
  - discriminate.
Defined.

Lemma Announce_starts_pull_witness :
  let x := start_service (mkDB empty_tables 0) in
  ∃ e, "n2"%string ∈ syncing (handle_event cfg e x).
Proof.
  intros x.
  destruct (Announce_starts_pull cfg (member "n2" "10.0.0.2:7947") (member "n1" "") x 7
    (of_string (Str.join line_end ["n2"; "10.0.0.2:7947"; "7"])%string)) as (_ & _ & b' & e & _ & _ & Hin & _);
    try discriminate; try reflexivity.
  exact (ex_intro _ e Hin).
Defined.
