(* ===== verification/ExchangeRuns.v ===== *)
(** * Runs of nodes that pull from each other

    [two_nodes_converge] on the smallest run with a conflict, where each node has written its own content to the same
    path, and [star_converges] on a third node that pulls from two. *)
From S2P Require Import Prelude GoStrings Clock Paths Crypto Entry Store StoreFacts Transport Client Resolve Syncer SyncerFacts AntiEntropy AntiFacts Pages Convergence Exchange Hazards Witnesses.

Import Demo.

(** B writes first, A later. *)
Definition cfgB : Config := mkConfig "n2" 16 1000 true.
Definition node_b : node := (run_edit cfgB write1 boot).2.
Definition node_a : node := (@run_edit _ _ (λ n, 1500 + Z.of_nat n) cfg write2 boot).2.

Definition pulled (c : Config) (from : string) (tp : tables) (s : node) : result bool * node :=
  @syncPeer _ _ flat_time (serving tp) c 1 from "addr" s.
Definition node_a1 : node := (pulled cfg "n2" (tbl (db node_b)) node_a).2.
Definition node_b1 : node := (pulled cfgB "n1" (tbl (db node_a1)) node_b).2.

(** ** The hypotheses, decided *)

Definition servable (c : Config) (tp : tables) (m : Meta) : bool :=
  is_Ok (validate c m) && (Wall (HLC (MVersion m)) <=? 2000) && (0 <=? Wall (HLC (MVersion m))) &&
  (0 <=? Counter (HLC (MVersion m))) && (Counter (HLC (MVersion m)) <=? 100) &&
  (negb (needs_blob m) || match @peer_Blob (serving tp) 0 "addr" (Hash m) with
                          | Ok b => Z.of_nat (length b) <=? MaxFileSize c | Err _ => false end).

Definition behind (tp t : tables) (node : string) : bool :=
  match peers t !! node with
  | None => true
  | Some row => (0 <=? p_LastSeq row) &&
      forallb (λ m, (p_LastSeq row <? Seq m) ||
        match entries t !! Path m with Some r => negb (After (MVersion m) (MVersion (meta r))) | None => false end) (rows tp)
  end.

Definition can_pull (c : Config) (node : string) (tp : tables) (s : Syncer.node) : bool :=
  forallb (servable c tp) (rows tp) && (local_seq tp <=? 100) && (length (rows tp) <=? 10)%nat &&
  (0 <=? Counter (clock s)) && (Counter (clock s) <=? 100) && (local_seq (tbl (db s)) <=? 100) && behind tp (tbl (db s)) node.

Lemma behind_ok tp t node : behind tp t node = true → bookmark_ok node tp t.
Proof.
  intros Hb row Hr. unfold behind in Hb. rewrite Hr, andb_true_iff, Z.leb_le, forallb_forall in Hb.
  destruct Hb as [H0 Hb]. split; [done|]. intros m Hm Hs. apply list_elem_of_In, Hb in Hm.
  apply orb_true_iff in Hm as [?%Z.ltb_lt|Hm]; [lia|]. destruct (entries t !! Path m) as [r|] eqn:Er; [|done].
  exists r. split; [done|]. apply negb_true_iff, not_After in Hm.
  destruct Hm as [?|?]; [by left|by right].
Qed.

Lemma serving_blob tp i h : @peer_Blob (serving tp) i "addr" h = @peer_Blob (serving tp) 0 "addr" h.
Proof. reflexivity. Qed.

Lemma can_pull_ready c node tp s :
  wf_tables tp → wf_store (tbl (db s)) → covers (clock s) (tbl (db s)) → can_pull c node tp s = true →
  @ready _ _ flat_time (serving tp) c node "addr" tp s 1.
Proof.
  intros Hwp Hw Hcov Hc. unfold can_pull in Hc. rewrite !andb_true_iff, !Z.leb_le, Nat.leb_le, forallb_forall in Hc.
  destruct Hc as ((((((Hsv & Hh) & Hl) & Hc0) & Hc1) & Hs) & Hb).
  split; [|..|by apply behind_ok|]; try done.
  - split; [done| |by intros i since _| |].
    + unfold max_int64. lia.
    + intros m Hm%list_elem_of_In%Hsv. unfold servable in Hm. rewrite !andb_true_iff, !Z.leb_le in Hm.
      destruct Hm as (((((Hv & Hw1) & Hw0) & Hk0) & Hk1) & _). split_and!.
      * by destruct (validate c m) as [[]|].
      * intros n _ Hd. unfold drifted in Hd. change (@time_now flat_time n) with 2000 in Hd. rewrite wrap64_id in Hd by (unfold is_int64, min_int64, max_int64; lia).
        unfold MaxClockDrift in Hd. lia.
      * unfold counter_room, max_uint32. lia.
    + intros m Hm%list_elem_of_In%Hsv Hn i. unfold servable in Hm. rewrite !andb_true_iff, Hn in Hm. cbn [negb orb] in Hm.
      destruct Hm as [_ Hm]. rewrite (serving_blob tp i).
      destruct (@peer_Blob (serving tp) 0 "addr" (Hash m)) as [b|]; [|discriminate Hm].
      exists b. split; [reflexivity|]. by apply Z.leb_le.
  - exists (local_seq tp). split; [unfold max_int64; lia|]. intros i. by exists 0.
  - apply no_fault.
  - unfold counter_room, max_uint32. lia.
  - unfold max_int64. lia.
  - assert (MaxManifestPage = 2000)%nat as -> by done. lia.
Qed.

Lemma covers_check (c : Timestamp) t :
  bool_decide (map_Forall (λ _ r, Compare (HLC (MVersion (meta r))) c ≤ 0) (entries t)) = true → covers c t.
Proof.
  intros Hb%bool_decide_eq_true p r Hr. specialize (Hb p r Hr). cbv beta in Hb.
  destruct (Compare_spec (HLC (MVersion (meta r))) c) as [[_ ?]|[[_ ?]|[E _]]]; [by left|by right|]. rewrite E in Hb. lia.
Qed.

Definition same_writesb (t1 t2 : tables) : bool :=
  forallb (λ m1, forallb (λ m2, negb (String.eqb (Path m1) (Path m2)) || negb (bool_decide (MVersion m1 = MVersion m2)) ||
    bool_decide (digested m1 = digested m2)) (rows t2)) (rows t1).
Lemma same_writes_check t1 t2 : same_writesb t1 t2 = true → same_writes t1 t2.
Proof.
  intros Hb m1 m2 Hm1 Hm2 Ep Ev. unfold same_writesb in Hb. rewrite forallb_forall in Hb.
  apply list_elem_of_In, Hb in Hm1. rewrite forallb_forall in Hm1. apply list_elem_of_In, Hm1 in Hm2.
  rewrite Ep, String.eqb_refl, (bool_decide_true _ Ev) in Hm2. by apply bool_decide_eq_true in Hm2.
Qed.

Definition no_conflict (t tp : tables) : bool :=
  forallb (λ m, bool_decide (resolve (entry_at t (Path m)).1 (entry_at t (Path m)).2 m ≠ decisionConflict)) (rows tp).
Lemma compatible_check t tp : no_conflict t tp = true → compatible t tp.
Proof.
  intros Hb m Hm. unfold no_conflict in Hb. rewrite forallb_forall in Hb. apply list_elem_of_In, Hb in Hm.
  apply bool_decide_eq_true in Hm. unfold conflicting. by destruct (entry_at t (Path m)).
Qed.

(** ** The run *)

Lemma wf_edit (T : SystemTime) c e : wf_store (tbl (db (run_edit c e boot).2)).
Proof. eapply edit_outcome_wf; [apply wf_boot|]. apply run_edit_inv; [apply wf_boot|]. apply surjective_pairing. Qed.

(** Every entry and the contents, without the hashes computed by conversion. *)
Ltac checked := vm_compute; reflexivity.

Lemma two_nodes_converge_witness :
  ∃ a2, pulled cfg "n2" (tbl (db node_b1)) node_a1 = (Ok true, a2) ∧
    digest_of (tbl (db a2)) = digest_of (tbl (db node_b1)).
Proof.
  assert (wf_store (tbl (db node_a))) as Wa by apply wf_edit.
  assert (wf_store (tbl (db node_b))) as Wb by apply wf_edit.
  assert (covers (clock node_a) (tbl (db node_a))) as Ca by (apply covers_check; checked).
  assert (covers (clock node_b) (tbl (db node_b))) as Cb by (apply covers_check; checked).
  assert (can_pull cfg "n2" (tbl (db node_b)) node_a = true) as K1 by checked.
  pose proof (can_pull_ready cfg "n2" (tbl (db node_b)) node_a (proj1 Wb) Wa Ca K1) as R1.
  destruct (@ready_pull _ _ flat_time (serving (tbl (db node_b))) (serving_laws _) _ _ _ _ _ _ R1) as (a1 & E1 & Wa1 & Ca1 & _).
  assert (node_a1 = a1) as Ea1 by (unfold node_a1, pulled; rewrite E1; reflexivity). rewrite <- Ea1 in *.
  assert (can_pull cfgB "n1" (tbl (db node_a1)) node_b = true) as K2 by checked.
  pose proof (can_pull_ready cfgB "n1" (tbl (db node_a1)) node_b (proj1 Wa1) Wb Cb K2) as R2.
  destruct (@ready_pull _ _ flat_time (serving (tbl (db node_a1))) (serving_laws _) _ _ _ _ _ _ R2) as (b1 & E2 & Wb1 & Cb1 & _).
  assert (node_b1 = b1) as Eb1 by (unfold node_b1, pulled; rewrite E2; reflexivity). rewrite <- Eb1 in *.
  assert (can_pull cfg "n2" (tbl (db node_b1)) node_a1 = true) as K3 by checked.
  pose proof (can_pull_ready cfg "n2" (tbl (db node_b1)) node_a1 (proj1 Wb1) Wa1 Ca1 K3) as R3.
  assert (same_writes (tbl (db node_a1)) (tbl (db node_b1))) as Hs by (apply same_writes_check; checked).
  assert (compatible (tbl (db node_a1)) (tbl (db node_b1))) as Hc by (apply compatible_check; checked).
  destruct (two_nodes_converge flat_time flat_time _ _ _ (serving_laws _) (serving_laws _) (serving_laws _)
    cfg cfgB "n1" "n2" "addr" "addr" 1 1 1 node_a node_b (Ok true) node_a1 (Ok true) node_b1
    R1 E1 R2 E2 R3 Hs (λ m Hm _ _, Hc m Hm)) as (a2 & E3 & Ed & _).
  exact (ex_intro _ a2 (conj E3 Ed)).
Defined.

(** What it comes to: two entries each, the losing content at the name of the conflict. *)
Example settled_run :
  let a2 := (pulled cfg "n2" (tbl (db node_b1)) node_a1).2 in
  (Path <$> rows (tbl (db node_b))) = ["app.conf"%string] ∧ length (rows (tbl (db node_b1))) = 2%nat ∧
  (Path <$> select_all (tbl (db a2))) = ["app.conf"; "app.conf.conflict.n2.1000"]%string.
Proof. vm_compute. repeat split. Qed.

(** ** Three nodes *)

(** A third node, which knows nothing, pulls from two that know a file each. *)
Definition cfgH : Config := mkConfig "n3" 16 1000 true.
Definition node_c : node := (@run_edit _ _ (λ n, 1500 + Z.of_nat n) cfgB (EPutFile "db.conf" hello 420 0 0) boot).2.
Definition hub1 : node := (pulled cfgH "n1" (tbl (db node_a)) boot).2.
Definition hub2 : node := (pulled cfgH "n2" (tbl (db node_c)) hub1).2.

Lemma digests_differ t1 t2 : String.eqb (digest_of t1) (digest_of t2) = false → digests_tell t1 t2.
Proof. intros Hd E. by rewrite E, String.eqb_refl in Hd. Qed.

(** One pull of a concrete run: what it leaves is again sound, and its clock above its tree. *)
Lemma pulled_sound c nd tp s : @ready _ _ flat_time (serving tp) c nd "addr" tp s 1 →
  pulled c nd tp s = (Ok true, (pulled c nd tp s).2) ∧
  wf_store (tbl (db (pulled c nd tp s).2)) ∧ covers (clock (pulled c nd tp s).2) (tbl (db (pulled c nd tp s).2)).
Proof.
  intros R. destruct (@ready_pull _ _ flat_time (serving tp) (serving_laws tp) _ _ _ _ _ _ R) as (s' & E & Hw & Hc & _).
  assert (pulled c nd tp s = (Ok true, s')) as -> by exact E. done.
Qed.

Lemma star_converges_witness :
  ∃ x', pulled cfg "n3" (tbl (db hub2)) node_a = (Ok true, x') ∧ digest_of (tbl (db x')) = digest_of (tbl (db hub2)).
Proof.
  assert (wf_store (tbl (db node_a))) as Wa by apply wf_edit.
  assert (wf_store (tbl (db node_c))) as Wc by apply wf_edit.
  assert (covers (clock node_a) (tbl (db node_a))) as Ca by (apply covers_check; checked).
  assert (can_pull cfgH "n1" (tbl (db node_a)) boot = true) as K1 by checked.
  pose proof (can_pull_ready cfgH "n1" (tbl (db node_a)) boot (proj1 Wa) wf_boot covers_boot K1) as R1.
  destruct (pulled_sound _ _ _ _ R1) as (E1 & W1 & C1).
  assert (can_pull cfgH "n2" (tbl (db node_c)) hub1 = true) as K2 by checked.
  pose proof (can_pull_ready cfgH "n2" (tbl (db node_c)) hub1 (proj1 Wc) W1 C1 K2) as R2.
  destruct (pulled_sound _ _ _ _ R2) as (E2 & W2 & C2).
  assert (digests_tell (tbl (db boot)) (tbl (db node_a))) as D1 by (apply digests_differ; checked).
  assert (digests_tell (tbl (db hub1)) (tbl (db node_c))) as D2 by (apply digests_differ; checked).
  assert (can_pull cfg "n3" (tbl (db hub2)) node_a = true) as K3 by checked.
  pose proof (can_pull_ready cfg "n3" (tbl (db hub2)) node_a (proj1 W2) Wa Ca K3) as R3.
  assert (same_writes (tbl (db node_a)) (tbl (db hub2))) as Hs by (apply same_writes_check; checked).
  assert (compatible (tbl (db node_a)) (tbl (db hub2))) as Hc by (apply compatible_check; checked).
  pose proof (gathers_cons flat_time cfgH _ (serving_laws _) "n1" "addr" 1 _ _ boot hub1 hub2 R1 D1 E1
    (gathers_cons flat_time cfgH _ (serving_laws _) "n2" "addr" 1 _ _ hub1 hub2 hub2 R2 D2 E2
      (gathers_nil flat_time cfgH hub2))) as G.
  destruct (proj2 (star_converges flat_time cfgH [tbl (db node_a); tbl (db node_c)] boot hub2 G) flat_time _ (serving_laws _) cfg
    "n3" "addr" 1%nat node_a (list_elem_of_here _ _) R3 Hs Hc) as (x' & E3 & Ed & _).
  exact (ex_intro _ x' (conj E3 Ed)).
Defined.
