(* ===== verification/ServeRuns.v ===== *)
(** * A node from its flags to its first pull

    [group_stops] and [runServe_order] on a node with default flags, and what the default address leads to. *)
From S2P Require Import Prelude GoStrings Clock Paths Crypto Entry Store StoreFacts Transport Client Cluster Resolve Syncer SyncerFacts AntiEntropy AntiFacts Hazards Serve Witnesses ExchangeRuns.

Import Demo.

(** ** A command line *)

(** A command line as a map from names to settings: what is not given is the default of the flag declared. *)
Section command_line.
Context (flags : list Flag) (given : string → option setting).

Definition setting_of (name : string) : option setting :=
  f ← List.find (λ f, String.eqb (fl_Name f) name) flags;
  Some (default (fl_Value f) (given name)).

#[local] Instance command_line : Cli := {|
  cmd_String := λ name, match setting_of name with Some (FString v) => v | _ => EmptyString end;
  cmd_Int := λ name, match setting_of name with Some (FInt v) => v | _ => 0 end;
  cmd_Duration := λ name, match setting_of name with Some (FDuration v) => v | _ => 0 end;
  cmd_StringSlice := λ name, match setting_of name with Some (FStrings v) => v | _ => [] end;
  cmd_IsSet := λ name, bool_decide (is_Some (given name))
|}.

Lemma find_flag f : NoDup (fl_Name <$> flags) → f ∈ flags →
  List.find (λ f', String.eqb (fl_Name f') (fl_Name f)) flags = Some f.
Proof.
  induction flags as [|f' l IH]; simpl; [intros _ Hf; by apply elem_of_nil in Hf|].
  rewrite NoDup_cons, elem_of_cons. intros [Hn Hnd] [->|Hf].
  - by rewrite String.eqb_refl.
  - destruct (String.eqb_spec (fl_Name f') (fl_Name f)) as [E|_]; [|by apply IH].
    destruct Hn. rewrite E. apply list_elem_of_fmap. by exists f.
Qed.

Lemma command_line_laws : NoDup (fl_Name <$> flags) → CliLaws flags.
Proof.
  intros Hnd. split. intros f Hf Hg. simpl in Hg. apply bool_decide_eq_false in Hg.
  simpl. unfold setting_of. rewrite (find_flag f Hnd Hf). simpl.
  destruct (given (fl_Name f)); [by destruct Hg|]. simpl. by destruct (fl_Value f).
Qed.
End command_line.

(** ** A node that is started and stopped *)

Definition only_secret (name : string) : option setting :=
  if String.eqb name "secret" then Some (FString "correct horse battery") else None.
#[local] Instance host1_cli : Cli := command_line (all_flags (Ok "host1"%string)) only_secret.

Lemma host1_laws : CliLaws (all_flags (Ok "host1"%string)).
Proof. apply command_line_laws. apply (bool_decide_unpack (NoDup _)). by vm_compute. Qed.

(** Nothing fails, and the group ends with the signal. *)
#[local] Instance calm_host : Host := {| on_host := λ _, Ok tt; group_ends := λ _, Canceled |}.

(** With a secret and nothing else a node mirrors /etc/cluster, mounts nothing, and is taken down in order. *)
Example default_node :
  let '(r, l) := runServe 0 in
  r = Ok tt ∧ exit_code r = 0 ∧
  l = [MkdirDb "/var/lib/dcfs"; OpenStore "/var/lib/dcfs/dcfs.db";
       JoinCluster (mkJoinConfig "host1" "0.0.0.0" 7946 "" 7946 "127.0.0.1:7947" []);
       Spawn GApi; Spawn GSync; OpenMirror "/etc/cluster"; Spawn GMirror; Wait; LeaveCluster;
       CloseMirror; CloseStore].
Proof. by vm_compute. Qed.

Lemma wiring_agrees_witness : is_Ok (wiring 0) = true ∧ Str.len (cmd_String "secret") = 21.
Proof.
  split; [|reflexivity]. pose proof (wiring_agrees (Ok "host1"%string) 0 host1_laws) as Hw. cbv zeta in Hw.
  destruct (wiring 0) as [w|e]; [reflexivity|]. destruct Hw as [Hw _]. vm_compute in Hw. discriminate Hw.
Defined.

(** ** A group of goroutines *)

Record group_state := mkGroup { gs_running : list part; gs_done : bool; gs_error : ending }.

#[local] Instance simple_group : ErrGroup := {|
  group := group_state;
  group_of gs := mkGroup gs false Fine;
  running := gs_running;
  cancelled := gs_done;
  first_error := gs_error;
  group_signal x := mkGroup (gs_running x) true (gs_error x);
  group_end g e x := mkGroup (filter (g ≠.) (gs_running x))
    (match e with Fine => gs_done x | _ => true end) (match gs_error x with Fine => e | f => f end)
|}.
#[local] Instance simple_group_laws : ErrGroupLaws.
Proof. by split. Qed.

(** The API cannot listen while the mirror is in its first render: the others end with the context, the mirror with an error of
    its own, and the group reports the first. *)
Definition cannot_listen : list group_event :=
  [Step GMirror (HScanned Fine); Step GSync (HEvent true); Step GApi (HListened (Failed ErrOS)); Step GSync HSyncTick;
   Step GSync HDone; Step GMirror (HRendered Canceled)].


(** ** The address that is one's own *)

Definition pulled_self : result bool * node := pulled cfg "n2" (tbl (db node_a)) node_a.

(** A node that reaches itself at the address of a peer takes the peer for read.  With default
    flags a node gossips 127.0.0.1:7947 as its API address; whoever dials that reaches its own API, whose
    digest is of course its own.  The pull succeeds and moves the bookmark of the peer to the node's own feed
    position — so that when the peer is reached at last, at its real address, the entries it has up to that position are
    never asked for, although the digests differ. *)
Theorem own_address_hides_peer :
  let a1 := pulled_self.2 in
  let '(r2, a2) := pulled cfg "n2" (tbl (db node_c)) a1 in
  pulled_self.1 = Ok true ∧ bookmark_of "n2" a1 = Some 1 ∧
  r2 = Ok true ∧ digest_of (tbl (db a2)) ≠ digest_of (tbl (db node_c)) ∧
  entries (tbl (db a2)) !! "db.conf"%string = None ∧ is_Some (entries (tbl (db node_c)) !! "db.conf"%string).
Proof. vm_compute. split_and!; first [reflexivity | discriminate | eexists; reflexivity]. Qed.
