(* ===== verification/DeliveryRuns.v ===== *)
(** * A file on its way from one node to another

    The theorems of [Delivery] on the smallest run: a node saves a file, a second one pulls and writes it out; the first
    removes it, the second pulls again. *)
From S2P Require Import Prelude GoStrings Clock Paths Crypto Entry Store StoreFacts Resolve Syncer SyncerFacts TreeFacts Fuse FuseFacts Disk DiskFacts Mirror MirrorFacts RenderFacts Transport Client AntiEntropy AntiFacts Pages Convergence Exchange Delivery Hazards MirrorRuns Witnesses ExchangeRuns.

Section runs.
Import Demo.

#[local] Instance unix : OS := {|
  os_fails _ := None; os_time n := 2000 + Z.of_nat n; os_dirtime _ _ := 0;
  os_new _ mode := mkPerms (Z.ldiff mode 18) 0 0; os_short _ := 0%nat |}.

Lemma unix_works n : os_fails n = None.
Proof. reflexivity. Qed.

(** ** The hypotheses, decided *)

Lemma not_later_check t e :
  match entries t !! Path e with Some r => negb (After (MVersion (meta r)) (MVersion e)) | None => true end = true →
  not_later t e.
Proof. intros Hb r Hr. rewrite Hr in Hb. by apply not_After, negb_true_iff. Qed.

Lemma coherent_one t e :
  wf_tables t → select_live t = [e] → entry_ok e → is_Some (blobs t !! Hash e) → coherent t.
Proof.
  intros Hw El Hok Hb. assert (∀ e', live_entry t (Path e') e' → e' = e) as Hone.
  { intros e' He. apply elem_of_live in He; [|done]. rewrite El in He. by apply list_elem_of_singleton in He. }
  split.
  - by intros e' ->%Hone.
  - by intros e' ->%Hone _.
  - by intros e1 e2 ->%Hone ->%Hone.
Qed.

Lemma none_live t e : wf_tables t → select_live t = [] → ¬ live_entry t (Path e) e.
Proof. intros Hw El He. apply elem_of_live in He; [|done]. rewrite El in He. by apply not_elem_of_nil in He. Qed.

Lemma coherent_none t : wf_tables t → select_live t = [] → coherent t.
Proof. intros Hw El. split; intros e; intros; exfalso; by apply (none_live t e Hw El). Qed.

(** ** Saved *)

Definition open_file : writeHandle := mkWriteHandle "app.conf" hello 420 0 0 true.
Definition a_saved : node := (Flush cfg open_file boot).2.
Definition a_entry : Meta := (entry_at (tbl (db a_saved)) "app.conf").1.
Definition b_pulled : node := (pulled cfgB "n1" (tbl (db a_saved)) boot).2.
Definition b_disk : mirror := mkMirror boot (mkDisk ∅ 0) true false ∅.
Definition b_entry : Meta := default zero_meta (head (select_live (tbl (db b_pulled)))).

Lemma wf_saved : wf_store (tbl (db a_saved)).
Proof. apply (wf_run [write1]). Qed.

Lemma b_ready : @ready _ _ flat_time (serving (tbl (db a_saved))) cfgB "n1" "addr" (tbl (db a_saved)) boot 1.
Proof.
  apply can_pull_ready; [apply wf_saved|apply wf_boot|apply covers_boot|]. vm_compute. reflexivity.
Qed.

Lemma wf_pulled : wf_store (tbl (db b_pulled)).
Proof.
  destruct (@ready_pull _ _ flat_time (serving (tbl (db a_saved))) (serving_laws _) _ _ _ _ _ _ b_ready) as (b1 & E1 & Wb & _).
  unfold b_pulled, pulled. rewrite E1. exact Wb.
Qed.

Lemma b_entry_ok : entry_ok b_entry.
Proof.
  assert (Path b_entry = "app.conf"%string ∧ MKind b_entry = KindFile ∧ Mode b_entry = 420 ∧ UID b_entry = 0 ∧ GID b_entry = 0)
    as (Ep & Ek & Em & Eu & Eg) by (vm_compute; repeat split).
  split; rewrite ?Ep, ?Ek, ?Em, ?Eu, ?Eg; [..|right; split; [done|]];
    try (apply (bool_decide_unpack _); vm_compute; exact I); by compute.
Qed.

Lemma b_coherent : coherent (tbl (db b_pulled)).
Proof.
  apply (coherent_one _ b_entry); [apply wf_pulled|vm_compute; reflexivity|apply b_entry_ok|].
  assert ((if blobs (tbl (db b_pulled)) !! Hash b_entry is Some _ then true else false) = true) as Hb by (vm_compute; reflexivity).
  revert Hb. generalize (blobs (tbl (db b_pulled)) !! Hash b_entry). intros [b|] Hb; [by exists b|discriminate].
Qed.

Lemma saved_file_arrives_witness : ∃ m',
  render (with_node b_pulled b_disk) = (Ok tt, m') ∧
  ∃ at_ time c, objs (mi_disk m') !! ["app.conf"%string] = Some (File at_ time c) ∧ HashContent c = HashContent hello.
Proof.
  assert (Flush cfg open_file boot = (Done (mkWriteHandle "app.conf" hello 420 0 0 false), a_saved)) as Ef
    by (vm_compute; reflexivity).
  assert (entry_at (tbl (db a_saved)) "app.conf" = (a_entry, true)) as Ee by (vm_compute; reflexivity).
  assert (compatible (tbl (db boot)) (tbl (db a_saved))) as Hc by (apply compatible_check; vm_compute; reflexivity).
  assert (same_writes (tbl (db boot)) (tbl (db a_saved))) as Hs by (apply same_writes_check; vm_compute; reflexivity).
  assert (digests_tell (tbl (db boot)) (tbl (db a_saved))) as Hd by (apply digests_differ; vm_compute; reflexivity).
  assert (not_later (tbl (db boot)) a_entry) as Hn by (apply not_later_check; vm_compute; reflexivity).
  assert (pulled cfgB "n1" (tbl (db a_saved)) boot = (Ok true, b_pulled)) as Ep by (vm_compute; reflexivity).
  destruct (@saved_file_arrives _ _ _ _ unix_works time flat_time (serving (tbl (db a_saved))) (serving_laws _) cfg cfgB open_file _ boot a_saved "n1" "addr" 1 b_disk (Ok true)
    b_pulled a_entry wf_boot eq_refl Ef Ee b_ready Hc Hs Hd Hn Ep b_coherent wf_objs_empty
    (λ e _, room_empty e) (not_elem_of_empty _)) as (m' & _ & Em & at_ & time & c & Ho & Hh & _).
  exact (ex_intro _ m' (conj Em (ex_intro _ at_ (ex_intro _ time (ex_intro _ c (conj Ho Hh)))))).
Defined.

(** ** Removed *)

Definition a_removed : node := (Unlink cfg "" "app.conf" a_saved).2.
Definition a_tombstone : Meta := (entry_at (tbl (db a_removed)) "app.conf").1.
Definition b_again : node := (pulled cfgB "n1" (tbl (db a_removed)) b_pulled).2.

(** The directory of B holds the file. *)
Definition b_written : mirror :=
  mkMirror b_pulled (mkDisk {[ ["app.conf"%string] := File (mkPerms 420 0 0) 3000 hello ]} 0) true false ∅.

Lemma wf_objs_written : wf_objs (objs (mi_disk b_written)).
Proof.
  intros k o E. change (({[ ["app.conf"%string] := File (mkPerms 420 0 0) 3000 hello ]} : gmap key obj) !! k = Some o) in E.
  apply lookup_singleton_Some in E as [<- <-]. split_and!; [done| |].
  - apply (bool_decide_unpack _). vm_compute. exact I.
  - intros a b Ek Ha Hb. destruct a as [|x [|y a]], b; try done; simpl in Ek; congruence.
Qed.

Lemma removed_file_leaves_witness : ∃ m',
  render (with_node b_again b_written) = (Ok tt, m') ∧
  ∀ at_ time c, objs (mi_disk m') !! ["app.conf"%string] ≠ Some (File at_ time c).
Proof.
  assert (Unlink cfg "" "app.conf" a_saved = (Done tt, a_removed)) as Eu by (vm_compute; reflexivity).
  assert (entry_at (tbl (db a_removed)) "app.conf" = (a_tombstone, true)) as Ee by (vm_compute; reflexivity).
  assert (wf_store (tbl (db a_removed))) as Wa.
  { assert (tbl (db a_removed) = tbl (db (run [write1; EDelete "app.conf"]))) as -> by (vm_compute; reflexivity).
    apply wf_run. }
  assert (compatible (tbl (db b_pulled)) (tbl (db a_removed))) as Hc by (apply compatible_check; vm_compute; reflexivity).
  assert (same_writes (tbl (db b_pulled)) (tbl (db a_removed))) as Hs by (apply same_writes_check; vm_compute; reflexivity).
  assert (digests_tell (tbl (db b_pulled)) (tbl (db a_removed))) as Hd by (apply digests_differ; vm_compute; reflexivity).
  assert (not_later (tbl (db b_pulled)) a_tombstone) as Hn by (apply not_later_check; vm_compute; reflexivity).
  assert (pulled cfgB "n1" (tbl (db a_removed)) b_pulled = (Ok true, b_again)) as Ep by (vm_compute; reflexivity).
  assert (covers (clock b_pulled) (tbl (db b_pulled))) as Cb by (apply covers_check; vm_compute; reflexivity).
  assert (can_pull cfgB "n1" (tbl (db a_removed)) b_pulled = true) as K by (vm_compute; reflexivity).
  pose proof (can_pull_ready cfgB "n1" (tbl (db a_removed)) b_pulled (proj1 Wa) wf_pulled Cb K) as R.
  assert (wf_store (tbl (db b_again))) as Wb.
  { destruct (@ready_pull _ _ flat_time (serving (tbl (db a_removed))) (serving_laws _) _ _ _ _ _ _ R) as (b1 & E1 & Wb & _).
    unfold b_again, pulled. rewrite E1. exact Wb. }
  assert (select_live (tbl (db b_again)) = []) as El by (vm_compute; reflexivity).
  assert (Str.has_prefix tmpPrefix (Pkg.Base (child "" "app.conf")) = false) as Hb by (vm_compute; reflexivity).
  destruct (@removed_file_leaves _ _ _ _ unix_works time flat_time (serving (tbl (db a_removed))) (serving_laws _) cfg cfgB
    "" "app.conf" a_saved a_removed "n1" "addr" 1 b_written (Ok true) b_again a_tombstone wf_saved Eu Ee R Hc Hs Hd Hn Ep
    (coherent_none _ (proj1 Wb) El) wf_objs_written
    (λ e He, False_ind _ (none_live _ e (proj1 Wb) El He)) (not_elem_of_empty _) Hb) as (m' & _ & Em & Hgone).
  exact (ex_intro _ m' (conj Em Hgone)).
Defined.
End runs.
