(* ===== verification/WireRuns.v ===== *)
(** * A pull over the wire, run

    A server whose tree holds one file, a client that pulls from it, and implementations of the interfaces between them
    that keep their laws: a router, encodings of the documents, a random source. *)
From S2P Require Import Prelude GoStrings Clock Paths Crypto Aead Auth Entry Store StoreFacts Transport Cluster Client Resolve Syncer SyncerFacts AntiEntropy AntiFacts Pages Convergence Wire Service Status Hazards Witnesses.
From Stdlib Require Import Ascii.

Import Demo.
#[local] Existing Instances aes aes_laws.

(** ** The router *)

Fixpoint strip (p s : string) : option string :=
  match p, s with
  | EmptyString, _ => Some s
  | String a p', String b s' => if Ascii.eqb a b then strip p' s' else None
  | _, _ => None
  end.
Lemma strip_app p s : strip p (p +:+ s) = Some s.
Proof. induction p as [|a p IH]; [done|]. simpl. by rewrite Ascii.eqb_refl. Qed.

Definition manifest_prefix : string := "/v1/manifest?since=".
Definition blob_prefix : string := "/v1/blob/".

#[local] Instance router : Router := λ uri,
  if String.eqb uri digest_path then Some Rdigest
  else if String.eqb uri status_path then Some Rstatus
  else match strip manifest_prefix uri with
       | Some since => Some (Rmanifest since)
       | None => match strip blob_prefix uri with Some h => Some (Rblob h) | None => None end
       end.
#[local] Instance router_laws : RouterLaws.
Proof.
  split; [done| | |done].
  - intros n. unfold route_of, router, manifest_path. fold manifest_prefix. by rewrite strip_app.
  - intros h _. unfold route_of, router, blob_path. fold blob_prefix. by rewrite strip_app.
Qed.

(** ** The encodings *)

(** One digest, encoded as nothing. *)
Definition one_digest (doc : DigestResponse) : Codec DigestResponse := {|
  Marshal v := if decide (d_Digest v = d_Digest doc ∧ d_Entries v = d_Entries doc ∧ d_Head v = d_Head doc) then Ok [] else Err ErrParse;
  Unmarshal _ := Ok doc |}.
Lemma one_digest_laws doc : @CodecLaws _ (one_digest doc) _.
Proof.
  intros [a b h] w _. destruct doc as [a' b' h']. unfold Marshal, Unmarshal, one_digest. cbn [d_Digest d_Entries d_Head].
  case_decide as E; [|done]. by destruct E as (-> & -> & ->).
Qed.

(** A number in binary. *)
Fixpoint pos_bytes (p : positive) : bytes :=
  match p with xH => [] | xO p => Byte.x00 :: pos_bytes p | xI p => Byte.x01 :: pos_bytes p end.
Fixpoint bytes_pos (b : bytes) : positive :=
  match b with [] => xH | Byte.x00 :: b => xO (bytes_pos b) | _ :: b => xI (bytes_pos b) end.
Lemma bytes_pos_bytes p : bytes_pos (pos_bytes p) = p.
Proof. induction p as [p IH|p IH|]; simpl; by rewrite ?IH. Qed.
Lemma pos_bytes_head p b : pos_bytes p ≠ Byte.x02 :: b.
Proof. by destruct p. Qed.
Lemma pos_bytes_length k : ∀ p, Zpos p < 2 ^ Z.of_nat k → (length (pos_bytes p) ≤ k)%nat.
Proof.
  induction k as [|k IH]; intros p Hp; [simpl in Hp; lia|].
  rewrite Nat2Z.inj_succ, Z.pow_succ_r in Hp by lia. destruct p as [p|p|]; simpl; [..|lia];
    apply le_n_S, IH; lia.
Qed.

(** One page with entries, and every empty page by its head. *)
Definition one_page (doc : ManifestResponse) : Codec ManifestResponse := {|
  Marshal v :=
    if decide (m_Entries v = [] ∧ m_More v = false ∧ 0 ≤ m_Head v) then Ok (pos_bytes (Z.to_pos (m_Head v + 1)))
    else if decide (m_Entries v = m_Entries doc ∧ m_More v = m_More doc ∧ m_Head v = m_Head doc) then Ok [Byte.x02]
    else Err ErrParse;
  Unmarshal b := match b with
    | Byte.x02 :: _ => Ok doc
    | _ => Ok (mkManifestResponse [] (Zpos (bytes_pos b) - 1) false)
    end |}.
Lemma one_page_laws doc : @CodecLaws _ (one_page doc) _.
Proof.
  intros [es h more] w _. destruct doc as [es' h' more']. unfold Marshal, Unmarshal, one_page.
  cbn [m_Entries m_More m_Head]. case_decide as E; [|case_decide as E'; [|done]].
  - destruct E as (-> & -> & Hh). intros [= <-].
    assert (∀ p, match pos_bytes p with
      | Byte.x02 :: _ => Ok (mkManifestResponse es' h' more')
      | _ => Ok (mkManifestResponse [] (Zpos (bytes_pos (pos_bytes p)) - 1) false) end =
      Ok (mkManifestResponse [] (Zpos p - 1) false)) as ->.
    { intros p. rewrite bytes_pos_bytes. by destruct p. }
    rewrite Z2Pos.id by lia. do 2 f_equal. lia.
  - destruct E' as (-> & -> & ->). by intros [= <-].
Qed.

(** ** The two processes *)

#[local] Instance twelve : Random := λ _, Ok (replicate 12 Byte.x07).
#[local] Instance twelve_laws : RandomLaws.
Proof. by intros n b [= <-]. Qed.

#[local] Instance digest_codec : Codec DigestResponse := one_digest (digest_doc tp).
#[local] Instance digest_codec_laws : CodecLaws DigestResponse := one_digest_laws _.
#[local] Instance page_codec : Codec ManifestResponse := one_page (manifest_of 0 tp).
#[local] Instance page_codec_laws : CodecLaws ManifestResponse := one_page_laws _.
#[local] Instance no_status : Codec unit := {| Marshal _ := Ok []; Unmarshal _ := Ok tt |}.

Definition puller : Client := mkClient toy_keys "n2" (2 ^ 24).
Definition wire : link := mkLink "10.0.0.1:7947" toy_keys (mret tt) (λ _, mkResponse 404 [])
  (λ i, mkHost (mkDB tp i) i) (λ _, MaxSkew) (λ _, Ok (replicate 12 Byte.x2a)) (λ _, 0).

Lemma wire_connected : connected wire puller tp.
Proof.
  split; cbn [wire puller c_keys l_keys c_node c_maxBody l_server_time l_client_time l_client_rand l_host h_rands h_db tbl].
  - reflexivity.
  - reflexivity.
  - split; [discriminate|reflexivity].
  - unfold max_int64. lia.
  - intros i. unfold is_int64, min_int64, max_int64, MaxSkew. lia.
  - intros i. exists (replicate 12 Byte.x2a). split; reflexivity.
  - intros i. exists (replicate 12 Byte.x07). reflexivity.
  - exact no_fault.
  - apply wf_run.
  - intros i. reflexivity.
Qed.

Lemma page_after since : 1 ≤ since → manifest_of since tp = mkManifestResponse [] since false.
Proof.
  intros Hs. unfold manifest_of, select_since. rewrite rows_tp.
  assert (Seq file1 = 1) as Es by (vm_compute; reflexivity).
  rewrite filter_cons_False by (rewrite Es; lia). reflexivity.
Qed.

Lemma wire_deliverable : deliverable puller tp.
Proof.
  assert (forallb Utf8.ValidString [Path file1; Hash file1; PrevHash file1; Origin (MVersion file1)] = true) as H1
    by (vm_compute; reflexivity).
  assert (bool_decide (map_Forall (λ _ row, (length (b_Data row) <= 100)%nat) (blobs tp)) = true) as H2%bool_decide_eq_true
    by (vm_compute; reflexivity).
  split.
  - intros m Hm. rewrite rows_tp in Hm. apply list_elem_of_singleton in Hm as ->.
    rewrite forallb_forall in H1. apply Forall_forall. intros x Hx%list_elem_of_In. by apply H1.
  - exists []. unfold Marshal, digest_codec, one_digest. rewrite decide_True by (split_and!; reflexivity).
    split; [reflexivity|]. unfold fits. cbn [length puller c_maxBody]. lia.
  - intros since Hs. unfold Marshal, page_codec, one_page, fits. cbn [puller c_maxBody].
    destruct (decide (1 ≤ since)) as [Hge|Hlt].
    + rewrite (page_after since Hge). cbn [m_Entries m_More m_Head]. rewrite decide_True by (split_and!; [reflexivity..|lia]).
      eexists. split; [reflexivity|].
      pose proof (pos_bytes_length 64 (Z.to_pos (since + 1))) as Hl. rewrite Z2Pos.id in Hl by lia.
      unfold max_int64 in Hs. specialize (Hl ltac:(lia)). lia.
    + assert (since = 0) as -> by lia. rewrite decide_False, decide_True.
      * eexists. split; [reflexivity|]. simpl. lia.
      * split_and!; reflexivity.
      * assert (m_Entries (manifest_of 0 tp) = [file1]) as -> by (vm_compute; reflexivity). intros [? _]. discriminate.
  - intros h row Hr. specialize (H2 h row Hr). simpl in H2. unfold fits. cbn [puller c_maxBody]. lia.
Qed.

Lemma tp_acceptable n : 0 ≤ n ≤ 100 → @acceptable tp flat_time cfg 0 n.
Proof.
  intros Hn. assert (bool_decide (map_Forall (λ _ row, (length (b_Data row) <= 10)%nat) (blobs tp)) = true) as H2%bool_decide_eq_true
    by (vm_compute; reflexivity).
  assert (10 ≤ MaxFileSize cfg) as Hm by (vm_compute; discriminate).
  destruct serves_tp as [_ S0 _ S3 _]. split; [exact S0| |].
  - intros m Hin. destruct (S3 m Hin) as (V1 & V2 & V3). split_and!; [exact V1|exact V2|].
    refine (counter_room_le 100 _ _ _ V3). lia.
  - intros h row Hr. specialize (H2 h row Hr). simpl in H2. lia.
Qed.

Lemma syncPeer_over_the_wire_witness :
  ∃ s', @syncPeer _ _ flat_time (@client_peer _ _ (over wire) _ _ puller) cfg 1 "p" "10.0.0.1:7947" boot = (Ok true, s') ∧
    (digest_of (tbl (db boot)) = digest_of tp ∨
     dominates_all (tbl (db s')) tp ∧ bookmark_ok "p" tp (tbl (db s'))).
Proof.
  assert (counter_room (2 * Z.of_nat (length (rows tp))) (clock boot)) as H1 by (vm_compute; split; discriminate).
  assert (local_seq (tbl (db boot)) + 2 * Z.of_nat (length (rows tp)) ≤ max_int64) as H2
    by (vm_compute; discriminate).
  assert (bookmark_ok "p" tp (tbl (db boot))) as H3.
  { intros row Hrow. simpl in Hrow. rewrite lookup_empty in Hrow. discriminate Hrow. }
  assert (length (rows tp) < MaxManifestPage * 1)%nat as H4 by (rewrite rows_tp; unfold MaxManifestPage; simpl; lia).
  assert (@acceptable tp flat_time cfg 0 (2 * Z.of_nat (length (rows tp)))) as H5
    by (apply tp_acceptable; rewrite rows_tp; simpl; lia).
  destruct (@syncPeer_over_the_wire _ _ _ _ _ _ _ _ _ _ _ _ _ _ wire puller tp flat_time cfg "p" boot 1
    wire_connected wire_deliverable H5 wf_boot covers_boot H1 H2 H3 H4) as (s' & E & _ & _ & Hd).
  exact (ex_intro _ s' (conj E Hd)).
Defined.

(** ** The status of the serving node *)

#[local] Instance member_eq_dec : EqDecision StatusMember.
Proof. solve_decision. Defined.
#[local] Instance document_eq_dec : EqDecision StatusDocument.
Proof. solve_decision. Defined.

(** One document, encoded as nothing. *)
Definition one_document (doc : StatusDocument) : Codec StatusDocument := {|
  Marshal v := if decide (v = doc) then Ok [] else Err ErrParse; Unmarshal _ := Ok doc |}.
Lemma one_document_laws doc : @CodecLaws _ (one_document doc) _.
Proof. intros v w _. unfold Marshal, Unmarshal, one_document. by case_decide as E; [subst|]. Qed.
Lemma one_document_Marshal doc : @Marshal _ (one_document doc) doc = Ok [].
Proof. unfold Marshal, one_document. by rewrite decide_True. Qed.

Definition inputs : statusInputs := mkStatusInputs "n1" "10.0.0.1:7947" 0 "/etc/cluster" "".
Definition members : list Member := [mkMember "n1" "10.0.0.1:7947" true; mkMember "n2" "" false].
Definition running_service : service := start_service (mkDB tp 0).
Definition secret : string := "0123456789abcdef0123456789abcdef".
Definition derived : Keys := match DeriveKeys secret with Ok k => k | Err _ => toy_keys end.
Definition reported_doc : StatusDocument := document_of tp inputs members running_service.
#[local] Instance document_codec : Codec StatusDocument := one_document reported_doc.
#[local] Instance document_codec_laws : CodecLaws StatusDocument := one_document_laws _.

Lemma no_peers : peers_keyed tp.
Proof. intros n row Hr. change ((∅ : gmap string peerRow) !! n = Some row) in Hr. by rewrite lookup_empty in Hr. Qed.

Lemma buildStatus_spec_witness :
  let out := buildStatus inputs members running_service in
  match out.1 with Ok doc => documents tp members inputs running_service doc | Err _ => False end.
Proof.
  intros out. destruct (buildStatus_spec inputs members running_service out.1 out.2 (proj1 (wf_run [write1])) no_peers (surjective_pairing _))
    as (_ & _ & _ & [[_ []%no_fault]|(doc & -> & Hd)]). exact Hd.
Defined.

Definition derived_link : link := mkLink "10.0.0.1:7947" derived (host_status inputs members running_service)
  (λ _, mkResponse 404 []) (λ i, mkHost (mkDB tp i) i) (λ _, MaxSkew) (λ _, Ok (replicate 12 Byte.x2a)) (λ _, 0).

Lemma fetchStatus_spec_witness :
  let st := @fetchStatus _ _ (over derived_link) _ secret "n2" 0 "10.0.0.1:7947" in
  ∃ doc, st = Ok doc ∧ documents tp members inputs running_service doc.
Proof.
  assert (DeriveKeys secret = Ok (l_keys derived_link)) as H1 by (vm_compute; reflexivity).
  assert (connected derived_link (mkClient (l_keys derived_link) "n2" manifestOverhead) tp) as H2.
  { split; cbn [derived_link c_keys l_keys c_node c_maxBody l_server_time l_client_time l_client_rand l_host h_rands h_db tbl].
    - reflexivity.
    - vm_compute. reflexivity.
    - split; [discriminate|reflexivity].
    - unfold manifestOverhead, max_int64. lia.
    - intros i. unfold is_int64, min_int64, max_int64, MaxSkew. lia.
    - intros i. exists (replicate 12 Byte.x2a). split; reflexivity.
    - intros i. exists (replicate 12 Byte.x07). reflexivity.
    - exact no_fault.
    - apply wf_run.
    - intros i. reflexivity. }
  assert (forallb Utf8.ValidString (texts reported_doc) = true) as H3 by (vm_compute; reflexivity).
  assert (Forall (λ s, Utf8.ValidString s = true) (texts reported_doc)) as H4.
  { rewrite forallb_forall in H3. apply Forall_forall. intros s Hs%list_elem_of_In. by apply H3. }
  exact (proj1 (fetchStatus_spec derived_link secret "n2" tp inputs members running_service 0 []
    H1 H2 eq_refl no_peers H4 (one_document_Marshal reported_doc) ltac:(discriminate))).
Defined.

Lemma api_read_only_witness :
  let out := Handler toy_keys (host_status inputs members running_service) (λ _, mkResponse 404 []) status_path "" 0 (mkHost (mkDB tp 0) 0) in
  tbl (h_db out.2) = tp.
Proof. intros out. exact (api_read_only _ _ _ _ _ _ _ _ _ out.1 out.2 (surjective_pairing _)). Defined.

Lemma humanBytes_spec_witness : ∃ k c t, String.get (Z.to_nat k) "KMGTPE" = Some c ∧
  humanBytes 1048575 = Some (Dec.fmt_d (t / 10) +:+ "." +:+ Dec.fmt_d (t mod 10) +:+ " " +:+ String c "iB") ∧ 10 ≤ t ≤ 10240.
Proof.
  destruct (humanBytes_spec 1048575) as (k & c & t & Ec & _ & _ & E & Ht & _); [split; discriminate|].
  exists k, c, t. exact (conj Ec (conj E Ht)).
Defined.
