(* ===== verification/FleetRuns.v ===== *)
(** * A run of a fleet

    Three nodes that edit, gossip, pull and restart, stepped by the executable form of the machine, and the theorems on
    fleets at the state it ends in. *)
From S2P Require Import Prelude GoStrings Clock Paths Crypto Entry Store StoreFacts Transport Cluster Client Resolve Syncer SyncerFacts AntiEntropy AntiFacts Pages Convergence Exchange Service Advance Bookmarks Fleet PullEnds Restarts FleetFacts Hazards Witnesses ExchangeRuns.

Import Demo.

(** ** The side conditions, decided *)

(** A system clock that moves on with every reading, a hundred times. *)
Definition stepping : SystemTime := λ n, 2000 + 10 * Z.of_nat (Nat.min n 100).

Definition on_time (m : Meta) : bool := (0 <=? Wall (HLC (MVersion m))) && (Wall (HLC (MVersion m)) <=? 3000).

Lemma on_time_ok n m : on_time m = true → ¬ @drifted stepping n m.
Proof.
  unfold on_time. rewrite andb_true_iff, !Z.leb_le. intros [H0 H1] Hd. unfold drifted in Hd.
  change (@time_now stepping n) with (2000 + 10 * Z.of_nat (Nat.min n 100)) in Hd.
  rewrite wrap64_id in Hd by (unfold is_int64, min_int64, max_int64; lia). unfold MaxClockDrift in Hd. lia.
Qed.

Definition room (n : Z) (c : Timestamp) : bool := (0 <=? Counter c) && (Counter c <=? max_uint32 - n).

Lemma room_ok n c : room n c = true → counter_room n c.
Proof. unfold room, counter_room. rewrite andb_true_iff, !Z.leb_le. lia. Qed.

Definition page_fits (ms : list Meta) (c : Timestamp) : bool :=
  let n := 2 * Z.of_nat (length ms) in room n c && forallb (λ m, room n (HLC (MVersion m))) ms.

Definition next_fits (c : Timestamp) (g : goroutine) : bool :=
  match g_state g with PApply page _ => page_fits (m_Entries page) c && forallb on_time (m_Entries page) | _ => true end.

Lemma next_fits_ok c g s s' : next_fits c g = true → pull_room (g_state g) c ∧ @timely stepping (g_state g) s s'.
Proof.
  unfold next_fits, pull_room, timely. destruct (g_state g); try done. unfold page_fits. rewrite !andb_true_iff. intros [[Hc Hm] Ht].
  split; [|intros m Hin%list_elem_of_In (n & _ & Hd); rewrite forallb_forall in Ht; by apply (on_time_ok n m); [apply Ht|]].
  split; [by apply room_ok|]. rewrite Forall_forall. intros m Hin. apply room_ok.
  rewrite forallb_forall in Hm. apply Hm. by apply list_elem_of_In.
Qed.

Definition last_or_whole (g : goroutine) : bool :=
  match g_state g with PRecord page bookmark => negb (m_More page) || (m_Head page <=? bookmark) | _ => true end.

Definition keepsb (t t' : tables) : bool :=
  forallb (λ kr, match entries t' !! kr.1 with Some _ => true | None => false end) (map_to_list (entries t)).

Definition calmb (x y : service) : bool :=
  room 1 (clock (sv_node x)) && forallb (next_fits (clock (sv_node x))) (pulls x) &&
  keepsb (tables_of x) (tables_of y) && forallb last_or_whole (pulls y).

Lemma calmb_ok x y : calmb x y = true → @calm stepping x y.
Proof.
  unfold calmb. rewrite !andb_true_iff, !forallb_forall. intros (((Hc & Hg) & Hk) & Hl). split.
  - by apply room_ok.
  - intros g Hin%list_elem_of_In%Hg. exact (proj1 (next_fits_ok _ _ (sv_node x) (sv_node y) Hin)).
  - intros g Hin%list_elem_of_In%Hg _. by apply (next_fits_ok _ _ (sv_node x) (sv_node y)) in Hin as [_ Ht].
  - intros p [r Hr]. unfold keepsb in Hk. rewrite forallb_forall in Hk. specialize (Hk (p, r)).
    destruct (entries (tables_of y) !! p) as [r'|] eqn:E; [by exists r'|].
    cbn [fst] in Hk. rewrite E in Hk. discriminate Hk. apply list_elem_of_In. by apply elem_of_map_to_list.
  - intros g Hin%list_elem_of_In%Hl. unfold last_or_whole in Hin. unfold undeferred. destruct (g_state g); try done.
    intros Hm. rewrite Hm in Hin. cbn [negb orb] in Hin. by apply Z.leb_le.
Qed.

(** ** The nodes *)

Definition cfg_of (i : string) : Config := mkConfig i 16 1000 true.
Definition sites (i : string) : site := mkSite (cfg_of i) (λ _, false) stepping.

(** The addresses are the names. *)
Definition who (addr : string) : string := addr.

Definition addressedb (F : gmap string service) (x : service) : bool :=
  forallb (λ g, String.eqb (g_addr g) (g_node g) && match F !! g_node g with Some _ => true | None => false end) (pulls x).

Lemma addressedb_ok F x : addressedb F x = true → addressed who F x.
Proof.
  unfold addressedb. rewrite forallb_forall. intros Hb g Hg%list_elem_of_In%Hb.
  apply andb_true_iff in Hg as [E%String.eqb_eq Hn]. split; [done|]. destruct (F !! g_node g); [by eexists|done].
Qed.

Definition caught_upb (x : service) : bool :=
  Z.max 0 (Wall (clock (sv_node x))) + 1 <? @time_now stepping (ticks (sv_node x)).

Lemma caught_upb_ok x : caught_upb x = true → @caught_up stepping x.
Proof. unfold caught_upb, caught_up, time_now, stepping. rewrite Z.ltb_lt. intros Ht n Hn. lia. Qed.

(** The trees of the run, which digests tell apart. *)
Section run.
Context (trees : list tables).

Definition occurs (t : tables) : Prop := digested_tree t ∈ digested_tree <$> trees.

(** An action of a node, or that it restarts. *)
Definition take_step (F : gmap string service) (ia : string * option service_act) : option (gmap string service) :=
  match F !! ia.1, ia.2 with
  | Some x, Some a =>
      match @perform (λ _, false) _ stepping (network who (λ _, false) F) (cfg_of ia.1) a x with
      | Some y => if calmb x y && addressedb F y && bool_decide (occurs (tables_of y)) then Some (<[ia.1 := y]> F) else None
      | None => None
      end
  | Some x, None => if caught_upb x then Some (<[ia.1 := rebooted x]> F) else None
  | None, _ => None
  end.

Fixpoint take_steps (F : gmap string service) (l : list (string * option service_act)) : option (gmap string service) :=
  match l with
  | [] => Some F
  | ia :: l' => match take_step F ia with Some F' => take_steps F' l' | None => None end
  end.

Lemma take_step_ok F ia F' : take_step F ia = Some F' → live_step sites who occurs F F'.
Proof.
  destruct ia as [i a]. unfold take_step. cbn [fst snd]. destruct (F !! i) as [x|] eqn:Ex; [|done]. destruct a as [a|].
  - destruct (perform (cfg_of i) a x) as [y|] eqn:Ey; [|done].
    destruct (calmb x y && addressedb F y && bool_decide (occurs (tables_of y))) eqn:Eb; [|done].
    intros E. apply (inj Some) in E as <-. apply andb_true_iff in Eb as [[Hc Ha]%andb_true_iff Ho]. apply live_goes.
    apply (fleet_at sites who occurs F (λ _, false) i x y Ex); [|by apply calmb_ok|by apply addressedb_ok|by apply bool_decide_eq_true in Ho].
    apply perform_step. by exists a.
  - destruct (caught_upb x) eqn:Et; [|done]. intros E. apply (inj Some) in E as <-.
    apply live_restarts; [done|by apply caught_upb_ok].
Qed.

Lemma take_steps_ok l : ∀ F F', take_steps F l = Some F' → rtc (live_step sites who occurs) F F'.
Proof.
  induction l as [|ia l IH]; intros F F'; cbn [take_steps].
  - intros E. apply (inj Some) in E as <-. done.
  - destruct (take_step F ia) as [F1|] eqn:E1; [|done]. intros E. eapply rtc_l; [by eapply take_step_ok|by apply IH].
Qed.

Hypothesis sound : Forall wf_tables trees.

Definition told_apart : bool :=
  let ds := (λ t, (digest_of t, digested_tree t)) <$> trees in
  forallb (λ d1, forallb (λ d2, negb (String.eqb d1.1 d2.1) || bool_decide (d1.2 = d2.2)) ds) ds.

Lemma occurs_tells : told_apart = true → ∀ t1 t2, wf_tables t1 → wf_tables t2 → occurs t1 → occurs t2 → digests_tell t1 t2.
Proof.
  intros Hb t1 t2 Hw1 Hw2 (u1 & E1 & Hu1)%list_elem_of_fmap (u2 & E2 & Hu2)%list_elem_of_fmap Ed.
  pose proof sound as Hs. rewrite Forall_forall in Hs. pose proof (Hs _ Hu1) as Wu1. pose proof (Hs _ Hu2) as Wu2.
  unfold told_apart in Hb. rewrite forallb_forall in Hb.
  apply (list_elem_of_fmap_2 (λ t, (digest_of t, digested_tree t))), list_elem_of_In, Hb in Hu1.
  rewrite forallb_forall in Hu1.
  apply (list_elem_of_fmap_2 (λ t, (digest_of t, digested_tree t))), list_elem_of_In, Hu1 in Hu2. cbn [fst snd] in Hu2.
  rewrite (digest_of_tree u1 t1) in Hu2 by done. rewrite (digest_of_tree u2 t2) in Hu2 by done.
  rewrite Ed, String.eqb_refl in Hu2. cbn [negb orb] in Hu2.
  apply bool_decide_eq_true in Hu2. congruence.
Qed.
End run.

(** Node [i] can take what the tables hold. *)
Definition takesb (i : string) (x : service) (tp : tables) : bool :=
  let n := 2 * Z.of_nat (length (rows tp)) in
  forallb (λ m, is_Ok (@validate (cfg_of i) m) && on_time m &&
    room n (HLC (MVersion m))) (rows tp) &&
  forallb (λ hb, Z.of_nat (length (b_Data hb.2)) <=? 16) (map_to_list (blobs tp)) &&
  room n (clock (sv_node x)) && (local_seq (tables_of x) + n <=? max_int64) && (local_seq tp <=? max_int64).

Lemma takesb_ok i x tp : takesb i x tp = true → takes sites i x tp.
Proof.
  unfold takesb. rewrite !andb_true_iff, !Z.leb_le, !forallb_forall. intros ((((Hm & Hb) & Hc) & Hs) & Hh).
  split; [|intros h b Hhb|by apply room_ok|done|done].
  - intros m Hin%list_elem_of_In%Hm. rewrite !andb_true_iff in Hin. destruct Hin as ((Hv & Ht) & Hr). split_and!.
    + unfold sites. cbn [st_cfg]. by destruct (validate (cfg_of i) m) as [[]|].
    + intros n _. by apply (on_time_ok n m).
    + by apply room_ok.
  - specialize (Hb (h, b)). cbn [snd] in Hb. unfold sites, cfg_of. cbn [st_cfg MaxFileSize]. apply Z.leb_le, Hb, list_elem_of_In.
    by apply elem_of_map_to_list.
Qed.

Lemma fits_page t : (length (rows t) <=? 10)%nat = true → (length (rows t) < MaxManifestPage * 1)%nat.
Proof. rewrite Nat.leb_le. assert (MaxManifestPage = 2000)%nat as -> by done. lia. Qed.

(** ** The run: n1 writes, n2 hears of n1 and pulls, n1 restarts, and all go on editing *)

Definition newborn : service := start_service (mkDB empty_tables 0).
Definition F0 : gmap string service := {[ "n1" := newborn; "n2" := newborn; "n3" := newborn ]}.

Definition hears : list (string * option service_act) :=
  [("n1", Some (AEdit write1)); ("n2", Some (AEvent (mkEvent EventJoin "n1" "n1" 0)))].
Definition pulls_all : list (string * option service_act) := replicate 6 ("n2"%string, Some (APull 0)).
Definition logs : list (string * option service_act) := [("n2", Some (ARecord 0 false)); ("n2", Some (AExit 0)); ("n1", None)].
Definition edits : list (string * option service_act) :=
  [("n1", Some (AEdit (EPutDir "etc" 493 0 0))); ("n2", Some (AEdit (EPutFile "db.conf" hello 420 0 0)));
   ("n3", Some (AEdit (EPutDir "srv" 493 0 0)))].
Definition script : list (string * option service_act) := hears ++ pulls_all ++ logs ++ edits.

(** The states the actions lead to, side conditions aside. *)
Definition play (F : gmap string service) (ia : string * option service_act) : gmap string service :=
  match F !! ia.1, ia.2 with
  | Some x, Some a =>
      match @perform (λ _, false) _ stepping (network who (λ _, false) F) (cfg_of ia.1) a x with
      | Some y => <[ia.1 := y]> F
      | None => F
      end
  | Some x, None => <[ia.1 := rebooted x]> F
  | None, _ => F
  end.

Definition at_node (F : gmap string service) (i : string) : service := default newborn (F !! i).
Definition after (k : nat) : gmap string service := foldl play F0 (take k script).

(** The trees that occur, as tables of their own. *)
Definition rebuilt (t : tables) : tables := applied (rows t) empty_tables.
Definition trees : list tables :=
  [empty_tables; rebuilt (tables_of (at_node (after 1) "n1")); rebuilt (tables_of (at_node (after 14) "n1"));
   rebuilt (tables_of (at_node (after 14) "n2")); rebuilt (tables_of (at_node (after 14) "n3"))].

Definition F1 : gmap string service := default ∅ (take_steps trees F0 script).
Definition n1 : service := at_node F1 "n1".
Definition n2 : service := at_node F1 "n2".
Definition n3 : service := at_node F1 "n3".

(** What a node has after one pull from the fleet as it stands then. *)
Definition pulled_from (j : string) (x : service) : result bool * node :=
  @syncPeer (λ _, false) _ stepping (network who (λ _, false) F1) (cfg_of "n2") 1 j j (sv_node x).

(** n2 pulls from n1 and n3. *)
Definition n2_a : service := set_node (pulled_from "n1" n2).2 n2.
Definition n2_b : service := set_node (pulled_from "n3" n2_a).2 n2_a.

(** After five actions n2 has compared the digests. *)
Definition Fm : gmap string service := default ∅ (take_steps trees F0 (take 5 script)).
Definition n2_m : service := at_node Fm "n2".
Definition in_flight : goroutine := mkGo "n1" "n1" (PFetch 0 0).

(** ** What is computed *)

Definition some {A} (o : option A) : bool := match o with Some _ => true | None => false end.
Definition ended (r : result bool * node) : bool := match r.1 with Ok b => b | Err _ => false end.
Definition differ (t t' : tables) : bool := negb (String.eqb (digest_of t) (digest_of t')).
Definition small (t : tables) : bool := (length (rows t) <=? 10)%nat.
Definition only_fetch (l : list goroutine) : bool :=
  match l with
  | [g] => String.eqb (g_node g) "n1" && String.eqb (g_addr g) "n1" &&
           match g_state g with PFetch c b => (c =? 0) && (b =? 0) | _ => false end
  | _ => false
  end.

(** The run, the round and the pull in flight, computed once. *)
Lemma computed :
  told_apart trees &&
  (some (take_steps trees F0 script) && (some (take_steps trees F0 (take 5 script)) &&
  (some (F1 !! "n1"%string) && (some (F1 !! "n2"%string) && (some (F1 !! "n3"%string) && (some (Fm !! "n2"%string) &&
  (match peers (tables_of n2) !! "n1"%string with Some row => p_LastSeq row =? 1 | None => false end &&
  (takesb "n2" n2 (tables_of n1) && (takesb "n2" n2_a (tables_of n3) && (takesb "n1" n1 (tables_of n2_b) &&
  (small (tables_of n1) && (small (tables_of n3) && (small (tables_of n2_b) &&
  (differ (tables_of n2) (tables_of n1) && (differ (tables_of n2_a) (tables_of n3) &&
  (ended (pulled_from "n1" n2) && (ended (pulled_from "n3" n2_a) &&
  (same_writesb (tables_of n1) (tables_of n2_b) && (no_conflict (tables_of n1) (tables_of n2_b) &&
  (only_fetch (pulls n2_m) &&
   bool_decide (Path <$> select_all (tables_of n2_b) = ["app.conf"; "db.conf"; "etc"; "srv"]%string))))))))))))))))))))) = true.
Proof. vm_compute. reflexivity. Qed.

(** Takes apart what was computed, without computing it again. *)
Ltac facts :=
  pose proof computed as Cp;
  apply andb_prop in Cp as [Ctold Cp]; apply andb_prop in Cp as [Crun Cp]; apply andb_prop in Cp as [Cm Cp];
  apply andb_prop in Cp as [Cn1 Cp]; apply andb_prop in Cp as [Cn2 Cp]; apply andb_prop in Cp as [Cn3 Cp];
  apply andb_prop in Cp as [Cm2 Cp]; apply andb_prop in Cp as [Cmark Cp]; apply andb_prop in Cp as [Ct1 Cp];
  apply andb_prop in Cp as [Ct2 Cp]; apply andb_prop in Cp as [Ct3 Cp]; apply andb_prop in Cp as [Cs1 Cp];
  apply andb_prop in Cp as [Cs3 Cp]; apply andb_prop in Cp as [Cs2 Cp]; apply andb_prop in Cp as [Cd1 Cp];
  apply andb_prop in Cp as [Cd2 Cp]; apply andb_prop in Cp as [Ce1 Cp]; apply andb_prop in Cp as [Ce2 Cp];
  apply andb_prop in Cp as [Cw Cp]; apply andb_prop in Cp as [Cc Cp]; apply andb_prop in Cp as [Cf Cp].

Lemma some_ok {A} (o : option A) : some o = true → is_Some o.
Proof. destruct o; [by eexists|done]. Qed.

Lemma ended_ok r : ended r = true → r = (Ok true, r.2).
Proof. destruct r as [[[]|] s]; done. Qed.

Lemma differ_ok t t' : differ t t' = true → digests_tell t t'.
Proof. unfold differ. intros Hd%negb_true_iff. by apply digests_differ. Qed.

Lemma only_fetch_ok l : only_fetch l = true → l = [in_flight].
Proof.
  unfold only_fetch. destruct l as [|[nd addr ps] [|]]; try done. cbn [g_node g_addr g_state].
  rewrite !andb_true_iff. intros [[->%String.eqb_eq ->%String.eqb_eq] Hf]. destruct ps; try done.
  apply andb_true_iff in Hf as [->%Z.eqb_eq ->%Z.eqb_eq]. done.
Qed.

Lemma at_node_Some F i : some (F !! i) = true → F !! i = Some (at_node F i).
Proof. intros [y Hy]%some_ok. unfold at_node. by rewrite Hy. Qed.

Lemma steps_default l F : some (take_steps trees F l) = true → rtc (live_step sites who (occurs trees)) F (default ∅ (take_steps trees F l)).
Proof. intros [F' E]%some_ok. rewrite E. by eapply take_steps_ok. Qed.

Lemma trees_tell t1 t2 : wf_tables t1 → wf_tables t2 → occurs trees t1 → occurs trees t2 → digests_tell t1 t2.
Proof.
  facts. intros Hw1 Hw2. apply occurs_tells; [|exact Ctold|done..].
  repeat (apply Forall_cons; split); [apply wf_empty|apply wf_applied, wf_empty..|by apply Forall_nil].
Qed.

Lemma F0_newborn i x : F0 !! i = Some x → x = newborn.
Proof.
  intros E. unfold F0 in E. apply lookup_insert_Some in E as [[_ <-]|[_ E]]; [done|].
  apply lookup_insert_Some in E as [[_ <-]|[_ E]]; [done|]. by apply lookup_singleton_Some in E as [_ <-].
Qed.

Lemma F0_fresh i x : F0 !! i = Some x → fresh (occurs trees) x.
Proof. intros ->%F0_newborn. split; [apply wf_boot|apply covers_boot|apply list_elem_of_here|done..]. Qed.

Lemma F0_ok i x : F0 !! i = Some x → service_ok (st_cfg (sites i)) x.
Proof. intros ->%F0_newborn. apply service_ok_start, wf_boot. Qed.

Lemma F1_reached : rtc (live_step sites who (occurs trees)) F0 F1.
Proof. facts. exact (steps_default script F0 Crun). Qed.
Lemma Fm_reached : rtc (live_step sites who (occurs trees)) F0 Fm.
Proof. facts. exact (steps_default (take 5 script) F0 Cm). Qed.

Lemma F1_n1 : F1 !! "n1"%string = Some n1.
Proof. facts. exact (at_node_Some F1 "n1" Cn1). Qed.
Lemma F1_n2 : F1 !! "n2"%string = Some n2.
Proof. facts. exact (at_node_Some F1 "n2" Cn2). Qed.
Lemma F1_n3 : F1 !! "n3"%string = Some n3.
Proof. facts. exact (at_node_Some F1 "n3" Cn3). Qed.
Lemma Fm_n2 : Fm !! "n2"%string = Some n2_m.
Proof. facts. exact (at_node_Some Fm "n2" Cm2). Qed.
Lemma n2_not_n1 : "n2"%string ≠ "n1"%string.
Proof. discriminate. Qed.

(** ** The theorems, applied *)



Lemma n2_collects : collects sites who F1 "n2" ["n1"; "n3"]%string n2 n2_b.
Proof.
  facts. apply (collects_cons sites who F1 "n2" "n1" ["n3"%string] n1 "n1" 1 n2 (pulled_from "n1" n2).2);
    [discriminate|by vm_compute; intros ?%list_elem_of_singleton|exact F1_n1|reflexivity|exact (takesb_ok _ _ _ Ct1)
    |exact (fits_page _ Cs1)|exact (differ_ok _ _ Cd1)|exact (ended_ok _ Ce1)|].
  apply (collects_cons sites who F1 "n2" "n3" [] n3 "n3" 1 n2_a (pulled_from "n3" n2_a).2);
    [discriminate|apply not_elem_of_nil|exact F1_n3|reflexivity|exact (takesb_ok _ _ _ Ct2)
    |exact (fits_page _ Cs3)|exact (differ_ok _ _ Cd2)|exact (ended_ok _ Ce2)|apply collects_nil].
Qed.


(** The tree they come to. *)
Example round_run : Path <$> select_all (tables_of n2_b) = ["app.conf"; "db.conf"; "etc"; "srv"]%string.
Proof. facts. exact (proj1 (bool_decide_eq_true _) Cp). Qed.

(** n1 stops answering while n2 asks for a page. *)
Lemma every_pull_ends_witness :
  pulls n2_m = [in_flight] ∧
  ∃ y, rtc (site_step sites who (λ _, true) Fm "n2") n2_m y ∧ pulls y = [] ∧ ¬ "n1"%string ∈ syncing y.
Proof.
  facts. pose proof (only_fetch_ok _ Cf) as E. split; [exact E|].
  destruct (every_pull_ends sites who F0 Fm (λ _, true) "n2" n2_m [] in_flight []
    F0_ok (live_free _ _ _ _ _ Fm_reached) Fm_n2 E) as (y & Hy & Ep & Hout & _).
  exists y. split; [exact Hy|]. split; [exact Ep|exact Hout].
Defined.
