(* ===== verification/FleetHazards.v ===== *)
(** * A fleet that does not agree, for good

    Pulls read a peer's feed behind the bookmark only.  Where two trees differ in entries that both bookmarks have
    passed, no pull ever brings them together; and a tombstone collected before every node has seen it does that. *)
From S2P Require Import Prelude GoStrings Clock Paths Crypto Entry Store StoreFacts Transport Cluster Client Resolve Syncer SyncerFacts Wire AntiEntropy AntiFacts Pages Convergence Exchange Service Advance Bookmarks Fleet Hazards Witnesses ExchangeRuns FleetRuns.

Import Demo.

(** ** Pulls that read nothing *)
Section deaf.
Context `{Sha256, !Sha256Laws} (sites : string → site) (who : string → string) (api : string → string).
Context (known : ∀ i, who (api i) = i).
Implicit Types (F : gmap string service) (x y : service) (t tp : tables).

(** Where the next pull starts to read, the reset to the start included. *)
Definition reads_from (nd : string) tp t : Z :=
  let since := match peers t !! nd with Some row => p_LastSeq row | None => 0 end in
  if d_Head (digest_doc tp) <? since then 0 else since.

(** There is nothing behind the bookmark, yet the trees differ. *)
Definition deaf (nd : string) tp t : Prop := digest_of t ≠ digest_of tp ∧ feed (reads_from nd tp t) tp = [].

(** Node [i] pulls once from node [j], with a database that works and a network that loses nothing. *)
Definition pull_once F (ij : string * string) : gmap string service :=
  match F !! ij.1 with
  | Some x => <[ij.1 := set_node (@syncPeer (λ _, false) _ (st_time (sites ij.1)) (network who (λ _, false) F)
      (st_cfg (sites ij.1)) 1 ij.2 (api ij.2) (sv_node x)).2 x]> F
  | None => F
  end.

Lemma page_empty since tp : feed since tp = [] → m_Entries (manifest_of since tp) = [].
Proof.
  intros E. unfold manifest_of, page_of, select_since. fold (feed since tp). rewrite E. cbn [m_Entries].
  by rewrite !take_nil.
Qed.

Lemma deaf_pull F i j x y :
  F !! i = Some x → F !! j = Some y → deaf j (tables_of y) (tables_of x) →
  ∃ x', pull_once F (i, j) = <[i := x']> F ∧ tables_of x' = tables_of x.
Proof.
  intros Hx Hy [Hd Hf]. unfold pull_once. cbn [fst snd]. rewrite Hx. eexists. split; [reflexivity|].
  cbn [set_node sv_node]. unfold syncPeer, request. unfold mbind, ST_bind.
  assert (∀ {A} k (f : tables → result A), answer who (λ _, false) F k (api j) f = f (tables_of y)) as Hans.
  { intros A k f. unfold answer. by rewrite known, Hy. }
  cbn [network peer_Digest]. rewrite Hans.
  destruct (on_db (@Digest (λ _, false) _) _) as [r1 s1] eqn:E1. apply on_db_inv in E1 as (d1 & E1 & ->).
  apply Digest_inv in E1 as [Ht1 [[_ [n Hn]]| ->]]; [done|]. cbn [set_reqs db] in Ht1. cbv beta iota.
  cbn [set_reqs db]. destruct (String.eqb_spec (digest_of (tables_of x)) (d_Digest (digest_doc (tables_of y)))) as [Ed|_]; [done|].
  destruct (on_db (@PeerSeq (λ _, false) j) _) as [r2 s2] eqn:E2. apply on_db_inv in E2 as (d2 & E2 & ->).
  unfold PeerSeq in E2. apply select_bind_inv in E2 as [(_ & [n Hn] & _)|(d3 & Ht3 & E2)]; [done|]. injection E2 as <- <-.
  cbn [set_db db] in Ht3. rewrite Ht1 in *. cbv beta iota. fold (reads_from j (tables_of y) (tables_of x)).
  cbn [pull]. unfold request, mbind, ST_bind. cbn [network peer_Manifest]. rewrite Hans, page_empty by done. exact Ht3.
Qed.

(** Two nodes that do not hear each other stay apart: however often each pulls from the other, neither tree, nor any bookmark, ever
    changes, and no pull reports an error. *)
Theorem apart_for_good l : ∀ F i j x y,
  i ≠ j → F !! i = Some x → F !! j = Some y →
  deaf j (tables_of y) (tables_of x) → deaf i (tables_of x) (tables_of y) →
  Forall (λ p, p = (i, j) ∨ p = (j, i)) l →
  ∃ x' y', foldl pull_once F l !! i = Some x' ∧ foldl pull_once F l !! j = Some y' ∧
    tables_of x' = tables_of x ∧ tables_of y' = tables_of y ∧ digest_of (tables_of x') ≠ digest_of (tables_of y').
Proof.
  induction l as [|p l IH]; intros F i j x y Hij Hx Hy Dx Dy Hl.
  { exists x, y. split_and!; try done. apply Dx. }
  apply Forall_cons in Hl as [[->| ->] Hl]; cbn [foldl].
  - destruct (deaf_pull F i j x y Hx Hy Dx) as (x1 & -> & E1).
    destruct (IH (<[i := x1]> F) i j x1 y) as (x' & y' & ? & ? & ? & ? & ?); try done.
    + by rewrite lookup_insert_eq.
    + by rewrite lookup_insert_ne.
    + by rewrite E1.
    + by rewrite E1.
    + exists x', y'. split_and!; try done. congruence.
  - destruct (deaf_pull F j i y x Hy Hx Dy) as (y1 & -> & E1).
    destruct (IH (<[j := y1]> F) i j x y1) as (x' & y' & ? & ? & ? & ? & ?); try done.
    + by rewrite lookup_insert_ne.
    + by rewrite lookup_insert_eq.
    + by rewrite E1.
    + by rewrite E1.
    + exists x', y'. split_and!; try done. congruence.
Qed.
End deaf.

(** ** A tombstone collected too early *)

(** n1 writes a file; n2 pulls it, deletes it, and collects the tombstone when its time is up, before n1 has asked. *)
Definition late : SystemTime := λ _, 5000.
Definition api (i : string) : string := i.
Definition writer : service := set_node (@run_edit _ _ stepping (cfg_of "n1") write1 boot).2 newborn.
Definition fetched : service := at_node (pull_once sites who api {[ "n1" := writer; "n2" := newborn ]} ("n2"%string, "n1"%string)) "n2".
Definition removed : service := set_node (@run_edit _ _ stepping (cfg_of "n2") (EDelete "app.conf") (sv_node fetched)).2 fetched.
Definition forgot : service := set_node (@collect _ late (cfg_of "n2") (sv_node removed)).2 removed.

(** Two nodes that do not hear each other, and a path one of them holds. *)
Lemma split_two x y p l :
  String.eqb (digest_of (tables_of x)) (digest_of (tables_of y)) = false →
  feed (reads_from "n2" (tables_of y) (tables_of x)) (tables_of y) = [] →
  feed (reads_from "n1" (tables_of x) (tables_of y)) (tables_of x) = [] →
  bool_decide (is_Some (entries (tables_of x) !! p)) = true → bool_decide (is_Some (entries (tables_of y) !! p)) = false →
  Forall (λ p, p = ("n1", "n2")%string ∨ p = ("n2", "n1")%string) l →
  ∃ x' y', foldl (pull_once sites who api) {[ "n1" := x; "n2" := y ]} l !! "n1"%string = Some x' ∧
    foldl (pull_once sites who api) {[ "n1" := x; "n2" := y ]} l !! "n2"%string = Some y' ∧
    is_Some (entries (tables_of x') !! p) ∧ entries (tables_of y') !! p = None.
Proof.
  intros Hd%String.eqb_neq D1 D2 Hin%bool_decide_eq_true Hout%bool_decide_eq_false Hl.
  destruct (apart_for_good sites who api (λ i, eq_refl) l {[ "n1" := x; "n2" := y ]} "n1" "n2" x y)
    as (x' & y' & Hx & Hy & Ex & Ey & _); [discriminate|apply lookup_insert_eq| |by split|by split|exact Hl|].
  { rewrite lookup_insert_ne by discriminate. apply lookup_singleton_eq. }
  exists x', y'. rewrite Ex, Ey. split_and!; try done. by apply eq_None_not_Some.
Qed.

(** The file stays on n1 and gone on n2, with both databases working and every request answered, however often they pull.  The
    README and the comment of [GCTombstones] say that n1 re-announces the file and the deletion is undone everywhere. *)
Theorem collected_tombstone_splits l :
  Forall (λ p, p = ("n1", "n2")%string ∨ p = ("n2", "n1")%string) l →
  ∃ x y, foldl (pull_once sites who api) {[ "n1" := writer; "n2" := forgot ]} l !! "n1"%string = Some x ∧
    foldl (pull_once sites who api) {[ "n1" := writer; "n2" := forgot ]} l !! "n2"%string = Some y ∧
    is_Some (entries (tables_of x) !! "app.conf"%string) ∧ entries (tables_of y) !! "app.conf"%string = None.
Proof. apply split_two; checked. Qed.
